(* ===== verification/_CoqProject ===== *)
-Q . S2P
Prelude.v
External.v
Xor.v
NodeState.v
NodeStateProps.v
SectionsDag.v
SectionsDagSpec.v
SectionsDagWalk.v
SectionsDagChain.v
SectionsDagSerde.v
SectionsDagProps.v
Sap.v
SectionTree.v
SectionTreeProps.v
MemberHistory.v
MemberHistoryProps.v
NetworkKnowledge.v
NetworkKnowledgeProps.v
Aggregator.v
Keys.v
Register.v
RegisterProps.v
UsedSpace.v
Storage.v
StorageProps.v
Membership.v
MembershipProps.v
Handover.v
Relocation.v
Dkg.v
FaultDetection.v
FaultDetectionProps.v
MyNode.v
NodeDemo.v
HandoverMsgs.v
HandoverProps.v
JoinMsgs.v
JoinProps.v
DkgMsgs.v
DkgProps.v
WireMsg.v
SectionChange.v
SectionChangeProps.v
MemberChange.v
AeMsgs.v
AeProps.v
Dispatch.v
DispatchProps.v
FlowCtrl.v
Comms.v
Fees.v
ClientMsgs.v
ClientMsgsProps.v
ClientSession.v
ClientSessionProps.v
HandleMsg.v
ClientSessionDemo.v
Text.v
SafeUrl.v
SafeUrlProps.v
SafeUrlDemo.v
FilesMap.v
FilesMapProps.v
FilesSync.v
FilesDemo.v
Api.v
ApiProps.v
Nrs.v
NrsProps.v
Resolver.v
ResolverProps.v
FilesContainer.v
FilesContainerProps.v
ApiDemo.v
ClientFiles.v
ClientFilesProps.v
Cache.v
Transfers.v
Wallet.v
CliConfig.v
