(* ===== verification/Prelude.v ===== *)
(** * Safe Network: root of the development

    The Safe Network is a peer-to-peer store.  Its nodes form sections, one per prefix
    of the address space.  The elders of a section share a BLS key and sign with it;
    when the elders change or the section splits, the old key signs the new one, so
    that the section keys form a DAG from the genesis key.  A node keeps the DAG, the
    authority of every section it knows and the members of its own section, and
    updates them from messages of others ("anti-entropy").  Members join and leave by
    votes of the elders.  Each node stores chunks and the commands of registers.

    This library models that core in Rocq and proves what makes it correct.

    ** Files and sources

    Paths are relative to [sn_interface/src] unless they start with another crate.

    - [Prelude]: results with the [?] operator, ordered iteration over maps and sets
      ([BTreeMap], [BTreeSet]), sums over maps, 64-bit wrap-around, tactics and hints.
    - [External]: the crates [blsttc], [crdts] ([MerkleReg]) and [bincode] as classes of
      operations, with the laws the code relies on and instances that satisfy them.
      [Xor]: the same for [xor_name].  [External] ends with the errors of
      [network_knowledge/errors.rs].
    - [SectionsDag]: [network_knowledge/sections_dag.rs], the DAG of section keys.
      [SectionsDagSpec] relates it to a tree of signed keys ([repr]); [SectionsDagWalk]
      (ancestors, verification), [SectionsDagChain] (partial chains, merging) and
      [SectionsDagSerde] (serialisation) prove the operations against that tree;
      [SectionsDagProps] states the properties.
    - [NodeState]: [network_knowledge/node_state/mod.rs], [types/identities/node_id.rs]
      and the section arithmetic of [network_knowledge/mod.rs].
    - [Sap]: [messaging/system/section_sig.rs] and
      [network_knowledge/section_authority_provider.rs].
    - [SectionTree]: [network_knowledge/section_tree/mod.rs].
    - [MemberHistory]: [network_knowledge/section_member_history.rs].
    - [NetworkKnowledge]: [network_knowledge/mod.rs], which composes the section tree,
      the member history and the own authority.
    - [Aggregator]: [messaging/signature_aggregator.rs] (model and properties).
    - [Keys]: [types/keys], [messaging/authority.rs], [types/address].
    - [Register]: [types/register] (policy, CRDT, register).
    - [UsedSpace]: [sn_node/src/storage/used_space.rs] (model and properties).
    - [Storage]: [sn_node/src/storage] (chunks, register logs) and
      [messaging/data/register.rs] (the commands); [StorageProps] has what a holder does
      with the records of spends, which are registers.
    - [Fees]: [types/fees], [op_cost] and [dbcs/reasons.rs] (model and properties).
    - [Membership]: [sn_node/src/node/membership/mod.rs], voting, split and elders.
    - [Handover]: [sn_node/src/node/handover], the votes on the next authority.
    - [Relocation]: [network_knowledge/node_state/relocation.rs] and
      [sn_node/src/node/relocation.rs], triggers, proofs and the choice of nodes.
    - [Dkg]: the rounds of distributed key generation in a node
      ([sn_node/src/node/dkg], over the crate [sn_sdkg]); [FaultDetection]:
      [sn_fault_detection/src], the scores of nodes that miss their duties.
    - [MyNode]: the state of a node, its messages and commands
      ([sn_node/src/node/mod.rs], [messaging/system/mod.rs],
      [sn_node/src/node/flow_ctrl/cmds.rs]), as far as the handlers use them;
      [NodeDemo] has its data store and a concrete node.
    - Handlers of [sn_node/src/node/messaging]: [HandoverMsgs] ([handover.rs],
      [promotion.rs]), [JoinMsgs] ([joining_nodes.rs], [membership.rs], [relocation.rs] and
      the joining side), [DkgMsgs] ([dkg.rs]), [SectionChange] (what a node does with a new
      authority of its section, [node/mod.rs], and the replication of data), [MemberChange]
      (decisions on members, votes to remove nodes) and [AeMsgs] ([anti_entropy.rs]).
      [Dispatch] composes them: [node_msgs.rs], [connectivity.rs] and the command loop of
      [flow_ctrl/dispatcher.rs]; the handler of the messages of clients among them is a part of
      its [World], since [ClientMsgs] has its own record of a node.  [FlowCtrl]: the loops around it and the tasks they spawn, as
      events on channels, the join loop and the periodic checks ([flow_ctrl/mod.rs],
      [cmd_ctrl.rs], [periodic_checks.rs]; model and properties).
    - [Comms]: [sn_comms], the links of a node to others, the tasks that send and their events,
      and the answer to a client from the answers of nodes (model and properties).
    - [WireMsg]: [messaging/serialisation], the bytes of messages.
    - [ClientMsgs]: [messaging/data] and [sn_node/src/node/messaging] ([client_msgs.rs],
      [data.rs]), what elders and holders of data do with the commands and queries of
      clients.  [HandleMsg]: the entry of a message into a node ([messaging/mod.rs]) and
      the way of a spend through it (model and properties).
    - [ClientSession]: [sn_client/src/sessions] and [sn_client/src/api], the sending of commands
      and queries, the tasks that wait for the answers of elders, what a client learns from
      them and its repetitions ([ClientSessionProps]).  A task is a state
      with a step per event.  [ClientSessionDemo] has concrete clients and elders.
    - [ClientFiles]: the files of a client ([sn_client/src/api/file_apis.rs], [data]), cutting
      into chunks, uploads and reads.  Their concurrent tasks are programs of atomic steps under
      a schedule, with their laws and the invariants of batches; [ClientFilesProps] has the
      properties and a concrete network.
    - [Cache]: [types/cache], the timed cache (model and properties).
    - [Transfers]: [sn_client/src/api/transfers], the choice of DBCs with the fees of elders and
      the reissue (model and properties).  [Wallet]: the wallets of the library
      ([sn_api/src/app/wallet.rs]; model, properties and a concrete one).
    - [CliConfig]: [sn_cli/src/operations/config.rs] and [subcommands/networks.rs], the networks
      that the command line knows, as files and hard links (model and properties).
    - [Text]: strings of the standard library, big-endian numbers and media types.
    - [SafeUrl]: [sn_api/src/safeurl], URLs; [SafeUrlDemo] has concrete ones.
    - [FilesMap], [FilesSync]: [sn_api/src/app/files], the files of a container, real
      paths, syncing; [FilesDemo] has concrete ones.
    - [Api]: the calls of the client on registers ([sn_client/src/api/register_apis.rs]) and
      the registers and multimaps of the library ([sn_api/src/app/register.rs],
      [multimap.rs]).  [ApiProps] states what the library expects of a network ([NetLaws]).
      [Nrs]: names ([nrs/mod.rs], [nrs_map.rs]).  [Resolver]: the resolution of URLs
      ([resolver]) and the calls that resolve theirs.  [FilesContainer]: the operations on
      containers in registers ([files/mod.rs]).  [ApiDemo] runs them on a network that
      keeps registers in a map.

    A file [<Component>Props] holds the properties of a component and a module of
    concrete states ([DagDemo], [TreeDemo], ...) at which they are applied.

    ** How the code is translated

    A method with [&mut self] takes the state and returns the new state with the
    method's [Result].  A failing method returns the state it leaves behind, also when
    it failed half way.  A [BTreeMap] is a [gmap] with iteration in key order
    ([bmap_iter]); a [HashMap] whose order is visible to the code is a listing with any
    order.  [None] of a method that the code cannot fail in this way is a panic or,
    for loops, spent fuel.

    Fuel: the loops over the DAG get one unit per Merkle node and one more ([verify],
    [ancestors], [partial_dag], [single_branch]), merging one per node of the other
    DAG, and pruning of the section tree one per bit of the prefix; the handler of
    ephemeral keys calls itself at most once more and gets two.  The theorems on
    these operations state that they return, so the fuel is enough.  Real paths need 17
    rounds, one more than the links allowed; for paths that end in a dot no fuel is enough,
    as a theorem shows.  The resolution of URLs is bounded by its own limit of ten steps; only
    a step with the path of a container takes the fuel of real paths.  The loops of the client
    have the bounds of the code: a spend is sent at most five times and a query once more than
    the attempts it is given.  The levels of data maps of a file take fuel, one unit each; how
    many there are depends on the encryption, and the theorem on uploads takes any fuel with
    which the file is cut and gives that much for the reading.  The loops of a link take fuel for
    their rounds: a request needs one more than there are connections, a plain send has no bound.

    Integers: sizes and counters of stored data and quorums are 64-bit ([wrap64]);
    generations and lengths of in-memory lists are natural numbers.  Floating point in
    the storage level is IEEE double arithmetic.  Atomics are plain state, one
    operation at a time.  Time stamps are arguments.

    ** What the theorems show

    - Section keys: inserting, verifying, merging, extracting chains and serialising
      refine the corresponding operations of a tree of signed keys; every DAG grown by
      the operations verifies, and every loop terminates.
    - Section tree: an accepted update is proven by a chain of signatures from a known
      key, updates are all or nothing for chains from a known key, the known prefixes
      stay an antichain, and a name is found in the one section that covers it.  For
      other chains the update is not safe: two theorems show it.
    - Members: accepted joins keep names and addresses unique and both halves of the
      section below their cap; supermajorities intersect; the relocation check is the
      divisibility it documents; decisions are applied once and in order; a node that
      is behind catches up; archives are pruned to recent keys.
    - Network knowledge: an update changes nothing or keeps all parts consistent.
    - Membership voting: generations are decided in order and never change; voting
      elders and followers agree on the members; splits give two full sections.
    - Handover: failed rounds are numbered without gaps; the checks of a candidate accept
      exactly what the section expects, but a theorem shows that votes are not subject
      to them.
    - Joins and relocations: who is proposed for membership and what is voted and sent then, that relocations keep the
      section large enough and take the oldest nodes, that a batch of votes reports
      every decision; a theorem shows that a relocation proof is not bound to the name
      of the joining node.
    - Key generation: a session gives the same keys to every candidate once all votes are
      in, the handlers terminate, and the sessions of a node stay consistent over all
      commands of its loop.
    - Flow control: whatever the interleaving, the contexts of the loops are past states of the
      node in their order, and a task works on the one that the loop had when it was started,
      possibly later than tasks with newer ones; before a node joins its loop hangs once it has run more commands than a channel
      has places; stalled votes are sent again in time.
    - Communication: a client gets an answer only if enough nodes answered alike; links are not
      shared; a request ends after one attempt per connection, but a plain send may never end.
    - Section changes: after a change of its section a node votes exactly if it is an elder,
      with the new key; data is replicated to the members that lack it.
    - Anti-entropy: a message with outdated knowledge is answered such that its repetition
      is accepted.
    - Fault detection: reported nodes have issues above the mean of their neighbours.
    - Wire messages: what is serialised is read back; headers that panic are characterised.
    - Aggregation: a section signature appears with the share above the threshold, in
      any order of the shares, and verifies under the section key.
    - Registers: replicas converge, writes supersede their children, the policy decides
      access, the limits hold.
    - Storage: accepted edits are authorised and durable, the replay order of a log does
      not matter, stored chunks are read back, space is accounted and levels rise.
    - URLs: printed URLs, but those of spentbooks, are parsed back, the setters keep their parts consistent, setting
      a key of the query changes that key alone.
    - Files: real paths are found in a bounded number of rounds and have no dots and links, if
      targets start with an ASCII character, else the code panics;
      a sync without deletion keeps the files that have no local file; the version that an
      update writes is the one that the next reading gives.
    - Client messages: an elder signs a spend exactly if it is paid, proven and consistent with
      its parents; data goes to the members nearest to its name; the record of a spend is found
      by the query for it while the register has room; a holder answers each error with the response that matches it; a
      message for another name is forwarded to its holders, except a spend, which every elder
      handles itself.
    - Clients: a command succeeds exactly if the answer counted for every elder it was first
      sent to is an acknowledgement, in every order of the answers; a chunk is accepted only for its own name; each task ends after a bounded number of
      events; what a client
      learns stays signed; a repeated query gives the first good answer.
    - Files of clients: in every interleaving of the tasks what was uploaded is read back,
      except a small file whose bytes can be read as those of a data map, which a lemma shows is
      taken for one; and a read gives the file, an error, or, as a theorem shows, the map of a file whose
      chunks are missing.  A timed cache stays within its capacity and keeps the youngest items.
    - Transfers and wallets: the inputs of a transfer are its outputs, the fees and the change;
      a deposited DBC is in the wallet with all that was there before.
    - Networks of the command line: after a sync settings and directory agree; a switch puts the
      contacts of a network into use and keeps those that were, which can undo a renewal.
    - Library: inserting a new entry into a multimap replaces exactly the entries it names; a name gives
      the link it was associated with and the other names keep theirs, except that an
      association written before is lost; resolving a URL is the chain of its steps and
      always returns; a dry run never changes the network.

    ** Not modelled

    The parts that only move bytes or launch programs: the transport [qp2p] below the links
    and the streams ([messaging/streams.rs]), start-up and configuration of a node, the rest of
    the command line, the launchers and tools.  They have no state of the protocol beyond what the handlers above keep.  DBCs and
    their transactions are the crate [sn_dbc], whose code is not in the repository: it is a
    class of operations.  The crates named above are parameters.  Failures of the disk other
    than missing files, logging and the texts of errors are left out. *)

From stdpp Require Export prelude gmap list sorting.

Create HintDb safe.
Create Rewrite HintDb safe.

(** ** Results

    [std::result::Result<A, E>] with the [?] operator as monadic bind. *)

Inductive result (E A : Type) : Type :=
  | Ok (a : A)
  | Err (e : E).
Arguments Ok {E A} a.
Arguments Err {E A} e.

#[export] Instance result_ret {E} : MRet (result E) := @Ok E.
#[export] Instance result_bind {E} : MBind (result E) := λ A B f m,
  match m with Ok a => f a | Err e => Err e end.
#[export] Instance result_fmap {E} : FMap (result E) := λ A B f m,
  match m with Ok a => Ok (f a) | Err e => Err e end.

Definition ok_or {E A} (o : option A) (e : E) : result E A :=
  match o with Some a => Ok a | None => Err e end.
Definition map_err {E F A} (f : E → F) (m : result E A) : result F A :=
  match m with Ok a => Ok a | Err e => Err (f e) end.
Definition is_ok {E A} (m : result E A) : bool :=
  match m with Ok _ => true | Err _ => false end.

#[export] Instance result_eq_dec {E A} `{EqDecision E, EqDecision A} :
  EqDecision (result E A).
Proof. solve_decision. Defined.

Lemma map_err_Ok {F G A} (f : F → G) (r : result F A) a : map_err f r = Ok a ↔ r = Ok a.
Proof. destruct r; cbn; split; congruence. Qed.
Lemma ok_or_Ok {E A} (o : option A) (e : E) a : ok_or o e = Ok a ↔ o = Some a.
Proof. destruct o; split; simpl; intros; simplify_eq; auto. Qed.
Lemma result_bind_Ok {E A B} (f : A → result E B) (m : result E A) b :
  m ≫= f = Ok b ↔ ∃ a, m = Ok a ∧ f a = Ok b.
Proof. destruct m; cbn; split; [by eauto | by intros (? & [= ->] & ?) | done | by intros (? & ? & ?)]. Qed.
Lemma result_fmap_Ok {E A B} (f : A → B) (m : result E A) b :
  f <$> m = Ok b ↔ ∃ a, m = Ok a ∧ b = f a.
Proof. destruct m; cbn; split; [intros [= <-]; eauto | by intros (? & [= ->] & ->) | done | by intros (? & ? & ?)]. Qed.

(** ** Ordered iteration

    [BTreeMap] and [BTreeSet] iterate in the order of [std::cmp::Ord]: the order
    is a class of its own and the iteration of a [gmap] or [gset] sorts by it. *)

Class Ord (K : Type) := {
  ord_le : relation K;
  ord_le_dec :: RelDecision ord_le;
  ord_le_total :: Total ord_le;
  ord_le_trans :: Transitive ord_le;
  ord_le_antisymm :: AntiSymm (=) ord_le;
}.

#[export] Instance ord_le_refl {K} `{Ord K} : Reflexive (ord_le (K := K)).
Proof. intros x. by destruct (total ord_le x x). Qed.

#[export] Instance ord_nat : Ord nat := {| ord_le := le |}.
#[export] Instance ord_Z : Ord Z := {| ord_le := Z.le |}.

#[export] Instance ord_N : Ord N := {| ord_le := N.le |}.

(** Tuples and sequences compare lexicographically. *)
Definition pair_le {A B} `{Ord A, Ord B} : relation (A * B) := λ p q,
  ord_le p.1 q.1 ∧ (ord_le q.1 p.1 → ord_le p.2 q.2).
Fixpoint list_le {A} `{Ord A} (l k : list A) : Prop :=
  match l, k with
  | [], _ => True
  | _ :: _, [] => False
  | x :: l, y :: k => ord_le x y ∧ (ord_le y x → list_le l k)
  end.

#[export] Instance pair_le_dec {A B} `{Ord A, Ord B} : RelDecision (pair_le (A := A) (B := B)).
Proof. intros p q. unfold pair_le. apply _. Defined.
#[export] Instance list_le_dec {A} `{Ord A} : RelDecision (list_le (A := A)).
Proof.
  unfold RelDecision, Decision. intros l. induction l as [|x l IH]; intros [|y k]; cbn; [left; exact I|left; exact I|right; exact (λ f, f)|].
  pose proof (IH k : Decision (list_le l k)).
  exact (decide (ord_le x y ∧ (ord_le y x → list_le l k))).
Defined.

#[export] Instance ord_prod {A B} `{Ord A, Ord B} : Ord (A * B).
Proof.
  refine {| ord_le := pair_le; ord_le_dec := pair_le_dec |}.
  - intros [a b] [a' b']. unfold pair_le. cbn.
    destruct (total ord_le a a'), (total ord_le b b'), (decide (ord_le a a')), (decide (ord_le a' a)); naive_solver.
  - intros [a b] [a' b'] [a'' b'']. unfold pair_le. cbn. intros [H1 H2] [H3 H4]. split; [by etrans|].
    intros H5. etrans; [apply H2; by etrans|apply H4; by etrans].
  - intros [a b] [a' b']. unfold pair_le. cbn. intros [H1 H2] [H3 H4].
    f_equal; apply (anti_symm ord_le); auto.
Defined.

#[export] Instance ord_list {A} `{Ord A} : Ord (list A).
Proof.
  refine {| ord_le := list_le; ord_le_dec := list_le_dec |}.
  - intros l. induction l as [|x l IH]; intros [|y k]; cbn; auto.
    destruct (total ord_le x y), (IH k), (decide (ord_le x y)), (decide (ord_le y x)); naive_solver.
  - intros l. induction l as [|x l IH]; intros [|y k] [|z m]; cbn; try done.
    intros [H1 H2] [H3 H4]. split; [by etrans|]. intros H5. eapply IH; [apply H2; by etrans|apply H4; by etrans].
  - intros l. induction l as [|x l IH]; intros [|y k]; cbn; try done.
    intros [H1 H2] [H3 H4]. f_equal; [by apply (anti_symm ord_le)|auto].
Defined.

(** An order of any countable type, for concrete instances. *)
Definition countable_ord {A} `{Countable A} : Ord A.
Proof.
  refine {| ord_le a b := (encode a ≤ encode b)%positive;
            ord_le_dec a b := Pos.le_dec (encode a) (encode b) |}.
  - intros a b. apply Pos.le_total.
  - intros a b c. apply Pos.le_trans.
  - intros a b ? ?. by apply (inj encode), Pos.le_antisym.
Defined.

Section ordered.
Context {K : Type} `{Countable K} `{!Ord K}.

Definition key_le {V} : relation (K * V) := λ a b, ord_le a.1 b.1.
#[export] Instance key_le_dec {V} : RelDecision (@key_le V).
Proof. intros a b. unfold key_le. apply _. Defined.

Definition bmap_iter {V} (m : gmap K V) : list (K * V) :=
  merge_sort key_le (map_to_list m).
Definition bset_iter (s : gset K) : list K := merge_sort ord_le (elements s).
Definition bmap_values {V} (m : gmap K V) : list V := (bmap_iter m).*2.

Lemma bmap_iter_Permutation {V} (m : gmap K V) : bmap_iter m ≡ₚ map_to_list m.
Proof. apply merge_sort_Permutation. Qed.
Lemma bset_iter_Permutation (s : gset K) : bset_iter s ≡ₚ elements s.
Proof. apply merge_sort_Permutation. Qed.

Lemma elem_of_bmap_iter {V} (m : gmap K V) k v : (k, v) ∈ bmap_iter m ↔ m !! k = Some v.
Proof. by rewrite bmap_iter_Permutation, elem_of_map_to_list. Qed.
Lemma elem_of_bset_iter (s : gset K) k : k ∈ bset_iter s ↔ k ∈ s.
Proof. by rewrite bset_iter_Permutation, elem_of_elements. Qed.
Lemma elem_of_bmap_values {V} (m : gmap K V) v :
  v ∈ bmap_values m ↔ ∃ k, m !! k = Some v.
Proof.
  unfold bmap_values. rewrite list_elem_of_fmap. split.
  - intros ([k' v'] & -> & Hin%elem_of_bmap_iter). eauto.
  - intros [k Hk%elem_of_bmap_iter]. by exists (k, v).
Qed.
Lemma NoDup_bset_iter (s : gset K) : NoDup (bset_iter s).
Proof. rewrite bset_iter_Permutation. apply NoDup_elements. Qed.
Lemma NoDup_bmap_iter {V} (m : gmap K V) : NoDup (bmap_iter m).*1.
Proof. rewrite bmap_iter_Permutation. apply NoDup_fst_map_to_list. Qed.
Lemma bset_iter_empty : bset_iter (∅ : gset K) = [].
Proof. unfold bset_iter. by rewrite elements_empty. Qed.
Lemma bset_iter_singleton k : bset_iter ({[k]} : gset K) = [k].
Proof. unfold bset_iter. by rewrite elements_singleton. Qed.
Lemma length_bset_iter (s : gset K) : length (bset_iter s) = size s.
Proof. by rewrite bset_iter_Permutation. Qed.

#[export] Instance key_le_total {V} : Total (@key_le V).
Proof. intros a b. apply ord_le_total. Qed.
Lemma bset_iter_Sorted (s : gset K) : Sorted ord_le (bset_iter s).
Proof. apply Sorted_merge_sort, _. Qed.
Lemma bmap_iter_Sorted {V} (m : gmap K V) : Sorted key_le (bmap_iter m).
Proof. apply Sorted_merge_sort, _. Qed.
End ordered.

#[export] Hint Rewrite @bset_iter_empty @bset_iter_singleton : safe.

(** ** Sizes of maps and sets *)

Section sizes.
Context {K : Type} `{Countable K}.

Lemma map_size_union_le {V} (m m' : gmap K V) : size (m ∪ m') ≤ size m + size m'.
Proof.
  rewrite <-!(size_dom (D := gset K)), dom_union_L, size_union_alt.
  assert (size (dom m' ∖ dom m) ≤ size (dom m')) by (apply subseteq_size; set_solver). lia.
Qed.
Lemma size_list_to_set_le (l : list K) : size (list_to_set l : gset K) ≤ length l.
Proof.
  induction l as [|x l IH]; cbn [list_to_set length]; [apply Nat.eq_le_incl, size_empty|].
  rewrite size_union_alt, size_singleton.
  assert (size ((list_to_set l : gset K) ∖ {[x]}) ≤ size (list_to_set l : gset K)).
  { apply subseteq_size. set_solver. }
  lia.
Qed.

(** The sum of a measure over the values of a map. *)
Definition map_sum {V} (f : V → nat) (m : gmap K V) : nat := sum_list (f <$> (map_to_list m).*2).

Lemma map_sum_insert_fresh {V} (f : V → nat) (m : gmap K V) k v :
  m !! k = None → map_sum f (<[k := v]> m) = f v + map_sum f m.
Proof. intros Hk. unfold map_sum. by rewrite (map_to_list_insert m k v Hk). Qed.
Lemma map_sum_delete {V} (f : V → nat) (m : gmap K V) k v :
  m !! k = Some v → map_sum f m = f v + map_sum f (delete k m).
Proof.
  intros Hk. rewrite <-(insert_delete_id m k v Hk) at 1. apply map_sum_insert_fresh.
  apply lookup_delete_eq.
Qed.
Lemma map_sum_insert {V} (f : V → nat) (m : gmap K V) k v v' :
  m !! k = Some v → map_sum f (<[k := v']> m) + f v = f v' + map_sum f m.
Proof.
  intros Hk. rewrite <-insert_delete_eq, map_sum_insert_fresh by apply lookup_delete_eq.
  rewrite (map_sum_delete f m k v Hk). lia.
Qed.
End sizes.

(** ** Machine integers *)

(** [usize] and [u64] arithmetic wraps at 64 bits in release builds. *)
Definition wrap64 (z : Z) : Z := z `mod` 2 ^ 64.

Lemma wrap64_small z : (0 ≤ z < 2 ^ 64)%Z → wrap64 z = z.
Proof. intros. by apply Z.mod_small. Qed.

(** ** Iterator adaptors *)

Section iter.
Context {A : Type}.

(** [Iterator::max_by_key] returns the last of several maximal elements. *)
Fixpoint max_by_key_from (f : A → nat) (best : A) (l : list A) : A :=
  match l with
  | [] => best
  | x :: l => max_by_key_from f (if decide (f best ≤ f x) then x else best) l
  end.
Definition max_by_key (f : A → nat) (l : list A) : option A :=
  match l with [] => None | x :: l => Some (max_by_key_from f x l) end.

(** [Iterator::min_by] returns the first of several minimal elements. *)
Fixpoint min_by_from (cmp : A → A → comparison) (best : A) (l : list A) : A :=
  match l with
  | [] => best
  | x :: l => min_by_from cmp (match cmp best x with Gt => x | _ => best end) l
  end.
Definition min_by (cmp : A → A → comparison) (l : list A) : option A :=
  match l with [] => None | x :: l => Some (min_by_from cmp x l) end.

Lemma max_by_key_from_spec f best l :
  max_by_key_from f best l ∈ best :: l ∧
  ∀ x, x ∈ best :: l → f x ≤ f (max_by_key_from f best l).
Proof.
  revert best. induction l as [|y l IH]; intros best; cbn [max_by_key_from].
  { split; [left|]. by intros x ->%list_elem_of_singleton. }
  case_decide as Hle.
  - destruct (IH y) as [Hin Hmax]. split; [by right|].
    intros x [->|[->|Hx]%elem_of_cons]%elem_of_cons.
    + etrans; [exact Hle|]. apply Hmax. left.
    + apply Hmax. left.
    + apply Hmax. by right.
  - destruct (IH best) as [Hin Hmax]. split; [set_solver|].
    intros x [->|[->|Hx]%elem_of_cons]%elem_of_cons.
    + apply Hmax. left.
    + etrans; [|apply Hmax; left]. lia.
    + apply Hmax. by right.
Qed.

Lemma max_by_key_Some f l x :
  max_by_key f l = Some x → x ∈ l ∧ ∀ y, y ∈ l → f y ≤ f x.
Proof. destruct l as [|a l]; [done|]. intros [= <-]. apply max_by_key_from_spec. Qed.
Lemma max_by_key_None f l : max_by_key f l = None ↔ l = [].
Proof. by destruct l. Qed.

Lemma min_by_from_elem cmp best l : min_by_from cmp best l ∈ best :: l.
Proof.
  revert best. induction l as [|y l IH]; intros best; cbn [min_by_from]; [left|].
  specialize (IH (match cmp best y with Gt => y | _ => best end)).
  destruct (cmp best y); set_solver.
Qed.
Lemma min_by_elem cmp l x : min_by cmp l = Some x → x ∈ l.
Proof. destruct l as [|a l]; [done|]. intros [= <-]. apply min_by_from_elem. Qed.
(** [sort_by] and [sorted_by] are stable: equal elements keep their order. *)
Fixpoint stable_insert (le : A → A → bool) (x : A) (l : list A) : list A :=
  match l with
  | [] => [x]
  | y :: l => if le x y then x :: y :: l else y :: stable_insert le x l
  end.
Definition stable_sort (le : A → A → bool) (l : list A) : list A := foldr (stable_insert le) [] l.

Lemma stable_insert_Permutation le x l : stable_insert le x l ≡ₚ x :: l.
Proof.
  induction l as [|y l IH]; simpl; [done|]. destruct (le x y); [done|].
  rewrite IH. apply Permutation_swap.
Qed.
Lemma stable_sort_Permutation le l : stable_sort le l ≡ₚ l.
Proof. induction l as [|x l IH]; simpl; [done|]. by rewrite stable_insert_Permutation, IH. Qed.

Lemma stable_sort_Sorted le l :
  (∀ x y, le x y = true ∨ le y x = true) → Sorted (λ x y, le x y = true) (stable_sort le l).
Proof.
  intros Htot. induction l as [|x l IH]; simpl; [constructor|].
  induction IH as [|y l' Hs IHs Hhd]; simpl; [repeat constructor|].
  destruct (le x y) eqn:Hxy; [repeat constructor; auto|].
  constructor; [done|]. destruct (Htot x y) as [?|Hyx]; [congruence|].
  destruct l' as [|z l']; simpl in *; [by constructor|].
  destruct (le x z); constructor; [done|by inversion Hhd].
Qed.
End iter.

(** ** Integers as bytes

    [to_le_bytes] and [from_le_bytes] of an integer with the given number of bytes. *)

Fixpoint to_le_bytes (len : nat) (z : Z) : list Z :=
  match len with 0 => [] | S len => (z `mod` 256)%Z :: to_le_bytes len (z / 256)%Z end.
Fixpoint from_le_bytes (bs : list Z) : Z :=
  match bs with [] => 0 | b :: bs => b + 256 * from_le_bytes bs end.

Lemma length_to_le_bytes len z : length (to_le_bytes len z) = len.
Proof. revert z. induction len as [|len IH]; intros z; simpl; [done|]. by rewrite IH. Qed.

Lemma from_to_le_bytes len z : (0 ≤ z < 256 ^ Z.of_nat len)%Z → from_le_bytes (to_le_bytes len z) = z.
Proof.
  revert z. induction len as [|len IH]; intros z Hz; simpl.
  { change (256 ^ Z.of_nat 0)%Z with 1%Z in Hz. lia. }
  rewrite Nat2Z.inj_succ, Z.pow_succ_r in Hz by lia.
  rewrite IH; [pose proof (Z.div_mod z 256 ltac:(lia)); lia|].
  split; [apply Z.div_pos; lia|apply Z.div_lt_upper_bound; lia].
Qed.
