(* ===== verification/External.v ===== *)
(** * Interfaces of the third-party crates

    The crates [blsttc] ([bls]), [crdts] ([merkle_reg]) and [bincode] are not part
    of the repository.  Each is a class of operations, a parameter of every
    definition that calls it, with a class of laws that states the documented
    behaviour the code relies on, and a concrete instance that satisfies the laws.
    ([xor_name] is in [Xor], [sn_consensus] in [MemberHistory] and [Membership],
    the signature shares of [blsttc] in [Aggregator] and ed25519 in [Keys].) *)

From S2P Require Import Prelude.

Abbreviation bytes := (list Z).

(** ** bls and bincode

    [bls::PublicKey::verify], the order [bls::PublicKey] derives and
    [bincode::serialize], which may fail. *)

Class Bls := {
  PublicKey : Type;
  pk_eq_dec :: EqDecision PublicKey;
  pk_countable :: Countable PublicKey;
  pk_ord :: Ord PublicKey;
  Signature : Type;
  sig_eq_dec :: EqDecision Signature;
  sig_countable :: Countable Signature;
  pk_verify : PublicKey → Signature → bytes → bool;
  PublicKeySet : Type;
  pks_eq_dec :: EqDecision PublicKeySet;
  pks_countable :: Countable PublicKeySet;
  pks_public_key : PublicKeySet → PublicKey;
}.

(** The threshold part: key shares, their signatures and the combination of shares;
    [pks_threshold] is the degree of the key set. *)
Class BlsShares {B : Bls} := {
  SecretKeyShare : Type;
  SignatureShare : Type;
  sig_share_eq_dec :: EqDecision SignatureShare;
  sig_share_countable :: Countable SignatureShare;
  sk_share_sign : SecretKeyShare → bytes → SignatureShare;
  pks_threshold : PublicKeySet → nat;
  pks_share_verify : PublicKeySet → nat → SignatureShare → bytes → bool;
  pks_combine_signatures : PublicKeySet → list (nat * SignatureShare) → option Signature;
  pk_to_bytes : PublicKey → bytes;
}.

(** More than [threshold] valid shares with distinct indices combine to a valid
    signature, and an index has one valid share per message. *)
Class BlsSharesLaws {B : Bls} {BSh : BlsShares} : Prop := {
  pks_combine_valid (pks : PublicKeySet) (msg : bytes) (l : list (nat * SignatureShare)) :
    NoDup l.*1 → Forall (λ s, pks_share_verify pks s.1 s.2 msg = true) l →
    pks_threshold pks < length l →
    ∃ sig, pks_combine_signatures pks l = Some sig ∧ pk_verify (pks_public_key pks) sig msg = true;
  pks_share_unique (pks : PublicKeySet) (i : nat) (s s' : SignatureShare) (msg : bytes) :
    pks_share_verify pks i s msg = true → pks_share_verify pks i s' msg = true → s = s';
  pk_to_bytes_inj : Inj (=) (=) pk_to_bytes;
  pk_to_bytes_length (k k' : PublicKey) : length (pk_to_bytes k) = length (pk_to_bytes k');
}.

Class Bincode (T : Type) := bincode_serialize : T → option bytes.

(** [rmp_serde]: encoding may fail, decoding refuses other bytes. *)
Class Rmp (T : Type) := {
  rmp_encode : T → option bytes;
  rmp_decode : bytes → option T;
}.
Class RmpLaws (T : Type) `{!Rmp T} : Prop :=
  rmp_decode_encode (x : T) (bs : bytes) : rmp_encode x = Some bs → rmp_decode bs = Some x.

(** ** crdts::merkle_reg

    A [Node] has public fields; a [MerkleReg] is opaque.  [mr_dag] and [mr_orphans]
    are its specification view: the nodes whose children are all known, and the
    nodes that wait for a child. A [Content] is a list of hash-node pairs. *)

Record Node (H T : Type) `{Countable H} := mkNode {
  node_value : T;
  node_children : gset H;
}.
Arguments mkNode {H T _ _} _ _.
Arguments node_value {H T _ _} _.
Arguments node_children {H T _ _} _.

#[export] Instance node_eq_dec {H T : Type} `{Countable H, EqDecision T} : EqDecision (Node H T).
Proof. solve_decision. Defined.

Class Merkle (T : Type) := {
  Hash : Type;
  hash_eq_dec :: EqDecision Hash;
  hash_countable :: Countable Hash;
  node_hash : Node Hash T → Hash;
  MerkleReg : Type;
  mr_new : MerkleReg;
  mr_write : MerkleReg → T → gset Hash → Node Hash T;
  mr_apply : MerkleReg → Node Hash T → MerkleReg;
  mr_node : MerkleReg → Hash → option (Node Hash T);
  mr_read : MerkleReg → list (Hash * Node Hash T);
  mr_children : MerkleReg → Hash → list (Hash * Node Hash T);
  mr_parents : MerkleReg → Hash → list (Hash * Node Hash T);
  mr_all_nodes : MerkleReg → list (Node Hash T);
  mr_num_nodes : MerkleReg → nat;
  mr_num_orphans : MerkleReg → nat;
  mr_dag : MerkleReg → gmap Hash (Node Hash T);
  mr_orphans : MerkleReg → gmap Hash (Node Hash T);
}.
Arguments Hash T {_}.
Arguments MerkleReg T {_}.

Section merkle_spec.
Context {T : Type} `{!Merkle T}.

(** A node is known once it was applied, whether or not it is still an orphan. *)
Definition mr_known (r : MerkleReg T) : gmap (Hash T) (Node (Hash T) T) :=
  mr_dag r ∪ mr_orphans r.

(** The hashes in [m] from which every path of children stays in [m]. *)
Inductive grounded (m : gmap (Hash T) (Node (Hash T) T)) : Hash T → Prop :=
  | grounded_intro h n :
      m !! h = Some n → (∀ c, c ∈ node_children n → grounded m c) → grounded m h.

End merkle_spec.

(** The documentation of [merkle_reg]: a write only builds the node; applying
    stores a node once under its hash; it joins the DAG as soon as all its children
    are there; [read] gives the nodes of the DAG that no other node of it supersedes;
    [children] and [parents] follow the edges inside the DAG. *)
Class MerkleLaws (T : Type) `{!Merkle T} : Prop := {
  node_hash_inj : Inj (=) (=) (node_hash (T := T));
  mr_new_dag : mr_dag (mr_new (T := T)) = ∅;
  mr_new_orphans : mr_orphans (mr_new (T := T)) = ∅;
  mr_write_spec (r : MerkleReg T) v cs : mr_write r v cs = mkNode v cs;
  mr_apply_known (r : MerkleReg T) n :
    mr_known (mr_apply r n) = mr_known r ∪ {[node_hash n := n]};
  mr_dag_orphans (r : MerkleReg T) : mr_dag r ##ₘ mr_orphans r;
  mr_known_hash (r : MerkleReg T) h n : mr_known r !! h = Some n → h = node_hash n;
  mr_dag_grounded (r : MerkleReg T) h : is_Some (mr_dag r !! h) ↔ grounded (mr_known r) h;
  mr_node_spec (r : MerkleReg T) h : mr_node r h = mr_known r !! h;
  mr_read_spec (r : MerkleReg T) h n :
    (h, n) ∈ mr_read r ↔
    mr_dag r !! h = Some n ∧ ∀ h' n', mr_dag r !! h' = Some n' → h ∉ node_children n';
  mr_read_NoDup (r : MerkleReg T) : NoDup (mr_read r);
  mr_children_spec (r : MerkleReg T) h h' n' :
    (h', n') ∈ mr_children r h ↔
    ∃ n, mr_known r !! h = Some n ∧ h' ∈ node_children n ∧ mr_dag r !! h' = Some n';
  mr_parents_spec (r : MerkleReg T) h h' n' :
    (h', n') ∈ mr_parents r h ↔ mr_dag r !! h' = Some n' ∧ h ∈ node_children n';
  mr_parents_NoDup (r : MerkleReg T) h : NoDup (mr_parents r h);
  mr_all_nodes_spec (r : MerkleReg T) :
    mr_all_nodes r ≡ₚ (map_to_list (mr_dag r)).*2;
  mr_num_nodes_spec (r : MerkleReg T) : mr_num_nodes r = size (mr_dag r);
  mr_num_orphans_spec (r : MerkleReg T) : mr_num_orphans r = size (mr_orphans r);
}.

(** ** Consequences of the laws *)

Section merkle_lemmas.
Context {T : Type} `{!Merkle T} `{!MerkleLaws T}.
Implicit Types (r : MerkleReg T) (n : Node (Hash T) T).

Lemma mr_dag_known r h n : mr_dag r !! h = Some n → mr_known r !! h = Some n.
Proof. intros Hn. unfold mr_known. by apply lookup_union_Some_l. Qed.

Lemma mr_known_dag r h n :
  mr_known r !! h = Some n → grounded (mr_known r) h → mr_dag r !! h = Some n.
Proof.
  intros Hk [n' Hn']%mr_dag_grounded. pose proof (mr_dag_known _ _ _ Hn'). naive_solver.
Qed.

Lemma grounded_mono (m m' : gmap (Hash T) (Node (Hash T) T)) h :
  m ⊆ m' → grounded m h → grounded m' h.
Proof.
  intros Hm. induction 1 as [h n Hn _ IH]. econstructor; [by eapply lookup_weaken|done].
Qed.

(** Without orphans, a new node whose children are all there extends the DAG. *)
Lemma mr_apply_ready r n :
  mr_orphans r = ∅ →
  (∀ c, c ∈ node_children n → is_Some (mr_dag r !! c)) →
  mr_dag (mr_apply r n) = <[node_hash n := n]> (mr_dag r) ∧ mr_orphans (mr_apply r n) = ∅.
Proof.
  intros Ho Hc.
  assert (mr_known r = mr_dag r) as Hk by (unfold mr_known; rewrite Ho; apply (right_id_L _ _)).
  pose proof (mr_apply_known r n) as Ha.
  assert (mr_known (mr_apply r n) = <[node_hash n := n]> (mr_dag r)) as Hka.
  { rewrite Ha, Hk. apply map_eq. intros h. rewrite lookup_insert.
    case_decide as Heq; subst.
    - destruct (mr_dag r !! node_hash n) as [n'|] eqn:Hn'.
      + rewrite (lookup_union_Some_l _ _ _ _ Hn').
        rewrite <-Hk in Hn'. apply mr_known_hash in Hn'. f_equal. by apply node_hash_inj.
      + rewrite lookup_union_r by done. apply lookup_singleton_eq.
    - rewrite lookup_union, lookup_singleton_ne by done. apply (right_id_L _ _). }
  assert (∀ h, is_Some (mr_dag r !! h) → grounded (mr_known (mr_apply r n)) h) as Hg.
  { intros h Hh. rewrite Ha. apply (grounded_mono (mr_known r)); [apply map_union_subseteq_l|].
    by apply mr_dag_grounded. }
  assert (mr_dag (mr_apply r n) = mr_known (mr_apply r n)) as Hd.
  { apply map_eq. intros h. destruct (mr_known (mr_apply r n) !! h) as [n'|] eqn:Hn'.
    - apply mr_known_dag; [done|]. rewrite Hka, lookup_insert in Hn'. case_decide; simplify_eq.
      + econstructor; [rewrite Hka; apply lookup_insert_eq|]. auto.
      + apply Hg. eauto.
    - apply eq_None_not_Some. intros [n' Hn''%mr_dag_known]. congruence. }
  split; [congruence|].
  apply map_eq. intros h. rewrite lookup_empty. apply eq_None_not_Some. intros [n' Hn'].
  pose proof (mr_dag_orphans (mr_apply r n)) as Hdis.
  assert (mr_known (mr_apply r n) !! h = Some n') as Hk'.
  { unfold mr_known. rewrite map_union_comm by done. by apply lookup_union_Some_l. }
  rewrite <-Hd in Hk'. by eapply map_disjoint_spec.
Qed.
End merkle_lemmas.

(** ** Concrete instances

    A public key is a number, a signature a pair of the signer and the signed
    bytes; a [MerkleReg] is the list of the nodes applied to it. *)

Module Concrete.

#[export] Instance concrete_bls : Bls := {|
  PublicKey := nat;
  Signature := nat * bytes;
  pk_verify pk sig bs := bool_decide (sig = (pk, bs));
  PublicKeySet := nat;
  pks_public_key n := n;
|}.

#[export] Instance concrete_bincode_pk : Bincode (PublicKey (Bls := concrete_bls)) :=
  λ n : nat, Some [Z.of_nat n].

(** The signature of [msg] by [pk]. *)
Definition sign (pk msg : PublicKey) : Signature :=
  ((pk, [Z.of_nat msg]) : nat * bytes).

Section merkle.
Context {T : Type} `{Countable T}.

Definition hash_of (n : Node positive T) : positive := encode (encode (node_value n) :: elements (node_children n)).

Definition known_of (r : list (Node positive T)) : gmap positive (Node positive T) :=
  list_to_map ((λ n, (hash_of n, n)) <$> r).

Definition ground_step (m : gmap positive (Node positive T)) (s : gset positive) : gset positive :=
  dom (filter (λ kv, node_children kv.2 ⊆ s) m).
Definition ground_set (m : gmap positive (Node positive T)) : gset positive :=
  Nat.iter (S (size m)) (ground_step m) ∅.

Definition dag_of (r : list (Node positive T)) : gmap positive (Node positive T) :=
  let known := known_of r in let ground := ground_set known in filter (λ kv, kv.1 ∈ ground) known.
Definition orphans_of (r : list (Node positive T)) : gmap positive (Node positive T) :=
  let known := known_of r in let ground := ground_set known in filter (λ kv, kv.1 ∉ ground) known.

#[export] Instance concrete_merkle : Merkle T := {|
  Hash := positive;
  node_hash := hash_of;
  MerkleReg := list (Node positive T);
  mr_new := [];
  mr_write _ v cs := mkNode v cs;
  mr_apply r n := n :: r;
  mr_node r h := known_of r !! h;
  mr_read r :=
    let dag := dag_of r in let nodes := map_to_list dag in
    map_to_list (filter (λ kv, Forall (λ kv', kv.1 ∉ node_children kv'.2) nodes) dag);
  mr_children r h :=
    match known_of r !! h with
    | None => []
    | Some n => map_to_list (filter (λ kv, kv.1 ∈ node_children n) (dag_of r))
    end;
  mr_parents r h := map_to_list (filter (λ kv, h ∈ node_children kv.2) (dag_of r));
  mr_all_nodes r := (map_to_list (dag_of r)).*2;
  mr_num_nodes r := size (dag_of r);
  mr_num_orphans r := size (orphans_of r);
  mr_dag := dag_of;
  mr_orphans := orphans_of;
|}.

Lemma hash_of_inj : Inj (=) (=) hash_of.
Proof.
  intros [v cs] [v' cs']. unfold hash_of. simpl. intros [= Hv Hc]%(inj encode). apply (inj encode) in Hv. subst v'.
  f_equal. by rewrite <-(list_to_set_elements_L cs), Hc, list_to_set_elements_L.
Qed.

Lemma known_of_lookup r h n : known_of r !! h = Some n → h = hash_of n ∧ n ∈ r.
Proof.
  intros Hin%elem_of_list_to_map_2. apply list_elem_of_fmap in Hin as (n' & [= -> ->] & Hin).
  done.
Qed.

Lemma ground_step_mono m s s' : s ⊆ s' → ground_step m s ⊆ ground_step m s'.
Proof.
  intros Hs h. unfold ground_step. rewrite !elem_of_dom. intros [n [Hn Hc]%map_lookup_filter_Some].
  exists n. apply map_lookup_filter_Some. split; [done|]. set_solver.
Qed.

Lemma ground_iter_mono m k : Nat.iter k (ground_step m) ∅ ⊆ Nat.iter (S k) (ground_step m) ∅.
Proof. induction k; simpl; [set_solver|]. by apply ground_step_mono. Qed.

Lemma ground_iter_size m k :
  (∃ j, j < k ∧ Nat.iter (S j) (ground_step m) ∅ = Nat.iter j (ground_step m) ∅) ∨
  k ≤ size (Nat.iter k (ground_step m) ∅).
Proof.
  induction k as [|k [(j & ? & ?)|IH]]; [right; lia|left; exists j; split; [lia|done]|].
  destruct (decide (Nat.iter (S k) (ground_step m) ∅ = Nat.iter k (ground_step m) ∅)) as [He|Hne].
  - left. exists k. split; [lia|done].
  - right. pose proof (ground_iter_mono m k) as Hsub.
    assert (Nat.iter k (ground_step m) ∅ ⊂ Nat.iter (S k) (ground_step m) ∅) as Hlt%subset_size
      by (split; [done|]; intros ?; apply Hne; by apply (anti_symm (⊆))).
    lia.
Qed.

Lemma ground_set_fixpoint m : ground_step m (ground_set m) = ground_set m.
Proof.
  destruct (ground_iter_size m (S (size m))) as [(j & Hj & He)|Hsz].
  - unfold ground_set. replace (S (size m)) with ((S (size m) - j) + j) by lia.
    generalize (S (size m) - j). intros i. induction i as [|i IH]; simpl in *; congruence.
  - exfalso. assert (Nat.iter (S (size m)) (ground_step m) ∅ ⊆ dom m) as Hsub%subseteq_size.
    { simpl. unfold ground_step. apply dom_filter_subseteq. }
    rewrite size_dom in Hsub. lia.
Qed.

Lemma ground_iter_sound r k h :
  h ∈ Nat.iter k (ground_step (known_of r)) ∅ → grounded (known_of r) h.
Proof.
  revert h. induction k as [|k IH]; simpl; intros h; [set_solver|].
  unfold ground_step at 1. rewrite elem_of_dom. intros [n [Hn Hc]%map_lookup_filter_Some].
  econstructor; [done|]. intros c Hin. apply IH, Hc. done.
Qed.

Lemma ground_set_spec r h : h ∈ ground_set (known_of r) ↔ grounded (known_of r) h.
Proof.
  split; [apply ground_iter_sound|]. induction 1 as [h n Hn _ IH].
  rewrite <-ground_set_fixpoint. unfold ground_step. apply elem_of_dom. exists n.
  apply map_lookup_filter_Some. split; [done|]. intros c Hc. auto.
Qed.

Lemma dag_orphans_known r : dag_of r ∪ orphans_of r = known_of r.
Proof. apply map_filter_union_complement. Qed.

#[export] Instance concrete_merkle_laws : MerkleLaws T.
Proof.
  split; unfold mr_known; simpl; try done.
  - apply hash_of_inj.
  - intros r n. rewrite !dag_orphans_known. unfold known_of at 1. simpl. apply map_eq. intros h.
    rewrite lookup_insert. case_decide; subst.
    + destruct (known_of r !! hash_of n) as [n'|] eqn:Hn'.
      * rewrite (lookup_union_Some_l _ _ _ _ Hn').
        apply known_of_lookup in Hn' as [? _]. f_equal. by apply hash_of_inj.
      * rewrite lookup_union_r by done. symmetry. apply lookup_singleton_eq.
    + rewrite lookup_union, lookup_singleton_ne by done. symmetry. apply (right_id_L _ _).
  - intros r. apply map_disjoint_filter_complement.
  - intros r h n. rewrite dag_orphans_known. by intros [? _]%known_of_lookup.
  - intros r h. rewrite dag_orphans_known, <-ground_set_spec. unfold dag_of. split.
    + intros [n [_ ?]%map_lookup_filter_Some]. done.
    + intros Hg. assert (is_Some (known_of r !! h)) as [n Hn].
      { apply ground_set_spec in Hg as [? n ? _]. eauto. }
      exists n. by apply map_lookup_filter_Some.
  - intros r h. by rewrite dag_orphans_known.
  - intros r h n. rewrite elem_of_map_to_list, map_lookup_filter_Some, Forall_forall. simpl.
    split; intros [Hd Hall]; (split; [done|]).
    + intros h' n' Hn'. apply (Hall (h', n')). by apply elem_of_map_to_list.
    + intros [h' n'] Hin%elem_of_map_to_list. simpl. eauto.
  - intros r. apply NoDup_map_to_list.
  - intros r h h' n'. rewrite dag_orphans_known. destruct (known_of r !! h) as [n|].
    + rewrite elem_of_map_to_list, map_lookup_filter_Some. naive_solver.
    + split; [by intros ?%not_elem_of_nil|naive_solver].
  - intros r h h' n'. by rewrite elem_of_map_to_list, map_lookup_filter_Some.
  - intros r h. apply NoDup_map_to_list.
Qed.
End merkle.
End Concrete.

(** * network_knowledge::Error

    The error enumeration of [sn_interface/src/network_knowledge/errors.rs].
    Messages built by [format!] and the nested error of [sn_consensus] are not kept. *)

Inductive Error `{!Bls} : Type :=
  | FileHandling
  | DirectoryHandling
  | Serialisation
  | Deserialisation
  | NonGenesisSap
  | InvalidSignature
  | KeyNotFound (key : PublicKey)
  | InvalidBranch
  | MultipleBranchError
  | UntrustedProofChain
  | SAPKeyNotCoveredByProofChain
  | UntrustedSectionAuthProvider
  | InvalidGenesisKey (key : PublicKey)
  | InvalidRelocationProof
  | InvalidSignatureShare
  | MissingSecretKeyShare (key : PublicKey)
  | InvalidPayload
  | TryJoinLater
  | NoMatchingSection
  | ExistingMemberSocketAddrConflict
  | ExistingMemberNameConflict
  | NotAMember
  | WrongSection
  | Consensus
  | ArchivedNodeRejoined
  | AEOutdated.

#[export] Instance error_eq_dec `{!Bls} : EqDecision Error.
Proof. solve_decision. Defined.
