(* ===== verification/Xor.v ===== *)
(** * Interface of the xor_name crate

    Names are points of the address space and a prefix is a sequence of leading
    bits; [xn_bits] and [px_bits] are their specification views.  The laws state
    the documentation of [xor_name::Prefix]; the concrete instance takes bit lists. *)

From S2P Require Import Prelude External.

Class Xor := {
  XorName : Type;
  xn_eq_dec :: EqDecision XorName;
  xn_countable :: Countable XorName;
  xn_ord :: Ord XorName;
  xn_bits : XorName → list bool;
  xn_bit : XorName → nat → bool;
  xn_bytes : XorName → list Z;
  Prefix : Type;
  px_eq_dec :: EqDecision Prefix;
  px_countable :: Countable Prefix;
  px_ord :: Ord Prefix;
  px_bits : Prefix → list bool;
  px_default : Prefix;
  px_matches : Prefix → XorName → bool;
  px_is_extension_of : Prefix → Prefix → bool;
  px_is_empty : Prefix → bool;
  px_popped : Prefix → Prefix;
  px_pushed : Prefix → bool → Prefix;
  px_sibling : Prefix → Prefix;
  px_bit_count : Prefix → nat;
  px_common_prefix : Prefix → XorName → nat;
  px_cmp_distance : Prefix → Prefix → XorName → comparison;
  px_name : Prefix → XorName;
}.

(** The last bit flipped, if there is one. *)
Fixpoint flip_last (l : list bool) : list bool :=
  match l with [] => [] | [b] => [negb b] | b :: l => b :: flip_last l end.

(** The number of leading bits two bit strings share. *)
Fixpoint common_bits (a b : list bool) : nat :=
  match a, b with
  | x :: a, y :: b => if eqb x y then S (common_bits a b) else 0
  | _, _ => 0
  end.

Class XorLaws {X : Xor} : Prop := {
  px_bits_inj : Inj (=) (=) px_bits;
  xn_bit_spec n i : xn_bit n i = default false (xn_bits n !! i);
  px_default_spec : px_bits px_default = [];
  px_matches_spec p n : px_matches p n = true ↔ px_bits p `prefix_of` xn_bits n;
  px_is_extension_of_spec p q :
    px_is_extension_of p q = true ↔ px_bits q `prefix_of` px_bits p ∧ p ≠ q;
  px_is_empty_spec p : px_is_empty p = true ↔ px_bits p = [];
  px_popped_spec p : px_bits (px_popped p) = take (length (px_bits p) - 1) (px_bits p);
  px_pushed_spec p b : px_bits (px_pushed p b) = px_bits p ++ [b];
  px_sibling_spec p : px_bits (px_sibling p) = flip_last (px_bits p);
  px_bit_count_spec p : px_bit_count p = length (px_bits p);
  px_common_prefix_spec p n : px_common_prefix p n = common_bits (px_bits p) (xn_bits n);
  px_name_spec p : px_bits p `prefix_of` xn_bits (px_name p);
}.

Section laws.
Context {X : Xor} {XL : XorLaws}.

Lemma common_bits_le a b : common_bits a b ≤ length a.
Proof.
  revert b. induction a as [|x a IH]; intros [|y b]; simpl; try lia.
  destruct (eqb x y); [|lia]. specialize (IH b). lia.
Qed.
Lemma common_bits_full a b : common_bits a b = length a ↔ a `prefix_of` b.
Proof.
  revert b. induction a as [|x a IH]; intros [|y b]; simpl.
  - split; [intros _; apply prefix_nil|done].
  - split; [intros _; apply prefix_nil|done].
  - split; [done|]. by intros Hp%prefix_nil_not.
  - destruct (eqb x y) eqn:E; [apply eqb_prop in E; subst|apply eqb_false_iff in E].
    + split.
      * intros [= Hp%IH]. by apply prefix_cons.
      * intros Hp%prefix_cons_inv_2. f_equal. by apply IH.
    + split; [done|]. by intros Hp%prefix_cons_inv_1.
Qed.

Lemma px_not_self_extension p : px_is_extension_of p p = false.
Proof. apply not_true_is_false. rewrite px_is_extension_of_spec. naive_solver. Qed.

(** Two prefixes of one name are comparable. *)
Lemma px_matches_comparable p q n :
  px_matches p n = true → px_matches q n = true →
  p = q ∨ px_is_extension_of p q = true ∨ px_is_extension_of q p = true.
Proof.
  rewrite !px_matches_spec, !px_is_extension_of_spec. intros Hp Hq.
  destruct (decide (p = q)) as [->|Hne]; [by left|]. right.
  destruct (prefix_weak_total _ _ _ Hp Hq); [right|left]; (split; [done|congruence]).
Qed.

Lemma px_popped_prefix p : px_bits (px_popped p) `prefix_of` px_bits p.
Proof. rewrite px_popped_spec. apply prefix_take. Qed.
End laws.

Module ConcreteXor.
Import External.Concrete.

Fixpoint bits_le (a b : list bool) : bool :=
  match a, b with
  | [], _ => true
  | _ :: _, [] => false
  | x :: a, y :: b => if eqb x y then bits_le a b else y
  end.

Lemma bits_le_total a b : bits_le a b = true ∨ bits_le b a = true.
Proof.
  revert b. induction a as [|x a IH]; intros [|y b]; simpl; auto. destruct x, y; simpl; auto.
Qed.
Lemma bits_le_trans a b c : bits_le a b = true → bits_le b c = true → bits_le a c = true.
Proof.
  revert b c. induction a as [|x a IH]; intros [|y b] [|z c]; simpl; try done.
  destruct x, y, z; simpl; try done; apply IH.
Qed.
Lemma bits_le_antisymm a b : bits_le a b = true → bits_le b a = true → a = b.
Proof.
  revert b. induction a as [|x a IH]; intros [|y b]; simpl; try done.
  destruct x, y; simpl; try done; intros; f_equal; auto.
Qed.

#[export] Instance bits_ord : Ord (list bool) := {|
  ord_le a b := bits_le a b = true;
  ord_le_dec a b := bool_eq_dec (bits_le a b) true;
  ord_le_total := bits_le_total;
  ord_le_trans := bits_le_trans;
  ord_le_antisymm := bits_le_antisymm;
|}.

#[export] Instance concrete_xor : Xor := {|
  XorName := list bool;
  xn_bits n := n;
  xn_bit n i := default false (n !! i);
  xn_bytes n := (λ b : bool, if b then 1%Z else 0%Z) <$> n;
  Prefix := list bool;
  px_bits p := p;
  px_default := [];
  px_matches p n := bool_decide (p `prefix_of` n);
  px_is_extension_of p q := bool_decide (q `prefix_of` p ∧ p ≠ q);
  px_is_empty p := bool_decide (p = []);
  px_popped p := take (length p - 1) p;
  px_pushed p b := p ++ [b];
  px_sibling := flip_last;
  px_bit_count := length;
  px_common_prefix := common_bits;
  px_cmp_distance p q n := Nat.compare (common_bits q n) (common_bits p n);
  px_name p := p;
|}.

#[export] Instance concrete_xor_laws : XorLaws.
Proof.
  split; simpl; intros; rewrite ?bool_decide_eq_true; try done.
  by intros ? ? ?.
Qed.
End ConcreteXor.
