(* ===== verification/NodeState.v ===== *)
(** * Members of a section

    [network_knowledge/node_state], [types/identities/node_id.rs] and the section
    arithmetic of [network_knowledge/mod.rs]: quorum sizes, the split of a section
    by the next bit, and the relocation check. *)

From S2P Require Import Prelude External Xor.

(** [std::net::SocketAddr]. *)
Inductive SocketAddr :=
  | AddrV4 (ip port : Z)
  | AddrV6 (ip port flowinfo scope_id : Z).
#[export] Instance socket_addr_eq_dec : EqDecision SocketAddr.
Proof. solve_decision. Defined.
#[export] Instance socket_addr_countable : Countable SocketAddr.
Proof.
  refine (inj_countable'
    (λ a, match a with AddrV4 i p => inl (i, p) | AddrV6 i p f s => inr (i, p, f, s) end)
    (λ x, match x with inl (i, p) => AddrV4 i p | inr (i, p, f, s) => AddrV6 i p f s end) _).
  by intros [].
Defined.

(** ** Quorums *)

Definition threshold (group_size : Z) : Z := wrap64 (group_size * 2) / 3.
Definition supermajority (group_size : Z) : Z := wrap64 (threshold group_size + 1).

(** [elder_count()] reads the environment: it is a parameter. *)
Class Settings := elder_count : nat.

Definition recommended_section_size `{!Settings} : nat := 2 * elder_count.

Section node_state.
Context {B : Bls} {X : Xor} {Cfg : Settings} {Trigger : Type}.

Record NodeId := mkNodeId { id_name : XorName; id_addr : SocketAddr }.

Definition calc_age (name : XorName) : Z := default 0%Z (last (xn_bytes name)).

Inductive MembershipState :=
  | Joined
  | Left
  | Relocated (trigger : Trigger).

Record NodeState := mkNodeState {
  node_id : NodeId;
  state : MembershipState;
  previous_name : option XorName;
}.

Definition name (n : NodeState) : XorName := id_name (node_id n).
Definition addr (n : NodeState) : SocketAddr := id_addr (node_id n).
Definition age (n : NodeState) : Z := calc_age (name n).

Definition is_joined (n : NodeState) : bool :=
  match state n with Joined => true | _ => false end.
Definition is_relocated (n : NodeState) : bool :=
  match state n with Relocated _ => true | _ => false end.

Definition joined (id : NodeId) (prev : option XorName) : NodeState := mkNodeState id Joined prev.

(** [assert_eq!] panics unless the node is [Joined]: [None] is the panic. *)
Definition leave (n : NodeState) : option NodeState :=
  match state n with
  | Joined => Some (mkNodeState (node_id n) Left (previous_name n))
  | _ => None
  end.
Definition relocate (n : NodeState) (trigger : Trigger) : NodeState :=
  mkNodeState (node_id n) (Relocated trigger) (previous_name n).

(** The members that match the prefix, split by their next bit: (zeros, ones). *)
Definition partition_by_prefix (prefix : Prefix) (nodes : list XorName)
    : option (gset XorName * gset XorName) :=
  if decide (px_bit_count prefix ≤ 255) then
    let nodes := filter (λ name, px_matches prefix name = true) nodes in
    let bit name := xn_bit name (px_bit_count prefix) in
    Some (list_to_set (filter (λ name, bit name = false) nodes),
          list_to_set (filter (λ name, bit name = true) nodes))
  else None.

Definition section_has_room_for_node (joining_node : XorName) (prefix : Prefix)
    (members : list XorName) : bool :=
  let split_section_size_cap := recommended_section_size * 2 in
  match partition_by_prefix prefix members with
  | Some (zeros, ones) =>
      if xn_bit joining_node (px_bit_count prefix)
      then bool_decide (size ones < split_section_size_cap)
      else bool_decide (size zeros < split_section_size_cap)
  | None => false
  end.

Definition validate_node_state (n : NodeState) (prefix : Prefix)
    (current_joined_members : gmap XorName NodeState) (archived : gset XorName)
    : result Error unit :=
  if px_matches prefix (name n) then
    match state n with
    | Joined =>
        if decide (is_Some (current_joined_members !! name n)) then
          Err ExistingMemberNameConflict
        else if negb (section_has_room_for_node (name n) prefix
                        (bmap_iter current_joined_members).*1) then Err TryJoinLater
        else if existsb (λ m, bool_decide (addr m = addr n)) (bmap_values current_joined_members)
        then Err ExistingMemberSocketAddrConflict
        else if decide (name n ∈ archived) then Err ArchivedNodeRejoined
        else Ok ()
    | Relocated _ => Ok ()
    | Left =>
        if decide (is_Some (current_joined_members !! name n)) then Ok () else Err NotAMember
    end
  else Err WrongSection.
End node_state.
Arguments NodeId {_}.
Arguments MembershipState : clear implicits.
Arguments NodeState {_} Trigger.

#[export] Instance node_id_eq_dec {X : Xor} : EqDecision NodeId.
Proof. solve_decision. Defined.
#[export] Instance node_id_countable {X : Xor} : Countable NodeId :=
  inj_countable' (λ i, (id_name i, id_addr i)) (λ p, mkNodeId p.1 p.2)
    (λ i, match i with mkNodeId _ _ => eq_refl end).
#[export] Instance membership_state_eq_dec {T} `{EqDecision T} : EqDecision (MembershipState T).
Proof. solve_decision. Defined.
#[export] Instance membership_state_countable {T} `{Countable T} : Countable (MembershipState T).
Proof.
  refine (inj_countable'
    (λ s, match s with Joined => inl false | Left => inl true | Relocated t => inr t end)
    (λ x, match x with inl false => Joined | inl true => Left | inr t => Relocated t end) _).
  by intros [].
Defined.
#[export] Instance node_state_eq_dec {X : Xor} {T} `{EqDecision T} : EqDecision (NodeState T).
Proof. solve_decision. Defined.
#[export] Instance node_state_countable {X : Xor} {T} `{Countable T} : Countable (NodeState T) :=
  inj_countable' (λ n, (node_id n, state n, previous_name n)) (λ p, mkNodeState p.1.1 p.1.2 p.2)
    (λ n, match n with mkNodeState _ _ _ => eq_refl end).

(** ** Relocation check *)

(** [u8::trailing_zeros] of a byte that is not zero. *)
Fixpoint byte_trailing_zeros (fuel : nat) (b : Z) : Z :=
  match fuel with
  | O => 0
  | S fuel => if Z.odd b then 0 else 1 + byte_trailing_zeros fuel (b / 2)
  end.

Fixpoint trailing_zeros_rev (bytes : list Z) : Z :=
  match bytes with
  | [] => 0
  | b :: bytes => if decide (b = 0)%Z then 8 + trailing_zeros_rev bytes else byte_trailing_zeros 8 b
  end.
Definition trailing_zeros (bytes : list Z) : Z := trailing_zeros_rev (reverse bytes).

(** A [ChurnId] wraps the bytes of a name. *)
Definition relocation_check (age : Z) (churn_id : list Z) : bool :=
  bool_decide (age ≤ trailing_zeros churn_id)%Z.
