(* ===== verification/NodeStateProps.v ===== *)
(** * Properties of section members: quorums, relocation and join validation *)

From S2P Require Import Prelude External Xor NodeState.

(** ** Quorums *)

Lemma supermajority_spec n :
  (0 ≤ n < 2 ^ 63)%Z → supermajority n = (2 * n / 3 + 1)%Z.
Proof.
  intros. unfold supermajority, threshold.
  assert (0 ≤ n * 2 < 2 ^ 64)%Z by lia. rewrite (wrap64_small (n * 2)) by done.
  replace (n * 2)%Z with (2 * n)%Z by lia.
  apply wrap64_small. pose proof (Z.div_pos (2 * n) 3). pose proof (Z.div_le_upper_bound (2 * n) 3 (2 ^ 63)).
  lia.
Qed.

(** Any two supermajorities of a group share more than a third of it, and every
    non-empty group can reach its own supermajority (for a group size that fits in
    63 bits, so that doubling it does not wrap). *)
Theorem supermajority_intersect {A} `{Countable A} (group q1 q2 : gset A) :
  q1 ⊆ group → q2 ⊆ group →
  (Z.of_nat (size group) < 2 ^ 63)%Z →
  (supermajority (Z.of_nat (size group)) ≤ Z.of_nat (size q1))%Z →
  (supermajority (Z.of_nat (size group)) ≤ Z.of_nat (size q2))%Z →
  size group < 3 * size (q1 ∩ q2) ∧
  (0 < size group → (supermajority (Z.of_nat (size group)) ≤ Z.of_nat (size group))%Z).
Proof.
  intros H1 H2 Hs. rewrite supermajority_spec by lia. intros Hq1 Hq2.
  pose proof (Z.mul_succ_div_gt (2 * Z.of_nat (size group)) 3 ltac:(lia)).
  pose proof (Z.mul_div_le (2 * Z.of_nat (size group)) 3 ltac:(lia)).
  split; [|lia].
  assert (size (q1 ∪ q2) ≤ size group) by (apply subseteq_size; set_solver).
  pose proof (size_union_alt q1 q2) as Hu. pose proof (size_difference_alt q2 q1) as Hd.
  assert (q2 ∩ q1 = q1 ∩ q2) as Hc by (apply set_eq; intros x; rewrite !elem_of_intersection; tauto).
  rewrite Hc in Hd.
  assert (size (q1 ∩ q2) ≤ size q2) by (apply subseteq_size; set_solver).
  lia.
Qed.

(** ** Relocation *)

Definition is_byte (b : Z) : Prop := (0 ≤ b < 256)%Z.

(** The number a byte string stands for, most significant byte first. *)
Definition be_value (bytes : list Z) : Z := foldl (λ acc b, acc * 256 + b)%Z 0%Z bytes.
Definition le_value (bytes : list Z) : Z := foldr (λ b acc, b + 256 * acc)%Z 0%Z bytes.

Lemma be_le_value bytes : be_value bytes = le_value (reverse bytes).
Proof.
  unfold be_value. induction bytes as [|b bytes IH] using rev_ind; [done|].
  rewrite foldl_snoc, reverse_snoc, IH. simpl. lia.
Qed.

Lemma byte_trailing_zeros_spec b a :
  is_byte b → b ≠ 0%Z → (0 ≤ a ≤ 8)%Z →
  (a ≤ byte_trailing_zeros 8 b)%Z ↔ (b mod 2 ^ a = 0)%Z.
Proof.
  intros Hb Hne Ha.
  assert (forallb (λ b, forallb (λ a, eqb (a <=? byte_trailing_zeros 8 b)%Z (b mod 2 ^ a =? 0)%Z)
    (seqZ 0 9)) (seqZ 1 255) = true) as Hall by (vm_compute; reflexivity).
  rewrite forallb_forall in Hall. specialize (Hall b).
  rewrite <-list_elem_of_In, elem_of_seqZ in Hall. unfold is_byte in Hb.
  assert (1 ≤ b < 1 + 255)%Z as Hr by lia. specialize (Hall Hr).
  rewrite forallb_forall in Hall. specialize (Hall a).
  rewrite <-list_elem_of_In, elem_of_seqZ in Hall.
  specialize (Hall ltac:(lia)). apply eqb_prop in Hall.
  rewrite <-Z.leb_le, <-Z.eqb_eq. by rewrite Hall.
Qed.

Lemma byte_trailing_zeros_lt b : is_byte b → b ≠ 0%Z → (0 ≤ byte_trailing_zeros 8 b < 8)%Z.
Proof.
  intros Hb Hne. unfold is_byte in Hb.
  pose proof (byte_trailing_zeros_spec b 8 Hb Hne ltac:(lia)) as H8.
  pose proof (byte_trailing_zeros_spec b 0 Hb Hne ltac:(lia)) as H0.
  rewrite Z.mod_1_r in H0. change (2 ^ 8)%Z with 256%Z in H8. rewrite Z.mod_small in H8 by done. lia.
Qed.

(** [2^a] divides [b + 256 v] by the low byte alone when [a <= 8]. *)
Lemma low_byte_mod b v a : (0 ≤ a ≤ 8)%Z → ((b + 256 * v) mod 2 ^ a = b mod 2 ^ a)%Z.
Proof.
  intros Ha. replace (256 * v)%Z with ((2 ^ (8 - a) * v) * 2 ^ a)%Z.
  - apply Z.mod_add. apply Z.pow_nonzero; lia.
  - rewrite <-(Z.mul_assoc), (Z.mul_comm v), Z.mul_assoc, <-Z.pow_add_r by lia.
    replace (8 - a + a)%Z with 8%Z by lia. done.
Qed.

Lemma high_bytes_mod v a :
  (8 ≤ a)%Z → ((256 * v) mod 2 ^ a = 0)%Z ↔ (v mod 2 ^ (a - 8) = 0)%Z.
Proof.
  intros Ha. replace (2 ^ a)%Z with (256 * 2 ^ (a - 8))%Z.
  - rewrite Zmult_mod_distr_l. lia.
  - change 256%Z with (2 ^ 8)%Z. rewrite <-Z.pow_add_r by lia. f_equal. lia.
Qed.

Lemma trailing_zeros_rev_nonneg bytes : Forall is_byte bytes → (0 ≤ trailing_zeros_rev bytes)%Z.
Proof.
  induction 1 as [|b bytes Hb _ IH]; simpl; [lia|]. case_decide; [lia|].
  apply byte_trailing_zeros_lt in Hb; [|done]. simpl in Hb. lia.
Qed.

Lemma trailing_zeros_rev_spec bytes a :
  Forall is_byte bytes → (0 ≤ a ≤ 8 * Z.of_nat (length bytes))%Z →
  (a ≤ trailing_zeros_rev bytes)%Z ↔ (le_value bytes mod 2 ^ a = 0)%Z.
Proof.
  intros Hall. revert a. induction Hall as [|b bytes Hb Hall IH]; intros a Ha.
  { simpl in *. assert (a = 0)%Z as -> by lia. split; [done|lia]. }
  pose proof (trailing_zeros_rev_nonneg bytes Hall) as Hnn.
  cbn [trailing_zeros_rev le_value foldr length] in *. fold (le_value bytes).
  case_decide as Hz; subst.
  - destruct (decide (a ≤ 8)%Z).
    + split; [|lia]. intros _. by rewrite low_byte_mod by lia.
    + rewrite Z.add_0_l, high_bytes_mod by lia. rewrite <-IH by lia. lia.
  - destruct (decide (a ≤ 8)%Z).
    + rewrite low_byte_mod by lia. apply byte_trailing_zeros_spec; [done..|lia].
    + pose proof (byte_trailing_zeros_lt b Hb Hz). split; [lia|]. intros Hm. exfalso.
      apply Hz. unfold is_byte in Hb.
      assert (b mod 2 ^ 8 = 0)%Z as Hb8.
      { rewrite <-(low_byte_mod b (le_value bytes)) by lia.
        apply Z.mod_divide; [lia|]. apply Z.mod_divide in Hm; [|apply Z.pow_nonzero; lia].
        etrans; [|exact Hm]. exists (2 ^ (a - 8))%Z. rewrite <-Z.pow_add_r by lia. f_equal. lia. }
      change (2 ^ 8)%Z with 256%Z in Hb8. rewrite Z.mod_small in Hb8; lia.
Qed.

(** The relocation check by counting trailing zero bits is the formula of its
    comment, [churn_id % 2^age == 0], for every age and every 32-byte churn id. *)
Theorem relocation_check_is_modulo age (churn_id : list Z) :
  length churn_id = 32 → Forall is_byte churn_id → is_byte age →
  relocation_check age churn_id = true ↔ (be_value churn_id mod 2 ^ age = 0)%Z.
Proof.
  intros Hlen Hb Ha. unfold relocation_check, trailing_zeros.
  rewrite bool_decide_eq_true, be_le_value. unfold is_byte in Ha.
  apply trailing_zeros_rev_spec; [by apply Forall_reverse|]. rewrite length_reverse. lia.
Qed.

(** ** Joining *)

Section join.
Context {B : Bls} {X : Xor} {Cfg : Settings} {Trigger : Type}.
Implicit Types (n m : NodeState Trigger) (members : gmap XorName (NodeState Trigger)).

(** What a set of joined members guarantees: members are filed under their own
    name, lie in the section, have distinct addresses, and each half that the
    next split would create holds at most twice the recommended size. *)
Record members_ok (prefix : Prefix) members : Prop := {
  mok_name k n : members !! k = Some n → name n = k;
  mok_prefix k : is_Some (members !! k) → px_matches prefix k = true;
  mok_addr k k' n n' : members !! k = Some n → members !! k' = Some n' → addr n = addr n' → k = k';
  mok_half b :
    size (filter (λ k, xn_bit k (px_bit_count prefix) = b) (dom members)) ≤ recommended_section_size * 2;
}.

Lemma partition_sizes prefix members zeros ones :
  members_ok prefix members →
  partition_by_prefix prefix (bmap_iter members).*1 = Some (zeros, ones) →
  zeros = filter (λ k, xn_bit k (px_bit_count prefix) = false) (dom members) ∧
  ones = filter (λ k, xn_bit k (px_bit_count prefix) = true) (dom members).
Proof.
  intros Hok. unfold partition_by_prefix. case_decide; [|done]. intros [= <- <-].
  assert (∀ k, k ∈ filter (λ name, px_matches prefix name = true) (bmap_iter members).*1 ↔
    k ∈ dom members) as Hin.
  { intros k. rewrite list_elem_of_filter, list_elem_of_fmap, elem_of_dom. split.
    - intros (_ & [k' n] & -> & Hm%elem_of_bmap_iter). eauto.
    - intros [n Hn]. split; [by eapply mok_prefix; eauto|].
      exists (k, n). split; [done|]. by apply elem_of_bmap_iter. }
  split; apply set_eq; intros k;
    rewrite elem_of_list_to_set, list_elem_of_filter, elem_of_filter, Hin; done.
Qed.

Lemma room_half n prefix members :
  members_ok prefix members →
  section_has_room_for_node (name n) prefix (bmap_iter members).*1 = true →
  size (filter (λ k, xn_bit k (px_bit_count prefix) = xn_bit (name n) (px_bit_count prefix))
         (dom members)) < recommended_section_size * 2.
Proof.
  intros Hok. unfold section_has_room_for_node.
  destruct (partition_by_prefix _ _) as [[zeros ones]|] eqn:Hp; [|done].
  apply partition_sizes in Hp as [-> ->]; [|done].
  destruct (xn_bit (name n) _); by rewrite bool_decide_eq_true.
Qed.

(** What [validate_node_state] accepts of a node that joins. *)
Lemma validate_joined_Ok n prefix members archived :
  state n = Joined →
  validate_node_state n prefix members archived = Ok () ↔
  px_matches prefix (name n) = true ∧ members !! name n = None ∧
  section_has_room_for_node (name n) prefix (bmap_iter members).*1 = true ∧
  (∀ k m, members !! k = Some m → addr m ≠ addr n) ∧ name n ∉ archived.
Proof.
  intros Hs. unfold validate_node_state. rewrite Hs.
  destruct (px_matches prefix (name n)); [|naive_solver].
  destruct (decide (is_Some (members !! name n))) as [[m Hm]|Hnone].
  { split; [done|]. intros (_ & ? & _). congruence. }
  apply eq_None_not_Some in Hnone.
  destruct (section_has_room_for_node _ _ _); simpl; [|naive_solver].
  destruct (existsb _ _) eqn:He.
  { apply existsb_exists in He as (m & Hm%list_elem_of_In%elem_of_bmap_values & Ha).
    destruct Hm as [k Hk]. apply bool_decide_eq_true in Ha. split; [done|].
    intros (_ & _ & _ & Hno & _). by destruct (Hno k m). }
  assert (∀ k m, members !! k = Some m → addr m ≠ addr n) as Hno.
  { intros k m Hk Ha. apply not_true_iff_false in He. apply He, existsb_exists. exists m.
    split; [|by apply bool_decide_eq_true]. apply list_elem_of_In, elem_of_bmap_values. eauto. }
  case_decide; naive_solver.
Qed.

(** A node that [validate_node_state] lets join can be added to the members of
    the section without breaking their guarantees: names and addresses stay unique,
    all members lie in the section, and neither half outgrows its cap; the node is
    not one of the archived ones. *)
Theorem accepted_join_preserves_members n prefix members archived :
  members_ok prefix members → state n = Joined →
  validate_node_state n prefix members archived = Ok () →
  members_ok prefix (<[name n := n]> members) ∧ members !! name n = None ∧ name n ∉ archived.
Proof.
  intros Hok Hs (Hp & Hnone & Hroom & Haddr & Harch)%(validate_joined_Ok _ _ _ _ Hs).
  split; [|done]. pose proof (room_half n prefix members Hok Hroom) as Hhalf.
  split.
  - intros k m [[<- <-]|[_ Hm]]%lookup_insert_Some; [done|]. by eapply mok_name.
  - intros k [m [[<- _]|[_ Hm]]%lookup_insert_Some]; [done|]. eapply mok_prefix; eauto.
  - intros k k' m m'. rewrite !lookup_insert_Some.
    intros [[<- <-]|[? Hm]] [[<- <-]|[? Hm']] Heq; try done.
    + by destruct (Haddr _ _ Hm').
    + by destruct (Haddr _ _ Hm).
    + by eapply mok_addr.
  - intros b. rewrite dom_insert_L.
    destruct (decide (xn_bit (name n) (px_bit_count prefix) = b)) as [<-|Hne].
    + etrans; [apply (subseteq_size _ ({[name n]} ∪ filter (λ k, xn_bit k (px_bit_count prefix) =
        xn_bit (name n) (px_bit_count prefix)) (dom members)))|].
      { intros k. rewrite elem_of_union, !elem_of_filter, elem_of_union. tauto. }
      rewrite size_union_alt, size_singleton.
      assert (∀ Y : gset XorName, size (Y ∖ {[name n]}) ≤ size Y) as Hdiff.
      { intros Y. apply subseteq_size. intros k [? _]%elem_of_difference. done. }
      specialize (Hdiff (filter (λ k, xn_bit k (px_bit_count prefix) =
        xn_bit (name n) (px_bit_count prefix)) (dom members))). lia.
    + etrans; [|by apply (mok_half _ _ Hok b)]. apply subseteq_size. intros k.
      rewrite !elem_of_filter, elem_of_union, elem_of_singleton. intros [Hk [->|?]]; done.
Qed.

(** Every refusal of [validate_node_state] names its reason: a node of another
    section is refused whatever its state, a relocation is never refused, a leave
    only from a node that is no member, and a join is refused with the first of name
    conflict, full half, address conflict and archived name that applies. *)
Theorem validate_node_state_errors n prefix members archived err :
  validate_node_state n prefix members archived = Err err →
  (px_matches prefix (name n) = false ∧ err = WrongSection) ∨
  (state n = Left ∧ members !! name n = None ∧ err = NotAMember) ∨
  (state n = Joined ∧
     ((is_Some (members !! name n) ∧ err = ExistingMemberNameConflict) ∨
      (section_has_room_for_node (name n) prefix (bmap_iter members).*1 = false ∧
         err = TryJoinLater) ∨
      ((∃ k m, members !! k = Some m ∧ addr m = addr n) ∧
         err = ExistingMemberSocketAddrConflict) ∨
      (name n ∈ archived ∧ err = ArchivedNodeRejoined))).
Proof.
  unfold validate_node_state. destruct (px_matches prefix (name n)); [|intros [= <-]; auto].
  destruct (state n) eqn:Hs.
  - right; right. split; [done|]. case_decide; [naive_solver|].
    destruct (section_has_room_for_node _ _ _); simpl in *; [|naive_solver].
    destruct (existsb _ _) eqn:He.
    + apply existsb_exists in He as (m & Hm%list_elem_of_In%elem_of_bmap_values & Ha).
      destruct Hm as [k Hk]. apply bool_decide_eq_true in Ha. naive_solver.
    + case_decide; naive_solver.
  - right; left. case_decide as Hm; [done|]. apply eq_None_not_Some in Hm. naive_solver.
  - done.
Qed.
End join.

(** ** Witnesses *)

Module NodeStateDemo.
Import External.Concrete ConcreteXor.

#[export] Instance demo_settings : Settings := 7.

Definition group : gset nat := {[1; 2; 3; 4; 5; 6; 7]}.
Definition quorum_1 : gset nat := {[1; 2; 3; 4; 5]}.
Definition quorum_2 : gset nat := {[3; 4; 5; 6; 7]}.

Lemma supermajority_intersect_witness :
  size group < 3 * size (quorum_1 ∩ quorum_2) ∧
  (0 < size group → (supermajority (Z.of_nat (size group)) ≤ Z.of_nat (size group))%Z).
Proof.
  apply (supermajority_intersect group quorum_1 quorum_2);
    try (apply (bool_decide_unpack _); vm_compute; exact I); vm_compute; congruence.
Defined.

Definition demo_churn : list Z := replicate 31 7%Z ++ [96%Z].
Lemma relocation_check_is_modulo_witness :
  relocation_check 5 demo_churn = true ↔ (be_value demo_churn mod 2 ^ 5 = 0)%Z.
Proof.
  apply (relocation_check_is_modulo 5 demo_churn); [done| |unfold is_byte; lia].
  unfold demo_churn. apply Forall_app. split; [apply Forall_replicate|repeat constructor];
    unfold is_byte; lia.
Defined.

Definition demo_name (b : bool) : XorName (Xor := concrete_xor) := [false; b; true].
Definition demo_prefix : Prefix (Xor := concrete_xor) := [false].
Definition demo_node (b : bool) (port : Z) : NodeState unit :=
  joined (mkNodeId (demo_name b) (AddrV4 1 port)) None.
Definition demo_members : gmap XorName (NodeState unit) :=
  {[ demo_name false := demo_node false 1 ]}.

Lemma demo_members_ok : members_ok demo_prefix demo_members.
Proof.
  unfold demo_members. split.
  - intros k n [<- <-]%lookup_singleton_Some. done.
  - intros k [n [<- _]%lookup_singleton_Some]. vm_compute. done.
  - intros k k' n n' [<- _]%lookup_singleton_Some [<- _]%lookup_singleton_Some. done.
  - intros []; vm_compute; lia.
Qed.

Lemma accepted_join_preserves_members_witness :
  members_ok demo_prefix (<[demo_name true := demo_node true 2]> demo_members) ∧
  demo_members !! demo_name true = None ∧ demo_name true ∉ (∅ : gset XorName).
Proof.
  apply (accepted_join_preserves_members (demo_node true 2) demo_prefix demo_members ∅);
    [apply demo_members_ok|done|vm_compute; reflexivity].
Defined.

Lemma validate_node_state_errors_witness :
  (px_matches demo_prefix (name (demo_node true 1)) = false ∧
     ExistingMemberSocketAddrConflict = WrongSection) ∨
  (state (demo_node true 1) = Left ∧ demo_members !! demo_name true = None ∧
     ExistingMemberSocketAddrConflict = NotAMember) ∨
  (state (demo_node true 1) = Joined ∧
     ((is_Some (demo_members !! demo_name true) ∧
         ExistingMemberSocketAddrConflict = ExistingMemberNameConflict) ∨
      (section_has_room_for_node (demo_name true) demo_prefix (bmap_iter demo_members).*1 = false ∧
         ExistingMemberSocketAddrConflict = TryJoinLater) ∨
      ((∃ k m, demo_members !! k = Some m ∧ addr m = addr (demo_node true 1)) ∧
         ExistingMemberSocketAddrConflict = ExistingMemberSocketAddrConflict) ∨
      (demo_name true ∈ (∅ : gset XorName) ∧
         ExistingMemberSocketAddrConflict = ArchivedNodeRejoined))).
Proof.
  apply (validate_node_state_errors (demo_node true 1) demo_prefix demo_members ∅).
  vm_compute. reflexivity.
Defined.
End NodeStateDemo.
