(* ===== verification/SectionsDag.v ===== *)
(** * The DAG of section keys

    [sn_interface/src/network_knowledge/sections_dag.rs]: a Merkle DAG of BLS keys
    in which every key but the genesis key is signed by its parent.  The handlers
    that take [&mut self] return the new state with their result; a loop of the
    source runs on fuel and returns [None] only when the fuel runs out. *)

From S2P Require Import Prelude External.

Record SectionInfo `{!Bls} := mkSectionInfo {
  si_key : PublicKey;
  si_sig : Signature;
}.

#[export] Instance section_info_eq_dec `{!Bls} : EqDecision SectionInfo.
Proof. solve_decision. Defined.
#[export] Instance section_info_countable `{!Bls} : Countable SectionInfo :=
  inj_countable' (λ i, (si_key i, si_sig i)) (λ p, mkSectionInfo _ p.1 p.2)
    (λ i, match i with mkSectionInfo _ _ _ => eq_refl end).

Section sections_dag.
Context {B : Bls} {BP : Bincode PublicKey} {M : Merkle SectionInfo}.

Abbreviation INode := (Node (Hash SectionInfo) SectionInfo).

Record SectionsDAG := mkSectionsDAG {
  genesis_key : PublicKey;
  dag : MerkleReg SectionInfo;
  dag_root : gset PublicKey;
  hashes : gmap PublicKey (Hash SectionInfo);
}.

Definition new (genesis : PublicKey) : SectionsDAG :=
  {| genesis_key := genesis; dag := mr_new; dag_root := ∅; hashes := ∅ |}.

Definition verify_sig (parent_key section_key : PublicKey) (sig : Signature) : bool :=
  match bincode_serialize section_key with
  | Some bs => pk_verify parent_key sig bs
  | None => false
  end.

Definition get_hash (d : SectionsDAG) (key : PublicKey) : result Error (Hash SectionInfo) :=
  ok_or (hashes d !! key) (KeyNotFound key).

Definition get_node (d : SectionsDAG) (key : PublicKey) : result Error INode :=
  h ← get_hash d key;
  ok_or (mr_node (dag d) h) (KeyNotFound key).

(** Parents and children are swapped in the register: a section's parent is the
    node its own node has as child. *)
Definition parent_node (d : SectionsDAG) (h : Hash SectionInfo) : option INode :=
  head (mr_children (dag d) h).*2.
Definition child_nodes (d : SectionsDAG) (h : Hash SectionInfo) : list INode :=
  (mr_parents (dag d) h).*2.

Definition non_genesis_leaf_nodes (d : SectionsDAG) : list INode := (mr_read (dag d)).*2.
Definition non_genesis_leaf_sections (d : SectionsDAG) : list SectionInfo :=
  node_value <$> non_genesis_leaf_nodes d.

Definition insert_trusted_key (d : SectionsDAG) (parent_key key : PublicKey) (sig : Signature)
    : SectionsDAG * result Error unit :=
  let write parent root :=
    let child := mr_write (dag d) (mkSectionInfo _ key sig) parent in
    ({| genesis_key := genesis_key d;
        dag := mr_apply (dag d) child;
        dag_root := root;
        hashes := <[key := node_hash child]> (hashes d) |}, Ok ()) in
  if decide (parent_key = genesis_key d) then write ∅ ({[key]} ∪ dag_root d)
  else match hashes d !! parent_key with
       | Some hash => write {[hash]} (dag_root d)
       | None => (d, Err (KeyNotFound parent_key))
       end.

Definition verify_and_insert (d : SectionsDAG) (parent_key key : PublicKey) (sig : Signature)
    : SectionsDAG * result Error unit :=
  if verify_sig parent_key key sig then insert_trusted_key d parent_key key sig
  else (d, Err InvalidSignature).

Definition insert_node (d : SectionsDAG) (parent_key : PublicKey) (node : INode)
    : SectionsDAG * result Error unit :=
  verify_and_insert d parent_key (si_key (node_value node)) (si_sig (node_value node)).

Definition keys (d : SectionsDAG) : list PublicKey :=
  genesis_key d :: ((λ n, si_key (node_value n)) <$> mr_all_nodes (dag d)).

Definition has_key (d : SectionsDAG) (key : PublicKey) : bool :=
  bool_decide (key = genesis_key d) || bool_decide (is_Some (hashes d !! key)).

Definition leaf_keys (d : SectionsDAG) : gset PublicKey :=
  match non_genesis_leaf_sections d with
  | [] => {[genesis_key d]}
  | leaf_sections => list_to_set (si_key <$> leaf_sections)
  end.

Definition last_key (d : SectionsDAG) : result Error PublicKey :=
  match bset_iter (leaf_keys d) with
  | [key] => Ok key
  | _ => Err MultipleBranchError
  end.

Definition check_trust (d : SectionsDAG) (trusted_keys : list PublicKey) : bool :=
  existsb (λ k, bool_decide (k = genesis_key d)) trusted_keys.

Definition get_parent_key (d : SectionsDAG) (key : PublicKey) : result Error (option PublicKey) :=
  if decide (key = genesis_key d) then Ok None
  else h ← get_hash d key;
       Ok (match parent_node d h with
           | Some node => Some (si_key (node_value node))
           | None => Some (genesis_key d)
           end).

Definition get_child_keys (d : SectionsDAG) (key : PublicKey) : result Error (list PublicKey) :=
  if decide (key = genesis_key d) then Ok (bset_iter (dag_root d))
  else h ← get_hash d key;
       Ok ((λ n, si_key (node_value n)) <$> child_nodes d h).

(** Every walk of the DAG visits a node at most once. *)
Definition dag_fuel (d : SectionsDAG) : nat := S (mr_num_nodes (dag d)).

Fixpoint ancestors_loop (fuel : nat) (d : SectionsDAG) (key : PublicKey)
    (ancestors : list PublicKey) : option (result Error (list PublicKey)) :=
  match fuel with
  | O => None
  | S fuel =>
      match get_parent_key d key with
      | Err e => Some (Err e)
      | Ok None => Some (Ok ancestors)
      | Ok (Some parent) => ancestors_loop fuel d parent (ancestors ++ [parent])
      end
  end.

Definition get_ancestors (d : SectionsDAG) (key : PublicKey)
    : option (result Error (list PublicKey)) :=
  ancestors_loop (S (dag_fuel d)) d key [].

(** The inner loop of [self_verify]: verify upwards until a verified parent. *)
Fixpoint verify_loop (fuel : nat) (d : SectionsDAG) (key : PublicKey)
    (verified_keys : gset PublicKey) : option (bool * gset PublicKey) :=
  match fuel with
  | O => None
  | S fuel =>
      match get_parent_key d key with
      | Ok (Some parent) =>
          match get_node d key with
          | Ok node =>
              if verify_sig parent key (si_sig (node_value node)) then
                let verified_keys := {[key]} ∪ verified_keys in
                if decide (parent ∈ verified_keys) then Some (true, verified_keys)
                else verify_loop fuel d parent verified_keys
              else Some (false, verified_keys)
          | Err _ => Some (false, verified_keys)
          end
      | _ => Some (false, verified_keys)
      end
  end.

Fixpoint verify_leaves (d : SectionsDAG) (leaves : list SectionInfo)
    (verified_keys : gset PublicKey) : option bool :=
  match leaves with
  | [] => Some true
  | section :: leaves =>
      match verify_loop (dag_fuel d) d (si_key section) verified_keys with
      | Some (true, verified_keys) => verify_leaves d leaves verified_keys
      | Some (false, _) => Some false
      | None => None
      end
  end.

Definition self_verify (d : SectionsDAG) : option bool :=
  verify_leaves d (non_genesis_leaf_sections d) {[genesis_key d]}.

(** The upward walk of [partial_dag]; the [from] node itself is not collected. *)
Fixpoint partial_loop (fuel : nat) (d : SectionsDAG) (from : PublicKey) (node : INode)
    (crdt_ops : list INode) : option (result Error (list INode)) :=
  match fuel with
  | O => None
  | S fuel =>
      if decide (si_key (node_value node) = from) then Some (Ok crdt_ops)
      else
        let crdt_ops := crdt_ops ++ [node] in
        match parent_node d (node_hash node) with
        | Some parent => partial_loop fuel d from parent crdt_ops
        | None =>
            if decide (from = genesis_key d) then Some (Ok crdt_ops)
            else Some (Err InvalidBranch)
        end
  end.

Fixpoint insert_chain (d : SectionsDAG) (parent : PublicKey) (ops : list INode)
    : result Error SectionsDAG :=
  match ops with
  | [] => Ok d
  | node :: ops =>
      let info := node_value node in
      match insert_trusted_key d parent (si_key info) (si_sig info) with
      | (d, Ok _) => insert_chain d (si_key info) ops
      | (_, Err e) => Err e
      end
  end.

Definition partial_dag (d : SectionsDAG) (from to : PublicKey)
    : option (result Error SectionsDAG) :=
  if decide (to = genesis_key d) then
    if decide (from = genesis_key d) then Some (Ok (new (genesis_key d)))
    else Some (Err InvalidBranch)
  else match get_node d to with
       | Err e => Some (Err e)
       | Ok node =>
           match partial_loop (dag_fuel d) d from node [] with
           | None => None
           | Some (Err e) => Some (Err e)
           | Some (Ok crdt_ops) => Some (insert_chain (new from) from (reverse crdt_ops))
           end
       end.

(** The downward walk of [single_branch_dag_for_key], always to the first child. *)
Fixpoint single_branch_loop (fuel : nat) (d partial : SectionsDAG) (last : PublicKey)
    : option (result Error (SectionsDAG * PublicKey)) :=
  match fuel with
  | O => None
  | S fuel =>
      match get_hash d last with
      | Err e => Some (Err e)
      | Ok h =>
          match child_nodes d h with
          | [] => Some (Ok (partial, last))
          | child :: _ =>
              match insert_node partial last child with
              | (_, Err e) => Some (Err e)
              | (partial, Ok _) => single_branch_loop fuel d partial (si_key (node_value child))
              end
          end
      end
  end.

Definition single_branch_dag_for_key (d : SectionsDAG) (key : PublicKey)
    : option (result Error (SectionsDAG * PublicKey)) :=
  let continue last :=
    match partial_dag d (genesis_key d) last with
    | None => None
    | Some (Err e) => Some (Err e)
    | Some (Ok partial) => single_branch_loop (dag_fuel d) d partial last
    end in
  if decide (genesis_key d = key) then
    match bset_iter (dag_root d) with
    | child_key :: _ => continue child_key
    | [] => Some (Ok (new key, key))
    end
  else continue key.

(** The stack of [merge]: the head of the list is the end of the [Vec]. *)
Fixpoint push_roots (other : SectionsDAG) (roots : list PublicKey)
    (stack : list (PublicKey * INode)) : result Error (list (PublicKey * INode)) :=
  match roots with
  | [] => Ok stack
  | key :: roots =>
      node ← get_node other key;
      push_roots other roots ((genesis_key other, node) :: stack)
  end.

Fixpoint merge_loop (fuel : nat) (d other : SectionsDAG) (stack : list (PublicKey * INode))
    : option (SectionsDAG * result Error unit) :=
  match fuel with
  | O => None
  | S fuel =>
      match stack with
      | [] => Some (d, Ok ())
      | (parent_key, current) :: stack =>
          let children := pair (si_key (node_value current)) <$>
                          child_nodes other (node_hash current) in
          match insert_node d parent_key current with
          | (d, Ok _) => merge_loop fuel d other (reverse children ++ stack)
          | (d, Err e) => Some (d, Err e)
          end
      end
  end.

Definition merge (d other : SectionsDAG) : option (SectionsDAG * result Error unit) :=
  match self_verify other with
  | None => None
  | Some false => Some (d, Err UntrustedProofChain)
  | Some true =>
      let insert_all d other :=
        match push_roots other (bset_iter (dag_root other)) [] with
        | Err e => Some (d, Err e)
        | Ok stack => merge_loop (dag_fuel other) d other stack
        end in
      if has_key d (genesis_key other) then insert_all d other
      else if has_key other (genesis_key d) then insert_all other d
      else Some (d, Err (KeyNotFound (genesis_key d)))
  end.

(** ** Serialisation: the intermediate form lists the sections parents first. *)

Record Intermediate := mkIntermediate {
  inter_genesis_key : PublicKey;
  inter_sections : list (PublicKey * SectionInfo);
}.

Fixpoint serialize_loop (fuel : nat) (d : SectionsDAG) (already_visited : gset PublicKey)
    (node : INode) (ancestors : list (PublicKey * SectionInfo))
    : option (list (PublicKey * SectionInfo)) :=
  match fuel with
  | O => None
  | S fuel =>
      if decide (si_key (node_value node) ∈ already_visited) then Some ancestors
      else match parent_node d (node_hash node) with
           | None => Some (ancestors ++ [(genesis_key d, node_value node)])
           | Some parent =>
               serialize_loop fuel d already_visited parent
                 (ancestors ++ [(si_key (node_value parent), node_value node)])
           end
  end.

Fixpoint serialize_leaves (d : SectionsDAG) (leaves : list INode)
    (already_visited : gset PublicKey) (sections : list (PublicKey * SectionInfo))
    : option (list (PublicKey * SectionInfo)) :=
  match leaves with
  | [] => Some sections
  | leaf :: leaves =>
      match serialize_loop (dag_fuel d) d already_visited leaf [] with
      | None => None
      | Some ancestors =>
          serialize_leaves d leaves
            (already_visited ∪ list_to_set ((λ s, si_key s.2) <$> ancestors))
            (sections ++ reverse ancestors)
      end
  end.

Definition serialize (d : SectionsDAG) : option Intermediate :=
  mkIntermediate (genesis_key d) <$> serialize_leaves d (non_genesis_leaf_nodes d) ∅ [].

Fixpoint insert_sections (d : SectionsDAG) (sections : list (PublicKey * SectionInfo))
    : result Error SectionsDAG :=
  match sections with
  | [] => Ok d
  | (parent, info) :: sections =>
      match verify_and_insert d parent (si_key info) (si_sig info) with
      | (d, Ok _) => insert_sections d sections
      | (_, Err e) => Err e
      end
  end.

Definition deserialize (inter : Intermediate) : result Error SectionsDAG :=
  insert_sections (new (inter_genesis_key inter)) (inter_sections inter).

End sections_dag.
