(* ===== verification/SectionsDagSpec.v ===== *)
(** * The DAG of section keys refines a signed key tree

    The abstract state is a tree of key entries, written newest first: each entry
    names its parent and carries the parent's signature.  [repr d t] relates a
    [SectionsDAG] to a tree; every operation is characterised over the tree. *)

From S2P Require Import Prelude External SectionsDag.

Section spec.
Context {B : Bls} {BP : Bincode PublicKey} {M : Merkle SectionInfo} {ML : MerkleLaws SectionInfo}.
Implicit Types (d : SectionsDAG) (k p g : PublicKey) (s : Signature).

Record entry := mkEntry { e_key : PublicKey; e_parent : PublicKey; e_sig : Signature }.
Implicit Types (e : entry) (t u : list entry).

Definition tree_keys g t : list PublicKey := g :: (e_key <$> t).

(** A tree grows by fresh keys under keys that are already there. *)
Fixpoint tree_wf g t : Prop :=
  match t with
  | [] => True
  | e :: t => tree_wf g t ∧ e_key e ∉ tree_keys g t ∧ e_parent e ∈ tree_keys g t
  end.

Definition e_signed e : bool := verify_sig (e_parent e) (e_key e) (e_sig e).

(** The keys from the parent of [k] up to the genesis key. *)
Fixpoint tree_path t k : list PublicKey :=
  match t with
  | [] => []
  | e :: t => if decide (k = e_key e) then e_parent e :: tree_path t (e_parent e)
              else tree_path t k
  end.

(** The entries from [k] up to the one below [from], if [from] is above [k]. *)
Fixpoint tree_branch t from k : option (list entry) :=
  if decide (k = from) then Some []
  else match t with
       | [] => None
       | e :: t => if decide (k = e_key e) then cons e <$> tree_branch t from (e_parent e)
                   else tree_branch t from k
       end.

Definition tree_leaf t e : Prop := e ∈ t ∧ ∀ e', e' ∈ t → e_parent e' ≠ e_key e.

Definition parent_set d e : gset (Hash SectionInfo) :=
  if decide (e_parent e = genesis_key d) then ∅
  else match hashes d !! e_parent e with Some h => {[h]} | None => ∅ end.
Definition node_of d e : Node (Hash SectionInfo) SectionInfo :=
  mkNode (mkSectionInfo _ (e_key e) (e_sig e)) (parent_set d e).

Record repr d t : Prop := {
  repr_wf : tree_wf (genesis_key d) t;
  repr_orphans : mr_orphans (dag d) = ∅;
  repr_hash e : e ∈ t → hashes d !! e_key e = Some (node_hash (node_of d e));
  repr_hash_key k h : hashes d !! k = Some h → k ∈ e_key <$> t;
  repr_root k : k ∈ dag_root d ↔ ∃ e, e ∈ t ∧ e_key e = k ∧ e_parent e = genesis_key d;
  repr_node e : e ∈ t → mr_dag (dag d) !! node_hash (node_of d e) = Some (node_of d e);
  repr_dag h n : mr_dag (dag d) !! h = Some n → ∃ e, e ∈ t ∧ n = node_of d e;
}.

(** ** Trees *)

Lemma tree_wf_app g t t' : tree_wf g (t ++ t') → tree_wf g t'.
Proof. induction t; simpl; naive_solver. Qed.

Lemma tree_wf_NoDup g t : tree_wf g t → NoDup (tree_keys g t).
Proof.
  induction t as [|e t IH]; simpl; [intros _; apply NoDup_singleton|].
  intros (Hwf & Hk & _). specialize (IH Hwf). unfold tree_keys in *. simpl.
  apply NoDup_cons in IH as [Hg Ht]. rewrite !NoDup_cons. set_solver.
Qed.

Lemma tree_wf_not_genesis g t e : tree_wf g t → e ∈ t → e_key e ≠ g.
Proof.
  intros Hwf%tree_wf_NoDup He. apply NoDup_cons in Hwf as [Hg _]. intros <-. apply Hg.
  by apply list_elem_of_fmap_2.
Qed.

Lemma tree_wf_inj g t e e' : tree_wf g t → e ∈ t → e' ∈ t → e_key e = e_key e' → e = e'.
Proof.
  intros Hwf%tree_wf_NoDup He He' Heq. apply NoDup_cons in Hwf as [_ Hnd].
  revert He He' Hnd. induction t as [|x t IH]; [set_solver|].
  rewrite !elem_of_cons. simpl. rewrite NoDup_cons. intros [->|He] [->|He'] [Hx Hnd]; auto.
  - destruct Hx. rewrite Heq. by apply list_elem_of_fmap_2.
  - destruct Hx. rewrite <-Heq. by apply list_elem_of_fmap_2.
Qed.

Lemma tree_wf_parent g t e : tree_wf g t → e ∈ t → e_parent e ∈ tree_keys g t.
Proof.
  induction t as [|x t IH]; [set_solver|]. simpl. intros (Hwf & _ & Hp) [->|He]%elem_of_cons.
  - unfold tree_keys in *. set_solver.
  - specialize (IH Hwf He). unfold tree_keys in *. set_solver.
Qed.

Lemma tree_wf_parent_ne g t e : tree_wf g t → e ∈ t → e_parent e ≠ e_key e.
Proof.
  induction t as [|x t IH]; [set_solver|]. simpl. intros (Hwf & Hk & Hp) [->|He]%elem_of_cons.
  - congruence.
  - auto.
Qed.

Lemma tree_keys_cases g t k : k ∈ tree_keys g t ↔ k = g ∨ ∃ e, e ∈ t ∧ e_key e = k.
Proof. unfold tree_keys. rewrite elem_of_cons, list_elem_of_fmap. naive_solver. Qed.

Lemma tree_parent_cases g t e :
  tree_wf g t → e ∈ t → e_parent e = g ∨ ∃ e', e' ∈ t ∧ e_key e' = e_parent e.
Proof. intros Hwf He. by apply tree_keys_cases, tree_wf_parent. Qed.

(** ** Reading a represented DAG *)

Section read.
Context d t (R : repr d t).
Let g := genesis_key d.

Lemma repr_has_key k : has_key d k = true ↔ k ∈ tree_keys g t.
Proof using R.
  unfold has_key. rewrite orb_true_iff, !bool_decide_eq_true, tree_keys_cases. subst g.
  split; (intros [?|Hk]; [by left|right]).
  - destruct Hk as [h Hh%(repr_hash_key _ _ R)]. apply list_elem_of_fmap in Hh. naive_solver.
  - destruct Hk as (e & He & <-). rewrite (repr_hash _ _ R e He). eauto.
Qed.

Lemma repr_known h : mr_known (dag d) !! h = mr_dag (dag d) !! h.
Proof using R. unfold mr_known. rewrite (repr_orphans _ _ R). by rewrite (right_id_L _ _). Qed.

Lemma repr_hash_inj e e' :
  e ∈ t → e' ∈ t → node_hash (node_of d e) = node_hash (node_of d e') → e = e'.
Proof using R ML.
  intros He He' Heq%node_hash_inj. injection Heq as Hk _.
  eapply tree_wf_inj; eauto using repr_wf.
Qed.

Lemma repr_get_node e : e ∈ t → get_node d (e_key e) = Ok (node_of d e).
Proof using R ML.
  intros He. unfold get_node, get_hash. rewrite (repr_hash _ _ R e He). simpl.
  by rewrite mr_node_spec, repr_known, (repr_node _ _ R).
Qed.

Lemma repr_get_hash_None k : k ∉ e_key <$> t → hashes d !! k = None.
Proof using R. intros Hk. apply eq_None_not_Some. intros [h Hh%(repr_hash_key _ _ R)]. done. Qed.

Lemma repr_parent_node_genesis e :
  e ∈ t → e_parent e = g → parent_node d (node_hash (node_of d e)) = None.
Proof using R ML.
  intros He Hp. unfold parent_node.
  destruct (mr_children (dag d) _) as [|[h' n'] l] eqn:Hc; [done|].
  assert ((h', n') ∈ mr_children (dag d) (node_hash (node_of d e))) as Hin
    by (rewrite Hc; left).
  apply mr_children_spec in Hin as (n & Hn & Hin & _).
  rewrite repr_known, (repr_node _ _ R) in Hn by done. simplify_eq.
  unfold node_of, parent_set in Hin. simpl in Hin. by rewrite decide_True in Hin.
Qed.

Lemma repr_parent_node e e' :
  e ∈ t → e' ∈ t → e_parent e = e_key e' →
  parent_node d (node_hash (node_of d e)) = Some (node_of d e').
Proof using R ML.
  intros He He' Hp.
  assert (parent_set d e = {[node_hash (node_of d e')]}) as Hps.
  { unfold parent_set. rewrite decide_False.
    - by rewrite Hp, (repr_hash _ _ R).
    - rewrite Hp. eapply tree_wf_not_genesis; eauto using repr_wf. }
  assert (∀ h' n', (h', n') ∈ mr_children (dag d) (node_hash (node_of d e)) ↔
    h' = node_hash (node_of d e') ∧ n' = node_of d e') as Hin.
  { intros h' n'. rewrite mr_children_spec, repr_known, (repr_node _ _ R) by done.
    split.
    - intros (n & [= <-] & Hh & Hd). simpl in Hh. rewrite Hps in Hh.
      apply elem_of_singleton in Hh as ->. rewrite (repr_node _ _ R) in Hd by done. naive_solver.
    - intros [-> ->]. eexists. split; [done|]. simpl. rewrite Hps.
      split; [set_solver|]. by apply (repr_node _ _ R). }
  unfold parent_node. destruct (mr_children (dag d) _) as [|[h' n'] l].
  - exfalso. apply (not_elem_of_nil (node_hash (node_of d e'), node_of d e')). by apply Hin.
  - simpl. f_equal. eapply Hin. left.
Qed.

Lemma repr_get_parent_key e : e ∈ t → get_parent_key d (e_key e) = Ok (Some (e_parent e)).
Proof using R ML.
  intros He. unfold get_parent_key, get_hash.
  rewrite decide_False by (eapply tree_wf_not_genesis; eauto using repr_wf).
  rewrite (repr_hash _ _ R e He). simpl.
  destruct (tree_parent_cases _ _ _ (repr_wf _ _ R) He) as [Hp|(e' & He' & Hp)].
  - rewrite repr_parent_node_genesis by done. by rewrite Hp.
  - rewrite (repr_parent_node e e') by done. simpl. by rewrite Hp.
Qed.

Lemma repr_child_nodes e n :
  e ∈ t → n ∈ child_nodes d (node_hash (node_of d e)) ↔
          ∃ e', e' ∈ t ∧ e_parent e' = e_key e ∧ n = node_of d e'.
Proof using R ML.
  intros He. unfold child_nodes. rewrite list_elem_of_fmap. split.
  - intros ([h n'] & -> & Hin). apply mr_parents_spec in Hin as [Hd Hc]. simpl.
    destruct (repr_dag _ _ R _ _ Hd) as (e' & He' & ->). exists e'. split; [done|].
    split; [|done]. simpl in Hc. unfold parent_set in Hc. case_decide; [set_solver|].
    destruct (tree_parent_cases _ _ _ (repr_wf _ _ R) He') as [?|(e'' & He'' & Hk)]; [done|]. rewrite <-Hk, (repr_hash _ _ R) in Hc by done.
    apply elem_of_singleton in Hc. by rewrite <-Hk, (repr_hash_inj e e'').
  - intros (e' & He' & Hp & ->). exists (node_hash (node_of d e'), node_of d e').
    split; [done|]. apply mr_parents_spec. split; [by apply (repr_node _ _ R)|].
    simpl. unfold parent_set. rewrite Hp, decide_False, (repr_hash _ _ R) by first [done | by eapply tree_wf_not_genesis, He; apply (repr_wf _ _ R)]. set_solver.
Qed.

Lemma repr_leaf_nodes n :
  n ∈ non_genesis_leaf_nodes d ↔ ∃ e, tree_leaf t e ∧ n = node_of d e.
Proof using R ML.
  unfold non_genesis_leaf_nodes. rewrite list_elem_of_fmap. split.
  - intros ([h n'] & -> & [Hd Hl]%mr_read_spec). simpl.
    destruct (repr_dag _ _ R _ _ Hd) as (e & He & ->). exists e. split; [|done].
    split; [done|]. intros e' He' Hp.
    apply (Hl (node_hash (node_of d e')) (node_of d e')); [by apply (repr_node _ _ R)|].
    assert (h = node_hash (node_of d e)) as ->.
    { eapply mr_known_hash. by rewrite repr_known. }
    simpl. unfold parent_set. rewrite Hp, decide_False, (repr_hash _ _ R) by first [done | by eapply tree_wf_not_genesis, He; apply (repr_wf _ _ R)]. set_solver.
  - intros (e & [He Hl] & ->). exists (node_hash (node_of d e), node_of d e). split; [done|].
    apply mr_read_spec. split; [by apply (repr_node _ _ R)|]. intros h' n' Hn' Hin.
    destruct (repr_dag _ _ R _ _ Hn') as (e' & He' & ->). simpl in Hin. unfold parent_set in Hin.
    case_decide; [set_solver|].
    destruct (tree_parent_cases _ _ _ (repr_wf _ _ R) He') as [?|(e'' & He'' & Hk)]; [done|]. rewrite <-Hk, (repr_hash _ _ R) in Hin by done.
    apply elem_of_singleton in Hin. apply repr_hash_inj in Hin as <-; [|done..].
    by apply (Hl e').
Qed.

Lemma repr_num_nodes : mr_num_nodes (dag d) = length t.
Proof using R ML.
  rewrite mr_num_nodes_spec, <-size_dom.
  assert (dom (mr_dag (dag d)) = list_to_set ((λ e, node_hash (node_of d e)) <$> t)) as ->.
  { apply set_eq. intros h. rewrite elem_of_dom, elem_of_list_to_set, list_elem_of_fmap. split.
    - intros [n Hn]. destruct (repr_dag _ _ R _ _ Hn) as (e & He & ->). exists e. split; [|done].
      eapply mr_known_hash. by rewrite repr_known.
    - intros (e & -> & He). eexists. by apply (repr_node _ _ R). }
  rewrite size_list_to_set, length_fmap; [done|].
  apply NoDup_fmap_2_strong.
  - intros e e' He He'. by apply repr_hash_inj.
  - pose proof (tree_wf_NoDup _ _ (repr_wf _ _ R)) as [_ Hnd]%NoDup_cons.
    by eapply NoDup_fmap_1.
Qed.
End read.

(** ** Growing a represented DAG *)

Lemma repr_new g : repr (new g) [].
Proof using ML.
  split; simpl; rewrite ?mr_new_dag, ?mr_new_orphans; try done; set_solver.
Qed.

Lemma insert_child d t p k s :
  repr d t → p ∈ tree_keys (genesis_key d) t →
  insert_trusted_key d p k s =
    let child := mkNode (mkSectionInfo _ k s) (parent_set d (mkEntry k p s)) in
    ({| genesis_key := genesis_key d;
        dag := mr_apply (dag d) child;
        dag_root := if decide (p = genesis_key d) then {[k]} ∪ dag_root d else dag_root d;
        hashes := <[k := node_hash child]> (hashes d) |}, Ok ()).
Proof using ML.
  intros R Hp. unfold insert_trusted_key, parent_set. simpl.
  destruct (decide (p = genesis_key d)); rewrite ?mr_write_spec; [done|].
  apply tree_keys_cases in Hp as [?|(e & He & <-)]; [done|].
  rewrite (repr_hash _ _ R e He). by rewrite mr_write_spec.
Qed.

Lemma insert_child_dag d t e :
  repr d t → e_parent e ∈ tree_keys (genesis_key d) t →
  mr_dag (mr_apply (dag d) (node_of d e)) = <[node_hash (node_of d e) := node_of d e]> (mr_dag (dag d))
  ∧ mr_orphans (mr_apply (dag d) (node_of d e)) = ∅.
Proof using ML.
  intros R Hp. apply mr_apply_ready; [apply (repr_orphans _ _ R)|].
  simpl. intros c. unfold parent_set. case_decide; [set_solver|].
  apply tree_keys_cases in Hp as [?|(e' & He' & <-)]; [done|].
  rewrite (repr_hash _ _ R e' He'). intros ->%elem_of_singleton.
  rewrite (repr_node _ _ R e' He'). eauto.
Qed.

(** Inserting a fresh key under a known one adds its entry to the tree. *)
Lemma insert_trusted_key_repr d t p k s :
  repr d t → p ∈ tree_keys (genesis_key d) t → k ∉ tree_keys (genesis_key d) t →
  ∃ d', insert_trusted_key d p k s = (d', Ok ()) ∧
        genesis_key d' = genesis_key d ∧ repr d' (mkEntry k p s :: t).
Proof using ML.
  intros R Hp Hk. rewrite (insert_child d t) by done. set (e0 := mkEntry k p s).
  eexists. split; [done|]. split; [done|].
  destruct (insert_child_dag d t e0 R Hp) as [Hd Ho].
  set (d' := {| genesis_key := genesis_key d |}).
  assert (∀ e, e_parent e ∈ tree_keys (genesis_key d) t → node_of d' e = node_of d e) as Hnode.
  { intros e He. unfold node_of, parent_set. simpl. case_decide; [done|].
    rewrite lookup_insert_ne; [done|]. intros ->. done. }
  assert (∀ e, e ∈ e0 :: t → e_parent e ∈ tree_keys (genesis_key d) t) as Hpar.
  { intros e [->|He]%elem_of_cons; [done|]. eapply tree_wf_parent; eauto using repr_wf. }
  assert (∀ e, e ∈ t → e_key e ≠ k) as Hfresh.
  { intros e He Heq. apply Hk, tree_keys_cases. eauto. }
  split.
  - simpl. eauto using repr_wf.
  - done.
  - intros e He. rewrite (Hnode e) by auto. simpl. apply elem_of_cons in He as [->|He].
    + by rewrite lookup_insert_eq.
    + rewrite lookup_insert_ne by (intros ?; by apply (Hfresh e)). by apply (repr_hash _ _ R).
  - intros k' h'. simpl. rewrite lookup_insert. case_decide; [set_solver|].
    intros ?%(repr_hash_key _ _ R). set_solver.
  - intros k'. simpl. pose proof (repr_root _ _ R k') as Hr. setoid_rewrite elem_of_cons.
    subst e0. case_decide; simpl; [rewrite elem_of_union, elem_of_singleton, Hr|rewrite Hr];
      split.
    + intros [->|(e & ? & ? & ?)]; [eexists; split; [by left|done]|naive_solver].
    + intros (e & [->|He] & <- & ?); [by left|right; eauto].
    + naive_solver.
    + intros (e & [->|He] & <- & ?); [done|eauto].
  - intros e He. rewrite (Hnode e) by auto. simpl. change (mkNode _ _) with (node_of d e0).
    rewrite Hd, lookup_insert. case_decide as Heq.
    + f_equal. by apply node_hash_inj.
    + apply elem_of_cons in He as [->|He]; [done|]. by apply (repr_node _ _ R).
  - intros h n. simpl. change (mkNode _ _) with (node_of d e0). rewrite Hd, lookup_insert.
    case_decide as Heq.
    + intros [= <-]. exists e0. split; [by left|]. by rewrite Hnode.
    + intros (e & He & ->)%(repr_dag _ _ R). exists e. split; [by right|].
      rewrite Hnode; [done|]. apply Hpar. by right.
Qed.

(** Inserting an entry again leaves the represented tree as it is. *)
Lemma insert_trusted_key_again d t e :
  repr d t → e ∈ t →
  ∃ d', insert_trusted_key d (e_parent e) (e_key e) (e_sig e) = (d', Ok ()) ∧
        genesis_key d' = genesis_key d ∧ repr d' t.
Proof using ML.
  intros R He. pose proof (tree_wf_parent _ _ _ (repr_wf _ _ R) He) as Hp.
  rewrite (insert_child d t) by done. eexists. split; [done|]. split; [done|].
  destruct (insert_child_dag d t e R Hp) as [Hd Ho].
  rewrite insert_id in Hd by (by apply (repr_node _ _ R)).
  replace (mkEntry (e_key e) (e_parent e) (e_sig e)) with e by (by destruct e).
  change (mkNode _ (parent_set d e)) with (node_of d e). simpl.
  rewrite (insert_id (hashes d)) by (by apply (repr_hash _ _ R)).
  assert ((if decide (e_parent e = genesis_key d) then {[e_key e]} ∪ dag_root d else dag_root d)
    = dag_root d) as ->.
  { case_decide; [|done]. assert (e_key e ∈ dag_root d); [|set_solver].
    apply (repr_root _ _ R). eauto. }
  split; simpl; rewrite ?Hd; try apply R; done.
Qed.
End spec.
