(* ===== verification/SectionsDagWalk.v ===== *)
(** * The walks of the section-key DAG

    Each loop of [sections_dag.rs] ends within its fuel and computes the matching
    function of the key tree: ancestors, verification, partial chains. *)

From S2P Require Import Prelude External SectionsDag SectionsDagSpec.

Section walk.
Context {B : Bls} {BP : Bincode PublicKey} {M : Merkle SectionInfo} {ML : MerkleLaws SectionInfo}.
Implicit Types (d : SectionsDAG) (k p g from : PublicKey) (e : entry) (t u : list entry).

(** ** Trees: paths and branches of a suffix *)

Lemma tree_path_genesis g t : tree_wf g t → tree_path t g = [].
Proof.
  induction t as [|e t IH]; simpl; [done|]. intros (Hwf & Hk & _).
  rewrite decide_False; [auto|]. intros ->. apply Hk. left.
Qed.

Lemma tree_branch_genesis g t from : tree_wf g t → from ≠ g → tree_branch t from g = None.
Proof.
  intros Hwf Hne. induction t as [|e t IH]; simpl in *; rewrite decide_False by done; [done|].
  destruct Hwf as (Hwf & Hk & _). rewrite decide_False; [auto|]. intros ->. apply Hk. left.
Qed.

Lemma tree_branch_self t k : tree_branch t k k = Some [].
Proof. destruct t; simpl; by rewrite decide_True. Qed.

(** A branch ends in [k], starts below [from], and is a tree over [from]. *)
Inductive chain from : PublicKey → list entry → Prop :=
  | chain_nil : chain from from []
  | chain_cons e b : chain from (e_parent e) b → chain from (e_key e) (e :: b).

Lemma tree_branch_sub t from k b e :
  tree_branch t from k = Some b → e ∈ b → e ∈ t ∧ e_key e ≠ from.
Proof.
  revert k b. induction t as [|x t IH]; simpl; intros k b; case_decide; intros; simplify_eq;
    [set_solver..|].
  case_decide; subst.
  - apply fmap_Some in H0 as (b' & Hb' & ->). apply elem_of_cons in H1 as [->|He].
    + split; [by left|done].
    + destruct (IH _ _ Hb' He). split; [by right|done].
  - destruct (IH _ _ H0 H1). split; [by right|done].
Qed.

Lemma tree_branch_chain g t from k b :
  tree_wf g t → tree_branch t from k = Some b → chain from k b ∧ tree_wf from b.
Proof.
  revert k b. induction t as [|x t IH]; simpl; intros k b Hwf; case_decide; intros; simplify_eq;
    try (split; [constructor|done]).
  destruct Hwf as (Hwf & Hk & Hp). case_decide; subst; [|eauto].
  apply fmap_Some in H0 as (b' & Hb' & ->). destruct (IH _ _ Hwf Hb') as [Hc Hwf'].
  split; [by constructor|]. simpl. split_and!; [done| |].
  - apply not_elem_of_cons. split; [done|]. intros (e & Heq & He)%list_elem_of_fmap.
    apply Hk. destruct (tree_branch_sub _ _ _ _ _ Hb' He) as [He' _].
    apply tree_keys_cases. eauto.
  - inversion Hc; [left|right; left]; done.
Qed.

(** ** get_ancestors *)

Lemma ancestors_loop_spec d t1 t2 fuel k acc :
  repr d (t1 ++ t2) → length t2 < fuel → k ∈ tree_keys (genesis_key d) t2 →
  ancestors_loop fuel d k acc = Some (Ok (acc ++ tree_path t2 k)).
Proof.
  intros R. revert t1 R fuel k acc. induction t2 as [|e t2 IH]; intros t1 R [|fuel] k acc Hf Hk;
    simpl in Hf; try lia; simpl.
  - apply elem_of_cons in Hk as [->|Hk]; [|set_solver].
    unfold get_parent_key. rewrite decide_True by done. by rewrite app_nil_r.
  - pose proof (tree_wf_app _ _ _ (repr_wf _ _ R)) as Hwf. simpl in Hwf.
    destruct Hwf as (Hwf & Hfresh & Hp).
    assert (repr d ((t1 ++ [e]) ++ t2)) as R' by (by rewrite <-(assoc_L (++))).
    case_decide; subst.
    + rewrite (repr_get_parent_key d _ R) by set_solver.
      rewrite (IH _ R') by (lia || done). by rewrite <-(assoc_L (++)).
    + change (ancestors_loop (S fuel) d k acc = Some (Ok (acc ++ tree_path t2 k))).
      apply (IH _ R'); [lia|]. unfold tree_keys in *. set_solver.
Qed.

Lemma repr_fuel d t : repr d t → dag_fuel d = S (length t).
Proof. intros R. unfold dag_fuel. by rewrite (repr_num_nodes d t). Qed.

Lemma get_ancestors_repr d t k :
  repr d t →
  get_ancestors d k =
    Some (if decide (k ∈ tree_keys (genesis_key d) t) then Ok (tree_path t k)
          else Err (KeyNotFound k)).
Proof.
  intros R. unfold get_ancestors. rewrite (repr_fuel d t R). case_decide.
  - rewrite (ancestors_loop_spec d [] t) by (done || lia). done.
  - simpl. unfold get_parent_key, get_hash.
    rewrite decide_False by (unfold tree_keys in *; set_solver).
    rewrite (repr_get_hash_None d t) by (done || unfold tree_keys in *; set_solver). done.
Qed.

(** ** self_verify *)

(** All keys but the one being climbed from have their parent verified. *)
Definition verified_upto g t k (V : gset PublicKey) : Prop :=
  g ∈ V ∧ ∀ e, e ∈ t → e_key e ∈ V → e_signed e = true ∧ (e_parent e ∈ V ∨ e_parent e = k).

Lemma verify_loop_spec d t1 t2 fuel k V :
  repr d (t1 ++ t2) → length t2 ≤ fuel → k ∈ e_key <$> t2 →
  verified_upto (genesis_key d) (t1 ++ t2) k V →
  ∃ ok V', verify_loop fuel d k V = Some (ok, V') ∧
    (ok = true → V ⊆ V' ∧ k ∈ V' ∧ verified_upto (genesis_key d) (t1 ++ t2) (genesis_key d) V') ∧
    (ok = false → ∃ e, e ∈ t1 ++ t2 ∧ e_signed e = false).
Proof.
  intros R. revert t1 R fuel k V. induction t2 as [|e t2 IH]; intros t1 R fuel k V Hf Hk HV.
  { set_solver. }
  assert (repr d ((t1 ++ [e]) ++ t2)) as R' by (by rewrite <-(assoc_L (++))).
  pose proof (tree_wf_app _ _ _ (repr_wf _ _ R)) as Hwf. simpl in Hwf.
  destruct Hwf as (Hwf & Hfresh & Hp). simpl in Hf. destruct fuel as [|fuel]; [lia|].
  destruct (decide (k = e_key e)) as [->|Hne]; cycle 1.
  { specialize (IH _ R' (S fuel) k V). rewrite <-(assoc_L (++)) in IH. apply IH; [lia| |done].
    set_solver. }
  assert (e ∈ t1 ++ e :: t2) as He by set_solver.
  cbn [verify_loop]. rewrite (repr_get_parent_key d _ R), (repr_get_node d _ R) by done. simpl.
  fold (e_signed e). destruct (e_signed e) eqn:Hs; cycle 1.
  { eexists _, _. split; [done|]. split; [done|]. eauto. }
  assert (verified_upto (genesis_key d) (t1 ++ e :: t2) (e_parent e) ({[e_key e]} ∪ V)) as HV'.
  { destruct HV as [Hg HV]. split; [set_solver|]. intros e' He' Hin.
    apply elem_of_union in Hin as [Hin%elem_of_singleton|Hin].
    - assert (e' = e) as -> by (eapply tree_wf_inj; [apply (repr_wf _ _ R)|done..]). auto.
    - destruct (HV e' He' Hin) as [? Hor]. split; [done|]. left. set_solver. }
  case_decide as Hpar.
  - eexists _, _. split; [done|]. split; [|done]. intros _. split_and!; [set_solver..|].
    destruct HV' as [Hg HV']. split; [done|]. intros e' He' Hin.
    destruct (HV' e' He' Hin) as [? [?|Heq]]; [auto|]. split; [done|]. left. by rewrite Heq.
  - assert (e_parent e ∈ e_key <$> t2) as Hpt.
    { apply elem_of_cons in Hp as [Hg|Hp]; [|done]. destruct Hpar. rewrite Hg.
      apply elem_of_union_r, HV. }
    destruct (IH _ R' fuel (e_parent e) ({[e_key e]} ∪ V)) as (ok & V' & Hl & Hok & Hbad).
    { lia. } { done. } { by rewrite <-(assoc_L (++)). }
    rewrite <-(assoc_L (++)) in Hok, Hbad. exists ok, V'. split; [done|]. split; [|done].
    intros Ht. destruct (Hok Ht) as (? & ? & ?). set_solver.
Qed.

Lemma verify_leaves_spec d t leaves V :
  repr d t → (∀ i, i ∈ leaves → si_key i ∈ e_key <$> t) →
  verified_upto (genesis_key d) t (genesis_key d) V →
  ∃ ok, verify_leaves d leaves V = Some ok ∧
    (ok = true → ∃ V', V ⊆ V' ∧ list_to_set (si_key <$> leaves) ⊆ V' ∧
                       verified_upto (genesis_key d) t (genesis_key d) V') ∧
    (ok = false → ∃ e, e ∈ t ∧ e_signed e = false).
Proof.
  intros R. revert V. induction leaves as [|i leaves IH]; intros V Hl HV; cbn [verify_leaves].
  { eexists. split; [done|]. split; [|done]. exists V. set_solver. }
  destruct (verify_loop_spec d [] t (dag_fuel d) (si_key i) V) as (ok & V' & -> & Hok & Hbad).
  - done.
  - rewrite (repr_fuel d t R). lia.
  - apply Hl. left.
  - destruct HV as [Hg HV]. split; [done|]. intros e He Hin. destruct (HV e He Hin) as [? [?|Heq]].
    + auto.
    + split; [done|]. left. by rewrite Heq.
  - destruct ok; cycle 1.
    { eexists. split; [done|]. split; [done|]. auto. }
    destruct (Hok eq_refl) as (HVV & Hi & HV'). simpl in HV'.
    destruct (IH V') as (ok & -> & Hok' & Hbad'); [set_solver|done|].
    exists ok. split; [done|]. split; [|done]. intros Ht. destruct (Hok' Ht) as (V'' & ? & ? & ?).
    exists V''. set_solver.
Qed.

(** Every entry lies on the path of some leaf: a set that contains the leaves and
    is closed under parents contains every key. *)
Lemma leaves_cover g t (V : gset PublicKey) :
  tree_wf g t →
  (∀ e, tree_leaf t e → e_key e ∈ V) →
  (∀ e, e ∈ t → e_key e ∈ V → e_parent e ∈ V) →
  ∀ e, e ∈ t → e_key e ∈ V.
Proof.
  intros Hwf Hl Hc.
  assert (∀ t1 t2, t = t1 ++ t2 → ∀ e, e ∈ t1 → e_key e ∈ V) as H.
  { intros t1. induction t1 as [|x t1 IH] using rev_ind; [set_solver|].
    intros t2 Ht e [He|He%list_elem_of_singleton]%elem_of_app.
    { apply (IH (x :: t2)); [|done]. by rewrite Ht, <-(assoc_L (++)). }
    subst e. rewrite <-(assoc_L (++)) in Ht. simpl in Ht.
    destruct (decide (Exists (λ e', e_parent e' = e_key x) t)) as [Hex|Hno].
    - apply Exists_exists in Hex as (e' & He' & Hp).
      assert (e' ∈ t1) as Hin.
      { rewrite Ht, elem_of_app, elem_of_cons in He'.
        destruct He' as [?|He']; [done|]. exfalso.
        assert (tree_wf g (x :: t2)) as Hw by (apply (tree_wf_app g t1); by rewrite <-Ht).
        destruct He' as [->|He'].
        - eapply tree_wf_parent_ne; [exact Hw|left|done].
        - destruct Hw as (Hw & Hf & _). apply Hf. rewrite <-Hp. by eapply tree_wf_parent. }
      rewrite <-Hp. apply Hc; [set_solver|]. by apply (IH (x :: t2)).
    - apply Hl. split; [set_solver|]. intros e' He' Hp. apply Hno, Exists_exists. eauto. }
  intros e He. apply (H t []); [by rewrite app_nil_r|done].
Qed.

(** self_verify decides that every entry is signed by its parent. *)
Lemma self_verify_repr d t : repr d t → self_verify d = Some (forallb e_signed t).
Proof.
  intros R. unfold self_verify.
  destruct (verify_leaves_spec d t (non_genesis_leaf_sections d) {[genesis_key d]})
    as (ok & -> & Hok & Hbad); [done| | |].
  - intros i. unfold non_genesis_leaf_sections. rewrite list_elem_of_fmap.
    intros (n & -> & Hn). apply (repr_leaf_nodes d t R) in Hn as (e & [He _] & ->). simpl.
    by apply list_elem_of_fmap_2.
  - split; [set_solver|]. intros e He Hg%elem_of_singleton_1.
    destruct (tree_wf_not_genesis _ _ _ (repr_wf _ _ R) He Hg).
  - f_equal. destruct ok.
    + symmetry. apply forallb_forall. intros e He%list_elem_of_In.
      destruct (Hok eq_refl) as (V & _ & Hl & Hg & HV).
      eapply HV; [done|]. eapply leaves_cover; eauto using repr_wf.
      * intros e' Hle. apply Hl, elem_of_list_to_set, list_elem_of_fmap.
        exists (node_value (node_of d e')). split; [done|].
        apply list_elem_of_fmap. exists (node_of d e'). split; [done|].
        apply (repr_leaf_nodes d t R). eauto.
      * intros e' He' Hin. destruct (HV e' He' Hin) as [_ [?|Heq]]; [done|]. by rewrite Heq.
    + destruct (Hbad eq_refl) as (e & He & Hs). symmetry. apply not_true_is_false.
      rewrite forallb_forall. intros Hall. specialize (Hall e).
      rewrite <-list_elem_of_In in Hall. rewrite Hall in Hs; done.
Qed.
End walk.
