(* ===== verification/SectionsDagChain.v ===== *)
(** * Partial chains and merging of the section-key DAG *)

From S2P Require Import Prelude External SectionsDag SectionsDagSpec SectionsDagWalk.

Section chains.
Context {B : Bls} {BP : Bincode PublicKey} {M : Merkle SectionInfo} {ML : MerkleLaws SectionInfo}.
Implicit Types (d o : SectionsDAG) (k p g from : PublicKey) (e : entry) (t u b : list entry).

(** ** partial_dag *)

Lemma partial_loop_spec d from t1 t2 fuel e acc :
  repr d (t1 ++ t2) → length t2 ≤ fuel → e ∈ t2 →
  partial_loop fuel d from (node_of d e) acc =
    Some (match tree_branch t2 from (e_key e) with
          | Some b => Ok (acc ++ (node_of d <$> b))
          | None => Err InvalidBranch
          end).
Proof.
  intros R. revert t1 R fuel e acc. induction t2 as [|x t2 IH]; intros t1 R fuel e acc Hf He.
  { set_solver. }
  assert (repr d ((t1 ++ [x]) ++ t2)) as R' by (by rewrite <-(assoc_L (++))).
  pose proof (tree_wf_app _ _ _ (repr_wf _ _ R)) as Hwf. simpl in Hwf.
  destruct Hwf as (Hwf & Hfresh & Hp). simpl in Hf. destruct fuel as [|fuel]; [lia|].
  apply elem_of_cons in He as [->|He]; cycle 1.
  { rewrite (IH _ R') by (done || lia). cbn [tree_branch]. case_decide as Hfrom; subst.
    - by rewrite tree_branch_self.
    - rewrite decide_False; [done|]. intros Heq. apply Hfresh. rewrite <-Heq.
      apply tree_keys_cases. eauto. }
  cbn [partial_loop tree_branch].
  change (si_key (node_value (node_of d x))) with (e_key x). case_decide as Hfrom.
  { by rewrite app_nil_r. }
  rewrite (decide_True (P := e_key x = e_key x)) by done.
  apply tree_keys_cases in Hp as [Hp|(e' & He' & Hp)].
  - rewrite (repr_parent_node_genesis d _ R) by (done || set_solver). rewrite Hp.
    case_decide; subst; [by rewrite tree_branch_self|].
    by rewrite tree_branch_genesis.
  - rewrite (repr_parent_node d _ R x e') by (done || set_solver).
    rewrite (IH _ R') by (done || lia). rewrite Hp.
    destruct (tree_branch t2 from (e_parent x)) as [b|]; simpl; [|done].
    by rewrite <-(assoc_L (++)).
Qed.

Lemma insert_chain_snoc d p l n :
  insert_chain d p (l ++ [n]) =
    (d' ← insert_chain d p l;
     insert_chain d' (default p ((λ n, si_key (node_value n)) <$> last l)) [n]).
Proof.
  revert d p. induction l as [|n' l IH]; intros d p; [done|].
  cbn [insert_chain app]. destruct (insert_trusted_key _ _ _ _) as [d' [[]|e]]; [|done].
  rewrite IH. destruct (insert_chain d' _ l); cbn; [|done]. destruct l as [|n2 l]; [done|].
  rewrite last_cons_cons. by destruct (proj2 (last_is_Some (n2 :: l))) as [? ->].
Qed.

Lemma insert_chain_spec d from k b :
  chain from k b → tree_wf from b →
  ∃ d', insert_chain (new from) from (reverse (node_of d <$> b)) = Ok d' ∧
        genesis_key d' = from ∧ repr d' b.
Proof.
  induction 1 as [|e b Hc IH].
  { intros _. exists (new from). split; [done|]. split; [done|]. apply repr_new. }
  intros (Hwf & Hk & Hp). destruct (IH Hwf) as (d1 & Hd1 & Hg & R1).
  rewrite fmap_cons, reverse_cons, insert_chain_snoc, Hd1. cbn.
  assert (default from ((λ n, si_key (node_value n)) <$> last (reverse (node_of d <$> b)))
    = e_parent e) as ->.
  { rewrite last_reverse. inversion Hc; done. }
  destruct (insert_trusted_key_repr d1 b (e_parent e) (e_key e) (e_sig e)) as (d2 & Hi & Hg2 & R2);
    [done|by rewrite Hg..|]. rewrite Hi. exists d2. split; [done|].
  split; [congruence|]. by destruct e.
Qed.

Lemma partial_dag_repr d t from to :
  repr d t → to ∈ tree_keys (genesis_key d) t →
  match tree_branch t from to with
  | Some b => ∃ d', partial_dag d from to = Some (Ok d') ∧ genesis_key d' = from ∧
                    chain from to b ∧ repr d' b
  | None => partial_dag d from to = Some (Err InvalidBranch)
  end.
Proof.
  intros R Hto. unfold partial_dag. case_decide as Hg; subst.
  { case_decide; subst.
    - rewrite tree_branch_self. exists (new (genesis_key d)).
      split_and!; [done|done|constructor|apply repr_new].
    - rewrite tree_branch_genesis; [done|apply (repr_wf _ _ R)|done]. }
  apply tree_keys_cases in Hto as [?|(e & He & <-)]; [done|].
  rewrite (repr_get_node d t R) by done.
  rewrite (partial_loop_spec d from [] t) by (done || rewrite (repr_fuel d t R); lia).
  destruct (tree_branch t from (e_key e)) as [b|] eqn:Hb; [|done].
  destruct (tree_branch_chain _ _ _ _ _ (repr_wf _ _ R) Hb) as [Hc Hwf].
  destruct (insert_chain_spec d _ _ _ Hc Hwf) as (d' & Hd' & Hg' & R').
  exists d'. simpl. by rewrite Hd'.
Qed.

Lemma partial_dag_unknown d t from to :
  repr d t → to ∉ tree_keys (genesis_key d) t →
  partial_dag d from to = Some (Err (KeyNotFound to)).
Proof.
  intros R Hto. unfold partial_dag. unfold tree_keys in Hto.
  rewrite decide_False by set_solver. unfold get_node, get_hash.
  rewrite (repr_get_hash_None d t) by (done || set_solver). done.
Qed.

(** A chain has one leaf, the key it was asked for. *)
Lemma chain_leaf from k b e : tree_wf from b → chain from k b → tree_leaf b e ↔ head b = Some e.
Proof.
  intros Hwf Hc. split.
  - intros [He Hl]. revert Hl. induction Hc as [|x b Hc IH]; [set_solver|].
    intros Hl. apply elem_of_cons in He as [->|He]; [done|]. exfalso.
    destruct Hwf as (Hwf & _ & _).
    assert (head b = Some e) as Hh.
    { apply IH; [done..|]. intros e' He'. apply Hl. by right. }
    inversion Hc as [|y b' Hc' Heq]; simplify_eq/=.
    apply (Hl x); [by left|done].
  - intros Hh. destruct b as [|x b]; simplify_eq/=. destruct Hwf as (Hwf & Hk & Hp).
    split; [by left|]. intros e' [->|He']%elem_of_cons Heq.
    + congruence.
    + apply Hk. rewrite <-Heq. by eapply tree_wf_parent.
Qed.

Lemma chain_last_key d from k b : repr d b → genesis_key d = from → chain from k b → last_key d = Ok k.
Proof.
  intros R Hg Hc. unfold last_key.
  assert (leaf_keys d = {[k]}) as ->; [|by rewrite bset_iter_singleton].
  unfold leaf_keys, non_genesis_leaf_sections.
  pose proof (repr_leaf_nodes d b R) as Hl.
  pose proof (repr_wf _ _ R) as Hwf. rewrite Hg in Hwf.
  setoid_rewrite (λ e, chain_leaf _ _ _ e Hwf Hc) in Hl.
  destruct (non_genesis_leaf_nodes d) as [|n ns] eqn:Hn; simpl.
  - inversion Hc as [|e b' Hc' Heq]; subst; [done|].
    exfalso. apply (not_elem_of_nil (node_of d e)), Hl. eauto.
  - assert (∀ n', n' ∈ n :: ns → si_key (node_value n') = k) as Hk.
    { intros n' Hn'. apply Hl in Hn' as (e & He & ->). inversion Hc; simplify_eq/=; done. }
    rewrite (Hk n) by left. apply set_eq. intros x.
    rewrite elem_of_union, elem_of_list_to_set, !elem_of_singleton, !list_elem_of_fmap.
    split; [|by left]. intros [?|(i & -> & (n' & -> & Hn')%list_elem_of_fmap)]; [done|].
    apply Hk. by right.
Qed.

(** ** Keys above a leaf *)

Lemma chain_snoc e k b : chain (e_key e) k b → chain (e_parent e) k (b ++ [e]).
Proof. induction 1; simpl; constructor; [constructor|done]. Qed.

Lemma entry_above_leaf g n t1 e t2 :
  tree_wf g (t1 ++ e :: t2) → length t1 < n →
  ∃ b l, chain (e_key e) (e_key l) b ∧ tree_leaf (t1 ++ e :: t2) l ∧ b ⊆ t1 ++ e :: t2.
Proof.
  revert t1 e t2. induction n as [|n IH]; intros t1 e t2 Hwf Hn; [lia|].
  destruct (decide (Forall (λ x, e_parent x ≠ e_key e) (t1 ++ e :: t2))) as [Hl|Hl].
  { exists [], e. split; [constructor|]. split; [|set_solver]. split; [set_solver|].
    by rewrite Forall_forall in Hl. }
  apply not_Forall_Exists in Hl; [|apply _]. apply Exists_exists in Hl as (x & Hx & Hp).
  apply dec_stable in Hp.
  assert (x ∈ t1) as (ta & tb & ->)%list_elem_of_split.
  { apply elem_of_app in Hx as [?|Hx]; [done|]. exfalso. apply tree_wf_app in Hwf.
    apply elem_of_cons in Hx as [->|Hx].
    - by eapply tree_wf_parent_ne; [exact Hwf|left|].
    - destruct Hwf as (Hwf & Hk & _). apply Hk. rewrite <-Hp. by eapply tree_wf_parent. }
  rewrite <-(assoc_L (++)) in Hwf |- *. simpl in Hwf |- *.
  destruct (IH ta x (tb ++ e :: t2)) as (b & l & Hc & Hl & Hb); [done| |].
  { rewrite length_app in Hn. simpl in Hn. lia. }
  exists (b ++ [x]), l. split; [|set_solver]. rewrite <-Hp. by apply chain_snoc.
Qed.

(** The last key is the key of every leaf. *)
Lemma last_key_leaves d t key :
  repr d t → last_key d = Ok key →
  t = [] ∧ key = genesis_key d ∨ t ≠ [] ∧ ∀ e, tree_leaf t e → e_key e = key.
Proof.
  intros R Hl. unfold last_key in Hl.
  destruct (bset_iter (leaf_keys d)) as [|x [|]] eqn:Hi; simplify_eq.
  assert (∀ x, x ∈ leaf_keys d → x = key) as Hx.
  { intros x Hx%elem_of_bset_iter. rewrite Hi in Hx. set_solver. }
  unfold leaf_keys, non_genesis_leaf_sections in Hx. pose proof (repr_leaf_nodes d t R) as Hn.
  destruct (non_genesis_leaf_nodes d) as [|n ns]; cbn in Hx.
  - left. split; [|symmetry; apply Hx; set_solver]. destruct t as [|e t]; [done|]. exfalso.
    apply (not_elem_of_nil (node_of d e)), Hn. exists e. split; [|done].
    destruct (repr_wf _ _ R) as (Hwf & Hf & Hp). split; [left|]. intros e' [->|He']%elem_of_cons Heq.
    + congruence.
    + apply Hf. rewrite <-Heq. by eapply tree_wf_parent.
  - right. split.
    { intros ->. destruct (proj1 (Hn n)) as (? & [Hin _] & _); [left|]. set_solver. }
    intros e He. apply Hx. assert (node_of d e ∈ n :: ns) as Hin by (apply Hn; eauto).
    apply elem_of_cons in Hin as [<-|Hin]; [set_solver|].
    apply elem_of_union_r, elem_of_list_to_set, list_elem_of_fmap.
    exists (node_value (node_of d e)). split; [done|]. by apply list_elem_of_fmap_2.
Qed.

(** A DAG with one last key has every key of it above that one. *)
Lemma last_key_above d t k key :
  repr d t → last_key d = Ok key → k ∈ tree_keys (genesis_key d) t → ∃ b, chain k key b ∧ b ⊆ t.
Proof.
  intros R Hl Hk. pose proof (repr_wf _ _ R) as Hwf.
  destruct (last_key_leaves d t key R Hl) as [[-> ->]|[Hne Hone]].
  { apply list_elem_of_singleton in Hk as ->. exists []. split; [constructor|done]. }
  apply tree_keys_cases in Hk as [->|(e & He & <-)].
  - destruct (last t) as [e|] eqn:Ht; [|by apply last_None in Ht].
    apply last_Some in Ht as (t' & ->).
    destruct (entry_above_leaf (genesis_key d) _ t' e [] Hwf (Nat.lt_succ_diag_r _))
      as (b & l & Hc & Hlf & Hb).
    rewrite <-(Hone l Hlf). exists (b ++ [e]). split; [|set_solver].
    apply tree_wf_app in Hwf as (_ & _ & Hp). apply list_elem_of_singleton in Hp.
    rewrite <-Hp. by apply chain_snoc.
  - pose proof He as (t1 & t2 & ->)%list_elem_of_split.
    destruct (entry_above_leaf (genesis_key d) _ t1 e t2 Hwf (Nat.lt_succ_diag_r _))
      as (b & l & Hc & Hlf & Hb).
    rewrite <-(Hone l Hlf). eauto.
Qed.

(** ** merge *)

Definition compat t u : Prop := ∀ e e', e ∈ t → e' ∈ u → e_key e = e_key e' → e = e'.

Definition work o e : PublicKey * Node (Hash SectionInfo) SectionInfo := (e_parent e, node_of o e).

(** [P] holds the visited entries, [S] the stacked ones: together they are the
    entries whose parent was visited, each once. *)
Definition visit_inv o u (P S : list entry) : Prop :=
  NoDup (P ++ S) ∧
  ∀ e, e ∈ P ++ S ↔ e ∈ u ∧ (e_parent e = genesis_key o ∨ ∃ x, x ∈ P ∧ e_key x = e_parent e).

Lemma nodes_entries o u (l : list (Node (Hash SectionInfo) SectionInfo)) :
  (∀ n, n ∈ l → ∃ e, e ∈ u ∧ n = node_of o e) → ∃ C, l = node_of o <$> C ∧ ∀ e, e ∈ C → e ∈ u.
Proof.
  induction l as [|n l IH]; intros Hl; [by exists []; set_solver|].
  destruct IH as (C & -> & HC); [set_solver|]. destruct (Hl n) as (e & He & ->); [by left|].
  exists (e :: C). split; [done|]. set_solver.
Qed.

Lemma node_of_inj o u e e' :
  repr o u → e ∈ u → e' ∈ u → node_of o e = node_of o e' → e = e'.
Proof. intros R He He' Heq. apply (repr_hash_inj o u R); [done..|]. by rewrite Heq. Qed.

Lemma child_nodes_entries o u e :
  repr o u → e ∈ u →
  ∃ C, child_nodes o (node_hash (node_of o e)) = node_of o <$> C ∧ NoDup C ∧
       ∀ e', e' ∈ C ↔ e' ∈ u ∧ e_parent e' = e_key e.
Proof.
  intros R He. pose proof (λ n, repr_child_nodes o u R e n He) as Hc.
  destruct (nodes_entries o u (child_nodes o (node_hash (node_of o e)))) as (C & HC & Hsub).
  { intros n (e' & ? & ? & ?)%Hc. eauto. }
  exists C. split; [done|]. rewrite HC in Hc. split.
  - eapply NoDup_fmap_1. rewrite <-HC. unfold child_nodes.
    apply NoDup_fmap_2_strong; [|apply mr_parents_NoDup].
    intros [h n] [h' n'] [Hn _]%mr_parents_spec [Hn' _]%mr_parents_spec ?. simplify_eq/=.
    apply mr_dag_known, mr_known_hash in Hn. apply mr_dag_known, mr_known_hash in Hn'. congruence.
  - intros e'. split.
    + intros He'. split; [auto|].
      destruct (proj1 (Hc (node_of o e'))) as (e'' & He'' & Hp & Heq).
      { by apply list_elem_of_fmap_2. }
      apply (node_of_inj o u) in Heq as ->; auto.
    + intros [He' Hp].
      assert (node_of o e' ∈ node_of o <$> C) as (e'' & Heq & He'')%list_elem_of_fmap
        by (apply Hc; eauto).
      apply (node_of_inj o u) in Heq as ->; auto.
Qed.

Lemma visit_inv_pop o u P e S C :
  repr o u → visit_inv o u P (e :: S) → NoDup C →
  (∀ e', e' ∈ C ↔ e' ∈ u ∧ e_parent e' = e_key e) →
  visit_inv o u (P ++ [e]) (reverse C ++ S).
Proof.
  intros R [Hnd Hin] HndC HC. pose proof (repr_wf _ _ R) as Hwf.
  assert (e ∈ u) as He by (apply (Hin e); set_solver).
  assert (∀ e', e' ∈ C → e' ∉ P ++ e :: S) as Hnew.
  { intros e' [He' Hp]%HC [_ [Hg|(x & Hx & Hk)]]%Hin.
    - rewrite Hp in Hg. by eapply tree_wf_not_genesis in Hg.
    - assert (x = e) as ->.
      { eapply tree_wf_inj; [done| |done|congruence]. apply (Hin x). set_solver. }
      apply NoDup_app in Hnd as (_ & Hd & _). by apply (Hd e Hx), elem_of_cons; left. }
  split.
  - rewrite reverse_Permutation, <-(assoc_L (++)). simpl.
    rewrite (Permutation_middle _ _ _), (assoc_L (++)), (comm (++) P C), <-(assoc_L (++)).
    apply NoDup_app. split_and!; [done|set_solver|done].
  - intros e'. rewrite !elem_of_app, elem_of_reverse, list_elem_of_singleton, HC.
    specialize (Hin e'). rewrite elem_of_app, elem_of_cons in Hin. split.
    + intros [[HP| ->]|[[Hu Hp]|HS]].
      * destruct (proj1 Hin) as [? [?|(x & ? & ?)]]; [auto|auto|]. set_solver.
      * destruct (proj1 Hin) as [? [?|(x & ? & ?)]]; [auto|auto|]. set_solver.
      * split; [done|]. right. exists e. set_solver.
      * destruct (proj1 Hin) as [? [?|(x & ? & ?)]]; [auto|auto|]. set_solver.
    + intros [Hu [Hg|(x & [Hx| ->%list_elem_of_singleton]%elem_of_app & Hk)]].
      * destruct (proj2 Hin) as [?|[?|?]]; auto.
      * destruct (proj2 Hin) as [?|[?|?]]; eauto.
      * right. left. auto.
Qed.

Lemma visit_inv_done o u P : repr o u → visit_inv o u P [] → ∀ e, e ∈ u → e ∈ P.
Proof.
  intros R [_ Hin]. pose proof (repr_wf _ _ R) as Hwf. setoid_rewrite app_nil_r in Hin.
  assert (∀ t1 t2, u = t1 ++ t2 → ∀ e, e ∈ t2 → e ∈ P) as H; [|by intros e; apply (H [])].
  intros t1 t2. revert t1. induction t2 as [|x t2 IH]; intros t1 Hu; [set_solver|].
  specialize (IH (t1 ++ [x])). rewrite <-(assoc_L (++)) in IH. specialize (IH Hu).
  intros e [->|He]%elem_of_cons; [|auto]. apply Hin. split; [set_solver|].
  rewrite Hu in Hwf. apply tree_wf_app in Hwf as (_ & _ & Hp).
  apply tree_keys_cases in Hp as [?|(e' & He' & ?)]; [by left|right; eauto].
Qed.

Lemma insert_entry d t u e :
  repr d t → e_signed e = true → e_parent e ∈ tree_keys (genesis_key d) t →
  e ∈ u → compat t u → tree_wf (genesis_key d) t → genesis_key d ∉ e_key <$> u →
  ∃ d' t', verify_and_insert d (e_parent e) (e_key e) (e_sig e) = (d', Ok ()) ∧
    genesis_key d' = genesis_key d ∧ repr d' t' ∧ ∀ e', e' ∈ t' ↔ e' = e ∨ e' ∈ t.
Proof.
  intros R Hs Hp He Hc Hwf Hg. unfold verify_and_insert. fold (e_signed e). rewrite Hs.
  destruct (decide (e_key e ∈ tree_keys (genesis_key d) t)) as [Hk|Hk].
  - apply tree_keys_cases in Hk as [Hk|(e' & He' & Hk)].
    { destruct Hg. rewrite <-Hk. by apply list_elem_of_fmap_2. }
    assert (e' = e) as -> by (by apply Hc).
    destruct (insert_trusted_key_again d t e R He') as (d' & -> & ? & ?).
    exists d', t. set_solver.
  - destruct (insert_trusted_key_repr d t (e_parent e) (e_key e) (e_sig e) R Hp Hk)
      as (d' & -> & ? & R').
    exists d', (e :: t). split; [done|]. split; [done|]. split; [by destruct e|]. set_solver.
Qed.

Lemma work_children o e (C : list entry) :
  (∀ e', e' ∈ C → e_parent e' = e_key e) → pair (e_key e) <$> (node_of o <$> C) = work o <$> C.
Proof.
  intros HC. rewrite <-list_fmap_compose. apply list_fmap_ext.
  intros i e' He'%list_elem_of_lookup_2. unfold work. simpl. by rewrite HC.
Qed.

Lemma merge_loop_spec o u fuel d t P S :
  repr o u → forallb e_signed u = true →
  visit_inv o u P S → length u < fuel + length P →
  repr d t → genesis_key o ∈ tree_keys (genesis_key d) t → P ⊆ t → compat t u →
  genesis_key d ∉ e_key <$> u →
  ∃ d' t', merge_loop fuel d o (work o <$> S) = Some (d', Ok ()) ∧
    genesis_key d' = genesis_key d ∧ repr d' t' ∧ ∀ e, e ∈ t' ↔ e ∈ t ∨ e ∈ u.
Proof.
  intros Ro Hs. revert d t P S. induction fuel as [|fuel IH]; intros d t P S HV Hf R Hg HP Hc Hgu.
  { exfalso. destruct HV as [Hnd Hin]. apply NoDup_app in Hnd as [Hnd _].
    assert (P ⊆+ u) as Hl%submseteq_length; [|lia].
    apply NoDup_submseteq; [done|]. intros e He. apply (Hin e). set_solver. }
  destruct S as [|e S]; simpl.
  { exists d, t. split; [done|]. split; [done|]. split; [done|]. intros e. split; [by left|].
    intros [?|He]; [done|]. by apply HP, (visit_inv_done o u P). }
  pose proof (proj1 (proj2 HV e)) as [He Hpar]; [set_solver|].
  destruct (child_nodes_entries o u e Ro He) as (C & -> & HndC & HC).
  destruct (insert_entry d t u e) as (d' & t' & Hi & Hg' & R' & Ht'); try done.
  { rewrite forallb_forall in Hs. apply Hs. by apply list_elem_of_In. }
  { destruct Hpar as [-> |(x & Hx%HP & <-)]; [done|]. apply tree_keys_cases. eauto. }
  { apply (repr_wf _ _ R). }
  unfold insert_node. simpl. rewrite Hi.
  rewrite (work_children o e C) by (by intros e' [_ ?]%HC).
  rewrite <-fmap_reverse, <-fmap_app.
  destruct (IH d' t' (P ++ [e]) (reverse C ++ S)) as (d2 & t2 & -> & Hg2 & R2 & Ht2).
  - by apply visit_inv_pop.
  - rewrite length_app. simpl. lia.
  - done.
  - rewrite Hg'. apply tree_keys_cases in Hg as [?|(x & ? & ?)]; apply tree_keys_cases; [by left|].
    right. exists x. set_solver.
  - set_solver.
  - intros x x' [->|Hx]%Ht' Hx' Hk; [|by apply Hc]. eapply tree_wf_inj; [apply (repr_wf _ _ Ro)|done..].
  - by rewrite Hg'.
  - exists d2, t2. split; [done|]. split; [congruence|]. split; [done|].
    intros x. rewrite Ht2, Ht'. naive_solver.
Qed.

Lemma push_roots_spec o u ks stack :
  repr o u → (∀ k, k ∈ ks → k ∈ dag_root o) → NoDup ks →
  ∃ S, push_roots o ks stack = Ok ((work o <$> S) ++ stack) ∧ NoDup S ∧
       ∀ e, e ∈ S ↔ e ∈ u ∧ e_parent e = genesis_key o ∧ e_key e ∈ ks.
Proof.
  intros R. revert stack. induction ks as [|k ks IH]; intros stack Hk Hnd; simpl.
  { exists []. split; [done|]. split; [constructor|]. set_solver. }
  apply NoDup_cons in Hnd as [Hkk Hnd].
  destruct (proj1 (repr_root _ _ R k)) as (e & He & <- & Hp); [set_solver|].
  rewrite (repr_get_node o u R) by done. cbn.
  destruct (IH ((genesis_key o, node_of o e) :: stack)) as (S & -> & HndS & HS); [set_solver|done|].
  exists (S ++ [e]). rewrite fmap_app, <-(assoc_L (++)). simpl.
  assert (work o e = (genesis_key o, node_of o e)) as -> by (unfold work; by rewrite Hp).
  split; [done|]. split.
  - apply NoDup_app. split_and!; [done| |apply NoDup_singleton].
    intros x (? & ? & ?)%HS ->%list_elem_of_singleton. done.
  - intros x. rewrite elem_of_app, list_elem_of_singleton, HS, elem_of_cons. split.
    + intros [?| ->]; naive_solver.
    + intros (? & ? & [Heq|?]); [|naive_solver]. right.
      eapply tree_wf_inj; [apply (repr_wf _ _ R)|done..].
Qed.

Lemma merge_repr d t o u :
  repr d t → repr o u → forallb e_signed u = true →
  genesis_key o ∈ tree_keys (genesis_key d) t → compat t u → genesis_key d ∉ e_key <$> u →
  ∃ d' t', merge d o = Some (d', Ok ()) ∧ genesis_key d' = genesis_key d ∧
           repr d' t' ∧ ∀ e, e ∈ t' ↔ e ∈ t ∨ e ∈ u.
Proof.
  intros R Ro Hs Hg Hc Hgu. unfold merge. rewrite (self_verify_repr o u Ro), Hs.
  rewrite (proj2 (repr_has_key d t R _) Hg).
  destruct (push_roots_spec o u (bset_iter (dag_root o)) []) as (S & -> & HndS & HS);
    [done|by intros k ?%elem_of_bset_iter|apply NoDup_bset_iter|].
  rewrite app_nil_r. eapply (merge_loop_spec o u _ d t []); try done.
  - split; [done|]. intros e. rewrite app_nil_l, HS, elem_of_bset_iter. split.
    + intros (? & ? & ?). auto.
    + intros [? [?|(x & ? & _)]]; [|set_solver]. split_and!; [done..|].
      apply (repr_root _ _ Ro). eauto.
  - rewrite (repr_fuel o u Ro). simpl. lia.
  - set_solver.
Qed.
End chains.
