(* ===== verification/SectionsDagSerde.v ===== *)
(** * Serialisation of the section-key DAG

    The intermediate form of a DAG lists the entries of its tree parents first, and
    reading it back rebuilds a DAG with the same keys, hashes and Merkle nodes. *)

From S2P Require Import Prelude External SectionsDag SectionsDagSpec SectionsDagWalk.

Section serde.
Context {B : Bls} {BP : Bincode PublicKey} {M : Merkle SectionInfo} {ML : MerkleLaws SectionInfo}.
Implicit Types (d : SectionsDAG) (k p g : PublicKey) (e : entry) (t u : list entry).

Definition section_of e : PublicKey * SectionInfo :=
  (e_parent e, mkSectionInfo _ (e_key e) (e_sig e)).

(** The entries from [k] upwards that are not visited yet. *)
Fixpoint tree_unvisited t (V : gset PublicKey) k : list entry :=
  match t with
  | [] => []
  | e :: t =>
      if decide (k = e_key e) then
        if decide (k ∈ V) then [] else e :: tree_unvisited t V (e_parent e)
      else tree_unvisited t V k
  end.

Lemma tree_unvisited_genesis g t V : tree_wf g t → tree_unvisited t V g = [].
Proof.
  induction t as [|e t IH]; simpl; [done|]. intros (Hwf & Hk & _).
  rewrite decide_False; [auto|]. intros ->. apply Hk. left.
Qed.

Lemma serialize_loop_spec d V t1 t2 fuel e acc :
  repr d (t1 ++ t2) → length t2 ≤ fuel → e ∈ t2 →
  serialize_loop fuel d V (node_of d e) acc =
    Some (acc ++ (section_of <$> tree_unvisited t2 V (e_key e))).
Proof.
  intros R. revert t1 R fuel e acc. induction t2 as [|x t2 IH]; intros t1 R fuel e acc Hf He.
  { set_solver. }
  assert (repr d ((t1 ++ [x]) ++ t2)) as R' by (by rewrite <-(assoc_L (++))).
  pose proof (tree_wf_app _ _ _ (repr_wf _ _ R)) as Hwf. simpl in Hwf.
  destruct Hwf as (Hwf & Hfresh & Hp). simpl in Hf. destruct fuel as [|fuel]; [lia|].
  apply elem_of_cons in He as [->|He]; cycle 1.
  { rewrite (IH _ R') by (done || lia). cbn [tree_unvisited]. rewrite decide_False; [done|].
    intros Heq. apply Hfresh. rewrite <-Heq. apply tree_keys_cases. eauto. }
  cbn [serialize_loop tree_unvisited].
  change (si_key (node_value (node_of d x))) with (e_key x).
  rewrite (decide_True (P := e_key x = e_key x)) by done. case_decide as HV.
  { by rewrite app_nil_r. }
  apply tree_keys_cases in Hp as [Hp|(e' & He' & Hp)].
  - rewrite (repr_parent_node_genesis d _ R) by (done || set_solver). rewrite Hp.
    rewrite tree_unvisited_genesis by done. simpl. unfold section_of. by rewrite Hp.
  - rewrite (repr_parent_node d _ R x e') by (done || set_solver).
    rewrite (IH _ R') by (done || lia). simpl. by rewrite Hp, <-(assoc_L (++)).
Qed.

Lemma tree_unvisited_sub t V k e : e ∈ tree_unvisited t V k → e ∈ t ∧ e_key e ∉ V.
Proof.
  revert k. induction t as [|x t IH]; simpl; intros k; [set_solver|].
  repeat case_decide; [set_solver| |].
  - intros [->|He]%elem_of_cons; [subst; split; [by left|done]|].
    apply IH in He as [? ?]. split; [by right|done].
  - intros [? ?]%IH. split; [by right|done].
Qed.

(** The collected entries extend a tree of visited ones to a tree with [k]. *)
Lemma tree_unvisited_wf g t s k :
  tree_wf g t → tree_wf g s → k ∈ tree_keys g t →
  tree_wf g (tree_unvisited t (list_to_set (e_key <$> s)) k ++ s) ∧
  k ∈ tree_keys g (tree_unvisited t (list_to_set (e_key <$> s)) k ++ s).
Proof.
  revert k. induction t as [|x t IH]; simpl; intros k Hwf Hs Hk.
  { apply elem_of_cons in Hk as [->|Hk]; [|set_solver]. split; [done|left]. }
  destruct Hwf as (Hwf & Hfresh & Hp). case_decide; subst; cycle 1.
  { apply IH; [done..|]. unfold tree_keys in *. set_solver. }
  case_decide as HV.
  - split; [done|]. right. simpl. by apply elem_of_list_to_set in HV.
  - destruct (IH (e_parent x) Hwf Hs Hp) as [Hwf' Hp']. simpl. split; [|right; left].
    split_and!; [done| |done]. intros Hin. apply tree_keys_cases in Hin as [Hg|(e & He & Hk')].
    + apply Hfresh. rewrite Hg. left.
    + apply elem_of_app in He as [He|He].
      * apply tree_unvisited_sub in He as [He _]. apply Hfresh, tree_keys_cases. eauto.
      * apply HV, elem_of_list_to_set. rewrite <-Hk'. by apply list_elem_of_fmap_2.
Qed.

Lemma serialize_leaves_spec d t leaves s :
  repr d t → (∀ n, n ∈ leaves → ∃ e, e ∈ t ∧ n = node_of d e) →
  tree_wf (genesis_key d) s → s ⊆ t →
  ∃ s', serialize_leaves d leaves (list_to_set (e_key <$> s)) (section_of <$> reverse s)
          = Some (section_of <$> reverse s') ∧
    tree_wf (genesis_key d) s' ∧ s' ⊆ t ∧ s ⊆ s' ∧
    ∀ n, n ∈ leaves → si_key (node_value n) ∈ e_key <$> s'.
Proof.
  intros R. pose proof (repr_wf _ _ R) as Hwf. revert s.
  induction leaves as [|n leaves IH]; intros s Hl Hs Hst; cbn [serialize_leaves].
  { exists s. set_solver. }
  destruct (Hl n) as (e & He & ->); [by left|].
  rewrite (serialize_loop_spec d _ [] t) by (done || rewrite (repr_fuel d t R); lia).
  rewrite app_nil_l. set (l := tree_unvisited t _ (e_key e)).
  assert (e_key e ∈ tree_keys (genesis_key d) t) as Hk by (apply tree_keys_cases; eauto).
  destruct (tree_unvisited_wf _ t s (e_key e) Hwf Hs Hk) as [Hwf' Hk']. fold l in Hwf', Hk'.
  assert (list_to_set (e_key <$> s) ∪ list_to_set ((λ s, si_key s.2) <$> (section_of <$> l))
    = (list_to_set (e_key <$> (l ++ s)) : gset PublicKey)) as ->.
  { rewrite <-list_fmap_compose. rewrite fmap_app, list_to_set_app_L. set_solver. }
  assert ((section_of <$> reverse s) ++ reverse (section_of <$> l) = section_of <$> reverse (l ++ s))
    as ->.
  { by rewrite reverse_app, fmap_app, (fmap_reverse _ l). }
  destruct (IH (l ++ s)) as (s' & -> & ? & ? & ? & Hcov); [set_solver|done| |].
  { intros x [Hx|Hx]%elem_of_app; [|auto]. by apply tree_unvisited_sub in Hx as [? _]. }
  exists s'. split; [done|]. split_and!; [done..|set_solver|].
  intros n [->|Hn]%elem_of_cons; [|auto]. simpl.
  apply elem_of_cons in Hk' as [Hg|Hk'].
  - by destruct (tree_wf_not_genesis _ _ _ Hwf He).
  - set_solver.
Qed.

Lemma insert_sections_snoc d l x :
  insert_sections d (l ++ [x]) = (d' ← insert_sections d l; insert_sections d' [x]).
Proof.
  revert d. induction l as [|[p i] l IH]; intros d; [done|]. simpl.
  destruct (verify_and_insert d _ _ _) as [d' [[]|]]; [|done]. rewrite IH. done.
Qed.

Lemma insert_sections_repr g s :
  tree_wf g s → forallb e_signed s = true →
  ∃ d', insert_sections (new g) (section_of <$> reverse s) = Ok d' ∧ genesis_key d' = g ∧ repr d' s.
Proof.
  induction s as [|e s IH]; simpl.
  { intros _ _. exists (new g). split; [done|]. split; [done|apply repr_new]. }
  intros (Hwf & Hk & Hp) [Hse Hs]%andb_true_iff. destruct (IH Hwf Hs) as (d & Hd & Hg & R).
  rewrite reverse_cons, fmap_app. change (section_of <$> [e]) with [section_of e].
  rewrite insert_sections_snoc, Hd. cbn.
  unfold verify_and_insert. fold (e_signed e). rewrite Hse.
  destruct (insert_trusted_key_repr d s (e_parent e) (e_key e) (e_sig e)) as (d' & -> & ? & ?);
    [done|by rewrite Hg..|].
  exists d'. split; [done|]. split; [congruence|by destruct e].
Qed.

(** Two DAGs of the same entries are the same up to the register's internals. *)
Lemma repr_unique d d' t t' :
  repr d t → repr d' t' → genesis_key d = genesis_key d' → (∀ e, e ∈ t ↔ e ∈ t') →
  hashes d = hashes d' ∧ dag_root d = dag_root d' ∧ mr_dag (dag d) = mr_dag (dag d').
Proof.
  intros R R' Hg Ht.
  assert (∀ t1 t2, t = t1 ++ t2 → ∀ e, e ∈ t2 → node_of d e = node_of d' e) as Hn.
  { intros t1 t2. revert t1. induction t2 as [|x t2 IH]; intros t1 Hu; [set_solver|].
    specialize (IH (t1 ++ [x])). rewrite <-(assoc_L (++)) in IH. specialize (IH Hu).
    intros e [->|He]%elem_of_cons; [|auto].
    assert (e_parent x ∈ tree_keys (genesis_key d) t2) as Hp.
    { pose proof (repr_wf _ _ R) as Hwf. rewrite Hu in Hwf.
      apply tree_wf_app in Hwf as (_ & _ & ?). done. }
    unfold node_of, parent_set. f_equal. rewrite <-Hg. case_decide; [done|].
    apply tree_keys_cases in Hp as [?|(e' & He' & <-)]; [done|].
    rewrite (repr_hash _ _ R) by set_solver.
    rewrite (repr_hash _ _ R') by (apply Ht; set_solver). by rewrite IH. }
  assert (∀ e, e ∈ t → node_of d e = node_of d' e) as Hnode by (by apply (Hn [])).
  assert (∀ k, k ∈ e_key <$> t ↔ k ∈ e_key <$> t') as Hkeys.
  { intros k. rewrite !list_elem_of_fmap. by setoid_rewrite Ht. }
  split_and!.
  - apply map_eq. intros k. destruct (decide (k ∈ e_key <$> t)) as [Hk|Hk].
    + apply list_elem_of_fmap in Hk as (e & -> & He).
      rewrite (repr_hash _ _ R e He), (repr_hash _ _ R' e) by (by apply Ht). by rewrite Hnode.
    + rewrite (repr_get_hash_None d t), (repr_get_hash_None d' t'); [done..| |done|done].
      by rewrite <-Hkeys.
  - apply set_eq. intros k. rewrite (repr_root _ _ R), (repr_root _ _ R'), Hg. by setoid_rewrite Ht.
  - apply map_eq. intros h. apply option_eq. intros n. split; intros Hh.
    + destruct (repr_dag _ _ R _ _ Hh) as (e & He & ->).
      assert (h = node_hash (node_of d e)) as ->.
      { eapply mr_known_hash. by rewrite (repr_known d t). }
      rewrite Hnode by done. apply (repr_node _ _ R'). by apply Ht.
    + destruct (repr_dag _ _ R' _ _ Hh) as (e & He & ->).
      assert (h = node_hash (node_of d' e)) as ->.
      { eapply mr_known_hash. by rewrite (repr_known d' t'). }
      apply Ht in He. rewrite <-Hnode by done. by apply (repr_node _ _ R).
Qed.

Lemma serialize_repr d t :
  repr d t → forallb e_signed t = true →
  ∃ inter d', serialize d = Some inter ∧ deserialize inter = Ok d' ∧
    genesis_key d' = genesis_key d ∧
    hashes d' = hashes d ∧ dag_root d' = dag_root d ∧ mr_dag (dag d') = mr_dag (dag d).
Proof.
  intros R Hs. unfold serialize.
  destruct (serialize_leaves_spec d t (non_genesis_leaf_nodes d) []) as (s & Hser & Hwf & Hst & _ & Hcov).
  { done. }
  { intros n (e & [? _] & ?)%(repr_leaf_nodes d t R). eauto. }
  { done. } { set_solver. }
  change (serialize_leaves d (non_genesis_leaf_nodes d) ∅ []) with
    (serialize_leaves d (non_genesis_leaf_nodes d) (list_to_set (e_key <$> [])) (section_of <$> reverse [])).
  rewrite Hser. simpl. eexists. unfold deserialize. simpl.
  assert (∀ e, e ∈ t ↔ e ∈ s) as Hts.
  { intros e. split; [|by apply Hst]. intros He.
    assert (∀ e, e ∈ t → e_key e ∈ (list_to_set (tree_keys (genesis_key d) s) : gset PublicKey)) as Hall.
    { apply (leaves_cover (genesis_key d) t); [apply (repr_wf _ _ R)| |].
      - intros e' Hle. apply elem_of_list_to_set. right.
        apply (Hcov (node_of d e')). apply (repr_leaf_nodes d t R). eauto.
      - intros e' He' Hin%elem_of_list_to_set. apply elem_of_list_to_set.
        apply tree_keys_cases in Hin as [Hg|(x & Hx & Hk)].
        + by destruct (tree_wf_not_genesis _ _ _ (repr_wf _ _ R) He').
        + assert (x = e') as -> by (eapply tree_wf_inj; [apply (repr_wf _ _ R)|auto..]).
          by eapply tree_wf_parent. }
    specialize (Hall e He). apply elem_of_list_to_set, tree_keys_cases in Hall as [Hg|(x & Hx & Hk)].
    - by destruct (tree_wf_not_genesis _ _ _ (repr_wf _ _ R) He).
    - by assert (x = e) as <- by (eapply tree_wf_inj; [apply (repr_wf _ _ R)|auto..]). }
  destruct (insert_sections_repr (genesis_key d) s Hwf) as (d' & Hd' & Hg & R').
  { apply forallb_forall. intros e He%list_elem_of_In. rewrite forallb_forall in Hs.
    apply Hs, list_elem_of_In. auto. }
  exists d'. split; [done|]. split; [done|]. split; [done|].
  apply (repr_unique d' d s t); [done..|]. intros e. by rewrite Hts.
Qed.
End serde.
