(* ===== verification/SectionsDagProps.v ===== *)
(** * Properties of the section-key DAG

    What [sections_dag.rs] promises, each operation against the key tree it
    represents, and the reachable states. *)

From S2P Require Import Prelude External SectionsDag SectionsDagSpec SectionsDagWalk.
From S2P Require Import SectionsDagChain SectionsDagSerde.

Section props.
Context {B : Bls} {BP : Bincode PublicKey} {M : Merkle SectionInfo} {ML : MerkleLaws SectionInfo}.
Implicit Types (d o : SectionsDAG) (k p g from to : PublicKey) (e : entry) (t u b : list entry).

(** ** Single branches *)

Lemma chain_keys from k b : chain from k b → k ∈ tree_keys from b.
Proof. destruct 1; [left|right; left]. Qed.

Lemma chain_parent_fresh g t b e :
  tree_wf g t → b ⊆ t → e ∈ t → chain g (e_parent e) b → tree_wf g b →
  (∀ x, x ∈ b → e_key x ≠ e_key e) → tree_wf g (e :: b).
Proof.
  intros Hwf Hb He Hc Hwb Hne. split; [done|]. split; [|by apply chain_keys].
  intros Hin. apply tree_keys_cases in Hin as [Hg|(x & Hx & Hk)].
  - by destruct (tree_wf_not_genesis _ _ _ Hwf He).
  - by destruct (Hne x).
Qed.

(** A child is newer than its parent. *)
Lemma child_newer g t1 e t2 e' :
  tree_wf g (t1 ++ e :: t2) → e' ∈ t1 ++ e :: t2 → e_parent e' = e_key e → e' ∈ t1.
Proof.
  intros Hwf [?|He']%elem_of_app Hp; [done|]. exfalso. apply tree_wf_app in Hwf.
  apply elem_of_cons in He' as [->|He'].
  - eapply tree_wf_parent_ne; [exact Hwf|left|done].
  - destruct Hwf as (Hwf & Hk & _). apply Hk. rewrite <-Hp. by eapply tree_wf_parent.
Qed.

Lemma single_branch_loop_spec d t fuel partial t1 e t2 b :
  repr d t → forallb e_signed t = true → t = t1 ++ e :: t2 → length t1 < fuel →
  repr partial b → genesis_key partial = genesis_key d → chain (genesis_key d) (e_key e) b →
  b ⊆ e :: t2 →
  ∃ d' b' leaf, single_branch_loop fuel d partial (e_key e) = Some (Ok (d', e_key leaf)) ∧
    tree_leaf t leaf ∧ genesis_key d' = genesis_key d ∧ repr d' b' ∧
    chain (genesis_key d) (e_key leaf) b' ∧ b ⊆ b' ∧ b' ⊆ t.
Proof.
  intros R Hs. revert partial t1 e t2 b.
  induction fuel as [|fuel IH]; intros partial t1 e t2 b Ht Hf Rp Hg Hc Hb; [lia|].
  assert (e ∈ t) as He by set_solver.
  cbn [single_branch_loop]. unfold get_hash. rewrite (repr_hash _ _ R e He). simpl.
  pose proof (λ n, repr_child_nodes d t R e n He) as Hch.
  destruct (child_nodes d _) as [|n ns].
  { assert (tree_leaf t e) as Hleaf.
    { split; [done|]. intros e' He' Hp. apply (not_elem_of_nil (node_of d e')), Hch. eauto. }
    exists partial, b, e. do 6 (split; [done|]). set_solver. }
  destruct (proj1 (Hch n)) as (e' & He' & Hp & ->); [left|].
  assert (e' ∈ t1) as Hin.
  { eapply child_newer; [|by rewrite <-Ht|done]. rewrite <-Ht. apply (repr_wf _ _ R). }
  apply list_elem_of_split in Hin as (ta & tb & ->).
  assert (tree_wf (genesis_key d) (e' :: b)) as Hwb.
  { apply (chain_parent_fresh _ t).
    - apply (repr_wf _ _ R).
    - set_solver.
    - done.
    - by rewrite Hp.
    - rewrite <-Hg. apply (repr_wf _ _ Rp).
    - intros x Hx%Hb Hk. assert (x = e') as ->.
      { eapply tree_wf_inj; [apply (repr_wf _ _ R)| |done..]. set_solver. }
      pose proof (repr_wf _ _ R) as Hnd%tree_wf_NoDup. rewrite Ht in Hnd.
      unfold tree_keys in Hnd. apply NoDup_cons in Hnd as [_ Hnd].
      rewrite fmap_app, NoDup_app in Hnd. destruct Hnd as (_ & Hnd & _).
      apply (Hnd (e_key e')); apply list_elem_of_fmap_2; set_solver. }
  unfold insert_node, verify_and_insert. simpl. rewrite <-Hp. fold (e_signed e').
  rewrite (proj1 (forallb_forall _ _) Hs e') by (by apply list_elem_of_In).
  destruct Hwb as (_ & Hk & Hpk).
  destruct (insert_trusted_key_repr partial b (e_parent e') (e_key e') (e_sig e'))
    as (d1 & -> & Hg1 & R1); [done|by rewrite Hg..|].
  replace (mkEntry (e_key e') (e_parent e') (e_sig e')) with e' in R1 by (by destruct e').
  destruct (IH d1 ta e' (tb ++ e :: t2) (e' :: b)) as (d2 & b2 & leaf & -> & Hl & ? & ? & ? & ? & ?).
  - by rewrite Ht, <-(assoc_L (++)).
  - rewrite length_app in Hf. simpl in Hf. lia.
  - done.
  - congruence.
  - constructor. by rewrite Hp.
  - set_solver.
  - exists d2, b2, leaf. split; [done|]. split_and!; try done. set_solver.
Qed.

Lemma tree_branch_exists g t k :
  tree_wf g t → k ∈ tree_keys g t → ∃ b, tree_branch t g k = Some b.
Proof.
  revert k. induction t as [|x t IH]; intros k Hwt Hk; simpl; case_decide; eauto.
  - apply elem_of_cons in Hk as [?|?]; [done|set_solver].
  - destruct Hwt as (Hwt & _ & Hp). case_decide; subst.
    + destruct (IH (e_parent x) Hwt Hp) as (b & ->). eauto.
    + apply IH; [done|]. unfold tree_keys in *. set_solver.
Qed.

Lemma tree_branch_suffix g t1 e t2 :
  tree_wf g (t1 ++ e :: t2) →
  ∃ b, tree_branch (t1 ++ e :: t2) g (e_key e) = Some b ∧ b ⊆ e :: t2.
Proof.
  induction t1 as [|x t1 IH]; cbn [app]; intros Hwf.
  - destruct (tree_branch_exists g (e :: t2) (e_key e) Hwf) as (b & Hb); [right; left|].
    exists b. split; [done|]. intros y Hy. apply (tree_branch_sub _ _ _ _ _ Hb Hy).
  - destruct Hwf as (Hwf & Hf & _). destruct (IH Hwf) as (b & Hb & ?). exists b.
    split; [|done]. simpl. case_decide as Hg.
    + rewrite <-Hb, Hg. by rewrite tree_branch_self.
    + rewrite decide_False; [done|]. intros Heq. apply Hf. rewrite <-Heq.
      right. apply list_elem_of_fmap_2. set_solver.
Qed.

(** What [single_branch_dag_for_key] does from an entry's key. *)
Definition branch_from d k : option (result Error (SectionsDAG * PublicKey)) :=
  match partial_dag d (genesis_key d) k with
  | None => None
  | Some (Err e) => Some (Err e)
  | Some (Ok partial) => single_branch_loop (dag_fuel d) d partial k
  end.

Definition leaf_branch d t k (res : option (result Error (SectionsDAG * PublicKey))) : Prop :=
  ∃ d' b leaf, res = Some (Ok (d', e_key leaf)) ∧
    tree_leaf t leaf ∧ genesis_key d' = genesis_key d ∧ repr d' b ∧ b ⊆ t ∧
    k ∈ tree_keys (genesis_key d) b ∧ last_key d' = Ok (e_key leaf).

Lemma branch_from_entry d t e :
  repr d t → forallb e_signed t = true → e ∈ t → leaf_branch d t (e_key e) (branch_from d (e_key e)).
Proof.
  intros R Hs He. pose proof He as (t1 & t2 & Ht)%list_elem_of_split.
  destruct (tree_branch_suffix (genesis_key d) t1 e t2) as (b & Hb & Hbt).
  { rewrite <-Ht. apply (repr_wf _ _ R). }
  rewrite <-Ht in Hb. unfold branch_from.
  pose proof (partial_dag_repr d t (genesis_key d) (e_key e) R) as Hp. rewrite Hb in Hp.
  destruct Hp as (dp & -> & Hgp & Hc & Rp); [apply tree_keys_cases; eauto|].
  destruct (single_branch_loop_spec d t (dag_fuel d) dp t1 e t2 b)
    as (d' & b' & leaf & -> & ? & ? & ? & Hc' & Hsub & ?); try done.
  { rewrite (repr_fuel d t R), Ht, length_app. simpl. lia. }
  exists d', b', leaf. do 5 (split; [done|]). split.
  - apply chain_keys in Hc. unfold tree_keys in *. set_solver.
  - by eapply chain_last_key.
Qed.

Lemma root_child_exists d t : repr d t → t ≠ [] → ∃ k l, bset_iter (dag_root d) = k :: l.
Proof.
  intros R Hne. destruct (bset_iter (dag_root d)) as [|child l] eqn:Hroot; [|eauto].
  exfalso. destruct (last t) as [e|] eqn:Hlast; [|by apply last_None in Hlast].
  apply last_Some in Hlast as (t' & ->). pose proof (repr_wf _ _ R) as Hwf.
  apply tree_wf_app in Hwf as (_ & _ & Hp). apply elem_of_cons in Hp as [Hp|?]; [|set_solver].
  assert (e_key e ∈ bset_iter (dag_root d)) as Hin.
  { apply elem_of_bset_iter, (repr_root _ _ R). exists e. set_solver. }
  rewrite Hroot in Hin. set_solver.
Qed.

(** C1: [verify_and_insert] refines the insertion into the key tree: a signature the
    parent key does not verify is refused with [InvalidSignature], an unknown parent
    with [KeyNotFound], in both cases with the DAG unchanged; a fresh key under a
    known parent becomes an entry of the tree. *)
Theorem verify_and_insert_refines d t p k s :
  repr d t →
  (verify_sig p k s = false → verify_and_insert d p k s = (d, Err InvalidSignature)) ∧
  (verify_sig p k s = true → has_key d p = false →
     verify_and_insert d p k s = (d, Err (KeyNotFound p))) ∧
  (verify_sig p k s = true → has_key d p = true → has_key d k = false →
     ∃ d', verify_and_insert d p k s = (d', Ok ()) ∧ genesis_key d' = genesis_key d ∧
           repr d' (mkEntry k p s :: t)).
Proof.
  intros R. unfold verify_and_insert. split_and!; intros Hv; rewrite Hv; [done| |].
  - intros Hp%not_true_iff_false. rewrite (repr_has_key d t R) in Hp. unfold tree_keys in Hp.
    apply not_elem_of_cons in Hp as [Hg Hp]. unfold insert_trusted_key.
    by rewrite decide_False, (repr_get_hash_None d t R).
  - intros Hp%(repr_has_key d t R) Hk%not_true_iff_false. rewrite (repr_has_key d t R) in Hk.
    by apply insert_trusted_key_repr.
Qed.

(** [self_verify] terminates on every DAG and decides exactly whether every key
    but the genesis key carries a valid signature of its parent. *)
Theorem self_verify_decides d t : repr d t → self_verify d = Some (forallb e_signed t).
Proof. apply self_verify_repr. Qed.

(** [partial_dag] terminates; for a known [to] key below [from] it returns the
    chain of keys from [from] to [to], whose last key is [to]; it answers
    [InvalidBranch] when [from] is not above [to] and [KeyNotFound] for an unknown
    [to] key. *)
Theorem partial_dag_is_branch d t from to :
  repr d t →
  (has_key d to = false → partial_dag d from to = Some (Err (KeyNotFound to))) ∧
  (has_key d to = true → tree_branch t from to = None →
     partial_dag d from to = Some (Err InvalidBranch)) ∧
  (∀ b, has_key d to = true → tree_branch t from to = Some b →
     ∃ d', partial_dag d from to = Some (Ok d') ∧ genesis_key d' = from ∧ repr d' b ∧
           last_key d' = Ok to ∧ b ⊆ t).
Proof.
  intros R. split_and!.
  - intros Hk%not_true_iff_false. rewrite (repr_has_key d t R) in Hk. by apply (partial_dag_unknown d t).
  - intros Hk%(repr_has_key d t R) Hb. pose proof (partial_dag_repr d t from to R Hk) as H.
    by rewrite Hb in H.
  - intros b Hk%(repr_has_key d t R) Hb. pose proof (partial_dag_repr d t from to R Hk) as H.
    rewrite Hb in H. destruct H as (d' & Hd' & Hg & Hc & R'). exists d'. split_and!; try done.
    + by eapply chain_last_key.
    + intros e He. apply (tree_branch_sub _ _ _ _ _ Hb He).
Qed.

(** [get_ancestors] terminates with the path of parents from the key up to the
    genesis key (empty for the genesis key), or [KeyNotFound] for an unknown key. *)
Theorem get_ancestors_is_path d t k :
  repr d t →
  get_ancestors d k =
    Some (if has_key d k then Ok (tree_path t k) else Err (KeyNotFound k)).
Proof.
  intros R. rewrite (get_ancestors_repr d t k R). f_equal.
  destruct (has_key d k) eqn:Hk.
  - apply (repr_has_key d t R) in Hk. by rewrite decide_True.
  - apply not_true_iff_false in Hk. rewrite (repr_has_key d t R) in Hk. by rewrite decide_False.
Qed.

(** C2: [merge] of a verified chain whose genesis key is known succeeds and yields
    the DAG of exactly the entries of both; a chain with an unsigned key is refused
    with the receiver unchanged. *)
Theorem merge_is_union d t o u :
  repr d t → repr o u → compat t u → genesis_key d ∉ e_key <$> u →
  (forallb e_signed u = true → has_key d (genesis_key o) = true →
     ∃ d' t', merge d o = Some (d', Ok ()) ∧ genesis_key d' = genesis_key d ∧
              repr d' t' ∧ ∀ e, e ∈ t' ↔ e ∈ t ∨ e ∈ u) ∧
  (forallb e_signed u = false → merge d o = Some (d, Err UntrustedProofChain)).
Proof.
  intros R Ro Hc Hg. split.
  - intros Hs Hk%(repr_has_key d t R). by apply merge_repr.
  - intros Hs. unfold merge. by rewrite (self_verify_repr o u Ro), Hs.
Qed.

(** C3: serialising a verified DAG terminates, and deserialising the result gives a
    DAG with the same genesis key, key hashes, root keys and Merkle nodes. *)
Theorem serialize_roundtrip d t :
  repr d t → self_verify d = Some true →
  ∃ inter d', serialize d = Some inter ∧ deserialize inter = Ok d' ∧
    genesis_key d' = genesis_key d ∧
    hashes d' = hashes d ∧ dag_root d' = dag_root d ∧ mr_dag (dag d') = mr_dag (dag d).
Proof.
  intros R Hv. rewrite (self_verify_repr d t R) in Hv. injection Hv as Hs.
  by apply (serialize_repr d t).
Qed.

(** On a verified DAG [single_branch_dag_for_key] terminates and returns a chain
    that starts at the genesis key, contains the given key and ends at a leaf of the
    DAG, together with that leaf as its last key. *)
Theorem single_branch_ends_at_leaf d t k :
  repr d t → forallb e_signed t = true → has_key d k = true → t ≠ [] →
  ∃ d' b leaf, single_branch_dag_for_key d k = Some (Ok (d', e_key leaf)) ∧
    tree_leaf t leaf ∧ genesis_key d' = genesis_key d ∧ repr d' b ∧ b ⊆ t ∧
    k ∈ tree_keys (genesis_key d) b ∧ last_key d' = Ok (e_key leaf).
Proof.
  intros R Hs Hk Hne.
  unfold single_branch_dag_for_key. case_decide as Hg; subst.
  - destruct (root_child_exists d t R Hne) as (child & l & Hroot). rewrite Hroot.
    destruct (proj1 (repr_root _ _ R child)) as (e & He & <- & _).
    { apply elem_of_bset_iter. rewrite Hroot. left. }
    destruct (branch_from_entry d t e R Hs He) as (d' & b & leaf & Hb & ? & ? & ? & ? & _ & ?).
    exists d', b, leaf. do 5 (split; [done|]). split; [left|done].
  - apply (repr_has_key d t R), tree_keys_cases in Hk as [?|(e & He & <-)]; [done|].
    by apply (branch_from_entry d t e).
Qed.

(** ** Reachable DAGs *)

(** A node extends its DAG with keys it has not seen, whatever the signature. *)
Inductive dag_step : relation SectionsDAG :=
  | step_insert d p k s : has_key d k = false → dag_step d (verify_and_insert d p k s).1.

Lemma reachable_repr g d :
  rtc dag_step (new g) d → ∃ t, repr d t ∧ genesis_key d = g ∧ forallb e_signed t = true.
Proof.
  revert d. apply rtc_ind_r.
  - exists []. split; [apply repr_new|done].
  - intros d1 d2 _ [d' p k s Hk] (t & R & Hg & Hs). unfold verify_and_insert.
    destruct (verify_sig p k s) eqn:Hv; [|by exists t].
    destruct (decide (p ∈ tree_keys (genesis_key d') t)) as [Hp|Hp].
    + apply not_true_iff_false in Hk. rewrite (repr_has_key d' t R) in Hk.
      destruct (insert_trusted_key_repr d' t p k s R Hp Hk) as (d3 & -> & ? & R2).
      exists (mkEntry k p s :: t). simpl. rewrite Hs. unfold e_signed. simpl. rewrite Hv.
      split; [done|]. split; [congruence|done].
    + exists t. unfold insert_trusted_key. unfold tree_keys in Hp.
      apply not_elem_of_cons in Hp as [Hne Hp].
      rewrite decide_False, (repr_get_hash_None d' t R) by done. done.
Qed.

(** C6: every DAG grown from a genesis key by [verify_and_insert] calls with new keys
    passes [self_verify], keeps its genesis key and has no orphaned node. *)
Theorem reachable_dag_verifies g d :
  rtc dag_step (new g) d →
  self_verify d = Some true ∧ genesis_key d = g ∧ mr_orphans (dag d) = ∅.
Proof.
  intros (t & R & Hg & Hs)%reachable_repr. rewrite (self_verify_repr d t R), Hs.
  split; [done|]. split; [done|]. apply (repr_orphans _ _ R).
Qed.
End props.

(** ** Witnesses

    A small network: section 1 is the genesis, 2 and 3 follow it, 4 follows 2. *)

Module DagDemo.
Import External.Concrete.

Abbreviation PK := (PublicKey (Bls := concrete_bls)).
Definition pk (n : nat) : PK := n.

Definition demo_insert (d : SectionsDAG (B := concrete_bls)) (p k : PK) : SectionsDAG :=
  (verify_and_insert d p k (sign p k)).1.
Definition demo_dag : SectionsDAG :=
  demo_insert (demo_insert (demo_insert (new (pk 1)) (pk 1) (pk 2)) (pk 1) (pk 3)) (pk 2) (pk 4).
Definition demo_entry (p k : PK) : entry := mkEntry k p (sign p k).
Definition demo_tree : list entry := [demo_entry (pk 2) (pk 4); demo_entry (pk 1) (pk 3); demo_entry (pk 1) (pk 2)].

Definition demo_chain : SectionsDAG := demo_insert (new (pk 3)) (pk 3) (pk 5).
Definition forged_chain : SectionsDAG := (insert_trusted_key (new (pk 3)) (pk 3) (pk 5) (sign (pk 9) (pk 5))).1.

Lemma demo_insert_repr (d : SectionsDAG) t (p k : PK) :
  repr d t → bool_decide (p ∈ tree_keys (genesis_key d) t) = true →
  bool_decide (k ∈ tree_keys (genesis_key d) t) = false →
  repr (demo_insert d p k) (demo_entry p k :: t).
Proof.
  intros R Hp%bool_decide_eq_true Hk%bool_decide_eq_false.
  destruct (insert_trusted_key_repr d t p k (sign p k) R Hp Hk) as (d' & Hi & _ & R').
  unfold demo_insert, verify_and_insert.
  replace (verify_sig p k (sign p k)) with true; [by rewrite Hi|].
  symmetry. unfold verify_sig, sign. simpl. by apply bool_decide_eq_true.
Qed.

Lemma demo_repr : repr demo_dag demo_tree.
Proof.
  unfold demo_dag, demo_tree. repeat (apply demo_insert_repr; [|vm_compute; reflexivity..]).
  apply repr_new.
Qed.
Lemma demo_chain_repr : repr demo_chain [demo_entry (pk 3) (pk 5)].
Proof. apply demo_insert_repr; [apply repr_new|vm_compute; reflexivity..]. Qed.
Lemma forged_chain_repr : repr forged_chain [mkEntry (pk 5) (pk 3) (sign (pk 9) (pk 5))].
Proof.
  destruct (insert_trusted_key_repr (new (pk 3)) [] (pk 3) (pk 5) (sign (pk 9) (pk 5))) as (d' & Hi & _ & R').
  - apply repr_new.
  - left.
  - apply (bool_decide_unpack _). vm_compute. exact I.
  - unfold forged_chain. by rewrite Hi.
Qed.

Lemma verify_and_insert_refines_witness :
  verify_and_insert demo_dag (pk 2) (pk 6) (sign (pk 9) (pk 6)) = (demo_dag, Err InvalidSignature) ∧
  verify_and_insert demo_dag (pk 7) (pk 6) (sign (pk 7) (pk 6)) = (demo_dag, Err (KeyNotFound (pk 7))) ∧
  ∃ d', verify_and_insert demo_dag (pk 2) (pk 6) (sign (pk 2) (pk 6)) = (d', Ok ()) ∧ genesis_key d' = (pk 1) ∧
        repr d' (demo_entry (pk 2) (pk 6) :: demo_tree).
Proof.
  split; [apply (verify_and_insert_refines _ _ _ _ _ demo_repr); vm_compute; reflexivity|].
  split; apply (verify_and_insert_refines _ _ _ _ _ demo_repr); vm_compute; reflexivity.
Defined.

Lemma self_verify_decides_witness :
  self_verify demo_dag = Some true ∧ self_verify forged_chain = Some false.
Proof.
  split.
  - rewrite (self_verify_decides _ _ demo_repr). vm_compute. reflexivity.
  - rewrite (self_verify_decides _ _ forged_chain_repr). vm_compute. reflexivity.
Defined.

Lemma partial_dag_is_branch_witness :
  partial_dag demo_dag (pk 1) (pk 9) = Some (Err (KeyNotFound (pk 9))) ∧
  partial_dag demo_dag (pk 3) (pk 4) = Some (Err InvalidBranch) ∧
  ∃ d', partial_dag demo_dag (pk 1) (pk 4) = Some (Ok d') ∧ genesis_key d' = (pk 1) ∧
        repr d' [demo_entry (pk 2) (pk 4); demo_entry (pk 1) (pk 2)] ∧ last_key d' = Ok (pk 4) ∧
        [demo_entry (pk 2) (pk 4); demo_entry (pk 1) (pk 2)] ⊆ demo_tree.
Proof.
  split; [apply (partial_dag_is_branch _ _ _ _ demo_repr); vm_compute; reflexivity|].
  split; apply (partial_dag_is_branch _ _ _ _ demo_repr); vm_compute; reflexivity.
Defined.

Lemma get_ancestors_is_path_witness :
  get_ancestors demo_dag (pk 4) = Some (Ok [(pk 2); (pk 1)]).
Proof. rewrite (get_ancestors_is_path _ _ (pk 4) demo_repr). vm_compute. reflexivity. Defined.

Lemma merge_is_union_witness :
  (∃ d' t', merge demo_dag demo_chain = Some (d', Ok ()) ∧ genesis_key d' = (pk 1) ∧
     repr d' t' ∧ ∀ e, e ∈ t' ↔ e ∈ demo_tree ∨ e ∈ [demo_entry (pk 3) (pk 5)]) ∧
  merge demo_dag forged_chain = Some (demo_dag, Err UntrustedProofChain).
Proof.
  split.
  - apply (merge_is_union _ _ _ _ demo_repr demo_chain_repr); try (vm_compute; reflexivity).
    + intros e e' He ->%list_elem_of_singleton. unfold demo_tree in He.
      rewrite !elem_of_cons in He. destruct He as [->|[->|[->|He]]]; [done..|].
      by apply not_elem_of_nil in He.
    + apply (bool_decide_unpack _). vm_compute. exact I.
  - apply (merge_is_union _ _ _ _ demo_repr forged_chain_repr); try (vm_compute; reflexivity).
    + intros e e' He ->%list_elem_of_singleton. unfold demo_tree in He.
      rewrite !elem_of_cons in He. destruct He as [->|[->|[->|He]]]; [done..|].
      by apply not_elem_of_nil in He.
    + apply (bool_decide_unpack _). vm_compute. exact I.
Defined.

Lemma serialize_roundtrip_witness :
  ∃ inter d', serialize demo_dag = Some inter ∧ deserialize inter = Ok d' ∧
    genesis_key d' = genesis_key demo_dag ∧ hashes d' = hashes demo_dag ∧
    dag_root d' = dag_root demo_dag ∧ mr_dag (dag d') = mr_dag (dag demo_dag).
Proof. apply (serialize_roundtrip _ _ demo_repr). vm_compute. reflexivity. Defined.

Lemma single_branch_ends_at_leaf_witness :
  ∃ d' b leaf, single_branch_dag_for_key demo_dag (pk 2) = Some (Ok (d', e_key leaf)) ∧
    tree_leaf demo_tree leaf ∧ genesis_key d' = genesis_key demo_dag ∧ repr d' b ∧
    b ⊆ demo_tree ∧ (pk 2) ∈ tree_keys (genesis_key demo_dag) b ∧
    last_key d' = Ok (e_key leaf).
Proof. apply (single_branch_ends_at_leaf _ _ (pk 2) demo_repr); vm_compute; congruence. Defined.

Lemma reachable_dag_verifies_witness :
  self_verify demo_dag = Some true ∧ genesis_key demo_dag = (pk 1) ∧
  mr_orphans (dag demo_dag) = ∅.
Proof.
  apply (reachable_dag_verifies (pk 1)). unfold demo_dag.
  do 3 (eapply rtc_r; [|apply step_insert; vm_compute; reflexivity]). apply rtc_refl.
Defined.
End DagDemo.
