(* ===== verification/Sap.v ===== *)
(** * Section authority providers

    [messaging/system/section_sig.rs] and
    [network_knowledge/section_authority_provider.rs]: section signatures, signed
    values, the elders and members of a section. *)

From S2P Require Import Prelude External Xor NodeState SectionsDag.

Section sig.
Context {B : Bls}.

Record SectionSig := mkSectionSig {
  sig_public_key : PublicKey;
  sig_signature : Signature;
}.

Definition section_sig_verify (s : SectionSig) (payload : bytes) : bool :=
  pk_verify (sig_public_key s) (sig_signature s) payload.

Record SectionSigned (T : Type) := mkSectionSigned {
  value : T;
  sig : SectionSig;
}.
End sig.
Arguments mkSectionSigned {_ T} _ _.
Arguments value {_ T} _.
Arguments sig {_ T} _.

#[export] Instance section_sig_eq_dec {B : Bls} : EqDecision SectionSig.
Proof. solve_decision. Defined.
#[export] Instance section_sig_countable {B : Bls} : Countable SectionSig :=
  inj_countable' (λ s, (sig_public_key s, sig_signature s)) (λ p, mkSectionSig p.1 p.2)
    (λ s, match s with mkSectionSig _ _ => eq_refl end).
#[export] Instance section_signed_eq_dec {B : Bls} {T} `{EqDecision T} : EqDecision (SectionSigned T).
Proof. solve_decision. Defined.
#[export] Instance section_signed_countable {B : Bls} {T} `{Countable T} :
  Countable (SectionSigned T) :=
  inj_countable' (λ s, (value s, sig s)) (λ p, mkSectionSigned p.1 p.2)
    (λ s, match s with mkSectionSigned _ _ => eq_refl end).

(** The trait [SectionAuthUtils] of a signed value. *)
Section auth_utils.
Context {B : Bls} {BP : Bincode PublicKey} {M : Merkle SectionInfo} {T : Type} {BT : Bincode T}.

Definition signed_self_verify (s : SectionSigned T) : bool :=
  match bincode_serialize (value s) with
  | Some bs => section_sig_verify (sig s) bs
  | None => false
  end.

Definition signed_verify (s : SectionSigned T) (section_dag : SectionsDAG) : bool :=
  has_key section_dag (sig_public_key (sig s)) && signed_self_verify s.
End auth_utils.

Section sap.
Context {B : Bls} {X : Xor} {Trigger : Type} `{Countable Trigger}.

Record SectionAuthorityProvider := mkSap {
  sap_prefix : Prefix;
  sap_public_key_set : PublicKeySet;
  sap_elders : gset NodeId;
  sap_members : gset (NodeState Trigger);
  sap_membership_gen : nat;
}.

Definition section_key (s : SectionAuthorityProvider) : PublicKey :=
  pks_public_key (sap_public_key_set s).
Definition sap_elder_count (s : SectionAuthorityProvider) : nat := size (sap_elders s).
Definition contains_elder (s : SectionAuthorityProvider) (n : XorName) : bool :=
  bool_decide (set_Exists (λ e, id_name e = n) (sap_elders s)).
Definition elder_names (s : SectionAuthorityProvider) : gset XorName :=
  set_map id_name (sap_elders s).

(** The candidates a handover consensus votes on. *)
Inductive SapCandidate :=
  | ElderHandover (sap : SectionSigned SectionAuthorityProvider)
  | SectionSplit (sap1 sap2 : SectionSigned SectionAuthorityProvider).

Definition candidate_key_sets (c : SapCandidate) : gset PublicKeySet :=
  match c with
  | ElderHandover sap => {[sap_public_key_set (value sap)]}
  | SectionSplit sap1 sap2 =>
      {[sap_public_key_set (value sap1); sap_public_key_set (value sap2)]}
  end.
End sap.
Arguments SectionAuthorityProvider {_ _} Trigger {_ _}.
Arguments SapCandidate {_ _} Trigger {_ _}.

#[export] Instance sap_eq_dec {B : Bls} {X : Xor} {T} `{Countable T} :
  EqDecision (SectionAuthorityProvider T).
Proof. solve_decision. Defined.
#[export] Instance sap_countable {B : Bls} {X : Xor} {T} `{Countable T} :
  Countable (SectionAuthorityProvider T) :=
  inj_countable' (λ s, (sap_prefix s, sap_public_key_set s, sap_elders s, sap_members s, sap_membership_gen s))
    (λ p, mkSap p.1.1.1.1 p.1.1.1.2 p.1.1.2 p.1.2 p.2) (λ s, match s with mkSap _ _ _ _ _ => eq_refl end).
#[export] Instance sap_candidate_eq_dec {B : Bls} {X : Xor} {T} `{Countable T} : EqDecision (SapCandidate T).
Proof. solve_decision. Defined.
