(* ===== verification/SectionTree.v ===== *)
(** * The section tree

    [network_knowledge/section_tree/mod.rs]: the latest signed authority of every
    known section by prefix, with the DAG of all section keys.  An entry is pruned
    when sections below it are known. *)

From S2P Require Import Prelude External Xor NodeState SectionsDag Sap.

Section section_tree.
Context {B : Bls} {X : Xor} {BP : Bincode PublicKey} {M : Merkle SectionInfo}.
Context {Trigger : Type} `{Countable Trigger} {BS : Bincode (SectionAuthorityProvider Trigger)}.

Abbreviation SignedSap := (SectionSigned (SectionAuthorityProvider Trigger)).

Record SectionTree := mkSectionTree {
  sections : gmap Prefix SignedSap;
  sections_dag : SectionsDAG;
}.

Record SectionTreeUpdate := mkSectionTreeUpdate {
  signed_sap : SignedSap;
  proof_chain : SectionsDAG;
}.

Definition tree_new (genesis_sap : SignedSap) : result Error SectionTree :=
  if decide (sap_prefix (value genesis_sap) = px_default) then
    Ok {| sections := {[px_default := genesis_sap]};
          sections_dag := SectionsDag.new (section_key (value genesis_sap)) |}
  else Err NonGenesisSap.

Definition tree_genesis_key (t : SectionTree) : PublicKey := genesis_key (sections_dag t).

Definition tree_len (t : SectionTree) : nat := size (sections t).

Definition get_signed (t : SectionTree) (prefix : Prefix) : option SignedSap :=
  sections t !! prefix.

Definition get_signed_by_key (t : SectionTree) (key : PublicKey) : option SignedSap :=
  snd <$> list_find (λ s, section_key (value s) = key) (bmap_values (sections t)).

(** The section with the longest common prefix; the last one on a tie. *)
Definition get_signed_by_name (t : SectionTree) (name : XorName) : result Error SignedSap :=
  snd <$> ok_or (max_by_key (λ e, px_common_prefix e.1 name) (bmap_iter (sections t)))
                NoMatchingSection.

Definition get_signed_by_prefix (t : SectionTree) (prefix : Prefix) : result Error SignedSap :=
  get_signed_by_name t (px_name prefix).

Definition closest (t : SectionTree) (name : XorName) (exclude : option Prefix)
    : option SignedSap :=
  snd <$> min_by (λ a b, px_cmp_distance a.1 b.1 name)
            (filter (λ e, Some e.1 ≠ exclude) (bmap_iter (sections t))).

Definition tree_section_keys (t : SectionTree) : list PublicKey :=
  (λ s, section_key (value s)) <$> bmap_values (sections t).

Definition generate_section_tree_update (t : SectionTree) (prefix : Prefix)
    : option (result Error SectionTreeUpdate) :=
  match sections t !! prefix with
  | None => Some (Err NoMatchingSection)
  | Some sap =>
      match partial_dag (sections_dag t) (tree_genesis_key t) (section_key (value sap)) with
      | None => None
      | Some (Err e) => Some (Err e)
      | Some (Ok chain) => Some (Ok (mkSectionTreeUpdate sap chain))
      end
  end.

(** Remove [prefix] and its ancestors; the loop ends at the empty prefix. *)
Fixpoint prune_loop (fuel : nat) (m : gmap Prefix SignedSap) (prefix : Prefix)
    : option (gmap Prefix SignedSap) :=
  match fuel with
  | O => None
  | S fuel =>
      let m := delete prefix m in
      if px_is_empty prefix then Some m else prune_loop fuel m (px_popped prefix)
  end.
Definition prune (m : gmap Prefix SignedSap) (prefix : Prefix) : option (gmap Prefix SignedSap) :=
  prune_loop (S (px_bit_count prefix)) m prefix.

Definition tree_insert (m : gmap Prefix SignedSap) (sap : SignedSap)
    : option (gmap Prefix SignedSap * bool) :=
  let prefix := sap_prefix (value sap) in
  if existsb (λ p, px_is_extension_of p prefix) (bmap_iter m).*1 then Some (m, false)
  else
    let m := <[prefix := sap]> m in
    if px_is_empty prefix then Some (m, true)
    else (λ m, (m, true)) <$> prune m (px_popped prefix).

(** The trust checks before an update, in the order of the code. *)
Definition check_update (t : SectionTree) (u : SectionTreeUpdate) : result Error unit :=
  let sap := signed_sap u in
  let key := section_key (value sap) in
  let chain := proof_chain u in
  _ ← match get_signed t (sap_prefix (value sap)) with
      | Some known =>
          if has_key chain (section_key (value known)) then Ok ()
          else Err SAPKeyNotCoveredByProofChain
      | None =>
          if check_trust chain (SectionsDag.keys (sections_dag t)) then Ok ()
          else Err UntrustedProofChain
      end;
  if negb (signed_self_verify sap) then Err UntrustedSectionAuthProvider
  else if decide (sig_public_key (sig sap) ≠ key) then Err UntrustedSectionAuthProvider
  else
    last ← last_key chain;
    if decide (last = key) then Ok () else Err UntrustedProofChain.

Definition update_the_section_tree (t : SectionTree) (u : SectionTreeUpdate)
    : option (SectionTree * result Error bool) :=
  let sap := signed_sap u in
  if has_key (sections_dag t) (section_key (value sap)) then Some (t, Ok false)
  else match check_update t u with
       | Err e => Some (t, Err e)
       | Ok _ =>
           match tree_insert (sections t) sap with
           | None => None
           | Some (m, false) => Some (mkSectionTree m (sections_dag t), Ok false)
           | Some (m, true) =>
               match merge (sections_dag t) (proof_chain u) with
               | None => None
               | Some (d, Ok _) => Some (mkSectionTree m d, Ok true)
               | Some (d, Err e) => Some (mkSectionTree m d, Err e)
               end
           end
       end.
End section_tree.
Arguments SectionTree {_ _ _} Trigger {_ _}.
Arguments SectionTreeUpdate {_ _ _} Trigger {_ _}.
