(* ===== verification/SectionTreeProps.v ===== *)
(** * Properties of the section tree *)

From S2P Require Import Prelude External Xor NodeState SectionsDag SectionsDagSpec.
From S2P Require Import SectionsDagWalk SectionsDagChain SectionsDagProps Sap SectionTree.

Section props.
Context {B : Bls} {X : Xor} {XL : XorLaws} {BP : Bincode PublicKey}.
Context {M : Merkle SectionInfo} {ML : MerkleLaws SectionInfo}.
Context {Trigger : Type} `{Countable Trigger} {BS : Bincode (SectionAuthorityProvider Trigger)}.
Implicit Types (m : gmap Prefix (SectionSigned (SectionAuthorityProvider Trigger))).
Implicit Types (p q : Prefix) (t : SectionTree Trigger) (u : SectionTreeUpdate Trigger).

(** ** Pruning and inserting *)

Lemma prune_loop_spec fuel m p :
  length (px_bits p) < fuel →
  ∃ m', prune_loop fuel m p = Some m' ∧
    ∀ q, m' !! q = if decide (px_bits q `prefix_of` px_bits p) then None else m !! q.
Proof.
  revert m p. induction fuel as [|fuel IH]; intros m p Hf; [lia|]. simpl.
  destruct (px_is_empty p) eqn:He.
  - apply px_is_empty_spec in He. exists (delete p m). split; [done|]. intros q.
    rewrite lookup_delete, He. case_decide as Hpq; case_decide as Hpre; try done.
    + subst. by destruct Hpre; rewrite He.
    + apply prefix_nil_inv in Hpre. destruct Hpq. apply px_bits_inj. congruence.
  - apply not_true_iff_false in He. rewrite px_is_empty_spec in He.
    destruct (IH (delete p m) (px_popped p)) as (m' & -> & Hm').
    { rewrite px_popped_spec, length_take. destruct (px_bits p); [done|]. simpl in *. lia. }
    exists m'. split; [done|]. intros q. rewrite Hm', lookup_delete, px_popped_spec.
    destruct (decide (p = q)) as [->|Hne].
    + rewrite (decide_True (P := px_bits q `prefix_of` px_bits q)) by done. by case_decide.
    + assert (px_bits q `prefix_of` take (length (px_bits p) - 1) (px_bits p) ↔
        px_bits q `prefix_of` px_bits p) as Hiff.
      { split; [intros Hq; etrans; [exact Hq|apply prefix_take]|].
        intros [l Hl]. destruct l as [|b l] using rev_ind.
        - destruct Hne. apply px_bits_inj. by rewrite Hl, app_nil_r.
        - rewrite Hl, (assoc_L (++)), length_app. simpl.
          rewrite Nat.add_sub, take_app_length. by exists l. }
      by repeat case_decide; rewrite ?Hiff in *.
Qed.

(** No known section lies below another one. *)
Definition antichain m : Prop :=
  ∀ p q, is_Some (m !! p) → is_Some (m !! q) → px_is_extension_of p q = false.

(** Every authority is filed under its own prefix. *)
Definition filed m : Prop := ∀ p s, m !! p = Some s → sap_prefix (value s) = p.

(** Every known section has its key in the DAG. *)
Definition keys_known t : Prop :=
  ∀ p s, sections t !! p = Some s → has_key (sections_dag t) (section_key (value s)) = true.

(** A well-formed tree over the key tree [e]. *)
Record tree_ok t (e : list entry) : Prop := {
  ok_antichain : antichain (sections t);
  ok_filed : filed (sections t);
  ok_keys : keys_known t;
  ok_repr : repr (sections_dag t) e;
}.

Lemma extension_below m p :
  existsb (λ q, px_is_extension_of q p) (bmap_iter m).*1 = true ↔
  ∃ q, is_Some (m !! q) ∧ px_is_extension_of q p = true.
Proof.
  rewrite existsb_exists. setoid_rewrite <-list_elem_of_In. setoid_rewrite list_elem_of_fmap. split.
  - intros (q & ([q' s] & -> & Hin%elem_of_bmap_iter) & He). eauto.
  - intros (q & [s Hs] & He). exists q. split; [|done]. exists (q, s).
    split; [done|]. by apply elem_of_bmap_iter.
Qed.

Lemma tree_insert_spec m sap :
  let p := sap_prefix (value sap) in
  (existsb (λ q, px_is_extension_of q p) (bmap_iter m).*1 = true ∧ tree_insert m sap = Some (m, false)) ∨
  (existsb (λ q, px_is_extension_of q p) (bmap_iter m).*1 = false ∧
   ∃ m', tree_insert m sap = Some (m', true) ∧
     ∀ q, m' !! q = if decide (q = p) then Some sap
                    else if px_is_extension_of p q then None else m !! q).
Proof.
  intros p. unfold tree_insert. fold p. destruct (existsb _ _); [by left|right]. split; [done|].
  destruct (px_is_empty p) eqn:He.
  - eexists. split; [done|]. intros q. rewrite lookup_insert. apply px_is_empty_spec in He.
    case_decide; [by subst; rewrite decide_True|]. rewrite decide_False by done.
    destruct (px_is_extension_of p q) eqn:Hx; [|done].
    apply px_is_extension_of_spec in Hx as [Hpre Hne]. rewrite He in Hpre.
    apply prefix_nil_inv in Hpre. destruct Hne. apply px_bits_inj. congruence.
  - apply not_true_iff_false in He. rewrite px_is_empty_spec in He.
    destruct (prune_loop_spec (S (px_bit_count (px_popped p))) (<[p := sap]> m) (px_popped p))
      as (m' & Hm' & Hl).
    { rewrite px_bit_count_spec. lia. }
    unfold prune. rewrite Hm'. eexists. split; [done|]. intros q. rewrite Hl.
    assert (px_bits q `prefix_of` px_bits (px_popped p) ↔ px_is_extension_of p q = true) as Hiff.
    { rewrite px_popped_spec, px_is_extension_of_spec. split.
      - intros Hq. split; [etrans; [exact Hq|apply prefix_take]|]. intros ->.
        apply prefix_length in Hq. rewrite length_take in Hq.
        destruct (px_bits q); [done|]. simpl in Hq. lia.
      - intros [[l Hq] Hne]. destruct l as [|b l] using rev_ind.
        + destruct Hne. apply px_bits_inj. by rewrite Hq, app_nil_r.
        + rewrite Hq, (assoc_L (++)), length_app. simpl.
          rewrite Nat.add_sub, take_app_length. by exists l. }
    rewrite lookup_insert. destruct (decide (q = p)) as [->|Hne].
    + rewrite decide_False, decide_True; [done..|]. by rewrite Hiff, px_not_self_extension.
    + rewrite (decide_False (P := p = q)) by congruence.
      destruct (px_is_extension_of p q); case_decide as Hd; try done;
        [by destruct Hd; apply Hiff|by apply Hiff in Hd].
Qed.

Lemma tree_insert_prunes_aux m sap :
  antichain m → filed m →
  ∃ m' b, tree_insert m sap = Some (m', b) ∧ antichain m' ∧ filed m' ∧
    (b = false ↔ ∃ q, is_Some (m !! q) ∧ px_is_extension_of q (sap_prefix (value sap)) = true) ∧
    (b = false → m' = m) ∧
    (b = true → ∀ q, m' !! q = if decide (q = sap_prefix (value sap)) then Some sap
                               else if px_is_extension_of (sap_prefix (value sap)) q then None
                               else m !! q).
Proof.
  intros Hac Hf. destruct (tree_insert_spec m sap) as [[Hex Hi]|(Hex & m' & Hi & Hl)]; rewrite Hi.
  { exists m, false. split; [done|]. rewrite extension_below in Hex. split_and!; done. }
  exists m', true. split; [done|].
  assert (∀ q, is_Some (m !! q) → px_is_extension_of q (sap_prefix (value sap)) = false) as Hno.
  { intros q Hq. apply not_true_iff_false. intros He. apply not_true_iff_false in Hex.
    apply Hex, extension_below. eauto. }
  split_and!.
  - intros p q. rewrite !Hl. case_decide as Hp; subst; case_decide as Hq; subst.
    + intros. apply px_not_self_extension.
    + intros _ Hs. destruct (px_is_extension_of _ q); [by destruct Hs|done].
    + intros Hs _. apply Hno. destruct (px_is_extension_of _ p); [by destruct Hs|done].
    + intros Hsp Hsq. apply Hac;
        [destruct (px_is_extension_of _ p)|destruct (px_is_extension_of _ q)]; by destruct_or?.
  - intros q s. rewrite Hl. case_decide; [naive_solver|].
    destruct (px_is_extension_of _ q); [done|]. apply Hf.
  - split; [done|]. intros (q & Hq & He). by rewrite Hno in He.
  - done.
  - done.
Qed.

(** Inserting a section always terminates; it is refused, with the map unchanged,
    exactly when a section below it is known, and otherwise the section replaces the
    entry at its prefix and all entries above it; the known prefixes stay an
    antichain and every authority stays filed under its own prefix. *)
Theorem tree_insert_prunes m sap :
  antichain m → filed m →
  ∃ m' b, tree_insert m sap = Some (m', b) ∧ antichain m' ∧ filed m' ∧
    (b = false ↔ ∃ q, is_Some (m !! q) ∧ px_is_extension_of q (sap_prefix (value sap)) = true) ∧
    (b = false → m' = m) ∧
    (b = true → ∀ q, m' !! q = if decide (q = sap_prefix (value sap)) then Some sap
                               else if px_is_extension_of (sap_prefix (value sap)) q then None
                               else m !! q).
Proof. apply tree_insert_prunes_aux. Qed.

(** With an antichain of known sections, looking up a name that some section
    covers returns that section; no other section covers the name. *)
Theorem get_signed_by_name_covers t name p s :
  antichain (sections t) → sections t !! p = Some s → px_matches p name = true →
  get_signed_by_name t name = Ok s ∧
  ∀ q, is_Some (sections t !! q) → px_matches q name = true → q = p.
Proof.
  intros Hac Hs Hm.
  assert (∀ q, is_Some (sections t !! q) → px_matches q name = true → q = p) as Huniq.
  { intros q Hq Hmq. destruct (px_matches_comparable q p name Hmq Hm) as [?|[Hx|Hx]]; [done|..];
      by rewrite Hac in Hx. }
  split; [|done]. unfold get_signed_by_name.
  destruct (max_by_key _ _) as [[q s']|] eqn:Hmax; cycle 1.
  { apply max_by_key_None in Hmax. apply elem_of_bmap_iter in Hs. rewrite Hmax in Hs. set_solver. }
  apply max_by_key_Some in Hmax as [Hin Hmax]. cbn.
  specialize (Hmax (p, s)). simpl in Hmax. rewrite elem_of_bmap_iter in Hmax.
  specialize (Hmax Hs). apply elem_of_bmap_iter in Hin.
  rewrite !px_common_prefix_spec in Hmax. apply px_matches_spec in Hm as Hpre.
  apply common_bits_full in Hpre as Hfull. rewrite Hfull in Hmax.
  assert (q = p) as ->; [|congruence].
  pose proof (common_bits_le (px_bits q) (xn_bits name)) as Hle.
  destruct (decide (q = p)) as [|Hne]; [done|]. exfalso.
  assert (px_bits p `prefix_of` px_bits q) as Hpq.
  { clear -Hmax Hfull. revert Hmax Hfull. generalize (px_bits p) (px_bits q) (xn_bits name).
    induction l as [|x l IH]; intros [|y k] [|z n]; simpl; try lia; try (intros; apply prefix_nil).
    destruct (eqb x z) eqn:Hxz; [|lia]. destruct (eqb y z) eqn:Hyz; [|lia].
    apply eqb_prop in Hxz, Hyz. subst. intros. apply prefix_cons, (IH k n); lia. }
  assert (px_is_extension_of q p = true) as Hx by (by apply px_is_extension_of_spec).
  rewrite Hac in Hx; [done|eauto|eauto].
Qed.

(** ** Updates *)

Lemma check_update_Ok t u :
  check_update t u = Ok () →
  signed_self_verify (signed_sap u) = true ∧
  sig_public_key (sig (signed_sap u)) = section_key (value (signed_sap u)) ∧
  last_key (proof_chain u) = Ok (section_key (value (signed_sap u))) ∧
  match sections t !! sap_prefix (value (signed_sap u)) with
  | Some known => has_key (proof_chain u) (section_key (value known)) = true
  | None => genesis_key (proof_chain u) ∈ SectionsDag.keys (sections_dag t)
  end.
Proof.
  unfold check_update, get_signed. intros (a & Htrust & Hc)%result_bind_Ok.
  destruct (signed_self_verify _); [|done]. cbn in Hc.
  case_decide as Hk; [done|].
  apply result_bind_Ok in Hc as (l & Hl & Hd). case_decide; [subst|done].
  do 3 (split; [done|]). destruct (sections t !! _) as [known|].
  - by destruct (has_key _ _).
  - destruct (check_trust _ _) eqn:Ht; [|done]. unfold check_trust in Ht.
    apply existsb_exists in Ht as (k & Hin & ->%bool_decide_eq_true). by apply list_elem_of_In.
Qed.

Lemma merge_Ok_verified (d o d' : SectionsDAG) : merge d o = Some (d', Ok ()) → self_verify o = Some true.
Proof. unfold merge. by destruct (self_verify o) as [[]|]. Qed.

(** The key an update must prove itself with: the one of the section known at its
    prefix, else the first key of its chain, which must be known. *)
Definition trusted_key t u k : Prop :=
  match sections t !! sap_prefix (value (signed_sap u)) with
  | Some known => k = section_key (value known)
  | None => k = genesis_key (proof_chain u) ∧ k ∈ SectionsDag.keys (sections_dag t)
  end.

(** C21: an update is only accepted with a proof: its section key is new, the authority
    is signed with that very key, and a chain of valid signatures leads to it from the
    key of the section known at its prefix, or from a known key when there is none.
    The authority is then filed under its prefix. *)
Theorem update_accepted_is_proven t u c t' :
  repr (proof_chain u) c → update_the_section_tree t u = Some (t', Ok true) →
  let key := section_key (value (signed_sap u)) in
  has_key (sections_dag t) key = false ∧
  signed_self_verify (signed_sap u) = true ∧ sig_public_key (sig (signed_sap u)) = key ∧
  (∃ k b, trusted_key t u k ∧ chain k key b ∧ b ⊆ c ∧ forallb e_signed b = true) ∧
  sections t' !! sap_prefix (value (signed_sap u)) = Some (signed_sap u).
Proof.
  intros R Hup key. unfold update_the_section_tree in Hup.
  destruct (has_key (sections_dag t) _); [done|]. split; [done|].
  destruct (check_update t u) as [[]|] eqn:Hc; [|done].
  apply check_update_Ok in Hc as (Hs & Hk & Hl & Ht).
  destruct (tree_insert_spec (sections t) (signed_sap u)) as [[_ Hi]|(_ & m & Hi & Hlk)];
    rewrite Hi in Hup; [done|].
  destruct (merge _ _) as [[d [[]|e]]|] eqn:Hm; simplify_eq. apply merge_Ok_verified in Hm.
  rewrite (self_verify_repr _ c R) in Hm. injection Hm as Hm. do 2 (split; [done|]).
  split; [|simpl; by rewrite Hlk, decide_True].
  assert (∃ k, trusted_key t u k ∧ k ∈ tree_keys (genesis_key (proof_chain u)) c) as (k & Htk & Hkc).
  { unfold trusted_key. destruct (sections t !! _) as [known|].
    - exists (section_key (value known)). split; [done|]. by apply repr_has_key.
    - eexists. split; [done|]. left. }
  destruct (last_key_above _ c k key R Hl Hkc) as (b & Hc & Hb).
  exists k, b. split_and!; try done. apply forallb_forall. intros x Hx%list_elem_of_In%Hb.
  rewrite forallb_forall in Hm. by apply Hm, list_elem_of_In.
Qed.

Lemma update_files t u t' :
  update_the_section_tree t u = Some (t', Ok true) →
  sections t' !! sap_prefix (value (signed_sap u)) = Some (signed_sap u).
Proof.
  unfold update_the_section_tree. intros Hup.
  destruct (has_key _ _), (check_update t u); try done.
  destruct (tree_insert_spec (sections t) (signed_sap u)) as [[_ Hi]|(_ & m & Hi & Hlk)];
    rewrite Hi in Hup; [done|].
  destruct (merge _ _) as [[d [[]|e]]|]; simplify_eq. simpl. by rewrite Hlk, decide_True.
Qed.

Lemma last_key_in (d : SectionsDAG) (t : list entry) key :
  repr d t → last_key d = Ok key → key ∈ tree_keys (genesis_key d) t.
Proof.
  intros R Hl. destruct (last_key_above d t (genesis_key d) key R Hl) as (b & Hc & Hb); [left|].
  apply chain_keys in Hc. apply tree_keys_cases. apply tree_keys_cases in Hc. naive_solver.
Qed.

Lemma update_atomic t u e c :
  tree_ok t e → repr (proof_chain u) c → forallb e_signed c = true → compat e c →
  genesis_key (sections_dag t) ∉ e_key <$> c →
  has_key (sections_dag t) (genesis_key (proof_chain u)) = true →
  ∃ t' r, update_the_section_tree t u = Some (t', r) ∧
    (r ≠ Ok true → t' = t) ∧
    (r = Ok true → tree_genesis_key t' = tree_genesis_key t ∧
       ∃ e', tree_ok t' e' ∧ ∀ x, x ∈ e' ↔ x ∈ e ∨ x ∈ c).
Proof.
  intros [Hac Hf Hkn R] Rc Hs Hcp Hg Hk. unfold update_the_section_tree.
  destruct (has_key (sections_dag t) (section_key _)); [by eexists _, _; split_and!|].
  destruct (check_update t u) as [[]|] eqn:Hc; [|by eexists _, _].
  apply check_update_Ok in Hc as (_ & _ & Hl & _).
  destruct (tree_insert_prunes_aux (sections t) (signed_sap u) Hac Hf)
    as (m & b & Hi & Hac' & Hf' & _ & Hm0 & Hm1). rewrite Hi.
  destruct b; cycle 1.
  { rewrite (Hm0 eq_refl). eexists _, _. split; [done|]. split; [by destruct t|done]. }
  apply (repr_has_key _ _ R) in Hk.
  destruct (merge_repr _ _ _ _ R Rc Hs Hk Hcp Hg) as (d & e' & -> & Hgd & R' & He').
  eexists _, _. split; [done|]. split; [done|]. intros _. split; [done|]. exists e'.
  assert (∀ k, k ∈ tree_keys (genesis_key (sections_dag t)) e ∨ k ∈ tree_keys (genesis_key (proof_chain u)) c →
    has_key d k = true) as Hkeys.
  { intros k Hin. apply (repr_has_key _ _ R'). rewrite Hgd. apply tree_keys_cases.
    rewrite !tree_keys_cases in Hin. apply tree_keys_cases in Hk.
    destruct Hin as [[?|?]|[->|?]]; [| |destruct Hk|]; naive_solver. }
  split; [|done]. split; [done..| |done]. intros p s. simpl. rewrite (Hm1 eq_refl).
  case_decide; [intros [= <-]|case_match; [done|]].
  - apply Hkeys. right. by apply last_key_in.
  - intros Hp. apply Hkeys. left. apply (repr_has_key _ _ R). by eapply Hkn.
Qed.

(** What an update needs to be accepted. *)
Lemma update_accepted_if t u e c :
  tree_ok t e → repr (proof_chain u) c → forallb e_signed c = true → compat e c →
  genesis_key (sections_dag t) ∉ e_key <$> c →
  has_key (sections_dag t) (genesis_key (proof_chain u)) = true →
  has_key (sections_dag t) (section_key (value (signed_sap u))) = false → check_update t u = Ok () →
  (∀ q, is_Some (sections t !! q) → px_is_extension_of q (sap_prefix (value (signed_sap u))) = false) →
  ∃ t', update_the_section_tree t u = Some (t', Ok true).
Proof.
  intros [Hac Hf Hkn R] Rc Hs Hcp Hg Hk Hnew Hc Hext. unfold update_the_section_tree. rewrite Hnew, Hc.
  destruct (tree_insert_prunes_aux (sections t) (signed_sap u) Hac Hf) as (m & b & -> & _ & _ & Hb & _).
  destruct b; [|destruct (proj1 Hb eq_refl) as (q & Hq & Hx); by rewrite Hext in Hx].
  apply (repr_has_key _ _ R) in Hk.
  destruct (merge_repr _ _ _ _ R Rc Hs Hk Hcp Hg) as (d & e' & -> & _). eauto.
Qed.

(** On a well-formed tree an update whose chain is verified, consistent with the
    DAG and starts at a known key always returns and is atomic: when it is not
    accepted the tree is unchanged; when it is, the DAG is the union of both, with the
    same genesis key, and the tree is well-formed again. *)
Theorem update_is_atomic t u e c :
  tree_ok t e → repr (proof_chain u) c → forallb e_signed c = true → compat e c →
  genesis_key (sections_dag t) ∉ e_key <$> c →
  has_key (sections_dag t) (genesis_key (proof_chain u)) = true →
  ∃ t' r, update_the_section_tree t u = Some (t', r) ∧
    (r ≠ Ok true → t' = t) ∧
    (r = Ok true → tree_genesis_key t' = tree_genesis_key t ∧
       ∃ e', tree_ok t' e' ∧ ∀ x, x ∈ e' ↔ x ∈ e ∨ x ∈ c).
Proof. apply update_atomic. Qed.
End props.

(** ** Witnesses

    The genesis section with key 1 at the empty prefix, and a section with key 2 that
    follows it. *)

Module TreeDemo.
Import External.Concrete Xor.ConcreteXor DagDemo.

Abbreviation Sap := (SectionAuthorityProvider (X := concrete_xor) unit).

#[export] Instance concrete_bincode_sap : Bincode Sap := λ s,
  Some (Z.of_nat (section_key s) :: ((λ b : bool, if b then 1%Z else 0%Z) <$> sap_prefix s)).

Definition demo_sap (prefix : list bool) (key : PK) : Sap := mkSap prefix key ∅ ∅ 0.
Definition demo_signed (prefix : list bool) (key : PK) : SectionSigned Sap :=
  mkSectionSigned (demo_sap prefix key)
    (mkSectionSig key (key, default [] (bincode_serialize (demo_sap prefix key)))).

Definition genesis_tree : SectionTree unit := mkSectionTree {[[] := demo_signed [] (pk 1)]} (new (pk 1)).

Lemma genesis_tree_new : tree_new (demo_signed [] (pk 1)) = Ok genesis_tree.
Proof. reflexivity. Qed.

Lemma genesis_tree_ok : tree_ok genesis_tree [].
Proof.
  split; [| | |apply repr_new].
  - intros p q [s Hs] [s' Hs']. simpl in *. apply lookup_singleton_Some in Hs as [<- _], Hs' as [<- _].
    vm_compute. reflexivity.
  - intros p s Hs. simpl in Hs. apply lookup_singleton_Some in Hs as [<- <-]. reflexivity.
  - intros p s Hs. simpl in Hs. apply lookup_singleton_Some in Hs as [<- <-].
    vm_compute. reflexivity.
Qed.

Lemma tree_insert_prunes_witness :
  ∃ m' b, tree_insert (sections genesis_tree) (demo_signed [true] (pk 2)) = Some (m', b) ∧
    antichain m' ∧ filed m'.
Proof.
  destruct genesis_tree_ok as [Ha Hf _ _].
  destruct (tree_insert_prunes (sections genesis_tree) (demo_signed [true] (pk 2)) Ha Hf)
    as (m' & b & Hi & ? & ? & _). by exists m', b.
Defined.

Lemma get_signed_by_name_covers_witness :
  get_signed_by_name genesis_tree [true; false] = Ok (demo_signed [] (pk 1)).
Proof.
  apply (get_signed_by_name_covers genesis_tree [true; false] [] (demo_signed [] (pk 1)));
    [apply genesis_tree_ok|vm_compute; reflexivity..].
Defined.

Definition next_chain : SectionsDAG := demo_insert (new (pk 1)) (pk 1) (pk 2).
Definition next_update : SectionTreeUpdate unit := mkSectionTreeUpdate (demo_signed [] (pk 2)) next_chain.

(** The tree after an update, and whether it was accepted. *)
Definition updated (t : SectionTree unit) (u : SectionTreeUpdate unit) : SectionTree unit :=
  match update_the_section_tree t u with Some (t, _) => t | None => t end.
Definition accepts (t : SectionTree unit) (u : SectionTreeUpdate unit) : bool :=
  match update_the_section_tree t u with Some (_, Ok b) => b | _ => false end.

Lemma accepts_updated t u :
  accepts t u = true → update_the_section_tree t u = Some (updated t u, Ok true).
Proof.
  unfold accepts, updated. destruct (update_the_section_tree t u) as [[t' [[]|]]|]; done.
Qed.

Definition next_tree : SectionTree unit := updated genesis_tree next_update.

Lemma next_chain_repr : repr next_chain [demo_entry (pk 1) (pk 2)].
Proof. apply demo_insert_repr; [apply repr_new|vm_compute; reflexivity..]. Qed.

Lemma update_accepted_is_proven_witness :
  ∃ k b, trusted_key genesis_tree next_update k ∧ chain k (pk 2) b ∧
         b ⊆ [demo_entry (pk 1) (pk 2)] ∧ forallb e_signed b = true.
Proof.
  apply (update_accepted_is_proven genesis_tree next_update _ next_tree next_chain_repr).
  apply accepts_updated. vm_compute. reflexivity.
Defined.

Lemma update_is_atomic_witness :
  ∃ t' r, update_the_section_tree genesis_tree next_update = Some (t', r) ∧
    (r ≠ Ok true → t' = genesis_tree) ∧
    (r = Ok true → tree_genesis_key t' = tree_genesis_key genesis_tree ∧
       ∃ e', tree_ok t' e' ∧ ∀ x, x ∈ e' ↔ x ∈ [] ∨ x ∈ [demo_entry (pk 1) (pk 2)]).
Proof.
  apply (update_is_atomic genesis_tree next_update _ _ genesis_tree_ok next_chain_repr); try (vm_compute; reflexivity).
  - by intros e e' ?%not_elem_of_nil.
  - apply (bool_decide_unpack _). vm_compute. exact I.
Defined.

(** A chain that puts a fresh key 9 before the genesis key, and one that puts it
    before the key of the second section. *)
Definition fake_genesis_update : SectionTreeUpdate unit :=
  mkSectionTreeUpdate (demo_signed [] (pk 2)) (demo_insert (demo_insert (new (pk 9)) (pk 9) (pk 1)) (pk 1) (pk 2)).
Definition unknown_genesis_update : SectionTreeUpdate unit :=
  mkSectionTreeUpdate (demo_signed [] (pk 3)) (demo_insert (demo_insert (new (pk 9)) (pk 9) (pk 2)) (pk 2) (pk 3)).

(** The genesis key can be replaced: a verified chain that puts an unknown key
    before the genesis key is accepted for a known prefix, and the unknown key is the
    genesis key of the updated tree. *)
Theorem update_replaces_genesis_key :
  ∃ (t t' : SectionTree unit) (u : SectionTreeUpdate unit) e,
    tree_ok t e ∧ self_verify (proof_chain u) = Some true ∧
    has_key (sections_dag t) (genesis_key (proof_chain u)) = false ∧
    update_the_section_tree t u = Some (t', Ok true) ∧
    tree_genesis_key t' = genesis_key (proof_chain u) ∧ tree_genesis_key t' ≠ tree_genesis_key t.
Proof.
  exists genesis_tree, (updated genesis_tree fake_genesis_update), fake_genesis_update, [].
  split; [apply genesis_tree_ok|]. do 2 (split; [vm_compute; reflexivity|]).
  split; [apply accepts_updated; vm_compute; reflexivity|].
  split; [vm_compute; reflexivity|vm_compute; congruence].
Qed.

(** A refused update can change the tree: with a verified chain that starts at an
    unknown key but contains the key known at that prefix, the merge fails with
    [KeyNotFound] after the authority was filed, whose key the DAG does not know. *)
Theorem refused_update_is_filed :
  ∃ (t t' : SectionTree unit) (u : SectionTreeUpdate unit) k,
    keys_known t ∧ self_verify (proof_chain u) = Some true ∧
    update_the_section_tree t u = Some (t', Err (KeyNotFound k)) ∧
    sections t' !! sap_prefix (value (signed_sap u)) = Some (signed_sap u) ∧
    sections t !! sap_prefix (value (signed_sap u)) ≠ Some (signed_sap u) ∧ ¬ keys_known t'.
Proof.
  exists next_tree, (updated next_tree unknown_genesis_update), unknown_genesis_update, (pk 1).
  split.
  { assert (sections next_tree = {[[] := demo_signed [] (pk 2)]}) as Hn by (vm_compute; reflexivity).
    intros p s. rewrite Hn. intros [<- <-]%lookup_singleton_Some. vm_compute. reflexivity. }
  split; [vm_compute; reflexivity|]. split.
  { assert (match update_the_section_tree next_tree unknown_genesis_update with
            | Some (_, Err (KeyNotFound k)) => bool_decide (k = pk 1) | _ => false end = true) as Hr
      by (vm_compute; reflexivity).
    unfold updated. destruct (update_the_section_tree next_tree unknown_genesis_update)
      as [[t' [|[]]]|]; try done. by apply bool_decide_eq_true in Hr as ->. }
  split; [apply (bool_decide_unpack _); vm_compute; exact I|].
  split; [apply (bool_decide_unpack _); vm_compute; exact I|]. intros Hk.
  specialize (Hk [] (demo_signed [] (pk 3))).
  assert (has_key (sections_dag (updated next_tree unknown_genesis_update)) (pk 3) = false) as Hf
    by (vm_compute; reflexivity).
  change (section_key (value (demo_signed [] (pk 3)))) with (pk 3) in Hk. rewrite Hf in Hk.
  discriminate Hk. apply (bool_decide_unpack _). vm_compute. exact I.
Qed.
End TreeDemo.
