(* ===== verification/MemberHistory.v ===== *)
(** * History of the section members

    [network_knowledge/section_member_history.rs]: the members a section started
    with, the membership decisions since then, and the archive of the nodes that left.

    [Decision] is the outcome of a consensus round of the crate [sn_consensus]: a
    class of its readings, with the proposals in the order of their map.  The order
    [NodeState] derives is a parameter, as the type of its relocation trigger is. *)

From S2P Require Import Prelude External Xor NodeState SectionsDag.

Class ConsensusDecision {B : Bls} {X : Xor} (Trigger : Type) := {
  Decision : Type;
  dec_proposals : Decision → list (NodeState Trigger * Signature);
  dec_generation : Decision → nat;
  dec_validate : Decision → PublicKey → bool;
}.
Arguments Decision {_ _} Trigger {_}.

Section history.
Context {B : Bls} {X : Xor} {BP : Bincode PublicKey} {M : Merkle SectionInfo}.
Context {Trigger : Type} `{Countable Trigger} {C : ConsensusDecision Trigger}.
Context {OS : Ord (NodeState Trigger)} {BN : Bincode (NodeState Trigger)}.

Definition ELDER_CHURN_EVENTS_TO_PRUNE_ARCHIVE : nat := 5.

Record SectionMemberHistory := mkHistory {
  initial_members : gset (NodeState Trigger);
  decisions : list (Decision Trigger);
  archive : gmap XorName (Decision Trigger);
}.

Definition history_default : SectionMemberHistory := mkHistory ∅ [] ∅.

Definition reset_initial_members (h : SectionMemberHistory) (new : gset (NodeState Trigger))
    : SectionMemberHistory := mkHistory new [] (archive h).

(** The effect of one proposal, and of the proposals of one decision. *)
Definition apply_proposal (members : gmap XorName (NodeState Trigger)) (n : NodeState Trigger)
    : gmap XorName (NodeState Trigger) :=
  match state n with
  | Joined => <[name n := n]> members
  | Left | Relocated _ => delete (name n) members
  end.
Definition apply_decision (members : gmap XorName (NodeState Trigger)) (d : Decision Trigger)
    : gmap XorName (NodeState Trigger) :=
  foldl apply_proposal members (dec_proposals d).*1.

Definition joined_initial (initial : gset (NodeState Trigger)) : gmap XorName (NodeState Trigger) :=
  foldl (λ m n, <[name n := n]> m) ∅ (filter (λ n, is_joined n = true) (bset_iter initial)).

Definition members_at_gen (h : SectionMemberHistory) (gen : nat)
    : gmap XorName (NodeState Trigger) :=
  if decide (length (decisions h) < gen) then ∅
  else foldl apply_decision (joined_initial (initial_members h)) (take gen (decisions h)).

Definition members (h : SectionMemberHistory) : gset (NodeState Trigger) :=
  list_to_set (map_to_list (members_at_gen h (length (decisions h)))).*2.

Definition archived_members (h : SectionMemberHistory) : gset (NodeState Trigger) :=
  list_to_set (omap (λ e : XorName * Decision Trigger,
    snd <$> list_find (λ n, name n = e.1) (dec_proposals e.2).*1) (bmap_iter (archive h))).

Definition get (h : SectionMemberHistory) (nm : XorName) : option (NodeState Trigger) :=
  snd <$> list_find (λ n, name n = nm) (bset_iter (members h)).

Definition is_member (h : SectionMemberHistory) (nm : XorName) : bool :=
  bool_decide (is_Some (get h nm)).

Definition rejoins_initial (h : SectionMemberHistory) (d : Decision Trigger) : bool :=
  existsb (λ n, is_joined n && bool_decide (n ∈ initial_members h)) (dec_proposals d).*1.

Definition archive_left (a : gmap XorName (Decision Trigger)) (d : Decision Trigger)
    : gmap XorName (Decision Trigger) :=
  foldl (λ a n, <[name n := d]> a) a (filter (λ n, is_joined n = false) (dec_proposals d).*1).

Definition update (h : SectionMemberHistory) (section_key : PublicKey) (d : Decision Trigger)
    : SectionMemberHistory * result Error bool :=
  if rejoins_initial h d then (h, Ok false)
  else if decide (dec_generation d = length (decisions h) + 1) then
    if dec_validate d section_key then
      (mkHistory (initial_members h) (decisions h ++ [d]) (archive_left (archive h) d), Ok true)
    else (h, Err Consensus)
  else if decide (dec_generation d ≤ length (decisions h)) then (h, Ok false)
  else (h, Err AEOutdated).

Fixpoint update_peers (h : SectionMemberHistory) (section_key : PublicKey)
    (peers : list (Decision Trigger)) : SectionMemberHistory * bool :=
  match peers with
  | [] => (h, false)
  | d :: peers =>
      let '(h, r) := update h section_key d in
      let '(h, rest) := update_peers h section_key peers in
      (h, match r with Ok updated => updated || rest | Err _ => rest end)
  end.

Definition retain (h : SectionMemberHistory) (prefix : Prefix) : SectionMemberHistory :=
  mkHistory (initial_members h) (decisions h)
    (filter (λ e : XorName * Decision Trigger, px_matches prefix e.1 = true) (archive h)).

(** One of the keys signed one of the proposals of the decision. *)
Definition signed_by_any (keys : list PublicKey) (d : Decision Trigger) : bool :=
  existsb (λ key, existsb (λ p : NodeState Trigger * Signature,
    match bincode_serialize p.1 with
    | Some bytes => pk_verify key p.2 bytes
    | None => false
    end) (dec_proposals d)) keys.

Definition prune_members_archive (h : SectionMemberHistory) (proof_chain : SectionsDAG)
    (last_key : PublicKey) : option (SectionMemberHistory * result Error unit) :=
  match get_ancestors proof_chain last_key with
  | None => None
  | Some (Err e) => Some (h, Err e)
  | Some (Ok ancestors) =>
      let latest := take (ELDER_CHURN_EVENTS_TO_PRUNE_ARCHIVE - 1) ancestors ++ [last_key] in
      Some (mkHistory (initial_members h) (decisions h)
              (filter (λ e : XorName * Decision Trigger, signed_by_any latest e.2 = true) (archive h)),
            Ok ())
  end.
End history.
Arguments SectionMemberHistory {_ _} Trigger {_ _ _}.
