(* ===== verification/MemberHistoryProps.v ===== *)
(** * Properties of the member history

    The history refines a map of members that each accepted decision updates; a peer
    that missed decisions catches up from the decisions of another one. *)

From S2P Require Import Prelude External Xor NodeState SectionsDag SectionsDagSpec.
From S2P Require Import SectionsDagWalk MemberHistory.

Section props.
Context {B : Bls} {X : Xor} {BP : Bincode PublicKey} {M : Merkle SectionInfo}.
Context {ML : MerkleLaws SectionInfo}.
Context {Trigger : Type} `{Countable Trigger} {C : ConsensusDecision Trigger}.
Context {OS : Ord (NodeState Trigger)} {BN : Bincode (NodeState Trigger)}.
Implicit Types (h : SectionMemberHistory Trigger) (d : Decision Trigger).
Implicit Types (m : gmap XorName (NodeState Trigger)) (n : NodeState Trigger).

(** ** The current members *)

Definition current h : gmap XorName (NodeState Trigger) :=
  foldl apply_decision (joined_initial (initial_members h)) (decisions h).

Lemma members_at_gen_now h : members_at_gen h (length (decisions h)) = current h.
Proof. unfold members_at_gen. rewrite decide_False by lia. by rewrite take_ge. Qed.

(** A member map files joined nodes under their names. *)
Definition members_wf m : Prop := map_Forall (λ nm n, nm = name n ∧ is_joined n = true) m.

Lemma apply_proposal_wf m n : members_wf m → members_wf (apply_proposal m n).
Proof.
  intros Hm. unfold apply_proposal. destruct (state n) eqn:Hs.
  - apply map_Forall_insert_2; [|done]. unfold is_joined. by rewrite Hs.
  - by apply map_Forall_delete.
  - by apply map_Forall_delete.
Qed.
Lemma apply_decision_wf m d : members_wf m → members_wf (apply_decision m d).
Proof.
  unfold apply_decision. generalize ((dec_proposals d).*1). intros l. revert m.
  induction l as [|n l IH]; intros m Hm; [done|]. apply IH. by apply apply_proposal_wf.
Qed.
Lemma joined_initial_wf s : members_wf (joined_initial s).
Proof.
  unfold joined_initial. assert (members_wf ∅) as He by apply map_Forall_empty. revert He.
  assert (Forall (λ n : NodeState Trigger, is_joined n = true)
    (filter (λ n, is_joined n = true) (bset_iter s))) as Hl.
  { apply Forall_forall. by intros n [? _]%list_elem_of_filter. }
  revert Hl. generalize (filter (λ n : NodeState Trigger, is_joined n = true) (bset_iter s)).
  intros l Hl. generalize (∅ : gmap XorName (NodeState Trigger)).
  induction Hl as [|n l Hn Hl IH]; intros m Hm; [done|]. apply IH. by apply map_Forall_insert_2.
Qed.
Lemma decisions_wf m l : members_wf m → members_wf (foldl apply_decision m l).
Proof. revert m. induction l as [|d l IH]; intros m Hm; [done|]. by apply IH, apply_decision_wf. Qed.
Lemma current_wf h : members_wf (current h).
Proof. apply decisions_wf, joined_initial_wf. Qed.

Lemma elem_of_members h n : n ∈ members h ↔ current h !! name n = Some n.
Proof.
  unfold members. rewrite members_at_gen_now, elem_of_list_to_set, list_elem_of_fmap. split.
  - intros ([nm n'] & -> & Hn%elem_of_map_to_list). simpl. by destruct (current_wf h nm n' Hn) as [-> _].
  - intros Hn. exists (name n, n). split; [done|]. by apply elem_of_map_to_list.
Qed.

Lemma get_current h nm : get h nm = current h !! nm.
Proof.
  unfold get. destruct (list_find _ _) as [[i n]|] eqn:Hf; simpl.
  - apply list_find_Some in Hf as (Hl & <- & _). symmetry.
    by apply list_elem_of_lookup_2, elem_of_bset_iter, elem_of_members in Hl.
  - apply list_find_None in Hf. rewrite Forall_forall in Hf. symmetry.
    apply eq_None_not_Some. intros [n Hn]. destruct (current_wf h nm n Hn) as [-> _].
    apply (Hf n); [|done]. by apply elem_of_bset_iter, elem_of_members.
Qed.

Lemma is_member_spec h nm : is_member h nm = true ↔ ∃ n, n ∈ members h ∧ name n = nm.
Proof.
  unfold is_member. rewrite bool_decide_eq_true, get_current. split.
  - intros [n Hn]. exists n. destruct (current_wf h _ _ Hn) as [-> _]. by rewrite elem_of_members.
  - intros (n & Hn%elem_of_members & <-). eauto.
Qed.

(** The members of a section are the joined nodes, one per name; looking a name up
    finds the member with that name exactly when there is one, and the members at the
    current generation are the same ones. *)
Theorem members_joined_unique h :
  (∀ n, n ∈ members h → is_joined n = true ∧ get h (name n) = Some n) ∧
  (∀ nm, is_member h nm = true ↔ ∃ n, n ∈ members h ∧ name n = nm) ∧
  (∀ n, n ∈ members h ↔ members_at_gen h (length (decisions h)) !! name n = Some n).
Proof.
  split_and!.
  - intros n Hn%elem_of_members. rewrite get_current. split; [|done].
    by destruct (current_wf h _ _ Hn).
  - apply is_member_spec.
  - intros n. by rewrite members_at_gen_now, elem_of_members.
Qed.

(** ** Updates *)

(** The decision says that the node with this name left or was relocated. *)
Definition leaves d (nm : XorName) : bool :=
  existsb (λ n, negb (is_joined n) && bool_decide (name n = nm)) (dec_proposals d).*1.

Lemma archive_left_lookup a d nm :
  archive_left a d !! nm = if leaves d nm then Some d else a !! nm.
Proof.
  unfold archive_left, leaves. generalize ((dec_proposals d).*1). intros l. revert a.
  induction l as [|n l IH]; intros a; [done|]. cbn [existsb]. rewrite filter_cons.
  destruct (is_joined n) eqn:Hj; cbn [negb andb orb].
  - by rewrite decide_False.
  - rewrite decide_True by done. simpl. rewrite IH, lookup_insert.
    case_decide as He; [rewrite bool_decide_true by done|rewrite bool_decide_false by done].
    + by destruct (existsb _ l).
    + done.
Qed.

(** What an accepted decision does to the abstract state: the members and the names
    that left. *)
Record accepted h d h' : Prop := {
  acc_initial : initial_members h' = initial_members h;
  acc_members : current h' = apply_decision (current h) d;
  acc_archive nm : archive h' !! nm = if leaves d nm then Some d else archive h !! nm;
}.

(** [update] accepts exactly the next decision in order that the section key
    validates and that joins no initial member; it then applies the decision to the
    members and archives the names that left.  Older decisions change nothing, a gap is
    reported as [AEOutdated], an invalid decision as [Consensus], with no change. *)
Theorem update_in_order h key d :
  match update h key d with
  | (h', Ok true) =>
      decisions h' = decisions h ++ [d] ∧ accepted h d h' ∧ dec_validate d key = true ∧
      dec_generation d = length (decisions h) + 1 ∧
      ∀ n, n ∈ (dec_proposals d).*1 → is_joined n = true → n ∉ initial_members h
  | (h', Ok false) =>
      h' = h ∧ (dec_generation d ≤ length (decisions h) ∨
                ∃ n, n ∈ (dec_proposals d).*1 ∧ is_joined n = true ∧ n ∈ initial_members h)
  | (h', Err e) =>
      h' = h ∧ (e = Consensus ∧ dec_generation d = length (decisions h) + 1 ∧ dec_validate d key = false
                ∨ e = AEOutdated ∧ length (decisions h) + 1 < dec_generation d)
  end.
Proof.
  unfold update. destruct (rejoins_initial h d) eqn:Hr.
  { split; [done|right]. unfold rejoins_initial in Hr. apply existsb_exists in Hr as (n & Hn & Hb).
    apply andb_prop in Hb as [? Hb%bool_decide_eq_true]. exists n. by apply list_elem_of_In in Hn. }
  case_decide as Hg; [destruct (dec_validate d key) eqn:Hv|].
  - split; [done|]. split_and!; [|done..|].
    + split; [done| |apply archive_left_lookup]. unfold current. simpl. by rewrite foldl_app.
    + intros n Hn Hj Hin. apply not_true_iff_false in Hr. apply Hr, existsb_exists.
      exists n. split; [by apply list_elem_of_In|]. rewrite Hj. by apply bool_decide_eq_true.
  - split; [done|]. by left.
  - case_decide; [by split; [|left]|]. split; [done|]. right. split; [done|lia].
Qed.

(** The decisions of a history, in order from generation [i + 1]. *)
Fixpoint numbered (i : nat) (l : list (Decision Trigger)) : Prop :=
  match l with [] => True | d :: l => dec_generation d = i + 1 ∧ numbered (i + 1) l end.

Definition acceptable (initial : gset (NodeState Trigger)) (key : PublicKey) d : Prop :=
  dec_validate d key = true ∧
  ∀ n, n ∈ (dec_proposals d).*1 → is_joined n = true → n ∉ initial.

Lemma not_rejoins h key d : acceptable (initial_members h) key d → rejoins_initial h d = false.
Proof.
  intros [_ Hn]. apply not_true_iff_false. intros Hr. apply existsb_exists in Hr as (n & Hin & Hb).
  apply andb_prop in Hb as [Hj Hb%bool_decide_eq_true]. apply list_elem_of_In in Hin. by apply (Hn n).
Qed.

Lemma update_peers_old h key l i :
  numbered i l → i + length l ≤ length (decisions h) → update_peers h key l = (h, false).
Proof.
  revert i. induction l as [|d l IH]; intros i; simpl; [done|]. intros [Hg Hn] Hl.
  assert (update h key d = (h, Ok false)) as ->.
  { unfold update. destruct (rejoins_initial h d); [done|].
    rewrite decide_False, decide_True by lia. done. }
  by rewrite (IH _ Hn) by lia.
Qed.

Lemma update_peers_new h key l :
  numbered (length (decisions h)) l → Forall (acceptable (initial_members h) key) l →
  decisions (update_peers h key l).1 = decisions h ++ l ∧
  initial_members (update_peers h key l).1 = initial_members h ∧
  (update_peers h key l).2 = bool_decide (l ≠ []).
Proof.
  revert h. induction l as [|d l IH]; intros h; simpl; [by rewrite app_nil_r|].
  intros [Hg Hn] [Ha Hl]%Forall_cons. unfold update.
  rewrite (not_rejoins _ _ _ Ha), decide_True by done. destruct Ha as [-> _].
  edestruct (IH (mkHistory (initial_members h) (decisions h ++ [d]) (archive_left (archive h) d)))
    as (Hd & Hi & _); [cbn; rewrite length_app; done|done|].
  destruct (update_peers _ key l) as [h' b]. simpl in *. by rewrite Hd, <-(assoc_L (++)).
Qed.

Lemma update_peers_app h key l1 l2 :
  update_peers h key (l1 ++ l2) =
    let '(h1, b1) := update_peers h key l1 in
    let '(h2, b2) := update_peers h1 key l2 in (h2, b1 || b2).
Proof.
  revert h. induction l1 as [|d l1 IH]; intros h; simpl; [by destruct (update_peers h key l2)|].
  destruct (update h key d) as [h0 r]. rewrite IH. destruct (update_peers h0 key l1) as [h1 b1].
  destruct (update_peers h1 key l2) as [h2 b2]. destruct r as [[]|]; done.
Qed.

Lemma numbered_app i l1 l2 : numbered i (l1 ++ l2) ↔ numbered i l1 ∧ numbered (i + length l1) l2.
Proof.
  revert i. induction l1 as [|d l1 IH]; intros i; simpl; [rewrite Nat.add_0_r; naive_solver|].
  rewrite IH. replace (i + 1 + length l1) with (i + S (length l1)) by lia. naive_solver.
Qed.

(** Anti-entropy of members: a node whose decisions are a prefix of a peer's, over
    the same initial members, holds exactly the peer's decisions and so the same
    current members once it is updated with all of them, old ones included. *)
Theorem update_peers_catches_up h h' key :
  initial_members h = initial_members h' → decisions h `prefix_of` decisions h' →
  numbered 0 (decisions h') → Forall (acceptable (initial_members h') key) (decisions h') →
  let h1 := (update_peers h key (decisions h')).1 in
  decisions h1 = decisions h' ∧ members h1 = members h' ∧
  ((update_peers h key (decisions h')).2 = false ↔ decisions h = decisions h').
Proof.
  intros Hi [l Hl] Hn Ha. rewrite Hl in *. apply numbered_app in Hn as [Hn0 Hn1].
  apply Forall_app in Ha as [_ Ha]. rewrite <-Hi in Ha. cbn zeta.
  rewrite update_peers_app, (update_peers_old h key _ 0) by (done || simpl; lia).
  destruct (update_peers_new h key l Hn1 Ha) as (Hd & Hii & Hb).
  destruct (update_peers h key l) as [h1 b]. simpl in *. split; [done|]. split.
  - apply set_eq. intros n. rewrite !elem_of_members. unfold current. by rewrite Hd, Hii, Hi, Hl.
  - rewrite Hb, bool_decide_eq_false, <-(app_nil_r (decisions h)) at 1.
    split; [intros ->%dec_stable; by rewrite app_nil_r|]. intros Heq%app_inv_head. by intros [].
Qed.

Lemma prune_repr h chain t key :
  repr chain t →
  prune_members_archive h chain key =
    Some (if has_key chain key then
            (mkHistory (initial_members h) (decisions h)
              (filter (λ e : XorName * Decision Trigger,
                 signed_by_any (take 4 (tree_path t key) ++ [key]) e.2 = true) (archive h)), Ok ())
          else (h, Err (KeyNotFound key))).
Proof.
  intros R. unfold prune_members_archive. rewrite (get_ancestors_repr chain t key R).
  destruct (has_key chain key) eqn:Hk.
  - apply (repr_has_key chain t R) in Hk. by rewrite decide_True.
  - apply not_true_iff_false in Hk. rewrite (repr_has_key chain t R) in Hk. by rewrite decide_False.
Qed.

(** Pruning the archive over the key chain returns and keeps exactly the archived
    nodes with a proposal signed by the last key or one of its four nearest ancestors;
    an unknown last key is an error and changes nothing.  Members do not change. *)
Theorem prune_keeps_recent h chain t key :
  repr chain t →
  prune_members_archive h chain key =
    Some (if has_key chain key then
            (mkHistory (initial_members h) (decisions h)
              (filter (λ e : XorName * Decision Trigger,
                 signed_by_any (take 4 (tree_path t key) ++ [key]) e.2 = true) (archive h)), Ok ())
          else (h, Err (KeyNotFound key))).
Proof. apply prune_repr. Qed.
End props.

(** ** Witnesses

    A decision carries the key that validates it; node [i] has the name [i] in unary. *)

Module HistoryDemo.
Import External.Concrete Xor.ConcreteXor.

Abbreviation PK := (PublicKey (Bls := concrete_bls)).
Abbreviation NS := (NodeState (X := concrete_xor) unit).

#[export] Instance concrete_node_state_ord : Ord NS := countable_ord.
#[export] Instance concrete_consensus : ConsensusDecision (X := concrete_xor) unit := {|
  Decision := list (NS * Signature) * nat * PK;
  dec_proposals d := d.1.1;
  dec_generation d := d.1.2;
  dec_validate d key := bool_decide (d.2 = key);
|}.
#[export] Instance concrete_bincode_ns : Bincode NS := λ n,
  Some ((λ b : bool, if b then 1%Z else 0%Z) <$> (name n : list bool)).

Definition demo_id (nm : list bool) (port : Z) : NodeId (X := concrete_xor) := mkNodeId nm (AddrV4 0 port).
Definition demo_join (nm : list bool) (port : Z) : NS := joined (demo_id nm port) None.
Definition demo_left (nm : list bool) (port : Z) : NS := mkNodeState (demo_id nm port) Left None.
Definition demo_decision (n : NS) (gen : nat) (key : PK) : Decision (X := concrete_xor) unit :=
  ([(n, (key, default [] (bincode_serialize n)))], gen, key).

Definition demo_initial : gset NS := {[demo_join [false] 1; demo_join [true] 2]}.
Definition decision1 := demo_decision (demo_join [true; true] 3) 1 7.
Definition decision2 := demo_decision (demo_left [true] 2) 2 7.
Definition behind : SectionMemberHistory unit := mkHistory demo_initial [decision1] ∅.
Definition ahead : SectionMemberHistory unit :=
  mkHistory demo_initial [decision1; decision2] {[[true] := decision2]}.

Lemma update_peers_catches_up_witness :
  decisions (update_peers behind (7 : PK) (decisions ahead)).1 = decisions ahead ∧
  members (update_peers behind (7 : PK) (decisions ahead)).1 = members ahead.
Proof.
  destruct (update_peers_catches_up behind ahead (7 : PK)) as (Hd & Hm & _).
  - reflexivity.
  - exists [decision2]. reflexivity.
  - repeat split.
  - constructor; [|constructor; [|constructor]]; (split; [reflexivity|]); intros n Hn.
    + intros _. apply list_elem_of_singleton in Hn as ->. apply (bool_decide_unpack _). vm_compute. exact I.
    + apply list_elem_of_singleton in Hn as ->. discriminate.
  - split; [exact Hd|exact Hm].
Defined.

Definition demo_key_dag : SectionsDAG := SectionsDag.new (7 : PK).

Lemma prune_keeps_recent_witness :
  prune_members_archive ahead demo_key_dag (7 : PK) =
    Some (mkHistory (initial_members ahead) (decisions ahead)
            (filter (λ e : list bool * Decision (X := concrete_xor) unit,
                signed_by_any [7 : PK] e.2 = true) (archive ahead)), Ok ()).
Proof. exact (prune_keeps_recent ahead demo_key_dag [] (7 : PK) (repr_new (7 : PK))). Defined.
End HistoryDemo.
