(* ===== verification/NetworkKnowledge.v ===== *)
(** * Network knowledge

    [network_knowledge/mod.rs]: what a node knows of the network, that is the authority
    and the members of its own section and the tree of all sections, and how
    anti-entropy updates change it. *)

From S2P Require Import Prelude External Xor NodeState SectionsDag Sap SectionTree MemberHistory.

(** [messaging/dst.rs]. *)
Record Dst {B : Bls} {X : Xor} := mkDst { dst_name : XorName; dst_section_key : PublicKey }.

Section knowledge.
Context {B : Bls} {X : Xor} {BP : Bincode PublicKey} {M : Merkle SectionInfo}.
Context {Trigger : Type} `{Countable Trigger} {C : ConsensusDecision Trigger}.
Context {OS : Ord (NodeState Trigger)} {BN : Bincode (NodeState Trigger)}.
Context {BS : Bincode (SectionAuthorityProvider Trigger)}.

Record NetworkKnowledge := mkKnowledge {
  nk_signed_sap : SectionSigned (SectionAuthorityProvider Trigger);
  nk_section_members : SectionMemberHistory Trigger;
  nk_section_tree : SectionTree Trigger;
}.

Definition nk_new (prefix : Prefix) (tree : SectionTree Trigger) : result Error NetworkKnowledge :=
  sap ← ok_or (get_signed tree prefix) NoMatchingSection;
  Ok (mkKnowledge sap (reset_initial_members history_default (sap_members (value sap))) tree).

Definition nk_reset_initial_members (k : NetworkKnowledge) (new : gset (NodeState Trigger))
    : NetworkKnowledge :=
  mkKnowledge (nk_signed_sap k) (reset_initial_members (nk_section_members k) new) (nk_section_tree k).

Definition switch_section (k : NetworkKnowledge)
    (dst_sap : SectionSigned (SectionAuthorityProvider Trigger)) : NetworkKnowledge * result Error unit :=
  match get_signed (nk_section_tree k) (sap_prefix (value dst_sap)) with
  | None => (k, Err NoMatchingSection)
  | Some _ =>
      let k := nk_reset_initial_members k (sap_members (value dst_sap)) in
      (mkKnowledge dst_sap (nk_section_members k) (nk_section_tree k), Ok ())
  end.

Definition nk_genesis_key (k : NetworkKnowledge) : PublicKey := tree_genesis_key (nk_section_tree k).
Definition nk_prefix (k : NetworkKnowledge) : Prefix := sap_prefix (value (nk_signed_sap k)).
Definition nk_section_key (k : NetworkKnowledge) : PublicKey := section_key (value (nk_signed_sap k)).

(** The switch of our own section after an accepted update. *)
Definition adopt_sap (k : NetworkKnowledge) (sap : SectionSigned (SectionAuthorityProvider Trigger))
    : option (NetworkKnowledge * result Error unit) :=
  let k := nk_reset_initial_members k (sap_members (value sap)) in
  let h := retain (nk_section_members k) (sap_prefix (value sap)) in
  let k := mkKnowledge (nk_signed_sap k) h (nk_section_tree k) in
  match partial_dag (sections_dag (nk_section_tree k)) (nk_genesis_key k) (section_key (value sap)) with
  | None => None
  | Some (Err e) => Some (k, Err e)
  | Some (Ok proof_chain) =>
      match prune_members_archive h proof_chain (section_key (value sap)) with
      | None => None
      | Some (h, Err e) => Some (mkKnowledge (nk_signed_sap k) h (nk_section_tree k), Err e)
      | Some (h, Ok _) => Some (mkKnowledge sap h (nk_section_tree k), Ok ())
      end
  end.

Definition update_sap_knowledge_if_valid (k : NetworkKnowledge) (u : SectionTreeUpdate Trigger)
    (our_name : XorName) : option (NetworkKnowledge * result Error bool) :=
  let sap := signed_sap u in
  match update_the_section_tree (nk_section_tree k) u with
  | None => None
  | Some (tree, r) =>
      let k := mkKnowledge (nk_signed_sap k) (nk_section_members k) tree in
      match r with
      | Ok true =>
          if px_matches (sap_prefix (value sap)) our_name then
            match adopt_sap k sap with
            | None => None
            | Some (k, Ok _) => Some (k, Ok true)
            | Some (k, Err e) => Some (k, Err e)
            end
          else Some (k, Ok true)
      | Ok false => Some (k, Ok false)
      | Err e => Some (k, Err e)
      end
  end.

Definition nk_update_members (k : NetworkKnowledge) (peers : list (Decision Trigger))
    : NetworkKnowledge * result Error bool :=
  let '(h, updated) := update_peers (nk_section_members k) (nk_section_key k) peers in
  (mkKnowledge (nk_signed_sap k) h (nk_section_tree k), Ok updated).

Definition update_section_member_knowledge (k : NetworkKnowledge)
    (updated_members : option (list (Decision Trigger))) : NetworkKnowledge * result Error bool :=
  match updated_members with
  | Some peers =>
      match nk_update_members k peers with
      | (k, Ok true) => (k, Ok true)
      | (k, Ok false) => (k, Ok false)
      | (k, Err e) => (k, Err e)
      end
  | None => (k, Ok false)
  end.

Definition try_update_member (k : NetworkKnowledge) (d : Decision Trigger)
    : NetworkKnowledge * result Error bool :=
  let '(h, r) := update (nk_section_members k) (nk_section_key k) d in
  (mkKnowledge (nk_signed_sap k) h (nk_section_tree k), r).

(** ** Reads *)

Definition section_auth_by_name (k : NetworkKnowledge) (nm : XorName)
    : result Error (SectionAuthorityProvider Trigger) :=
  value <$> get_signed_by_name (nk_section_tree k) nm.
Definition section_auth_by_prefix (k : NetworkKnowledge) (prefix : Prefix)
    : result Error (SectionAuthorityProvider Trigger) :=
  value <$> get_signed_by_prefix (nk_section_tree k) prefix.

(** [unwrap_or] evaluates its argument, so an unknown own prefix gives [None]. *)
Definition closest_signed_sap (k : NetworkKnowledge) (nm : XorName)
    : option (SectionSigned (SectionAuthorityProvider Trigger)) :=
  let closest_sap := closest (nk_section_tree k) nm (Some (nk_prefix k)) in
  ours ← get_signed (nk_section_tree k) (nk_prefix k);
  Some (default ours closest_sap).

Definition closest_signed_sap_with_chain (k : NetworkKnowledge) (nm : XorName)
    : option (option (SectionSigned (SectionAuthorityProvider Trigger) * SectionsDAG)) :=
  match closest_signed_sap k nm with
  | None => Some None
  | Some sap =>
      match partial_dag (sections_dag (nk_section_tree k)) (nk_genesis_key k) (section_key (value sap)) with
      | None => None
      | Some (Ok section_chain) => Some (Some (sap, section_chain))
      | Some (Err _) => Some None
      end
  end.

Definition get_proof_chain_to_current_section (k : NetworkKnowledge) (from_key : PublicKey)
    : option (result Error SectionsDAG) :=
  partial_dag (sections_dag (nk_section_tree k)) from_key (nk_section_key k).

Definition section_chain (k : NetworkKnowledge) : option SectionsDAG :=
  match get_proof_chain_to_current_section k (nk_genesis_key k) with
  | None => None
  | Some (Ok d) => Some d
  | Some (Err _) => Some (SectionsDag.new (nk_genesis_key k))
  end.

Definition section_chain_len (k : NetworkKnowledge) : option nat :=
  (λ d, length (SectionsDag.keys d)) <$> section_chain k.
Definition has_chain_key (k : NetworkKnowledge) (key : PublicKey) : option bool :=
  (λ d, has_key d key) <$> section_chain k.
Definition verify_section_key_is_known (k : NetworkKnowledge) (key : PublicKey) : bool :=
  has_key (sections_dag (nk_section_tree k)) key.

Definition nk_elders (k : NetworkKnowledge) : gset NodeId := sap_elders (value (nk_signed_sap k)).
Definition is_elder (k : NetworkKnowledge) (nm : XorName) : bool :=
  contains_elder (value (nk_signed_sap k)) nm.
Definition nk_adults (k : NetworkKnowledge) : gset NodeId :=
  set_map node_id (filter (λ n, is_elder k (name n) = false) (members (nk_section_members k))).
Definition is_adult (k : NetworkKnowledge) (nm : XorName) : bool :=
  bool_decide (set_Exists (λ a, id_name a = nm) (nk_adults k)).
Definition nk_members (k : NetworkKnowledge) : gset NodeId := nk_elders k ∪ nk_adults k.

Definition generate_dst (k : NetworkKnowledge) (recipient : XorName) : result Error Dst :=
  sap ← section_auth_by_name k recipient;
  Ok (mkDst _ _ recipient (section_key sap)).

Definition is_section_member (k : NetworkKnowledge) (nm : XorName) : bool :=
  is_member (nk_section_members k) nm.
Definition get_section_member (k : NetworkKnowledge) (nm : XorName) : option (NodeState Trigger) :=
  get (nk_section_members k) nm.
End knowledge.
Arguments NetworkKnowledge {_ _ _} Trigger {_ _ _}.
