(* ===== verification/NetworkKnowledgeProps.v ===== *)
(** * Properties of the network knowledge

    A node's own section, its members and the section tree change together; every
    step of an update either takes effect as a whole or not at all. *)

From S2P Require Import Prelude External Xor NodeState SectionsDag SectionsDagSpec.
From S2P Require Import SectionsDagWalk SectionsDagChain SectionsDagProps Sap SectionTree.
From S2P Require Import SectionTreeProps MemberHistory MemberHistoryProps NetworkKnowledge.

Section props.
Context {B : Bls} {X : Xor} {XL : XorLaws} {BP : Bincode PublicKey}.
Context {M : Merkle SectionInfo} {ML : MerkleLaws SectionInfo}.
Context {Trigger : Type} `{Countable Trigger} {C : ConsensusDecision Trigger}.
Context {OS : Ord (NodeState Trigger)} {BN : Bincode (NodeState Trigger)}.
Context {BS : Bincode (SectionAuthorityProvider Trigger)}.
Implicit Types (k : NetworkKnowledge Trigger) (u : SectionTreeUpdate Trigger) (e c : list entry).

(** The tree is well-formed and knows the key of our section. *)
Record nk_ok k e : Prop := {
  nk_tree : tree_ok (nk_section_tree k) e;
  nk_key : nk_section_key k ∈ tree_keys (nk_genesis_key k) e;
}.

Lemma nk_partial_dag k e key :
  nk_ok k e → key ∈ tree_keys (nk_genesis_key k) e →
  ∃ d b, partial_dag (sections_dag (nk_section_tree k)) (nk_genesis_key k) key = Some (Ok d) ∧
    genesis_key d = nk_genesis_key k ∧ repr d b ∧ b ⊆ e ∧ last_key d = Ok key.
Proof.
  intros [[_ _ _ R] _] Hk. destruct (tree_branch_exists _ e key (repr_wf _ _ R) Hk) as (b & Hb).
  pose proof (partial_dag_repr _ e (nk_genesis_key k) key R Hk) as Hp. unfold nk_genesis_key in Hp.
  unfold nk_genesis_key, tree_genesis_key in *. rewrite Hb in Hp. destruct Hp as (d & -> & Hg & Hc & Rd).
  exists d, b. split_and!; [done..| |by eapply chain_last_key].
  intros x Hx. by apply (tree_branch_sub _ _ _ _ _ Hb Hx).
Qed.

(** What adopting a new authority leaves behind. *)
Record adopted k sap k' : Prop := {
  ad_sap : nk_signed_sap k' = sap;
  ad_tree : nk_section_tree k' = nk_section_tree k;
  ad_initial : initial_members (nk_section_members k') = sap_members (value sap);
  ad_decisions : decisions (nk_section_members k') = [];
  ad_archive nm d : archive (nk_section_members k') !! nm = Some d →
    archive (nk_section_members k) !! nm = Some d ∧ px_matches (sap_prefix (value sap)) nm = true;
}.

Lemma adopt_sap_ok k e sap :
  nk_ok k e → section_key (value sap) ∈ tree_keys (nk_genesis_key k) e →
  ∃ k', adopt_sap k sap = Some (k', Ok ()) ∧ adopted k sap k'.
Proof.
  intros Hok Hk. unfold adopt_sap.
  destruct (nk_partial_dag k e _ Hok Hk) as (d & b & Hp & Hg & Rd & _ & Hl).
  change (nk_genesis_key (mkKnowledge _ _ _)) with (nk_genesis_key k). cbn [nk_section_tree nk_reset_initial_members].
  rewrite Hp, (prune_repr _ d b _ Rd).
  assert (has_key d (section_key (value sap)) = true) as ->.
  { apply (repr_has_key d b Rd). by eapply last_key_in. }
  eexists. split; [done|]. split; [done..|]. intros nm dec. simpl.
  rewrite map_lookup_filter_Some. intros [Hlk _]. rewrite map_lookup_filter_Some in Hlk. naive_solver.
Qed.

(** What an update does once the section tree has accepted it. *)
Lemma sap_update_accepted k e u c our_name t' :
  nk_ok k e → repr (proof_chain u) c → forallb e_signed c = true → compat e c →
  nk_genesis_key k ∉ e_key <$> c →
  verify_section_key_is_known k (genesis_key (proof_chain u)) = true →
  update_the_section_tree (nk_section_tree k) u = Some (t', Ok true) →
  ∃ k', update_sap_knowledge_if_valid k u our_name = Some (k', Ok true) ∧ nk_section_tree k' = t' ∧
    nk_genesis_key k' = nk_genesis_key k ∧ ∃ e', nk_ok k' e' ∧
      if px_matches (sap_prefix (value (signed_sap u))) our_name
      then nk_signed_sap k' = signed_sap u ∧
           initial_members (nk_section_members k') = sap_members (value (signed_sap u)) ∧
           decisions (nk_section_members k') = [] ∧
           ∀ nm d, archive (nk_section_members k') !! nm = Some d →
             archive (nk_section_members k) !! nm = Some d ∧
             px_matches (sap_prefix (value (signed_sap u))) nm = true
      else nk_signed_sap k' = nk_signed_sap k ∧ nk_section_members k' = nk_section_members k.
Proof.
  intros [Ht Hk] Rc Hs Hcp Hg Hkn Hu. unfold update_sap_knowledge_if_valid.
  destruct (update_atomic _ u e c Ht Rc Hs Hcp Hg Hkn) as (t1 & r & Hu' & _ & Hyes).
  rewrite Hu in Hu'. injection Hu' as <- <-. rewrite Hu.
  destruct (Hyes eq_refl) as (Hgen & e' & Ht' & He').
  set (k1 := mkKnowledge (nk_signed_sap k) (nk_section_members k) t').
  assert (∀ key, key ∈ tree_keys (nk_genesis_key k) e → key ∈ tree_keys (nk_genesis_key k1) e') as Hmono.
  { intros key. rewrite !tree_keys_cases. unfold nk_genesis_key. simpl. rewrite Hgen.
    intros [?|(x & Hx & <-)]; [by left|right]. exists x. rewrite He'. eauto. }
  assert (nk_ok k1 e') as Hok1 by (split; [done|by apply Hmono]).
  destruct (px_matches _ our_name) eqn:Hm.
  - assert (section_key (value (signed_sap u)) ∈ tree_keys (nk_genesis_key k1) e') as Hnew.
    { apply (repr_has_key _ _ (ok_repr _ _ Ht')). apply (ok_keys _ _ Ht' (sap_prefix (value (signed_sap u)))).
      by apply (update_files _ _ _ Hu). }
    destruct (adopt_sap_ok k1 e' (signed_sap u) Hok1 Hnew) as (k' & -> & [Ha1 Ha2 Ha3 Ha4 Ha5]).
    eexists. split; [done|]. split; [done|]. unfold nk_genesis_key. rewrite Ha2. split; [done|].
    exists e'. split; [|done].
    split; [by rewrite Ha2|]. unfold nk_section_key, nk_genesis_key. by rewrite Ha1, Ha2.
  - eexists. split; [done|]. split; [done|]. split; [done|]. by exists e'.
Qed.

(** C4: an anti-entropy update on consistent knowledge, with a verified chain from a
    known key, always returns. Unless it is accepted nothing changes. When it is, the
    knowledge stays consistent with the same genesis key; if the new section covers our
    name we adopt it: its members are the initial ones, no decision is pending and the
    archive keeps only names of the section; otherwise our section is untouched. *)
Theorem sap_update_all_or_nothing k e u c our_name :
  nk_ok k e → repr (proof_chain u) c → forallb e_signed c = true → compat e c →
  nk_genesis_key k ∉ e_key <$> c →
  verify_section_key_is_known k (genesis_key (proof_chain u)) = true →
  ∃ k' r, update_sap_knowledge_if_valid k u our_name = Some (k', r) ∧
    (r ≠ Ok true → k' = k) ∧
    (r = Ok true → nk_genesis_key k' = nk_genesis_key k ∧ ∃ e', nk_ok k' e' ∧
      if px_matches (sap_prefix (value (signed_sap u))) our_name
      then nk_signed_sap k' = signed_sap u ∧
           initial_members (nk_section_members k') = sap_members (value (signed_sap u)) ∧
           decisions (nk_section_members k') = [] ∧
           ∀ nm d, archive (nk_section_members k') !! nm = Some d →
             archive (nk_section_members k) !! nm = Some d ∧
             px_matches (sap_prefix (value (signed_sap u))) nm = true
      else nk_signed_sap k' = nk_signed_sap k ∧ nk_section_members k' = nk_section_members k).
Proof.
  intros Hok Rc Hs Hcp Hg Hkn.
  destruct (update_atomic _ u e c (nk_tree _ _ Hok) Rc Hs Hcp Hg Hkn) as (t' & r & Hu & Hno & _).
  destruct r as [[]|err].
  - destruct (sap_update_accepted _ _ _ _ our_name _ Hok Rc Hs Hcp Hg Hkn Hu) as (k' & -> & _ & Hg' & Hrest).
    by eexists _, _.
  - unfold update_sap_knowledge_if_valid. rewrite Hu, Hno by done. eexists _, _. split; [done|]. by destruct k.
  - unfold update_sap_knowledge_if_valid. rewrite Hu, Hno by done. eexists _, _. split; [done|]. by destruct k.
Qed.

(** With consistent knowledge the section chain never falls back to the lone
    genesis key: it is the chain from the genesis key to the key of our section. *)
Theorem section_chain_reaches_key k e :
  nk_ok k e →
  ∃ d, section_chain k = Some d ∧ genesis_key d = nk_genesis_key k ∧
       last_key d = Ok (nk_section_key k) ∧ has_chain_key k (nk_section_key k) = Some true.
Proof.
  intros Hok. destruct (nk_partial_dag k e _ Hok (nk_key _ _ Hok)) as (d & b & Hp & Hg & Rd & _ & Hl).
  assert (section_chain k = Some d) as Hs.
  { unfold section_chain, get_proof_chain_to_current_section. by rewrite Hp. }
  exists d. split_and!; [done..|]. unfold has_chain_key. rewrite Hs. simpl. f_equal.
  apply (repr_has_key d b Rd). by eapply last_key_in.
Qed.

(** Elders and adults partition the members by name: a name is an adult's exactly
    when it is a joined member's and no elder's, and [members] lists both. *)
Theorem adults_are_other_members k nm :
  (is_adult k nm = true ↔ is_section_member k nm = true ∧ is_elder k nm = false) ∧
  ((∃ i, i ∈ nk_members k ∧ id_name i = nm) ↔ is_elder k nm = true ∨ is_section_member k nm = true).
Proof.
  assert (is_elder k nm = true ↔ ∃ i, i ∈ nk_elders k ∧ id_name i = nm) as He.
  { unfold is_elder, contains_elder. rewrite bool_decide_eq_true. unfold set_Exists, nk_elders. naive_solver. }
  assert (is_section_member k nm = true ↔ ∃ n, n ∈ members (nk_section_members k) ∧ name n = nm) as Hmem.
  { apply is_member_spec. }
  assert ((∃ i, i ∈ nk_adults k ∧ id_name i = nm) ↔
    is_section_member k nm = true ∧ is_elder k nm = false) as Ha.
  { rewrite Hmem. unfold nk_adults. setoid_rewrite elem_of_map. setoid_rewrite elem_of_filter. split.
    - intros (i & (n & -> & Hne & Hn) & <-). split; [by exists n|done].
    - intros [(n & Hn & <-) Hne]. exists (node_id n). split; [|done]. by exists n. }
  split.
  - rewrite <-Ha. unfold is_adult. rewrite bool_decide_eq_true. unfold set_Exists. naive_solver.
  - unfold nk_members. setoid_rewrite elem_of_union.
    transitivity (is_elder k nm = true ∨ (is_section_member k nm = true ∧ is_elder k nm = false)).
    + rewrite <-Ha, He. naive_solver.
    + destruct (is_elder k nm); naive_solver.
Qed.
End props.

(** ** Witnesses

    A node named 00 in the genesis section, then in the section 0 with key 2. *)

Module KnowledgeDemo.
Import External.Concrete Xor.ConcreteXor DagDemo TreeDemo HistoryDemo.

Definition genesis_knowledge : NetworkKnowledge unit :=
  mkKnowledge (demo_signed [] (pk 1)) history_default genesis_tree.

Lemma genesis_knowledge_new : nk_new (X := concrete_xor) [] genesis_tree = Ok genesis_knowledge.
Proof. reflexivity. Qed.

Lemma genesis_knowledge_ok : nk_ok genesis_knowledge [].
Proof. split; [apply genesis_tree_ok|left]. Qed.

Lemma sap_update_all_or_nothing_witness :
  ∃ k' r, update_sap_knowledge_if_valid genesis_knowledge next_update [false; false] = Some (k', r) ∧
    (r ≠ Ok true → k' = genesis_knowledge) ∧
    (r = Ok true → nk_genesis_key k' = nk_genesis_key genesis_knowledge).
Proof.
  destruct (sap_update_all_or_nothing genesis_knowledge [] next_update _ [false; false]
    genesis_knowledge_ok next_chain_repr) as (k' & r & Hu & Hno & Hyes).
  - vm_compute. reflexivity.
  - by intros e e' ?%not_elem_of_nil.
  - apply (bool_decide_unpack _). vm_compute. exact I.
  - vm_compute. reflexivity.
  - exists k', r. split; [exact Hu|]. split; [exact Hno|]. intros Hr. apply (Hyes Hr).
Defined.

Lemma section_chain_reaches_key_witness :
  ∃ d, section_chain genesis_knowledge = Some d ∧ genesis_key d = pk 1 ∧
       last_key d = Ok (pk 1) ∧ has_chain_key genesis_knowledge (pk 1) = Some true.
Proof. exact (section_chain_reaches_key genesis_knowledge [] genesis_knowledge_ok). Defined.

(** Our section 0, and the authority of its child 01 that does not cover our name. *)
Definition own_tree : SectionTree unit := mkSectionTree {[[false] := demo_signed [false] (pk 2)]} next_chain.
Definition own_knowledge : NetworkKnowledge unit :=
  mkKnowledge (demo_signed [false] (pk 2)) history_default own_tree.
Definition child_update : SectionTreeUpdate unit :=
  mkSectionTreeUpdate (demo_signed [false; true] (pk 3)) (demo_insert next_chain (pk 2) (pk 3)).

Lemma own_knowledge_ok : nk_ok own_knowledge [demo_entry (pk 1) (pk 2)].
Proof.
  split; [split|right; left].
  - intros p q [s Hs] [s' Hs']. simpl in *. apply lookup_singleton_Some in Hs as [<- _], Hs' as [<- _].
    vm_compute. reflexivity.
  - intros p s Hs. simpl in Hs. apply lookup_singleton_Some in Hs as [<- <-]. reflexivity.
  - intros p s Hs. simpl in Hs. apply lookup_singleton_Some in Hs as [<- <-]. vm_compute. reflexivity.
  - apply next_chain_repr.
Qed.

(** The section tree and our own section can go out of sync: the accepted update
    of a child section that does not cover our name removes our own section from the
    tree while our authority stays, so the tree does not know our prefix and answers
    our name with a section that does not cover it. *)
Theorem child_update_drops_own_section :
  ∃ (k k' : NetworkKnowledge unit) e (u : SectionTreeUpdate unit) our_name,
    nk_ok k e ∧ get_signed (nk_section_tree k) (nk_prefix k) = Some (nk_signed_sap k) ∧
    update_sap_knowledge_if_valid k u our_name = Some (k', Ok true) ∧
    nk_signed_sap k' = nk_signed_sap k ∧ px_matches (nk_prefix k') our_name = true ∧
    get_signed (nk_section_tree k') (nk_prefix k') = None ∧
    (sap_prefix <$> section_auth_by_name k' our_name) = Ok (sap_prefix (value (signed_sap u))) ∧
    px_matches (sap_prefix (value (signed_sap u))) our_name = false.
Proof.
  exists own_knowledge, (mkKnowledge (demo_signed [false] (pk 2)) history_default (updated own_tree child_update)),
    [demo_entry (pk 1) (pk 2)], child_update, [false; false].
  split; [apply own_knowledge_ok|]. split; [reflexivity|]. split.
  { unfold update_sap_knowledge_if_valid. cbn [nk_section_tree own_knowledge].
    rewrite (accepts_updated own_tree child_update) by (vm_compute; reflexivity). reflexivity. }
  split; [reflexivity|]. split; [vm_compute; reflexivity|]. split; [vm_compute; reflexivity|].
  split; vm_compute; reflexivity.
Qed.
End KnowledgeDemo.
