(* ===== verification/Aggregator.v ===== *)
(** * Signature aggregation

    [messaging/system/section_sig.rs] (shares) and
    [messaging/signature_aggregator.rs]: the collection of signature shares until they
    combine to a section signature. The hash function is a parameter. *)

From S2P Require Import Prelude External Xor NodeState SectionsDag Sap.

Section aggregator.
Context {B : Bls} {BSh : BlsShares}.

Record SectionSigShare := mkShare {
  share_public_key_set : PublicKeySet;
  share_index : nat;
  share_signature : SignatureShare;
}.

Definition share_new (pks : PublicKeySet) (index : nat) (sk : SecretKeyShare) (payload : bytes)
    : SectionSigShare := mkShare pks index (sk_share_sign sk payload).

Definition share_verify (s : SectionSigShare) (payload : bytes) : bool :=
  pks_share_verify (share_public_key_set s) (share_index s) (share_signature s) payload.

#[export] Instance share_eq_dec : EqDecision SectionSigShare.
Proof. solve_decision. Defined.
#[export] Instance share_countable : Countable SectionSigShare :=
  inj_countable' (λ s, (share_public_key_set s, share_index s, share_signature s))
    (λ p, mkShare p.1.1 p.1.2 p.2) (λ s, match s with mkShare _ _ _ => eq_refl end).

Inductive AggregatorError :=
  | InvalidSigShare
  | FailedToCombineSigShares.

(** SHA3 over the payload and the key, and the order the shares derive. *)
Context (Digest : Type) `{Countable Digest} (sha3 : list bytes → Digest).
Context {OSh : Ord SectionSigShare}.

Abbreviation Shares := (gmap Digest (gset SectionSigShare)).

Definition share_hash (payload : bytes) (pk : PublicKey) : Digest := sha3 [payload; pk_to_bytes pk].

Definition combine (pks : PublicKeySet) (shares : gset SectionSigShare) : option Signature :=
  pks_combine_signatures pks ((λ s, (share_index s, share_signature s)) <$> bset_iter shares).

(** [SignatureAggregator] and [TotalParticipationAggregator] differ in when they
    combine: with more shares than the threshold, or with exactly the participants. *)
Definition aggregate_when (enough : nat → bool) (m : Shares) (payload : bytes)
    (sig_share : SectionSigShare) : Shares * result AggregatorError (option SectionSig) :=
  if share_verify sig_share payload then
    let public_key := pks_public_key (share_public_key_set sig_share) in
    let hash := share_hash payload public_key in
    let current_shares := {[sig_share]} ∪ default ∅ (m !! hash) in
    let m := <[hash := current_shares]> m in
    if enough (size current_shares) then
      match combine (share_public_key_set sig_share) current_shares with
      | Some signature => (delete hash m, Ok (Some (mkSectionSig public_key signature)))
      | None => (m, Err FailedToCombineSigShares)
      end
    else (m, Ok None)
  else (m, Err InvalidSigShare).

Definition try_aggregate (m : Shares) (payload : bytes) (sig_share : SectionSigShare)
    : Shares * result AggregatorError (option SectionSig) :=
  aggregate_when (λ n, bool_decide (pks_threshold (share_public_key_set sig_share) < n))
    m payload sig_share.

Definition total_try_aggregate (m : Shares) (payload : bytes) (sig_share : SectionSigShare)
    (total_participants : nat) : Shares * result AggregatorError (option SectionSig) :=
  aggregate_when (λ n, bool_decide (n = total_participants)) m payload sig_share.

(** [SectionSig::try_authorize]. *)
Definition try_authorize (m : Shares) (share : SectionSigShare) (payload : bytes)
    : Shares * result AggregatorError (option SectionSig) :=
  let '(m, r) := try_aggregate m payload share in
  (m, match r with Ok (Some s) => Ok (Some (mkSectionSig (sig_public_key s) (sig_signature s)))
      | r => r end).

(** ** Properties *)

Context {BL : BlsSharesLaws}.
Context (sha3_inj : ∀ p k p' k', share_hash p k = share_hash p' k' → p = p' ∧ k = k').

(** The shares collected for a payload under the key set [pks]. *)
Definition collected (m : Shares) (payload : bytes) (pks : PublicKeySet) : gset SectionSigShare :=
  default ∅ (m !! share_hash payload (pks_public_key pks)).

(** All of them belong to the key set and are valid for the payload. *)
Definition valid_shares (payload : bytes) (pks : PublicKeySet) (s : gset SectionSigShare) : Prop :=
  set_Forall (λ x, share_public_key_set x = pks ∧ share_verify x payload = true) s.

Lemma valid_shares_distinct payload pks s :
  valid_shares payload pks s →
  NoDup ((λ x, (share_index x, share_signature x)) <$> bset_iter s).*1 ∧
  Forall (λ x, pks_share_verify pks x.1 x.2 payload = true)
    ((λ x, (share_index x, share_signature x)) <$> bset_iter s).
Proof.
  intros Hv. split.
  - rewrite <-list_fmap_compose. apply NoDup_fmap_2_strong; [|apply NoDup_bset_iter].
    intros x y [Hx Vx]%elem_of_bset_iter%Hv [Hy Vy]%elem_of_bset_iter%Hv Heq. simpl in Heq.
    destruct x as [p i g], y as [p' i' g']. unfold share_verify in Vx, Vy. simpl in *. subst.
    f_equal. by eapply pks_share_unique.
  - rewrite Forall_fmap. apply Forall_forall. intros x [Hx Vx]%elem_of_bset_iter%Hv.
    unfold share_verify in Vx. simpl. by rewrite Hx in Vx.
Qed.

Lemma combine_valid payload pks s :
  valid_shares payload pks s → pks_threshold pks < size s →
  ∃ sig, combine pks s = Some sig ∧ pk_verify (pks_public_key pks) sig payload = true.
Proof.
  intros [Hnd Hf]%valid_shares_distinct Hs. apply pks_combine_valid; [done..|].
  by rewrite length_fmap, length_bset_iter.
Qed.

Lemma collected_insert_ne m payload pks payload' pk' v :
  (payload, pks_public_key pks) ≠ (payload', pk') →
  collected (<[share_hash payload' pk' := v]> m) payload pks = collected m payload pks.
Proof.
  intros Hne. unfold collected. rewrite lookup_insert_ne; [done|].
  intros [-> ->]%sha3_inj. by apply Hne.
Qed.
Lemma collected_delete_ne m payload pks payload' pk' :
  (payload, pks_public_key pks) ≠ (payload', pk') →
  collected (delete (share_hash payload' pk') m) payload pks = collected m payload pks.
Proof.
  intros Hne. unfold collected. rewrite lookup_delete_ne; [done|].
  intros [-> ->]%sha3_inj. by apply Hne.
Qed.

(** C39: adding a share to an aggregator whose collected shares are valid and of one key
    set never fails to combine: an invalid share is refused with no change; up to the
    threshold the share is collected and nothing is returned; above it a signature that
    the section key verifies is returned and the collection is reset. *)
Theorem try_aggregate_sound m payload s :
  let pks := share_public_key_set s in
  valid_shares payload pks (collected m payload pks) →
  match try_aggregate m payload s with
  | (m', Err e) => e = InvalidSigShare ∧ share_verify s payload = false ∧ m' = m
  | (m', Ok None) =>
      collected m' payload pks = {[s]} ∪ collected m payload pks ∧
      valid_shares payload pks (collected m' payload pks) ∧
      size (collected m' payload pks) ≤ pks_threshold pks
  | (m', Ok (Some sig)) =>
      section_sig_verify sig payload = true ∧ sig_public_key sig = pks_public_key pks ∧
      pks_threshold pks < size ({[s]} ∪ collected m payload pks) ∧
      collected m' payload pks = ∅
  end.
Proof.
  clear sha3_inj. intros pks Hv. unfold try_aggregate, aggregate_when. fold pks.
  destruct (share_verify s payload) eqn:Hs; [|done].
  change (default ∅ (m !! share_hash payload (pks_public_key pks))) with (collected m payload pks).
  assert (valid_shares payload pks ({[s]} ∪ collected m payload pks)) as Hv'.
  { intros x [->%elem_of_singleton|Hx]%elem_of_union; [done|by apply Hv]. }
  case_bool_decide as Ht.
  - destruct (combine_valid payload pks _ Hv' Ht) as (g & -> & Hg). split_and!; [done..|].
    unfold collected. by rewrite lookup_delete_eq.
  - assert (∀ v, collected (<[share_hash payload (pks_public_key pks):=v]> m) payload pks = v) as Hc.
    { intros v. unfold collected. by rewrite lookup_insert_eq. }
    rewrite Hc. split_and!; [done..|lia].
Qed.

(** Shares of other payloads or other section keys never touch a collection, so
    interleaved aggregations do not disturb each other. *)
Theorem try_aggregate_independent m payload s payload' pks' :
  (payload', pks_public_key pks') ≠ (payload, pks_public_key (share_public_key_set s)) →
  collected (try_aggregate m payload s).1 payload' pks' = collected m payload' pks'.
Proof.
  intros Hne. unfold try_aggregate, aggregate_when. destruct (share_verify s payload); [|done].
  case_bool_decide; [destruct (combine _ _)|]; simpl;
    by rewrite ?collected_delete_ne, ?collected_insert_ne.
Qed.

(** Adding the shares of a list one after the other. *)
Fixpoint aggregate_all (m : Shares) (payload : bytes) (l : list SectionSigShare)
    : Shares * list (result AggregatorError (option SectionSig)) :=
  match l with
  | [] => (m, [])
  | s :: l => let '(m, r) := try_aggregate m payload s in
              let '(m, rs) := aggregate_all m payload l in (m, r :: rs)
  end.

Lemma aggregate_all_collects pks payload m l :
  Forall (λ s, share_public_key_set s = pks ∧ share_verify s payload = true) l →
  valid_shares payload pks (collected m payload pks) → NoDup l →
  (∀ s, s ∈ l → s ∉ collected m payload pks) →
  size (collected m payload pks) + length l ≤ pks_threshold pks →
  let m' := (aggregate_all m payload l).1 in
  valid_shares payload pks (collected m' payload pks) ∧
  size (collected m' payload pks) = size (collected m payload pks) + length l ∧
  (∀ x, x ∈ collected m' payload pks → x ∈ collected m payload pks ∨ x ∈ l) ∧
  Forall (λ r, r = Ok None) (aggregate_all m payload l).2.
Proof.
  clear sha3_inj. intros Hl. revert m.
  induction Hl as [|s l [Hp Hs] Hl IH]; intros m Hv Hnd Hfresh Hsz; simpl.
  { split_and!; [done|lia|by left|constructor]. }
  apply NoDup_cons in Hnd as [Hsl Hnd]. simpl in Hsz.
  set (C := {[s]} ∪ collected m payload pks).
  assert (size C = S (size (collected m payload pks))) as HC.
  { unfold C. rewrite size_union, size_singleton; [done|]. set_solver. }
  assert (try_aggregate m payload s =
    (<[share_hash payload (pks_public_key pks) := C]> m, Ok None)) as ->.
  { unfold try_aggregate, aggregate_when. rewrite Hs, Hp. fold (collected m payload pks). fold C.
    rewrite bool_decide_false by lia. done. }
  set (m1 := <[share_hash payload (pks_public_key pks) := C]> m).
  assert (collected m1 payload pks = C) as Hm1.
  { unfold m1, collected. by rewrite lookup_insert_eq. }
  specialize (IH m1). rewrite Hm1 in IH. destruct IH as (IHv & IHs & IHx & IHr).
  - intros x [->%elem_of_singleton|Hx]%elem_of_union; [done|by apply Hv].
  - done.
  - intros x Hx. unfold C. set_solver.
  - lia.
  - destruct (aggregate_all m1 payload l) as [m2 rs]. simpl in *.
    split_and!; [done|lia| |by constructor]. intros x [Hx|Hx]%IHx; unfold C in *; set_solver.
Qed.

(** Completeness: in an aggregator with no share for the payload, the first
    [threshold] distinct valid shares of a key set, in any order, return nothing and
    the next one returns a signature that the section key verifies. *)
Theorem threshold_shares_aggregate pks payload m l s :
  collected m payload pks = ∅ → NoDup (l ++ [s]) → length l = pks_threshold pks →
  Forall (λ x, share_public_key_set x = pks ∧ share_verify x payload = true) (l ++ [s]) →
  Forall (λ r, r = Ok None) (aggregate_all m payload l).2 ∧
  ∃ m' sig, try_aggregate (aggregate_all m payload l).1 payload s = (m', Ok (Some sig)) ∧
    section_sig_verify sig payload = true ∧ sig_public_key sig = pks_public_key pks ∧
    collected m' payload pks = ∅.
Proof.
  clear sha3_inj. intros Hm [Hnd [Hs _]]%NoDup_app Hlen [Hl [[Hp Hv] _]%Forall_cons]%Forall_app.
  destruct (aggregate_all_collects pks payload m l) as (HV & Hsz & Hx & Hr); [done| |done| | |].
  { rewrite Hm. by intros x ?%elem_of_empty. }
  { rewrite Hm. set_solver. }
  { rewrite Hm, size_empty. lia. }
  split; [done|]. set (m1 := (aggregate_all m payload l).1) in *.
  rewrite Hm, size_empty in Hsz. unfold try_aggregate, aggregate_when. rewrite Hv, Hp.
  fold (collected m1 payload pks).
  assert (s ∉ collected m1 payload pks) as Hns.
  { intros Hin%Hx. rewrite Hm in Hin. set_solver. }
  rewrite bool_decide_true; cycle 1.
  { rewrite size_union, size_singleton by set_solver. lia. }
  destruct (combine_valid payload pks ({[s]} ∪ collected m1 payload pks)) as (g & Hg & Hgv).
  { intros x [->%elem_of_singleton|Hin]%elem_of_union; [done|by apply HV]. }
  { rewrite size_union, size_singleton by set_solver. lia. }
  rewrite Hg. eexists _, _. split_and!; [done..|]. unfold collected. by rewrite lookup_delete_eq.
Qed.
End aggregator.

(** ** Witnesses

    Every key set has threshold 1; a share names its key set, index and message. *)

Module AggregatorDemo.
Import External.Concrete.

#[export] Instance concrete_shares : BlsShares (B := concrete_bls) := {|
  SecretKeyShare := nat * nat;
  SignatureShare := nat * nat * bytes;
  sk_share_sign sk msg := (sk, msg);
  pks_threshold _ := 1;
  pks_share_verify pks i s msg := bool_decide (s = (pks, i, msg));
  pks_combine_signatures pks l :=
    match l with
    | (_, (_, _, msg)) :: _ => if decide (1 < length l) then Some (pks, msg) else None
    | [] => None
    end;
  pk_to_bytes k := [Z.of_nat k];
|}.

#[export] Instance concrete_shares_laws : BlsSharesLaws.
Proof.
  split.
  - intros pks msg [|[i [[p j] m]] l] _ Hf Hl; simpl in *; [lia|].
    apply Forall_cons in Hf as [Hv%bool_decide_eq_true _]. simpl in Hv. simplify_eq.
    rewrite decide_True by lia. eexists. split; [done|]. by apply bool_decide_eq_true.
  - simpl. intros pks i s s' msg Hs%bool_decide_eq_true Hs'%bool_decide_eq_true. congruence.
  - intros k k' Hk. simpl in Hk. injection Hk as Hk. by apply Nat2Z.inj.
  - done.
Qed.
#[export] Instance concrete_share_ord : Ord (SectionSigShare (B := concrete_bls)) := countable_ord.

Definition concat_hash (l : list bytes) : list bytes := l.
Lemma concat_hash_inj (p : bytes) (k : PublicKey) p' k' :
  share_hash (list bytes) concat_hash p k = share_hash (list bytes) concat_hash p' k' → p = p' ∧ k = k'.
Proof. unfold share_hash, concat_hash. simpl. intros [= -> Hk%Nat2Z.inj]. done. Qed.

Definition pks5 : PublicKeySet (Bls := concrete_bls) := 5.
Definition demo_share (i : nat) (payload : bytes) : SectionSigShare (B := concrete_bls) :=
  share_new (BSh := concrete_shares) pks5 i (5, i) payload.

Lemma try_aggregate_sound_witness :
  let s := demo_share 0 [1%Z] in
  valid_shares [1%Z] pks5 (collected (list bytes) concat_hash ∅ [1%Z] pks5) ∧
  match try_aggregate (list bytes) concat_hash ∅ [1%Z] s with
  | (_, Err e) => e = InvalidSigShare
  | (m', Ok None) => collected (list bytes) concat_hash m' [1%Z] pks5 = {[s]} ∪ ∅
  | (_, Ok (Some sig)) => section_sig_verify sig [1%Z] = true
  end.
Proof.
  intros s.
  assert (valid_shares [1%Z] pks5 (collected (list bytes) concat_hash ∅ [1%Z] pks5)) as Hv
    by (intros x Hx; by apply elem_of_empty in Hx).
  split; [exact Hv|].
  pose proof (try_aggregate_sound (list bytes) concat_hash ∅ [1%Z] s Hv) as Hs.
  destruct (try_aggregate (list bytes) concat_hash ∅ [1%Z] s) as [m' [[sig|]|e]]; apply Hs.
Defined.

Lemma try_aggregate_independent_witness :
  collected (list bytes) concat_hash
    (try_aggregate (list bytes) concat_hash ∅ [1%Z] (demo_share 0 [1%Z])).1 [2%Z] pks5 = ∅.
Proof.
  rewrite (try_aggregate_independent (list bytes) concat_hash concat_hash_inj); [reflexivity|].
  intros [= ?].
Defined.

Lemma threshold_shares_aggregate_witness :
  ∃ m' sig, try_aggregate (list bytes) concat_hash
      (aggregate_all (list bytes) concat_hash ∅ [1%Z] [demo_share 0 [1%Z]]).1 [1%Z] (demo_share 1 [1%Z])
      = (m', Ok (Some sig)) ∧ section_sig_verify sig [1%Z] = true.
Proof.
  destruct (threshold_shares_aggregate (list bytes) concat_hash pks5 [1%Z] ∅
    [demo_share 0 [1%Z]] (demo_share 1 [1%Z])) as (_ & m' & sig & Ht & Hv & _).
  - reflexivity.
  - apply NoDup_cons. split; [|apply NoDup_singleton]. intros Hin%list_elem_of_singleton. discriminate Hin.
  - reflexivity.
  - repeat constructor.
  - exists m', sig. split; [exact Ht|exact Hv].
Defined.
End AggregatorDemo.
