(* ===== verification/Keys.v ===== *)
(** * Client keys, signatures and data addresses

    [types/keys], [types/address] and [messaging/authority.rs]: the key and signature
    wrappers and how a signature is checked; ed25519 is a parameter. *)

From S2P Require Import Prelude External Xor.

Class Ed25519 := {
  EdPublicKey : Type;
  ed_pk_eq_dec :: EqDecision EdPublicKey;
  ed_pk_countable :: Countable EdPublicKey;
  EdSignature : Type;
  ed_sig_eq_dec :: EqDecision EdSignature;
  ed_verify : EdPublicKey → bytes → EdSignature → bool;
  ed_to_bytes : EdPublicKey → bytes;
}.

(** [bls::PublicKeyShare], a key of its own. *)
Class BlsPublicShares {B : Bls} {BSh : BlsShares} := {
  PublicKeyShare : Type;
  pkshare_eq_dec :: EqDecision PublicKeyShare;
  pkshare_countable :: Countable PublicKeyShare;
  pkshare_verify : PublicKeyShare → SignatureShare → bytes → bool;
}.

Section keys.
Context {B : Bls} {BSh : BlsShares} {BPS : BlsPublicShares} {E : Ed25519}.

(** [types::PublicKey] and [types::Signature]. *)
Inductive ClientKey :=
  | KeyEd25519 (k : EdPublicKey)
  | KeyBls (k : PublicKey)
  | KeyBlsShare (k : PublicKeyShare).
Inductive ClientSignature :=
  | SigEd25519 (s : EdSignature)
  | SigBls (s : Signature)
  | SigBlsShare (index : nat) (s : SignatureShare).

Inductive KeyError := SigningKeyTypeMismatch | KeyInvalidSignature.

Definition key_verify (k : ClientKey) (s : ClientSignature) (data : bytes) : result KeyError unit :=
  let check (is_valid : bool) := if is_valid then Ok () else Err KeyInvalidSignature in
  match k, s with
  | KeyEd25519 k, SigEd25519 s => check (ed_verify k data s)
  | KeyBls k, SigBls s => check (pk_verify k s data)
  | KeyBlsShare k, SigBlsShare _ s => check (pkshare_verify k s data)
  | _, _ => Err SigningKeyTypeMismatch
  end.

#[export] Instance client_key_eq_dec : EqDecision ClientKey.
Proof. solve_decision. Defined.
#[export] Instance client_key_countable : Countable ClientKey.
Proof.
  refine (inj_countable'
    (λ k, match k with KeyEd25519 k => inl k | KeyBls k => inr (inl k) | KeyBlsShare k => inr (inr k) end)
    (λ x, match x with inl k => KeyEd25519 k | inr (inl k) => KeyBls k | inr (inr k) => KeyBlsShare k end) _).
  by intros [].
Defined.
#[export] Instance client_signature_eq_dec : EqDecision ClientSignature.
Proof. solve_decision. Defined.

(** [messaging/authority.rs]: the authority of a client over a payload. *)
Record ClientAuth := mkClientAuth { auth_public_key : ClientKey; auth_signature : ClientSignature }.

Definition verify_authority (a : ClientAuth) (payload : bytes) : result KeyError ClientAuth :=
  _ ← map_err (λ _, KeyInvalidSignature) (key_verify (auth_public_key a) (auth_signature a) payload);
  Ok a.
End keys.

#[export] Instance client_auth_eq_dec {B : Bls} {BSh : BlsShares} {BPS : BlsPublicShares} {E : Ed25519} :
  EqDecision ClientAuth.
Proof. solve_decision. Defined.

Section address.
Context {X : Xor}.

Record RegisterAddress := mkRegisterAddress { ra_name : XorName; ra_tag : Z }.

#[export] Instance register_address_eq_dec : EqDecision RegisterAddress.
Proof. solve_decision. Defined.
#[export] Instance register_address_countable : Countable RegisterAddress :=
  inj_countable' (λ a, (ra_name a, ra_tag a)) (λ p, mkRegisterAddress p.1 p.2)
    (λ a, match a with mkRegisterAddress _ _ => eq_refl end).

Inductive DataAddress :=
  | SafeKeyAddr (name : XorName)
  | BytesAddr (name : XorName)
  | RegisterAddr (a : RegisterAddress)
  | SpentbookAddr (name : XorName).
#[export] Instance data_address_eq_dec : EqDecision DataAddress.
Proof. solve_decision. Defined.

Definition data_address_name (a : DataAddress) : XorName :=
  match a with
  | SafeKeyAddr n | BytesAddr n | SpentbookAddr n => n
  | RegisterAddr a => ra_name a
  end.
End address.
