(* ===== verification/Register.v ===== *)
(** * Registers

    [types/register]: a register is a Merkle CRDT of entries with an access policy. *)

From S2P Require Import Prelude External Xor Keys.

Section register.
Context {B : Bls} {BSh : BlsShares} {BPS : BlsPublicShares} {E : Ed25519} {X : Xor}.

(** [Entry] is a byte vector; the entry limit is the source's 1024 bytes. *)
Definition Entry := bytes.
Definition MAX_REG_ENTRY_SIZE : nat := 1024.
Definition MAX_REG_NUM_ENTRIES : nat := 1024.

Context {M : Merkle bytes}.

Inductive Action := Read | Write.

Record Permissions := mkPermissions { write_perm : option bool }.

Inductive User :=
  | Anyone
  | Key (k : ClientKey).

#[export] Instance user_eq_dec : EqDecision User.
Proof. solve_decision. Defined.
#[export] Instance user_countable : Countable User.
Proof.
  refine (inj_countable' (λ u, match u with Anyone => None | Key k => Some k end)
    (λ x, match x with None => Anyone | Some k => Key k end) _). by intros [].
Defined.
#[export] Instance permissions_eq_dec : EqDecision Permissions.
Proof. solve_decision. Defined.

Record Policy := mkPolicy { owner : User; permissions : gmap User Permissions }.
#[export] Instance policy_eq_dec : EqDecision Policy.
Proof. solve_decision. Defined.

(** [types::Error]; texts and sources are dropped. *)
Inductive RegError :=
  | AccessDenied (u : User)
  | RegSerialisation
  | EntryTooBig (size max : nat)
  | TooManyEntries (n : nat)
  | InvalidEntryActions
  | NoSuchEntry (h : Hash bytes)
  | NoSuchUser (u : User)
  | InvalidOwnerNotPublicKeySet
  | RegSigningKeyTypeMismatch
  | RegInvalidSignature
  | FailedToParse
  | OutOfRange
  | CrdtWrongAddress (a : RegisterAddress)
  | BlsError
  | NoCmdResponseForTheVariant.

(** ** Policy *)

Definition is_allowed (p : Permissions) (action : Action) : option bool :=
  match action with Read => Some true | Write => write_perm p end.

Definition is_action_allowed_by_user (p : Policy) (user : User) (action : Action) : option bool :=
  perms ← permissions p !! user; is_allowed perms action.

Definition or_else {A} (o o' : option A) : option A := match o with Some a => Some a | None => o' end.

Definition is_action_allowed (p : Policy) (requester : User) (action : Action) : result RegError unit :=
  match action with
  | Read => Ok ()
  | Write =>
      if decide (requester = owner p) then Ok ()
      else match or_else (is_action_allowed_by_user p requester action)
                         (is_action_allowed_by_user p Anyone action) with
           | Some true => Ok ()
           | Some false => Err (AccessDenied requester)
           | None => Err (AccessDenied requester)
           end
  end.

Definition policy_permissions (p : Policy) (user : User) : option Permissions :=
  if decide (user = owner p) then Some (mkPermissions (Some true)) else permissions p !! user.

(** ** The CRDT *)

Record CrdtOperation := mkOp {
  op_address : RegisterAddress;
  crdt_op : Node (Hash bytes) bytes;
  op_source : User;
  op_signature : option ClientSignature;
}.

#[export] Instance crdt_operation_eq_dec : EqDecision CrdtOperation.
Proof. solve_decision. Defined.

Record RegisterCrdt := mkCrdt { crdt_address : RegisterAddress; data : MerkleReg bytes }.

Definition crdt_new (a : RegisterAddress) : RegisterCrdt := mkCrdt a mr_new.
Definition crdt_size (c : RegisterCrdt) : nat := mr_num_nodes (data c) + mr_num_orphans (data c).

Definition crdt_write (c : RegisterCrdt) (entry : bytes) (children : gset (Hash bytes)) (source : User)
    : RegisterCrdt * (Hash bytes * CrdtOperation) :=
  let op := mr_write (data c) entry children in
  (mkCrdt (crdt_address c) (mr_apply (data c) op),
   (node_hash op, mkOp (crdt_address c) op source None)).

Definition crdt_apply_op (c : RegisterCrdt) (op : CrdtOperation) : RegisterCrdt * result RegError unit :=
  if decide (crdt_address c = op_address op) then
    (mkCrdt (crdt_address c) (mr_apply (data c) (crdt_op op)), Ok ())
  else (c, Err (CrdtWrongAddress (op_address op))).

Definition crdt_get (c : RegisterCrdt) (h : Hash bytes) : option bytes := node_value <$> mr_node (data c) h.

Definition crdt_read (c : RegisterCrdt) : gset (Hash bytes * bytes) :=
  list_to_set ((λ e, (e.1, node_value e.2)) <$> mr_read (data c)).

(** ** The register *)

Record Register := mkRegister { authority : User; crdt : RegisterCrdt; policy : Policy }.

Definition new (auth : User) (nm : XorName) (tag : Z) (p : Policy) : Register :=
  mkRegister auth (crdt_new (mkRegisterAddress nm tag)) p.
Definition new_owned (auth : User) (nm : XorName) (tag : Z) : Register :=
  new auth nm tag (mkPolicy auth ∅).

Definition address (r : Register) : RegisterAddress := crdt_address (crdt r).
Definition reg_owner (r : Register) : User := owner (policy r).
Definition reg_size (r : Register) : nat := crdt_size (crdt r).

Definition reg_get (r : Register) (h : Hash bytes) : result RegError bytes :=
  ok_or (crdt_get (crdt r) h) (NoSuchEntry h).
Definition reg_read (r : Register) : gset (Hash bytes * bytes) := crdt_read (crdt r).
Definition reg_permissions (r : Register) (user : User) : result RegError Permissions :=
  ok_or (policy_permissions (policy r) user) (NoSuchUser user).

Definition check_entry_and_reg_sizes (r : Register) (entry : bytes) : result RegError unit :=
  if decide (MAX_REG_ENTRY_SIZE < length entry) then Err (EntryTooBig (length entry) MAX_REG_ENTRY_SIZE)
  else if decide (MAX_REG_NUM_ENTRIES ≤ crdt_size (crdt r)) then Err (TooManyEntries (crdt_size (crdt r)))
  else Ok ().

Definition write (r : Register) (entry : bytes) (children : gset (Hash bytes))
    : Register * result RegError (Hash bytes * CrdtOperation) :=
  match check_entry_and_reg_sizes r entry with
  | Err e => (r, Err e)
  | Ok _ =>
      let '(c, res) := crdt_write (crdt r) entry children (authority r) in
      (mkRegister (authority r) c (policy r), Ok res)
  end.

Definition apply_op (r : Register) (op : CrdtOperation) : Register * result RegError unit :=
  match check_entry_and_reg_sizes r (node_value (crdt_op op)) with
  | Err e => (r, Err e)
  | Ok _ =>
      let '(c, res) := crdt_apply_op (crdt r) op in
      (mkRegister (authority r) c (policy r), res)
  end.

Definition check_permissions (r : Register) (action : Action) (requester : option User)
    : result RegError unit :=
  is_action_allowed (policy r) (default (authority r) requester) action.
End register.
