(* ===== verification/RegisterProps.v ===== *)
(** * Properties of registers

    Access control, limits, how a write supersedes entries, and the convergence of
    replicas that apply the same operations in any order. *)

From S2P Require Import Prelude External Xor Keys Register.

Section props.
Context {B : Bls} {BSh : BlsShares} {BPS : BlsPublicShares} {E : Ed25519} {X : Xor}.
Context {M : Merkle bytes} {ML : MerkleLaws bytes}.
Implicit Types (r : Register) (op : CrdtOperation) (p : Policy) (u : User).

(** The write decision of a policy is exactly: the owner may always write; another
    user may write when its own permission says so, and, only when it has none of its
    own, when the permission of [Anyone] says so; everything else is refused with
    [AccessDenied]. Reading is always allowed. *)
Theorem write_access p u :
  is_action_allowed p u Read = Ok () ∧
  is_action_allowed p u Write =
    (if decide (u = owner p ∨
                permissions p !! u = Some (mkPermissions (Some true)) ∨
                ((permissions p !! u = None ∨ permissions p !! u = Some (mkPermissions None)) ∧
                 permissions p !! Anyone = Some (mkPermissions (Some true))))
     then Ok () else Err (AccessDenied u)).
Proof.
  split; [done|]. unfold is_action_allowed, is_action_allowed_by_user.
  destruct (decide (u = owner p)) as [Ho|Ho]; [by rewrite decide_True by (by left)|].
  destruct (permissions p !! u) as [[[[]|]]|] eqn:Hu; simpl;
    [by rewrite decide_True by auto|rewrite decide_False by naive_solver; done|..];
    (destruct (permissions p !! Anyone) as [[[[]|]]|] eqn:Ha; simpl;
     [rewrite decide_True by naive_solver|rewrite decide_False by naive_solver..]; done).
Qed.

(** ** Limits *)

Lemma check_sizes_Ok r entry :
  check_entry_and_reg_sizes r entry = Ok () ↔
  length entry ≤ MAX_REG_ENTRY_SIZE ∧ reg_size r < MAX_REG_NUM_ENTRIES.
Proof.
  unfold check_entry_and_reg_sizes, reg_size.
  repeat case_decide; split; intros; simplify_eq; try lia; done.
Qed.

(** All nodes of the register, known children or not. *)
Definition reg_known r : gmap (Hash bytes) (Node (Hash bytes) bytes) := mr_known (data (crdt r)).

Lemma reg_size_known r : reg_size r = size (reg_known r).
Proof.
  unfold reg_size, crdt_size, reg_known, mr_known. rewrite mr_num_nodes_spec, mr_num_orphans_spec.
  symmetry. apply map_size_disj_union, mr_dag_orphans.
Qed.

Definition op_ok (a : RegisterAddress) op : Prop :=
  op_address op = a ∧ length (node_value (crdt_op op)) ≤ MAX_REG_ENTRY_SIZE.

Lemma apply_op_Ok r op :
  op_ok (address r) op → reg_size r < MAX_REG_NUM_ENTRIES →
  ∃ r', apply_op r op = (r', Ok ()) ∧ address r' = address r ∧ policy r' = policy r ∧
        authority r' = authority r ∧
        reg_known r' = reg_known r ∪ {[node_hash (crdt_op op) := crdt_op op]}.
Proof.
  intros [Ha Hl] Hs. unfold apply_op. rewrite (proj2 (check_sizes_Ok r _) (conj Hl Hs)).
  unfold crdt_apply_op. rewrite decide_True by done. eexists. split; [done|].
  split_and!; [done..|]. apply mr_apply_known.
Qed.

Lemma apply_op_Ok_inv r op r' :
  apply_op r op = (r', Ok ()) → op_ok (address r) op ∧ reg_size r < MAX_REG_NUM_ENTRIES.
Proof.
  unfold apply_op. destruct (check_entry_and_reg_sizes r _) as [[]|] eqn:Hc; [|done].
  apply check_sizes_Ok in Hc as [Hl Hs]. unfold crdt_apply_op. case_decide as Ha; [|done].
  intros _. by split; [split|].
Qed.

Lemma apply_op_Err r op r' e : apply_op r op = (r', Err e) → r' = r.
Proof.
  unfold apply_op. destruct (check_entry_and_reg_sizes r _); [|by intros [= <-]].
  unfold crdt_apply_op. case_decide; intros; simplify_eq. by destruct r as [? [] ?].
Qed.

Lemma insert_known_size (m : gmap (Hash bytes) (Node (Hash bytes) bytes)) h n :
  size (m ∪ {[h := n]}) ≤ S (size m).
Proof.
  etrans; [apply map_size_union_le|]. rewrite map_size_singleton. lia.
Qed.

(** A register never holds more than its maximal number of entries: every operation
    within the limits is applied and adds at most one entry; an entry that is too big or
    a full register is refused with the register unchanged. *)
Theorem limits_hold r op r' res :
  reg_size r ≤ MAX_REG_NUM_ENTRIES → apply_op r op = (r', res) →
  reg_size r' ≤ MAX_REG_NUM_ENTRIES ∧ reg_size r ≤ reg_size r' ≤ S (reg_size r) ∧
  (MAX_REG_ENTRY_SIZE < length (node_value (crdt_op op)) →
     res = Err (EntryTooBig (length (node_value (crdt_op op))) MAX_REG_ENTRY_SIZE) ∧ r' = r) ∧
  (reg_size r = MAX_REG_NUM_ENTRIES → (∃ e, res = Err e) ∧ r' = r).
Proof.
  intros Hr Ha. destruct res as [[]|e].
  - apply apply_op_Ok_inv in Ha as Hok. destruct Hok as [Hop Hs].
    destruct (apply_op_Ok r op Hop Hs) as (r1 & Ha1 & _ & _ & _ & Hk).
    rewrite Ha in Ha1. simplify_eq.
    assert (reg_size r1 ≤ S (reg_size r)) by (rewrite !reg_size_known, Hk; apply insert_known_size).
    assert (reg_size r ≤ reg_size r1).
    { rewrite !reg_size_known, Hk. apply map_subseteq_size, map_union_subseteq_l. }
    destruct Hop. split; [lia|]. split; [lia|]. split; lia.
  - pose proof (apply_op_Err r op r' e Ha) as ->. split; [done|]. split; [lia|]. split; [|by eauto].
    intros Hl. split; [|done]. revert Ha. unfold apply_op, check_entry_and_reg_sizes.
    rewrite decide_True by done. by intros [= <-].
Qed.

(** ** Convergence *)

Fixpoint apply_ops r (ops : list CrdtOperation) : Register * list (result RegError unit) :=
  match ops with
  | [] => (r, [])
  | op :: ops =>
      let '(r, res) := apply_op r op in
      let '(r, rest) := apply_ops r ops in (r, res :: rest)
  end.

Definition op_nodes (ops : list CrdtOperation) : gmap (Hash bytes) (Node (Hash bytes) bytes) :=
  list_to_map ((λ op, (node_hash (crdt_op op), crdt_op op)) <$> ops).

(** Every entry is filed under its hash. *)
Definition hashed (m : gmap (Hash bytes) (Node (Hash bytes) bytes)) : Prop :=
  ∀ h n, m !! h = Some n → h = node_hash n.

Lemma hashed_union m m' : hashed m → hashed m' → hashed (m ∪ m').
Proof. intros H1 H2 h n [?|[_ ?]]%lookup_union_Some_raw; eauto. Qed.
Lemma hashed_singleton n : hashed {[node_hash n := n]}.
Proof. intros h n' Hl. by apply lookup_singleton_Some in Hl as [<- <-]. Qed.

Lemma hashed_ext (m m' : gmap (Hash bytes) (Node (Hash bytes) bytes)) :
  hashed m → hashed m' → dom m ≡ dom m' → m = m'.
Proof.
  intros H1 H2 Hd. apply map_eq. intros h. pose proof (Hd h) as Hh. rewrite !elem_of_dom in Hh.
  destruct (m !! h) as [n|] eqn:Hm, (m' !! h) as [n'|] eqn:Hm'; try done.
  - f_equal. apply node_hash_inj. apply H1 in Hm. apply H2 in Hm'. congruence.
  - destruct (proj1 Hh); [eauto|done].
  - destruct (proj2 Hh); [eauto|done].
Qed.

Lemma op_nodes_hashed ops : hashed (op_nodes ops).
Proof.
  intros h n Hl. apply elem_of_list_to_map_2, list_elem_of_fmap in Hl as (op & [= -> ->] & _). done.
Qed.
Lemma op_nodes_dom ops : dom (op_nodes ops) ≡ list_to_set ((λ op, node_hash (crdt_op op)) <$> ops).
Proof.
  unfold op_nodes. rewrite dom_list_to_map, <-list_fmap_compose. done.
Qed.
Lemma reg_known_hashed r : hashed (reg_known r).
Proof. intros h n. apply mr_known_hash. Qed.

Lemma apply_ops_known r ops :
  Forall (op_ok (address r)) ops → size (reg_known r ∪ op_nodes ops) ≤ MAX_REG_NUM_ENTRIES →
  reg_size r + length ops ≤ MAX_REG_NUM_ENTRIES →
  Forall (λ res, res = Ok ()) (apply_ops r ops).2 ∧
  address (apply_ops r ops).1 = address r ∧
  reg_known (apply_ops r ops).1 = reg_known r ∪ op_nodes ops.
Proof.
  revert r. induction ops as [|op ops IH]; intros r Hok Hsz Hlen; simpl.
  { split_and!; [constructor|done|]. unfold op_nodes. simpl. by rewrite (right_id_L ∅ (∪)). }
  apply Forall_cons in Hok as [Hop Hok]. simpl in Hlen.
  destruct (apply_op_Ok r op Hop) as (r1 & -> & Ha & _ & _ & Hk); [lia|].
  assert (reg_known r ∪ op_nodes (op :: ops) = reg_known r1 ∪ op_nodes ops) as Heq.
  { apply hashed_ext.
    - apply hashed_union; [apply reg_known_hashed|apply op_nodes_hashed].
    - apply hashed_union; [apply reg_known_hashed|apply op_nodes_hashed].
    - rewrite Hk, !dom_union, dom_singleton, !op_nodes_dom. simpl. set_solver. }
  destruct (IH r1) as (Hr & Ha' & Hk').
  - by rewrite Ha.
  - by rewrite <-Heq.
  - assert (reg_size r1 ≤ S (reg_size r)); [|lia].
    rewrite !reg_size_known, Hk. apply insert_known_size.
  - destruct (apply_ops r1 ops) as [r2 rest]. simpl in *.
    split_and!; [by constructor|congruence|congruence].
Qed.

(** The known nodes determine everything that can be read. *)
Lemma known_dag (c c' : MerkleReg bytes) : mr_known c = mr_known c' → mr_dag c = mr_dag c'.
Proof.
  intros Hk. apply map_eq. intros h.
  destruct (mr_dag c !! h) as [n|] eqn:Hd, (mr_dag c' !! h) as [n'|] eqn:Hd'; try done.
  - apply mr_dag_known in Hd, Hd'. congruence.
  - assert (is_Some (mr_dag c' !! h)) as [? ?]; [|congruence].
    apply mr_dag_grounded. rewrite <-Hk. apply mr_dag_grounded. eauto.
  - assert (is_Some (mr_dag c !! h)) as [? ?]; [|congruence].
    apply mr_dag_grounded. rewrite Hk. apply mr_dag_grounded. eauto.
Qed.

Lemma elem_of_reg_read r h v :
  (h, v) ∈ reg_read r ↔
  ∃ n, v = node_value n ∧ mr_dag (data (crdt r)) !! h = Some n ∧
       ∀ h' n', mr_dag (data (crdt r)) !! h' = Some n' → h ∉ node_children n'.
Proof.
  unfold reg_read, crdt_read. rewrite elem_of_list_to_set, list_elem_of_fmap. split.
  - intros ([h' n] & [= -> ->] & Hr%mr_read_spec). exists n. naive_solver.
  - intros (n & -> & Hr). exists (h, n). split; [done|]. by apply mr_read_spec.
Qed.

Lemma known_reads r r' :
  reg_known r = reg_known r' → reg_read r = reg_read r' ∧ reg_size r = reg_size r' ∧
  ∀ h, reg_get r h = reg_get r' h.
Proof.
  intros Hk. assert (mr_dag (data (crdt r)) = mr_dag (data (crdt r'))) as Hd by (by apply known_dag).
  split_and!.
  - apply set_eq. intros [h v]. by rewrite !elem_of_reg_read, Hd.
  - by rewrite !reg_size_known, Hk.
  - intros h. unfold reg_get, crdt_get. unfold reg_known in Hk. by rewrite !mr_node_spec, Hk.
Qed.

Lemma replicas_converge_aux r1 r2 ops1 ops2 :
  address r1 = address r2 → reg_known r1 = reg_known r2 →
  (∀ op, op ∈ ops1 ↔ op ∈ ops2) → Forall (op_ok (address r1)) ops1 →
  reg_size r1 + length ops1 ≤ MAX_REG_NUM_ENTRIES →
  reg_size r2 + length ops2 ≤ MAX_REG_NUM_ENTRIES →
  let r1' := (apply_ops r1 ops1).1 in
  let r2' := (apply_ops r2 ops2).1 in
  Forall (λ res, res = Ok ()) ((apply_ops r1 ops1).2 ++ (apply_ops r2 ops2).2) ∧
  reg_read r1' = reg_read r2' ∧ reg_size r1' = reg_size r2' ∧
  ∀ h, reg_get r1' h = reg_get r2' h.
Proof.
  intros Ha Hk Hops Hok1 Hl1 Hl2.
  assert (Forall (op_ok (address r2)) ops2) as Hok2.
  { rewrite <-Ha. rewrite Forall_forall in Hok1 |- *. intros op Hop%Hops. by apply Hok1. }
  assert (∀ (r : Register) ops, reg_size r + length ops ≤ MAX_REG_NUM_ENTRIES →
    size (reg_known r ∪ op_nodes ops) ≤ MAX_REG_NUM_ENTRIES) as Hsz.
  { intros r ops Hl. etrans; [apply map_size_union_le|]. rewrite <-reg_size_known.
    assert (size (op_nodes ops) ≤ length ops); [|lia]. rewrite <-(size_dom (D := gset (Hash bytes))).
    rewrite op_nodes_dom. etrans; [apply size_list_to_set_le|]. by rewrite length_fmap. }
  destruct (apply_ops_known r1 ops1 Hok1 (Hsz _ _ Hl1) Hl1) as (Hr1 & _ & Hk1).
  destruct (apply_ops_known r2 ops2 Hok2 (Hsz _ _ Hl2) Hl2) as (Hr2 & _ & Hk2).
  split; [by apply Forall_app|]. apply known_reads. rewrite Hk1, Hk2, Hk. f_equal.
  apply hashed_ext; [apply op_nodes_hashed..|]. rewrite !op_nodes_dom. intros h.
  rewrite !elem_of_list_to_set, !list_elem_of_fmap. setoid_rewrite Hops. done.
Qed.

(** C5: replicas converge: two replicas of a register with the same entries that apply
    the same operations, in any order and with any repetitions, below the entry limit,
    accept all of them and then read the same entries, find the same entry under every
    hash and have the same size. *)
Theorem replicas_converge r1 r2 ops1 ops2 :
  address r1 = address r2 → reg_known r1 = reg_known r2 →
  (∀ op, op ∈ ops1 ↔ op ∈ ops2) → Forall (op_ok (address r1)) ops1 →
  reg_size r1 + length ops1 ≤ MAX_REG_NUM_ENTRIES →
  reg_size r2 + length ops2 ≤ MAX_REG_NUM_ENTRIES →
  let r1' := (apply_ops r1 ops1).1 in
  let r2' := (apply_ops r2 ops2).1 in
  Forall (λ res, res = Ok ()) ((apply_ops r1 ops1).2 ++ (apply_ops r2 ops2).2) ∧
  reg_read r1' = reg_read r2' ∧ reg_size r1' = reg_size r2' ∧
  ∀ h, reg_get r1' h = reg_get r2' h.
Proof. apply replicas_converge_aux. Qed.

(** ** Writing *)

Abbreviation reg_dag r := (mr_dag (data (crdt r))).

(** No entry waits for a child. *)
Definition settled r : Prop := mr_orphans (data (crdt r)) = ∅.

Lemma known_orphans (c c' : MerkleReg bytes) : mr_known c = mr_known c' → mr_orphans c = mr_orphans c'.
Proof.
  intros Hk. pose proof (known_dag _ _ Hk) as Hd. unfold mr_known in Hk. rewrite Hd in Hk.
  eapply (map_union_cancel_l _ _ (mr_dag c')); [| |exact Hk]; rewrite <-?Hd; apply map_disjoint_sym.
  - apply mr_dag_orphans.
  - rewrite Hd. apply mr_dag_orphans.
Qed.

(** A register that knows one more node, whose children were there. *)
Lemma node_added r r' (n : Node (Hash bytes) bytes) :
  settled r → (∀ c, c ∈ node_children n → is_Some (reg_dag r !! c)) →
  reg_known r' = reg_known r ∪ {[node_hash n := n]} →
  settled r' ∧ reg_dag r' = <[node_hash n := n]> (reg_dag r).
Proof.
  intros Ho Hch Hk. unfold reg_known in Hk. rewrite <-mr_apply_known in Hk.
  destruct (mr_apply_ready (data (crdt r)) n Ho Hch) as [Hd Ho'].
  unfold settled. by rewrite (known_orphans _ _ Hk), (known_dag _ _ Hk).
Qed.

(** No entry of the register has an entry it does not know as a child. *)
Lemma unknown_no_child r h x n' : reg_known r !! h = None → reg_dag r !! x = Some n' → h ∉ node_children n'.
Proof.
  intros Hnone Hx Hin.
  assert (grounded (mr_known (data (crdt r))) x) as Hg by (apply mr_dag_grounded; eauto).
  destruct Hg as [x n'' Hn'' Hc]. apply mr_dag_known in Hx. simplify_eq.
  apply Hc in Hin. destruct Hin as [? ? Hn]. unfold reg_known in Hnone. congruence.
Qed.

(** A new entry takes the place of its children. *)
Lemma node_added_reads r r' (n : Node (Hash bytes) bytes) :
  settled r → (∀ c, c ∈ node_children n → is_Some (reg_dag r !! c)) →
  reg_known r !! node_hash n = None → reg_known r' = reg_known r ∪ {[node_hash n := n]} →
  ∀ x v, (x, v) ∈ reg_read r' ↔
    (x = node_hash n ∧ v = node_value n) ∨ ((x, v) ∈ reg_read r ∧ x ∉ node_children n).
Proof.
  intros Ho Hch Hfresh Hk. destruct (node_added r r' n Ho Hch Hk) as [_ Hd].
  assert (reg_dag r !! node_hash n = None) as Hnone.
  { apply eq_None_not_Some. intros [n' Hn'%mr_dag_known]. unfold reg_known in Hfresh. congruence. }
  intros x v. rewrite !elem_of_reg_read, Hd. setoid_rewrite lookup_insert_Some. split.
  - intros (m & -> & [[<- <-]|[Hne Hm]] & Hhead); [by left|right]. split.
    + exists m. split_and!; [done..|]. intros x' n' Hx'. apply (Hhead x'). right. split; [|done]. congruence.
    + apply (Hhead (node_hash n) n). by left.
  - intros [[-> ->]|[(m & -> & Hm & Hhead) Hnc]].
    + exists n. split; [done|]. split; [by left|].
      intros x' n' [[_ <-]|[_ Hx']]; [|by eapply unknown_no_child].
      intros Hin%Hch. rewrite Hnone in Hin. by destruct Hin.
    + exists m. split; [done|]. split; [right; split; [congruence|done]|].
      intros x' n' [[_ <-]|[_ Hx']]; [done|by eapply Hhead].
Qed.

(** A write whose children are entries of a register without orphans supersedes
    exactly those children: the readable entries become the new one and the old ones
    that are not children. The new entry is found under the returned hash, and the
    returned operation, applied to another replica, adds the same entry. *)
Theorem write_supersedes r entry (children : gset (Hash bytes)) r' h op :
  mr_orphans (data (crdt r)) = ∅ →
  (∀ c, c ∈ children → is_Some (mr_dag (data (crdt r)) !! c)) →
  write r entry children = (r', Ok (h, op)) → reg_known r !! h = None →
  h = node_hash (crdt_op op) ∧ node_value (crdt_op op) = entry ∧ op_address op = address r ∧
  reg_get r' h = Ok entry ∧
  ∀ x v, (x, v) ∈ reg_read r' ↔ (x = h ∧ v = entry) ∨ ((x, v) ∈ reg_read r ∧ x ∉ children).
Proof.
  intros Ho Hch Hw Hfresh. unfold write in Hw.
  destruct (check_entry_and_reg_sizes r entry); [|done]. simpl in Hw. injection Hw as <- <- <-.
  rewrite mr_write_spec in *. set (n := mkNode entry children) in *. simpl.
  do 3 (split; [done|]). split.
  - unfold reg_get, crdt_get. simpl. rewrite mr_node_spec.
    destruct (mr_apply_ready (data (crdt r)) n Ho Hch) as [Hd _].
    rewrite (mr_dag_known _ _ n); [done|]. rewrite Hd. apply lookup_insert_eq.
  - apply node_added_reads; [done..|]. apply mr_apply_known.
Qed.
End props.

(** ** Witnesses *)

Module RegisterDemo.
Import External.Concrete Xor.ConcreteXor.

#[export] Instance concrete_shares0 : BlsShares (B := concrete_bls) := {|
  SecretKeyShare := nat;
  SignatureShare := nat * bytes;
  sk_share_sign sk msg := (sk, msg);
  pks_threshold _ := 0;
  pks_share_verify pks i s msg := bool_decide (s = (pks, msg));
  pks_combine_signatures pks l := snd <$> head l;
  pk_to_bytes k := [Z.of_nat k];
|}.
#[export] Instance concrete_public_shares : BlsPublicShares (B := concrete_bls) := {|
  PublicKeyShare := nat;
  pkshare_verify k s msg := bool_decide (s = (k, msg));
|}.
#[export] Instance concrete_ed : Ed25519 := {|
  EdPublicKey := nat;
  EdSignature := nat * bytes;
  ed_verify k msg s := bool_decide (s = (k, msg));
  ed_to_bytes k := [Z.of_nat k];
|}.
#[export] Instance entry_merkle : Merkle bytes := concrete_merkle.

Definition user (n : nat) : User := Key (KeyEd25519 (n : EdPublicKey)).
Definition demo_address : RegisterAddress (X := concrete_xor) := mkRegisterAddress [true; false] 7.
Definition demo_register : Register (X := concrete_xor) := new_owned (user 1) [true; false] 7.
Definition demo_node (v : bytes) : Node (Hash bytes) bytes := mkNode v ∅.
Definition demo_op (v : bytes) : CrdtOperation := mkOp demo_address (demo_node v) (user 1) None.

Lemma demo_op_ok v : length v ≤ 3 → op_ok (address demo_register) (demo_op v).
Proof. intros Hl. split; [reflexivity|]. unfold MAX_REG_ENTRY_SIZE. simpl. lia. Qed.
Lemma demo_size : reg_size demo_register = 0.
Proof. vm_compute. reflexivity. Qed.

Lemma limits_hold_witness : reg_size (apply_op demo_register (demo_op [1%Z])).1 ≤ MAX_REG_NUM_ENTRIES.
Proof.
  destruct (apply_op demo_register (demo_op [1%Z])) as [r' res] eqn:Ha.
  apply (limits_hold demo_register (demo_op [1%Z]) r' res); [|exact Ha].
  rewrite demo_size. apply Nat.le_0_l.
Defined.

Lemma replicas_converge_witness :
  reg_read (apply_ops demo_register [demo_op [1%Z]; demo_op [2%Z]]).1 =
  reg_read (apply_ops demo_register [demo_op [2%Z]; demo_op [1%Z]; demo_op [2%Z]]).1.
Proof.
  apply (replicas_converge demo_register demo_register [demo_op [1%Z]; demo_op [2%Z]]
    [demo_op [2%Z]; demo_op [1%Z]; demo_op [2%Z]]).
  - reflexivity.
  - reflexivity.
  - intros op. rewrite !elem_of_cons. naive_solver.
  - repeat constructor; apply demo_op_ok; simpl; lia.
  - rewrite demo_size. unfold MAX_REG_NUM_ENTRIES. simpl. lia.
  - rewrite demo_size. unfold MAX_REG_NUM_ENTRIES. simpl. lia.
Defined.

Lemma write_supersedes_witness :
  ∃ r' h op, write demo_register [5%Z] ∅ = (r', Ok (h, op)) ∧ reg_get r' h = Ok [5%Z].
Proof.
  set (h := node_hash (demo_node [5%Z])).
  exists (mkRegister (user 1) (mkCrdt demo_address (mr_apply mr_new (demo_node [5%Z]))) (mkPolicy (user 1) ∅)), h,
    (demo_op [5%Z]).
  assert (write demo_register [5%Z] ∅ =
    (mkRegister (user 1) (mkCrdt demo_address (mr_apply mr_new (demo_node [5%Z]))) (mkPolicy (user 1) ∅),
     Ok (h, demo_op [5%Z]))) as Hw.
  { unfold write.
    replace (check_entry_and_reg_sizes demo_register [5%Z]) with (Ok () : result RegError unit); [reflexivity|].
    symmetry. apply check_sizes_Ok. rewrite demo_size. unfold MAX_REG_ENTRY_SIZE, MAX_REG_NUM_ENTRIES.
    simpl. lia. }
  split; [exact Hw|].
  apply (write_supersedes demo_register [5%Z] ∅ _ h (demo_op [5%Z])); [|set_solver|exact Hw|].
  - vm_compute. reflexivity.
  - vm_compute. reflexivity.
Defined.
End RegisterDemo.
