(* ===== verification/UsedSpace.v ===== *)
(** * Used space

    [storage/used_space.rs]: the bytes stored and the level of the last report. The
    atomics are a plain state, each operation one step; [f64] is IEEE double
    arithmetic ([SpecFloat] with 53 bits of precision). *)

From Stdlib Require Import SpecFloat.
From S2P Require Import Prelude External Xor NodeState.

Definition f64 := spec_float.
Definition f64_of_Z (z : Z) : f64 := binary_normalize 53 1024 z 0 false.
Definition f64_mul : f64 → f64 → f64 := SFmul 53 1024.
Definition f64_div : f64 → f64 → f64 := SFdiv 53 1024.

(** [as usize]: truncation towards zero, saturating; NaN is 0. *)
Definition f64_to_usize (x : f64) : Z :=
  match x with
  | S754_finite false m e =>
      Z.min (2 ^ 64 - 1) (if (0 <=? e)%Z then Z.pos m * 2 ^ e else Z.pos m / 2 ^ (- e))
  | S754_infinity false => 2 ^ 64 - 1
  | _ => 0
  end.

Inductive StorageLevel :=
  | Updated (level : Z)
  | NoChange.

Record UsedSpace := mkUsedSpace {
  min_capacity : Z;
  max_capacity : Z;
  last_seen_level : Z;
  used_space : Z;
}.

Section used_space.
Context {Cfg : Settings}.

Definition used_space_new (min max : Z) : UsedSpace := mkUsedSpace min max 0 0.

Definition ratio (u : UsedSpace) : f64 := f64_div (f64_of_Z (used_space u)) (f64_of_Z (min_capacity u)).

Definition to_storage_level (value : f64) : Z :=
  (f64_to_usize (f64_mul value (f64_of_Z 100)) / Z.of_nat recommended_section_size) mod 2 ^ 8.

Definition increase (u : UsedSpace) (size : Z) : UsedSpace * StorageLevel :=
  let u := mkUsedSpace (min_capacity u) (max_capacity u) (last_seen_level u) (wrap64 (used_space u + size)) in
  let current_level := to_storage_level (ratio u) in
  if decide (current_level < last_seen_level u)%Z then (u, NoChange)
  else if decide (last_seen_level u < current_level)%Z then
    (mkUsedSpace (min_capacity u) (max_capacity u) current_level (used_space u), Updated current_level)
  else (u, NoChange).

Definition decrease (u : UsedSpace) (size : Z) : UsedSpace :=
  mkUsedSpace (min_capacity u) (max_capacity u) (last_seen_level u) (wrap64 (used_space u - size)).

Definition can_add (u : UsedSpace) (size : Z) : bool :=
  bool_decide (wrap64 (used_space u + size) ≤ max_capacity u)%Z.

Definition has_reached_min_capacity (u : UsedSpace) : bool :=
  bool_decide (min_capacity u ≤ used_space u)%Z.

(** ** Properties *)

Lemma increase_capacity u size :
  min_capacity (increase u size).1 = min_capacity u ∧ max_capacity (increase u size).1 = max_capacity u ∧
  used_space (increase u size).1 = wrap64 (used_space u + size).
Proof. unfold increase. by repeat case_decide. Qed.

Lemma increase_level u size :
  match (increase u size).2 with
  | Updated l => (last_seen_level u < l)%Z ∧ last_seen_level (increase u size).1 = l
  | NoChange => last_seen_level (increase u size).1 = last_seen_level u
  end.
Proof. unfold increase. by repeat case_decide. Qed.

(** A trace of stores and removals. *)
Inductive space_op := Inc (size : Z) | Dec (size : Z).
Fixpoint run (u : UsedSpace) (l : list space_op) : UsedSpace * list Z :=
  match l with
  | [] => (u, [])
  | Inc size :: l =>
      let '(u, level) := increase u size in
      let '(u, rest) := run u l in
      (u, match level with Updated n => n :: rest | NoChange => rest end)
  | Dec size :: l => run (decrease u size) l
  end.

(** Over any sequence of stores and removals every storage level is reported at
    most once and only when it is higher than all levels reported before. *)
Theorem levels_strictly_increase u l :
  StronglySorted Z.lt (run u l).2 ∧ Forall (λ n, last_seen_level u < n)%Z (run u l).2.
Proof.
  revert u. induction l as [|[size|size] l IH]; intros u; simpl.
  - split; constructor.
  - pose proof (increase_level u size) as Hl. destruct (increase u size) as [u' level].
    specialize (IH u'). destruct (run u' l) as [u'' rest]. simpl in *. destruct IH as [Hs Hf].
    destruct level as [n|]; simpl in Hl.
    + destruct Hl as [Hlt <-]. split; [by constructor|]. constructor; [done|].
      eapply Forall_impl; [exact Hf|]. simpl. lia.
    + rewrite Hl in Hf. done.
  - apply (IH (decrease u size)).
Qed.
End used_space.

(** The level of a storage filled exactly to its minimal capacity, with the default
    section size of 14 nodes, is 7: the level counts steps of 14 percent points, not the
    14 steps of 7 percent points up to 98 its documentation describes. *)
Theorem full_storage_is_level_seven :
  let Cfg : Settings := 7 in
  let u := used_space_new 1000000 2000000 in
  recommended_section_size = 14 ∧
  (increase u 1000000).2 = Updated 7 ∧
  (run u (repeat (Inc 10000) 100)).2 = [1; 2; 3; 4; 5; 6; 7]%Z ∧
  has_reached_min_capacity (increase u 1000000).1 = true.
Proof. vm_compute. auto. Qed.
