(* ===== verification/Storage.v ===== *)
(** * Data storage

    [storage]: the chunks and the register logs a node keeps on disk, and the space
    they use.  A register has a directory, named by the hash of its address, with one
    file per command; the order in which a directory lists its files is not fixed.
    I/O failures other than a missing file are not modelled. *)

From S2P Require Import Prelude External Xor NodeState SectionsDag Sap Keys Register UsedSpace.

Section storage.
Context {B : Bls} {BSh : BlsShares} {BPS : BlsPublicShares} {E : Ed25519} {X : Xor} {Cfg : Settings}.
Context {M : Merkle bytes}.

Record CreateRegister := mkCreate { cr_name : XorName; cr_tag : Z; cr_policy : Policy }.
Record EditRegister := mkEdit { ed_address : RegisterAddress; ed_edit : CrdtOperation }.

Inductive RegisterCmd :=
  | CmdCreate (op : CreateRegister) (auth : ClientAuth) (section_sig : SectionSig)
  | CmdEdit (op : EditRegister) (auth : ClientAuth).

#[export] Instance create_eq_dec : EqDecision CreateRegister.
Proof. solve_decision. Defined.
#[export] Instance edit_eq_dec : EqDecision EditRegister.
Proof. solve_decision. Defined.
#[export] Instance register_cmd_eq_dec : EqDecision RegisterCmd.
Proof. solve_decision. Defined.

Definition dst_address (c : RegisterCmd) : RegisterAddress :=
  match c with
  | CmdCreate op _ _ => mkRegisterAddress (cr_name op) (cr_tag op)
  | CmdEdit op _ => ed_address op
  end.

Inductive RegisterQuery :=
  | QGet (a : RegisterAddress)
  | QRead (a : RegisterAddress)
  | QGetEntry (a : RegisterAddress) (h : Hash bytes)
  | QGetPolicy (a : RegisterAddress)
  | QGetUserPermissions (a : RegisterAddress) (u : User)
  | QGetOwner (a : RegisterAddress).

Inductive StError :=
  | NotEnoughSpace
  | RegisterNotFound (a : RegisterAddress)
  | ChunkNotFound (n : XorName)
  | UnsupportedDataType (a : DataAddress)
  | StInvalidSignature (k : ClientKey)
  | Io
  | BincodeError
  | HexDecoding
  | NetworkData (e : RegError)
  | MessagingError
  | NoFilename
  | InvalidFilename
  | RegisterAddrMismatch (cmd_dst_addr reg_addr : RegisterAddress).

(** [messaging::data::Error] and the responses of a node to queries. *)
Inductive ErrorMsg :=
  | MsgInconsistentStorageNodeResponses
  | MsgAccessDenied (u : User)
  | MsgDataNotFound (a : DataAddress)
  | MsgFailedToWriteFile
  | MsgInsufficientNodeCount (prefix : Prefix) (expected found : Z)
  | MsgNoSuchEntry (h : Hash bytes)
  | MsgNoSuchUser (u : User)
  | MsgInvalidOperation
  | MsgSpentProofUnknownSectionKey (k : PublicKey)
  | MsgNoCorrespondingCmdError.

Definition reg_error_msg (e : RegError) : ErrorMsg :=
  match e with
  | NoSuchEntry h => MsgNoSuchEntry h
  | NoSuchUser u => MsgNoSuchUser u
  | AccessDenied u => MsgAccessDenied u
  | _ => MsgInvalidOperation
  end.
Definition st_error_msg (e : StError) : ErrorMsg :=
  match e with
  | NotEnoughSpace => MsgFailedToWriteFile
  | RegisterNotFound a => MsgDataNotFound (RegisterAddr a)
  | ChunkNotFound n => MsgDataNotFound (BytesAddr n)
  | NetworkData e => reg_error_msg e
  | _ => MsgInvalidOperation
  end.

(** The parts that come from elsewhere: [XorName::from_content], the serialisations,
    the id and size of a command, and the order of a directory listing. *)
Context (from_content : bytes → XorName).
Context {BA : Bincode RegisterAddress} {BC : Bincode CreateRegister} {BE : Bincode EditRegister}.
Context (CmdId : Type) `{Countable CmdId} (register_operation_id : RegisterCmd → option CmdId).
Context (cmd_size : Z) (list_files : gmap CmdId RegisterCmd → list RegisterCmd).

Record DataStorage := mkStorage {
  chunk_files : gmap XorName bytes;
  reg_dirs : gmap XorName (gmap CmdId RegisterCmd);
  used : UsedSpace;
}.

(** ** Chunks *)

Record Chunk := mkChunk { ch_address : XorName; ch_value : bytes }.
Definition chunk_new (v : bytes) : Chunk := mkChunk (from_content v) v.

Definition get_chunk (s : DataStorage) (address : XorName) : result StError Chunk :=
  match chunk_files s !! address with
  | Some bs => let chunk := chunk_new bs in
               if decide (ch_address chunk = address) then Ok chunk else Err (ChunkNotFound address)
  | None => Err (ChunkNotFound address)
  end.

Definition store_chunk (s : DataStorage) (chunk : Chunk) : DataStorage * result StError StorageLevel :=
  if decide (is_Some (chunk_files s !! ch_address chunk)) then (s, Ok NoChange)
  else if negb (can_add (used s) (Z.of_nat (length (ch_value chunk)))) then (s, Err NotEnoughSpace)
  else
    let '(u, level) := increase (used s) (Z.of_nat (length (ch_value chunk))) in
    (mkStorage (<[ch_address chunk := ch_value chunk]> (chunk_files s)) (reg_dirs s) u, Ok level).

Definition remove_chunk (s : DataStorage) (address : XorName) : DataStorage * result StError unit :=
  match chunk_files s !! address with
  | Some bs => (mkStorage (delete address (chunk_files s)) (reg_dirs s)
                  (decrease (used s) (Z.of_nat (length bs))), Ok ())
  | None => (s, Err Io)
  end.

(** ** The register store *)

Record StoredRegister := mkStored {
  stored_state : option Register;
  op_log : list RegisterCmd;
  op_log_path : XorName;
}.

Definition address_to_filepath (a : RegisterAddress) : result StError XorName :=
  from_content <$> ok_or (bincode_serialize a) BincodeError.

Definition created (c : RegisterCmd) : option Register :=
  match c with
  | CmdCreate op _ _ => Some (Register.new (owner (cr_policy op)) (cr_name op) (cr_tag op) (cr_policy op))
  | CmdEdit _ _ => None
  end.

Definition open_reg_log_from_disk (s : DataStorage) (a : RegisterAddress) : result StError StoredRegister :=
  path ← address_to_filepath a;
  match reg_dirs s !! path with
  | None => Ok (mkStored None [] path)
  | Some files => Ok (mkStored (head (omap created (list_files files))) (list_files files) path)
  end.

(** What is at the path of a register: [write_log_to_disk] makes a directory there. *)
Inductive FileKind := IsFile (len : Z) | IsDir.
Definition reg_metadata (s : DataStorage) (path : XorName) : option FileKind :=
  (λ _, IsDir) <$> reg_dirs s !! path.

(** [tokio::fs::remove_file] removes a file and fails for a directory. *)
Definition delete_data (s : DataStorage) (a : RegisterAddress) : DataStorage * result StError unit :=
  match address_to_filepath a with
  | Err e => (s, Err e)
  | Ok path =>
      match reg_metadata s path with
      | None => (s, Err Io)
      | Some (IsFile len) =>
          (mkStorage (chunk_files s) (delete path (reg_dirs s)) (decrease (used s) len), Ok ())
      | Some IsDir => (s, Err Io)
      end
  end.

Definition write_register_cmd (s : DataStorage) (cmd : RegisterCmd) (path : XorName)
    : DataStorage * result StError StorageLevel :=
  if negb (can_add (used s) cmd_size) then (s, Err NotEnoughSpace)
  else match register_operation_id cmd with
       | None => (s, Err BincodeError)
       | Some id =>
           let files := default ∅ (reg_dirs s !! path) in
           if decide (is_Some (files !! id)) then (s, Ok NoChange)
           else
             let '(u, level) := increase (used s) cmd_size in
             (mkStorage (chunk_files s) (<[path := <[id := cmd]> files]> (reg_dirs s)) u, Ok level)
       end.

Fixpoint write_cmds (s : DataStorage) (log : list RegisterCmd) (path : XorName)
    (level : StorageLevel) (last_err : option StError) : DataStorage * result StError StorageLevel :=
  match log with
  | [] => (s, match last_err with Some e => Err e | None => Ok level end)
  | cmd :: log =>
      let '(s, r) := write_register_cmd s cmd path in
      match r with
      | Ok l => write_cmds s log path
                  (match l, level with Updated _, NoChange => l | _, _ => level end) last_err
      | Err e => write_cmds s log path level (Some e)
      end
  end.

Definition write_log_to_disk (s : DataStorage) (log : list RegisterCmd) (path : XorName)
    : DataStorage * result StError StorageLevel :=
  match log with
  | [] => (s, Ok NoChange)
  | _ =>
      let s := mkStorage (chunk_files s) (<[path := default ∅ (reg_dirs s !! path)]> (reg_dirs s)) (used s) in
      write_cmds s log path NoChange None
  end.

Definition list_all_reg_addrs (s : DataStorage) : list RegisterAddress :=
  omap (λ e : XorName * gmap CmdId RegisterCmd, dst_address <$> head (list_files e.2)) (map_to_list (reg_dirs s)).

(** ** Applying commands to registers *)

Definition verify_cmd_auth (auth : ClientAuth) (payload : option bytes) : result StError unit :=
  bs ← ok_or payload BincodeError;
  match verify_authority auth bs with
  | Ok _ => Ok ()
  | Err _ => Err (StInvalidSignature (auth_public_key auth))
  end.

Definition apply_cmd (cmd : RegisterCmd) (r : Register) : Register * result StError unit :=
  let addr := dst_address cmd in
  if decide (addr ≠ address r) then (r, Err (RegisterAddrMismatch addr (address r)))
  else match cmd with
       | CmdCreate _ _ _ => (r, Ok ())
       | CmdEdit op auth =>
           match verify_cmd_auth auth (bincode_serialize op) with
           | Err e => (r, Err e)
           | Ok _ =>
               match check_permissions r Write (Some (Key (auth_public_key auth))) with
               | Err e => (r, Err (NetworkData e))
               | Ok _ => let '(r, res) := apply_op r (ed_edit op) in (r, map_err NetworkData res)
               end
           end
       end.

Fixpoint apply_log (log : list RegisterCmd) (r : Register) : result StError Register :=
  match log with
  | [] => Ok r
  | cmd :: log =>
      match apply_cmd cmd r with
      | (_, Err e) => Err e
      | (r, Ok _) => apply_log log r
      end
  end.

Definition try_to_apply_cmd_against_register_state (cmd : RegisterCmd) (st : StoredRegister)
    : StoredRegister * result StError unit :=
  let push st := mkStored (stored_state st) (op_log st ++ [cmd]) (op_log_path st) in
  match stored_state st, cmd with
  | Some _, CmdCreate _ _ _ => (st, Ok ())
  | Some r, CmdEdit _ _ =>
      match apply_cmd cmd r with
      | (r, Err e) => (mkStored (Some r) (op_log st) (op_log_path st), Err e)
      | (r, Ok _) => (push (mkStored (Some r) (op_log st) (op_log_path st)), Ok ())
      end
  | None, CmdCreate op auth _ =>
      match verify_cmd_auth auth (bincode_serialize op) with
      | Err e => (st, Err e)
      | Ok _ =>
          match apply_log (op_log st)
                  (Register.new (owner (cr_policy op)) (cr_name op) (cr_tag op) (cr_policy op)) with
          | Err e => (st, Err e)
          | Ok r => (push (mkStored (Some r) (op_log st) (op_log_path st)), Ok ())
          end
      end
  | None, CmdEdit _ _ => (push st, Ok ())
  end.

(** Only the edits of the log, with no signature or permission check. *)
Fixpoint replay (log : list RegisterCmd) (r : Register) : result StError Register :=
  match log with
  | [] => Ok r
  | CmdEdit op _ :: log =>
      match apply_op r (ed_edit op) with
      | (_, Err e) => Err (NetworkData e)
      | (r, Ok _) => replay log r
      end
  | CmdCreate _ _ _ :: log => replay log r
  end.

Definition try_load_stored_register (s : DataStorage) (a : RegisterAddress) : result StError StoredRegister :=
  st ← open_reg_log_from_disk s a;
  match stored_state st with
  | None => Ok st
  | Some r => r ← replay (op_log st) r; Ok (mkStored (Some r) (op_log st) (op_log_path st))
  end.

(** ** Register storage *)

Record ReplicatedRegisterLog := mkRegLog { log_address : RegisterAddress; log_ops : list RegisterCmd }.

Definition get_register_replica (s : DataStorage) (a : RegisterAddress) : result StError ReplicatedRegisterLog :=
  st ← try_load_stored_register s a; Ok (mkRegLog a (op_log st)).

(** The commands of a replicated log that apply, in order, and the state after them. *)
Fixpoint accept_log (ops : list RegisterCmd) (st : StoredRegister) : StoredRegister * list RegisterCmd :=
  match ops with
  | [] => (st, [])
  | cmd :: ops =>
      match try_to_apply_cmd_against_register_state cmd st with
      | (st, Err _) => accept_log ops st
      | (st, Ok _) => let '(st, log) := accept_log ops st in (st, cmd :: log)
      end
  end.

Definition update_registers (s : DataStorage) (d : ReplicatedRegisterLog)
    : DataStorage * result StError StorageLevel :=
  match try_load_stored_register s (log_address d) with
  | Err e => (s, Err e)
  | Ok st => let '(st, log) := accept_log (log_ops d) st in write_log_to_disk s log (op_log_path st)
  end.

Definition write_register (s : DataStorage) (cmd : RegisterCmd) : DataStorage * result StError StorageLevel :=
  match try_load_stored_register s (dst_address cmd) with
  | Err e => (s, Err e)
  | Ok st =>
      match try_to_apply_cmd_against_register_state cmd st with
      | (_, Err e) => (s, Err e)
      | (st, Ok _) => write_log_to_disk s [cmd] (op_log_path st)
      end
  end.

Definition get_register (s : DataStorage) (a : RegisterAddress) (action : Action) (requester : User)
    : result StError Register :=
  st ← try_load_stored_register s a;
  match stored_state st with
  | Some r => _ ← map_err NetworkData (check_permissions r action (Some requester)); Ok r
  | None => Err (RegisterNotFound a)
  end.

Inductive NodeQueryResponse (Share : Type) :=
  | RespGetChunk (r : result ErrorMsg Chunk)
  | RespGetRegister (r : result ErrorMsg Register)
  | RespReadRegister (r : result ErrorMsg (gset (Hash bytes * bytes)))
  | RespGetRegisterOwner (r : result ErrorMsg User)
  | RespGetRegisterEntry (r : result ErrorMsg bytes)
  | RespGetRegisterPolicy (r : result ErrorMsg Policy)
  | RespGetRegisterUserPermissions (r : result ErrorMsg Permissions)
  | RespGetSpentProofShares (r : result ErrorMsg (list Share))
  | RespGetFees (r : result ErrorMsg unit).
Arguments RespGetChunk {Share} r.
Arguments RespGetRegister {Share} r.
Arguments RespReadRegister {Share} r.
Arguments RespGetRegisterOwner {Share} r.
Arguments RespGetRegisterEntry {Share} r.
Arguments RespGetRegisterPolicy {Share} r.
Arguments RespGetRegisterUserPermissions {Share} r.
Arguments RespGetSpentProofShares {Share} r.
Arguments RespGetFees {Share} r.

(** [rmp_serde::from_slice] of a stored spent proof share. *)
Context (Share : Type) (decode_share : bytes → option Share) {OE : Ord (Hash bytes * bytes)}.

Definition read_registers (s : DataStorage) (q : RegisterQuery) (requester : User) : NodeQueryResponse Share :=
  match q with
  | QGet a => RespGetRegister (map_err st_error_msg (get_register s a Read requester))
  | QRead a => RespReadRegister (map_err st_error_msg (reg_read <$> get_register s a Read requester))
  | QGetOwner a => RespGetRegisterOwner (map_err st_error_msg (reg_owner <$> get_register s a Read requester))
  | QGetEntry a h => RespGetRegisterEntry (map_err st_error_msg
      (r ← get_register s a Read requester; map_err NetworkData (reg_get r h)))
  | QGetPolicy a => RespGetRegisterPolicy (map_err st_error_msg (policy <$> get_register s a Read requester))
  | QGetUserPermissions a u => RespGetRegisterUserPermissions (map_err st_error_msg
      (r ← get_register s a Read requester; map_err NetworkData (reg_permissions r u)))
  end.

(** ** The data storage *)

Definition SPENTBOOK_TYPE_TAG : Z := 0.

(** The spentbook register is created on the fly, signed by the node itself and with a
    section signature over a fixed text. *)
Definition write_spentbook_register (s : DataStorage) (cmd : RegisterCmd) (section_pk node_pk : ClientKey)
    (node_sign : bytes → ClientSignature) (todo_sig : SectionSig) : DataStorage * result StError StorageLevel :=
  let a := dst_address cmd in
  let p := mkPolicy (Key section_pk) {[Anyone := mkPermissions (Some true)]} in
  let op := mkCreate (ra_name a) SPENTBOOK_TYPE_TAG p in
  match bincode_serialize op with
  | None => (s, Err BincodeError)
  | Some bs =>
      let create_cmd := CmdCreate op (mkClientAuth node_pk (node_sign bs)) todo_sig in
      update_registers s (mkRegLog a [create_cmd; cmd])
  end.

Inductive ReplicatedData :=
  | ReplChunk (c : Chunk)
  | ReplRegisterWrite (c : RegisterCmd)
  | ReplRegisterLog (l : ReplicatedRegisterLog)
  | ReplSpentbookWrite (c : RegisterCmd)
  | ReplSpentbookLog (l : ReplicatedRegisterLog).

Definition store (s : DataStorage) (d : ReplicatedData) (section_pk node_pk : ClientKey)
    (node_sign : bytes → ClientSignature) (todo_sig : SectionSig) : DataStorage * result StError StorageLevel :=
  match d with
  | ReplChunk c => store_chunk s c
  | ReplRegisterLog l => update_registers s l
  | ReplRegisterWrite c => write_register s c
  | ReplSpentbookWrite c => write_spentbook_register s c section_pk node_pk node_sign todo_sig
  | ReplSpentbookLog l => update_registers s l
  end.

Inductive DataQuery :=
  | GetChunkQuery (n : XorName)
  | RegQuery (q : RegisterQuery)
  | GetSpentProofSharesQuery (n : XorName)
  | GetFeesQuery (n : XorName).

Definition query (s : DataStorage) (q : DataQuery) (requester : User) : NodeQueryResponse Share :=
  match q with
  | GetChunkQuery n => RespGetChunk (map_err st_error_msg (get_chunk s n))
  | RegQuery q => read_registers s q requester
  | GetSpentProofSharesQuery n =>
      match read_registers s (QGet (mkRegisterAddress n SPENTBOOK_TYPE_TAG)) requester with
      | RespGetRegister (Err (MsgDataNotFound _)) => RespGetSpentProofShares (Ok [])
      | RespGetRegister r =>
          RespGetSpentProofShares
            ((λ r, omap (λ e : Hash bytes * bytes, decode_share e.2) (bset_iter (reg_read r))) <$> r)
      | other => other
      end
  | GetFeesQuery n => RespGetFees (Err (MsgDataNotFound (SpentbookAddr n)))
  end.

Definition get_from_local_store (s : DataStorage) (a : DataAddress) : result StError ReplicatedData :=
  match a with
  | BytesAddr n => ReplChunk <$> get_chunk s n
  | RegisterAddr a => ReplRegisterLog <$> get_register_replica s a
  | SpentbookAddr n => ReplSpentbookLog <$> get_register_replica s (mkRegisterAddress n SPENTBOOK_TYPE_TAG)
  | other => Err (UnsupportedDataType other)
  end.

Definition remove (s : DataStorage) (a : DataAddress) : DataStorage * result StError unit :=
  match a with
  | BytesAddr n => remove_chunk s n
  | RegisterAddr a => delete_data s a
  | SpentbookAddr n => delete_data s (mkRegisterAddress n SPENTBOOK_TYPE_TAG)
  | other => (s, Err (UnsupportedDataType other))
  end.

Definition chunk_addrs (s : DataStorage) : list XorName := (map_to_list (chunk_files s)).*1.
Definition data_addrs (s : DataStorage) : list DataAddress :=
  (BytesAddr <$> chunk_addrs s) ++ (RegisterAddr <$> list_all_reg_addrs s).

(** The two cleanup tasks, one after the other; failures are only logged. *)
Definition try_retain_data_of (s : DataStorage) (prefix : Prefix) : DataStorage :=
  if has_reached_min_capacity (used s) then
    let s := foldl (λ s n, (remove_chunk s n).1) s
               (filter (λ n, px_matches prefix n = false) (chunk_addrs s)) in
    foldl (λ s a, (delete_data s a).1) s
      (filter (λ a, px_matches prefix (ra_name a) = false) (list_all_reg_addrs s))
  else s.
End storage.
