(* ===== verification/StorageProps.v ===== *)
(** * Properties of the data storage *)

From S2P Require Import Prelude External Xor NodeState SectionsDag Sap Keys Register RegisterProps UsedSpace.
From S2P Require Import Storage.

Section props.
Context {B : Bls} {BSh : BlsShares} {BPS : BlsPublicShares} {E : Ed25519} {X : Xor} {Cfg : Settings}.
Context {M : Merkle bytes} {ML : MerkleLaws bytes} (from_content : bytes → XorName).
Context {BA : Bincode RegisterAddress} {BC : Bincode CreateRegister} {BE : Bincode EditRegister}.
Context (CmdId : Type) `{Countable CmdId} (register_operation_id : RegisterCmd → option CmdId).
Context (cmd_size : Z) (list_files : gmap CmdId RegisterCmd → list RegisterCmd).

(** Names are collision-free hashes of the content, a listing gives every file of a
    directory once, and commands with the same id are the same. *)
Class StorageLaws : Prop := {
  from_content_inj : Inj (=) (=) from_content;
  list_files_perm files : list_files files ≡ₚ (map_to_list files).*2;
  operation_id_inj c c' id :
    register_operation_id c = Some id → register_operation_id c' = Some id → c = c';
}.
Context {SL : StorageLaws}.

Abbreviation DataStorage := (DataStorage CmdId).
Abbreviation write_cmd := (write_register_cmd CmdId register_operation_id cmd_size).
Abbreviation write_all := (write_cmds CmdId register_operation_id cmd_size).
Abbreviation write_log := (write_log_to_disk CmdId register_operation_id cmd_size).
Abbreviation open_log := (open_reg_log_from_disk from_content CmdId list_files).
Abbreviation load := (try_load_stored_register from_content CmdId list_files).
Abbreviation write_register := (write_register from_content CmdId register_operation_id cmd_size list_files).
Abbreviation update_registers := (update_registers from_content CmdId register_operation_id cmd_size list_files).
Abbreviation delete_data := (delete_data from_content CmdId).
Abbreviation path_of := (address_to_filepath from_content).
Implicit Types (s : DataStorage) (c : RegisterCmd) (a : RegisterAddress) (path n : XorName).

(** ** Chunks *)

(** Every chunk file holds the content its name is the hash of. *)
Definition chunks_ok s : Prop := map_Forall (λ n bs, from_content bs = n) (chunk_files CmdId s).

(** A stored chunk is read back with its content, other chunks are not affected,
    and a chunk is stored only if the space for it does not exceed the maximal
    capacity. *)
Theorem store_then_get s v s' level n :
  chunks_ok s → store_chunk CmdId s (chunk_new from_content v) = (s', Ok level) →
  chunks_ok s' ∧
  get_chunk from_content CmdId s' (from_content v) = Ok (chunk_new from_content v) ∧
  (n ≠ from_content v → get_chunk from_content CmdId s' n = get_chunk from_content CmdId s n) ∧
  (s' = s ∨ can_add (used CmdId s) (Z.of_nat (length v)) = true ∧
            used_space (used CmdId s') = wrap64 (used_space (used CmdId s) + Z.of_nat (length v))).
Proof.
  intros Hok. unfold store_chunk, get_chunk. simpl. case_decide as Hex.
  - intros [= <- <-]. split; [done|]. split; [|by split; [|left]].
    destruct Hex as [bs Hbs]. rewrite Hbs.
    apply Hok in Hbs as Hc. apply from_content_inj in Hc as ->. simpl. by rewrite decide_True.
  - destruct (can_add _ _) eqn:Hadd; [|done].
    pose proof (increase_capacity (used CmdId s) (Z.of_nat (length v))) as (_ & _ & Hu).
    destruct (increase _ _) as [u lvl]. intros [= <- <-]. simpl in *. split_and!.
    + by apply map_Forall_insert_2.
    + rewrite lookup_insert_eq. by rewrite decide_True.
    + intros Hn. by rewrite lookup_insert_ne.
    + by right.
Qed.

(** ** Removal *)

Lemma remove_chunk_Some s x bs :
  chunk_files CmdId s !! x = Some bs →
  reg_dirs CmdId (remove_chunk CmdId s x).1 = reg_dirs CmdId s ∧
  chunk_files CmdId (remove_chunk CmdId s x).1 = delete x (chunk_files CmdId s).
Proof. intros Hbs. unfold remove_chunk. by rewrite Hbs. Qed.

Lemma foldl_remove_chunks s l :
  NoDup l → Forall (λ n, is_Some (chunk_files CmdId s !! n)) l →
  let s' := foldl (λ s n, (remove_chunk CmdId s n).1) s l in
  reg_dirs CmdId s' = reg_dirs CmdId s ∧
  ∀ n, chunk_files CmdId s' !! n = if decide (n ∈ l) then None else chunk_files CmdId s !! n.
Proof.
  clear SL ML.
  revert s. induction l as [|x l IH]; intros s Hnd Hf; cbn [foldl].
  { split; [done|]. intros n. rewrite decide_False; [done|]. apply not_elem_of_nil. }
  apply NoDup_cons in Hnd as [Hx Hnd]. apply Forall_cons in Hf as [[bs Hbs] Hf].
  destruct (IH (remove_chunk CmdId s x).1) as [Hr Hl]; [done| |].
  { apply Forall_forall. intros y Hy. rewrite (proj2 (remove_chunk_Some s x bs Hbs)).
    rewrite lookup_delete_ne by (intros ->; done). rewrite Forall_forall in Hf. by apply Hf. }
  destruct (remove_chunk_Some s x bs Hbs) as [Hrd Hcf]. rewrite Hrd in Hr. split; [done|].
  intros n. rewrite Hl, Hcf, lookup_delete. destruct (decide (n ∈ l)).
  - by rewrite decide_True by set_solver.
  - case_decide; subst; [by rewrite decide_True by set_solver|by rewrite decide_False by set_solver].
Qed.

Lemma delete_data_unchanged s a : ∃ e, delete_data s a = (s, Err e).
Proof.
  clear SL ML.
  unfold Storage.delete_data, reg_metadata. destruct (path_of a) as [path|e]; [|eauto].
  destruct (reg_dirs CmdId s !! path); simpl; eauto.
Qed.

Lemma foldl_delete_unchanged s l : foldl (λ s a, (delete_data s a).1) s l = s.
Proof.
  clear SL ML.
  induction l as [|a l IH]; [done|]. simpl. by destruct (delete_data_unchanged s a) as [e ->].
Qed.

(** A stored register can never be removed: the deletion calls [remove_file] on the
    directory of the register, so it fails and leaves the storage unchanged. *)
Theorem register_removal_fails s a : ∃ e, delete_data s a = (s, Err e).
Proof. apply delete_data_unchanged. Qed.

(** The cleanup for a prefix, once the minimal capacity is reached, removes exactly
    the chunks outside the prefix; every register stays, whatever its name. *)
Theorem cleanup_removes_only_chunks s prefix :
  let s' := try_retain_data_of from_content CmdId list_files s prefix in
  reg_dirs CmdId s' = reg_dirs CmdId s ∧
  chunk_files CmdId s' =
    if has_reached_min_capacity (used CmdId s)
    then filter (λ e : XorName * bytes, px_matches prefix e.1 = true) (chunk_files CmdId s)
    else chunk_files CmdId s.
Proof.
  clear SL ML.
  unfold try_retain_data_of. destruct (has_reached_min_capacity _); [|done]. cbn zeta.
  rewrite foldl_delete_unchanged.
  destruct (foldl_remove_chunks s (filter (λ n, px_matches prefix n = false) (chunk_addrs CmdId s)))
    as [Hr Hl].
  - apply NoDup_filter, NoDup_fst_map_to_list.
  - apply Forall_forall. intros n [_ Hn]%list_elem_of_filter.
    apply list_elem_of_fmap in Hn as ([n' bs] & -> & Hn%elem_of_map_to_list). eauto.
  - split; [done|]. apply map_eq. intros n. rewrite Hl, map_lookup_filter.
    destruct (chunk_files CmdId s !! n) as [bs|] eqn:Hn; cbn; [|by destruct (decide _)].
    assert (n ∈ chunk_addrs CmdId s) as Hin.
    { apply list_elem_of_fmap. exists (n, bs). split; [done|]. by apply elem_of_map_to_list. }
    destruct (px_matches prefix n) eqn:Hp.
    + rewrite decide_False; [by rewrite option_guard_True|]. rewrite list_elem_of_filter. intros [? _]. congruence.
    + rewrite decide_True by (by apply list_elem_of_filter). by rewrite option_guard_False.
Qed.

(** ** Writing commands *)

(** The files of a register. *)
Definition reg_files s path : gmap CmdId RegisterCmd := default ∅ (reg_dirs CmdId s !! path).

(** Every file is named by the id of its command. *)
Definition files_ok s : Prop :=
  ∀ path id c, reg_files s path !! id = Some c → register_operation_id c = Some id.

Lemma write_cmd_files s c path s' r :
  write_cmd s c path = (s', r) → files_ok s →
  files_ok s' ∧ chunk_files CmdId s' = chunk_files CmdId s ∧
  (∀ q, q ≠ path → reg_files s' q = reg_files s q) ∧
  match r with
  | Ok _ => ∃ id, register_operation_id c = Some id ∧ reg_files s' path = <[id := c]> (reg_files s path)
  | Err _ => s' = s
  end.
Proof.
  unfold write_register_cmd. destruct (can_add _ _); simpl; [|by intros [= <- <-]].
  destruct (register_operation_id c) as [id|] eqn:Hid; [|by intros [= <- <-]].
  fold (reg_files s path). case_decide as Hex.
  - intros [= <- <-] Hok. split_and!; [done..|]. exists id. split; [done|]. destruct Hex as [c' Hc'].
    pose proof (Hok _ _ _ Hc') as Hc2. assert (c' = c) as -> by (by eapply operation_id_inj).
    by rewrite insert_id.
  - destruct (increase _ _) as [u lvl]. intros [= <- <-] Hok.
    assert (∀ q, reg_files (mkStorage CmdId (chunk_files CmdId s)
      (<[path := <[id := c]> (reg_files s path)]> (reg_dirs CmdId s)) u) q =
      if decide (q = path) then <[id := c]> (reg_files s path) else reg_files s q) as Hf.
    { intros q. unfold reg_files at 1. simpl. rewrite lookup_insert.
      case_decide; case_decide; subst; done. }
    split_and!; [|done| |].
    + intros q id' c'. rewrite Hf. case_decide; [|apply Hok].
      rewrite lookup_insert_Some. intros [[<- <-]|[_ ?]]; [done|]. by eapply Hok.
    + intros q Hq. by rewrite Hf, decide_False.
    + exists id. split; [done|]. by rewrite Hf, decide_True.
Qed.

Lemma write_one_files s c path s' level :
  write_log s [c] path = (s', Ok level) → files_ok s →
  ∃ id, register_operation_id c = Some id ∧ files_ok s' ∧
    reg_files s' path = <[id := c]> (reg_files s path) ∧ is_Some (reg_dirs CmdId s' !! path).
Proof.
  unfold write_log_to_disk. cbn [write_cmds].
  set (s0 := mkStorage CmdId (chunk_files CmdId s)
    (<[path := default ∅ (reg_dirs CmdId s !! path)]> (reg_dirs CmdId s)) (used CmdId s)).
  destruct (write_cmd s0 c path) as [s1 r] eqn:Hw. intros Hres Hok.
  assert (∀ q, reg_files s0 q = reg_files s q) as H0.
  { intros q. unfold reg_files, s0. simpl. rewrite lookup_insert. case_decide; by subst. }
  apply write_cmd_files in Hw as (Hok1 & _ & _ & Hr); cycle 1.
  { intros q id c'. rewrite H0. apply Hok. }
  destruct r as [l|e]; simpl in Hres; [|done]. injection Hres as <- <-.
  destruct Hr as (id & Hid & Hf). rewrite H0 in Hf. exists id. split_and!; [done..|].
  unfold reg_files in Hf. destruct (reg_dirs CmdId s1 !! path) as [f|] eqn:Hd; [eauto|].
  exfalso. simpl in Hf. assert ((∅ : gmap CmdId RegisterCmd) !! id = Some c) as He.
  { rewrite Hf. apply lookup_insert_eq. }
  by rewrite lookup_empty in He.
Qed.

Lemma open_log_files s a path :
  path_of a = Ok path →
  ∃ st, open_log s a = Ok st ∧ op_log_path st = path ∧
        (∀ c, c ∈ op_log st ↔ ∃ id, reg_files s path !! id = Some c) ∧
        stored_state st = head (omap created (op_log st)).
Proof.
  intros Hp. unfold open_reg_log_from_disk. rewrite Hp. cbn. unfold reg_files.
  destruct (reg_dirs CmdId s !! path) as [files|]; eexists; (split; [done|]); simpl.
  - split_and!; [done| |done]. intros c. rewrite list_files_perm, list_elem_of_fmap. split.
    + intros ([id c'] & -> & Hc%elem_of_map_to_list). eauto.
    + intros [id Hc]. exists (id, c). split; [done|]. by apply elem_of_map_to_list.
  - split_and!; [done| |done]. intros c. setoid_rewrite lookup_empty.
    split; [by intros ?%not_elem_of_nil|naive_solver].
Qed.

Lemma load_open s a st :
  load s a = Ok st →
  ∃ st0, open_log s a = Ok st0 ∧ op_log st = op_log st0 ∧ op_log_path st = op_log_path st0 ∧
         (stored_state st = None ↔ stored_state st0 = None).
Proof.
  unfold try_load_stored_register. intros (st0 & Ho & Hl)%result_bind_Ok. exists st0.
  destruct (stored_state st0) as [r|] eqn:Hs; [|by injection Hl as <-].
  by apply result_bind_Ok in Hl as (r' & _ & [= <-]).
Qed.

Lemma try_apply_path c st :
  op_log_path (try_to_apply_cmd_against_register_state c st).1 = op_log_path st.
Proof. unfold try_to_apply_cmd_against_register_state. repeat case_match; done. Qed.

Lemma write_register_Ok s c s' level :
  write_register s c = (s', Ok level) →
  ∃ st, load s (dst_address c) = Ok st ∧
    (try_to_apply_cmd_against_register_state c st).2 = Ok () ∧
    write_log s [c] (op_log_path st) = (s', Ok level).
Proof.
  unfold Storage.write_register. destruct (load s (dst_address c)) as [st|e]; [|done].
  pose proof (try_apply_path c st) as Hp.
  destruct (try_to_apply_cmd_against_register_state c st) as [st' [[]|e]] eqn:Ht; [|done].
  simpl in Hp. rewrite Hp. intros Hw. exists st. by rewrite Ht.
Qed.

(** An accepted register command is on disk: the log opened afterwards holds it, and
    all commands that were there before. *)
Theorem write_is_durable s c s' level st :
  files_ok s → open_log s (dst_address c) = Ok st →
  write_register s c = (s', Ok level) →
  files_ok s' ∧ ∃ st', open_log s' (dst_address c) = Ok st' ∧
    c ∈ op_log st' ∧ ∀ c', c' ∈ op_log st → c' ∈ op_log st'.
Proof.
  intros Hok Hopen (st1 & Hl & _ & Hw)%write_register_Ok.
  apply load_open in Hl as (st0 & Ho & _ & Hp1 & _). rewrite Hopen in Ho. injection Ho as <-.
  destruct (path_of (dst_address c)) as [path|e] eqn:Hp; cycle 1.
  { unfold open_reg_log_from_disk in Hopen. by rewrite Hp in Hopen. }
  destruct (open_log_files s _ _ Hp) as (st0 & Ho & Hpath & Hlog & _).
  rewrite Hopen in Ho. injection Ho as <-. rewrite Hp1, Hpath in Hw.
  destruct (write_one_files s c _ s' level Hw Hok) as (id & Hid & Hok' & Hf & _).
  split; [done|]. destruct (open_log_files s' _ _ Hp) as (st' & Ho' & _ & Hlog' & _).
  exists st'. split; [done|]. split.
  - apply Hlog'. exists id. rewrite Hf. apply lookup_insert_eq.
  - intros c' [id' Hc']%Hlog. apply Hlog'. rewrite Hf. destruct (decide (id = id')) as [<-|Hne].
    + exists id. rewrite lookup_insert_eq. f_equal. pose proof (Hok _ _ _ Hc').
      by eapply operation_id_inj.
    + exists id'. by rewrite lookup_insert_ne.
Qed.

(** ** Authorisation *)

Lemma apply_cmd_edit op auth r r' :
  apply_cmd (CmdEdit op auth) r = (r', Ok ()) →
  ed_address op = address r ∧
  verify_cmd_auth auth (bincode_serialize op) = Ok () ∧
  check_permissions r Write (Some (Key (auth_public_key auth))) = Ok () ∧
  apply_op r (ed_edit op) = (r', Ok ()).
Proof.
  unfold apply_cmd. cbn [dst_address]. case_decide as Ha; [done|].
  destruct (verify_cmd_auth _ _) as [[]|]; [|done].
  destruct (check_permissions r Write (Some (Key (auth_public_key auth)))) as [[]|]; [|done].
  destruct (apply_op r (ed_edit op)) as [r1 [[]|]]; intros; by simplify_eq/=.
Qed.

(** C29: a node accepts an edit of a register it holds only with authority: the command
    is signed by the key it names, the policy lets that key write, and the operation
    fits the register; it is then what the stored state applies. *)
Theorem edit_needs_authority s op auth s' level st r :
  load s (ed_address op) = Ok st → stored_state st = Some r →
  write_register s (CmdEdit op auth) = (s', Ok level) →
  (∃ bs, bincode_serialize op = Some bs ∧
         key_verify (auth_public_key auth) (auth_signature auth) bs = Ok ()) ∧
  is_action_allowed (policy r) (Key (auth_public_key auth)) Write = Ok () ∧
  op_ok (address r) (ed_edit op) ∧ reg_size r < MAX_REG_NUM_ENTRIES.
Proof.
  intros Hl Hs (st1 & Hl1 & Hap & _)%write_register_Ok. simpl in Hl1. rewrite Hl in Hl1.
  injection Hl1 as <-. unfold try_to_apply_cmd_against_register_state in Hap. rewrite Hs in Hap.
  destruct (apply_cmd (CmdEdit op auth) r) as [r' [[]|e]] eqn:Ha; [|done].
  apply apply_cmd_edit in Ha as (_ & Hv & Hp & Ho). apply apply_op_Ok_inv in Ho.
  split; [|by split]. unfold verify_cmd_auth, verify_authority in Hv.
  destruct (bincode_serialize op) as [bs|]; [|done]. exists bs. split; [done|]. cbn in Hv.
  by destruct (key_verify _ _ _) as [[]|].
Qed.

(** ** Unverified edits *)

Lemma apply_log_fails log c r :
  c ∈ log → (∀ r, ∃ r' e, apply_cmd c r = (r', Err e)) → ∃ e, apply_log log r = Err e.
Proof.
  intros Hin Hc. revert r. induction log as [|x log IH]; intros r; [by apply not_elem_of_nil in Hin|].
  simpl. apply elem_of_cons in Hin as [<-|Hin].
  - destruct (Hc r) as (r' & e & ->). eauto.
  - destruct (apply_cmd x r) as [r' [[]|e]]; [by apply IH|eauto].
Qed.

(** An edit whose signature is invalid is accepted and stored when the register is
    not known yet; from then on every command that creates the register is refused, with
    the storage unchanged, because the stored edit cannot be applied. *)
Theorem invalid_edit_blocks_creation s op auth s' level st e :
  files_ok s → open_log s (ed_address op) = Ok st → op_log st = [] →
  verify_cmd_auth auth (bincode_serialize op) = Err e →
  write_register s (CmdEdit op auth) = (s', Ok level) →
  ∀ cop cauth csig, dst_address (CmdCreate cop cauth csig) = ed_address op →
    ∃ e', write_register s' (CmdCreate cop cauth csig) = (s', Err e').
Proof.
  intros Hok Hopen Hempty Hinv (st1 & Hl1 & _ & Hw)%write_register_Ok cop cauth csig Hdst.
  apply load_open in Hl1 as (st0 & Ho & _ & Hpath & _). simpl in Ho. rewrite Hopen in Ho.
  injection Ho as <-. destruct (path_of (ed_address op)) as [path|] eqn:Hp; cycle 1.
  { unfold open_reg_log_from_disk in Hopen. by rewrite Hp in Hopen. }
  destruct (open_log_files s _ _ Hp) as (st2 & Ho & Hpath2 & Hlog & _).
  rewrite Hopen in Ho. injection Ho as <-. rewrite Hpath, Hpath2 in Hw.
  destruct (write_one_files s _ _ s' level Hw Hok) as (id & _ & Hok' & Hf & _).
  assert (reg_files s path = ∅) as Hf0.
  { apply map_empty. intros i. apply eq_None_not_Some. intros [c' Hc'].
    apply (not_elem_of_nil c'). rewrite <-Hempty. apply Hlog. eauto. }
  destruct (open_log_files s' _ _ Hp) as (st' & Ho' & Hpath' & Hlog' & Hst').
  assert (∀ c, c ∈ op_log st' ↔ c = CmdEdit op auth) as Hc.
  { intros c. rewrite Hlog', Hf, Hf0. setoid_rewrite lookup_insert_Some. setoid_rewrite lookup_empty.
    naive_solver. }
  assert (stored_state st' = None) as Hnone.
  { rewrite Hst'. destruct (omap created (op_log st')) as [|r l] eqn:Hom; [done|]. exfalso.
    assert (r ∈ omap created (op_log st')) as Hr by (rewrite Hom; left).
    apply list_elem_of_omap in Hr as (c & ->%Hc & Hcr). done. }
  unfold Storage.write_register, try_load_stored_register. rewrite Hdst, Ho'. cbn. rewrite Hnone.
  unfold try_to_apply_cmd_against_register_state. rewrite Hnone.
  destruct (verify_cmd_auth cauth _) as [[]|e']; [|eauto].
  destruct (apply_log_fails (op_log st') (CmdEdit op auth)
    (Register.new (owner (cr_policy cop)) (cr_name cop) (cr_tag cop) (cr_policy cop))) as (e' & ->).
  - by apply Hc.
  - intros r. unfold apply_cmd. rewrite Hinv. case_decide; eauto.
  - eauto.
Qed.

(** ** Reconstruction *)

Definition edits (log : list RegisterCmd) : list CrdtOperation :=
  omap (λ c, match c with CmdEdit op _ => Some (ed_edit op) | CmdCreate _ _ _ => None end) log.

Lemma replay_apply_ops log r :
  Forall (λ res, res = Ok ()) (apply_ops r (edits log)).2 → replay log r = Ok (apply_ops r (edits log)).1.
Proof.
  revert r. induction log as [|[op auth sig|op auth] log IH]; intros r Hf; [done|by apply IH|].
  simpl in Hf |- *. destruct (apply_op r (ed_edit op)) as [r1 res] eqn:Ha.
  specialize (IH r1). destruct (apply_ops r1 (edits log)) as [r2 rest]. simpl in Hf, IH.
  apply Forall_cons in Hf as [-> Hf]. simpl. by rewrite IH.
Qed.

(** The state of a register does not depend on the order in which its files are
    listed: two logs with the same commands, all edits for the register and within its
    limits, are replayed successfully and give the same readable entries. *)
Theorem replay_order_irrelevant r log1 log2 :
  log1 ≡ₚ log2 → Forall (op_ok (address r)) (edits log1) →
  reg_size r + length (edits log1) ≤ MAX_REG_NUM_ENTRIES →
  ∃ r1 r2, replay log1 r = Ok r1 ∧ replay log2 r = Ok r2 ∧
    reg_read r1 = reg_read r2 ∧ reg_size r1 = reg_size r2 ∧ ∀ h, reg_get r1 h = reg_get r2 h.
Proof.
  intros Hp Hok Hl. assert (edits log1 ≡ₚ edits log2) as He by (by apply omap_Permutation).
  destruct (replicas_converge_aux r r (edits log1) (edits log2)) as (Hf & Hr); [done..| |done|done| |].
  - intros op. by rewrite He.
  - by rewrite <-He.
  - apply Forall_app in Hf as [Hf1 Hf2].
    exists (apply_ops r (edits log1)).1, (apply_ops r (edits log2)).1.
    split; [by apply replay_apply_ops|]. split; [by apply replay_apply_ops|done].
Qed.
(** ** Space *)

(** The bytes of all chunk files and the number of all command files. *)
Definition chunk_bytes s : nat := map_sum length (chunk_files CmdId s).
Definition cmd_count s : nat := map_sum size (reg_dirs CmdId s).
Definition stored_space s : Z := (Z.of_nat (chunk_bytes s) + cmd_size * Z.of_nat (cmd_count s))%Z.

(** The tracked space is the stored one, modulo the width of the counter. *)
Definition accounted s : Prop := used_space (used CmdId s) = wrap64 (stored_space s).

Lemma wrap64_add x y : wrap64 (wrap64 x + y) = wrap64 (x + y).
Proof. unfold wrap64. apply Zplus_mod_idemp_l. Qed.
Lemma wrap64_sub x y : wrap64 (wrap64 x - y) = wrap64 (x - y).
Proof. unfold wrap64. apply Zminus_mod_idemp_l. Qed.

Lemma write_cmd_accounted s c path s' r :
  accounted s → write_cmd s c path = (s', r) → accounted s'.
Proof.
  intros Ha. unfold write_register_cmd. destruct (can_add _ _); simpl; [|by intros [= <- _]].
  destruct (register_operation_id c) as [id|]; [|by intros [= <- _]].
  case_decide as Hex; [by intros [= <- _]|].
  pose proof (increase_capacity (used CmdId s) cmd_size) as (_ & _ & Hu).
  destruct (increase _ _) as [u lvl]. intros [= <- _]. unfold accounted, stored_space. simpl in Hu |- *.
  rewrite Hu, Ha. unfold stored_space. rewrite wrap64_add. f_equal.
  unfold chunk_bytes, cmd_count. simpl. apply eq_None_not_Some in Hex.
  destruct (reg_dirs CmdId s !! path) as [files|] eqn:Hd; simpl in *.
  - pose proof (map_sum_insert size (reg_dirs CmdId s) path files (<[id := c]> files) Hd) as Hm.
    rewrite map_size_insert_None in Hm by done. lia.
  - rewrite map_sum_insert_fresh by done. rewrite map_size_insert_None, map_size_empty by done. lia.
Qed.

Lemma write_all_accounted s log path lvl err s' r :
  accounted s → write_all s log path lvl err = (s', r) → accounted s'.
Proof.
  revert s lvl err. induction log as [|c log IH]; intros s lvl err Ha; cbn [write_cmds].
  { by intros [= <- _]. }
  destruct (write_cmd s c path) as [s1 [l|e]] eqn:Hw; apply write_cmd_accounted in Hw; eauto.
Qed.

Lemma write_log_accounted s log path s' r :
  accounted s → write_log s log path = (s', r) → accounted s'.
Proof.
  intros Ha. unfold write_log_to_disk. destruct log as [|c log]; [by intros [= <- _]|].
  apply write_all_accounted. unfold accounted, stored_space, chunk_bytes, cmd_count in *. simpl.
  rewrite Ha. do 3 f_equal. destruct (reg_dirs CmdId s !! path) as [files|] eqn:Hd; simpl.
  - by rewrite insert_id.
  - rewrite map_sum_insert_fresh by done. by rewrite map_size_empty.
Qed.

(** The tracked space is always the bytes of the stored chunks plus the estimate for
    every stored command, whatever sequence of chunk stores and removals, register
    writes and register updates, failed or not, has run. *)
Theorem space_is_accounted s :
  accounted s →
  (∀ chunk, accounted (store_chunk CmdId s chunk).1) ∧
  (∀ n, accounted (remove_chunk CmdId s n).1) ∧
  (∀ c, accounted (write_register s c).1) ∧
  (∀ d, accounted (update_registers s d).1).
Proof.
  intros Ha. split_and!.
  - intros chunk. unfold store_chunk. case_decide as Hex; [done|]. destruct (can_add _ _); [|done].
    pose proof (increase_capacity (used CmdId s) (Z.of_nat (length (ch_value chunk)))) as (_ & _ & Hu).
    cbn [negb]. destruct (increase _ _) as [u lvl]. unfold accounted, stored_space in *.
    simpl in Hu |- *. rewrite Hu, Ha, wrap64_add. f_equal. unfold chunk_bytes, cmd_count. simpl.
    rewrite map_sum_insert_fresh by (by apply eq_None_not_Some). lia.
  - intros n. unfold remove_chunk. destruct (chunk_files CmdId s !! n) as [bs|] eqn:Hn; [|done].
    unfold accounted, stored_space in *. simpl. rewrite Ha, wrap64_sub. f_equal.
    unfold chunk_bytes, cmd_count. simpl. rewrite (map_sum_delete length _ n bs Hn). lia.
  - intros c. unfold Storage.write_register. destruct (load s _) as [st|]; [|done].
    destruct (try_to_apply_cmd_against_register_state c st) as [st' []]; [|done].
    destruct (write_log s [c] _) as [s' r] eqn:Hw. by eapply write_log_accounted.
  - intros d. unfold Storage.update_registers. destruct (load s _) as [st|]; [|done].
    destruct (accept_log (log_ops d) st) as [st' log].
    destruct (write_log s log _) as [s' r] eqn:Hw. by eapply write_log_accounted.
Qed.
End props.

(** ** Witnesses

    User 1 creates a register and edits it; user 2 sends an edit with a bad signature. *)

Module StorageDemo.
Import External.Concrete Xor.ConcreteXor RegisterDemo.

Fixpoint pos_bits (p : positive) : list bool :=
  match p with
  | xH => []
  | xO p => false :: pos_bits p
  | xI p => true :: pos_bits p
  end.
Lemma pos_bits_inj p q : pos_bits p = pos_bits q → p = q.
Proof.
  revert q. induction p as [p IH|p IH|]; intros [q|q|] Hb; simpl in Hb; try discriminate Hb; try done;
    injection Hb as Hb; f_equal; auto.
Qed.
Definition demo_content (bs : bytes) : XorName (Xor := concrete_xor) := pos_bits (encode bs).

#[export] Instance bincode_address : Bincode (RegisterAddress (X := concrete_xor)) := λ a,
  Some (ra_tag a :: ((λ b : bool, if b then 1%Z else 0%Z) <$> (ra_name a : list bool))).
#[export] Instance bincode_create : Bincode (CreateRegister (X := concrete_xor)) := λ c, Some [1; cr_tag c]%Z.
#[export] Instance bincode_edit : Bincode (EditRegister (X := concrete_xor)) := λ e,
  Some (2 :: ra_tag (ed_address e) :: node_value (crdt_op (ed_edit e)))%Z.
#[export] Instance demo_settings : Settings := 7.

Definition ed_key (n : nat) : ClientKey (E := concrete_ed) := KeyEd25519 (n : EdPublicKey).
Abbreviation Cmd := (RegisterCmd (X := concrete_xor)).
Definition create_op : CreateRegister := mkCreate [true; false] 7 (mkPolicy (user 1) ∅).
Definition create_auth : ClientAuth := mkClientAuth (ed_key 1) (SigEd25519 ((1, [1; 7]%Z) : EdSignature)).
Definition paid_sig : SectionSig (B := concrete_bls) := mkSectionSig 1 (1, []).
Definition demo_create : Cmd := CmdCreate create_op create_auth paid_sig.
Definition demo_edit_op : EditRegister := mkEdit demo_address (demo_op [5%Z]).
Definition demo_auth (n : nat) : ClientAuth :=
  mkClientAuth (ed_key 1) (SigEd25519 ((n, [2; 7; 5]%Z) : EdSignature)).
Definition demo_edit : Cmd := CmdEdit demo_edit_op (demo_auth 1).
Definition forged_edit : Cmd := CmdEdit demo_edit_op (demo_auth 2).

(** The ids of the three commands. *)
Definition demo_id (c : Cmd) : option nat :=
  if decide (c = demo_create) then Some 0
  else if decide (c = demo_edit) then Some 1
  else if decide (c = forged_edit) then Some 2 else None.
Definition demo_list (files : gmap nat Cmd) : list Cmd := (map_to_list files).*2.

#[export] Instance demo_laws : StorageLaws demo_content nat demo_id demo_list.
Proof.
  split.
  - intros a b Hab%pos_bits_inj. by apply (inj encode) in Hab.
  - done.
  - intros c c' id. unfold demo_id. repeat case_decide; intros; simplify_eq; done.
Qed.

Definition empty_storage : DataStorage nat := mkStorage nat ∅ ∅ (used_space_new 1000 2000).
Abbreviation demo_write := (write_register demo_content nat demo_id 10 demo_list).
Abbreviation demo_load := (try_load_stored_register demo_content nat demo_list).
Abbreviation demo_open := (open_reg_log_from_disk demo_content nat demo_list).

Definition accepted_write (s : DataStorage nat) (c : Cmd) : bool := is_ok (demo_write s c).2.
Lemma accepted_write_Ok s c :
  accepted_write s c = true → ∃ s' l, demo_write s c = (s', Ok l).
Proof. unfold accepted_write. destruct (demo_write s c) as [s' [l|]]; [eauto|done]. Qed.

Lemma empty_files_ok : files_ok nat demo_id empty_storage.
Proof. intros path id c. unfold reg_files. simpl. by rewrite !lookup_empty. Qed.
Lemma empty_open : demo_open empty_storage demo_address =
  Ok (mkStored None [] (demo_content (default [] (bincode_serialize demo_address)))).
Proof. reflexivity. Qed.
Lemma empty_accounted : accounted nat 10 empty_storage.
Proof. vm_compute. reflexivity. Qed.

Lemma store_then_get_witness :
  ∃ s' l, store_chunk nat empty_storage (chunk_new demo_content [1%Z; 2%Z]) = (s', Ok l) ∧
    get_chunk demo_content nat s' (demo_content [1%Z; 2%Z]) = Ok (chunk_new demo_content [1%Z; 2%Z]).
Proof.
  destruct (store_chunk nat empty_storage (chunk_new demo_content [1%Z; 2%Z])) as [s' [l|e]] eqn:Hs;
    [|apply (f_equal (λ x, is_ok x.2)) in Hs; vm_compute in Hs; discriminate Hs].
  exists s', l. split; [reflexivity|].
  apply (store_then_get demo_content nat demo_id demo_list empty_storage [1%Z; 2%Z] s' l []);
    [apply map_Forall_empty|exact Hs].
Defined.

Lemma write_is_durable_witness :
  ∃ s' l st', demo_write empty_storage demo_create = (s', Ok l) ∧
    demo_open s' demo_address = Ok st' ∧ demo_create ∈ op_log st'.
Proof.
  destruct (accepted_write_Ok empty_storage demo_create) as (s' & l & Hw); [vm_compute; reflexivity|].
  destruct (write_is_durable demo_content nat demo_id 10 demo_list empty_storage demo_create s' l _
    empty_files_ok empty_open Hw) as (_ & st' & Ho & Hin & _).
  exists s', l, st'. split; [exact Hw|]. split; [exact Ho|exact Hin].
Defined.

Definition created_storage : DataStorage nat := (demo_write empty_storage demo_create).1.

Lemma edit_needs_authority_witness :
  ∃ st r, demo_load created_storage demo_address = Ok st ∧ stored_state st = Some r ∧
    is_action_allowed (policy r) (user 1) Write = Ok ().
Proof.
  assert (match demo_load created_storage demo_address with
          | Ok st => bool_decide (is_Some (stored_state st)) | Err _ => false end = true) as Hb
    by (vm_compute; reflexivity).
  destruct (demo_load created_storage demo_address) as [st|e] eqn:Hl; [|discriminate Hb].
  apply bool_decide_eq_true in Hb as [r Hr]. exists st, r. split; [reflexivity|]. split; [exact Hr|].
  destruct (accepted_write_Ok created_storage demo_edit) as (s' & l & Hw); [vm_compute; reflexivity|].
  apply (edit_needs_authority demo_content nat demo_id 10 demo_list created_storage demo_edit_op
    (demo_auth 1) s' l st r Hl Hr Hw).
Defined.

Lemma forged_invalid :
  verify_cmd_auth (demo_auth 2) (bincode_serialize demo_edit_op) = Err (StInvalidSignature (ed_key 1)).
Proof.
  assert (is_ok (verify_authority (demo_auth 2) [2; 7; 5]%Z) = false) as Hv by (vm_compute; reflexivity).
  unfold verify_cmd_auth. change (bincode_serialize demo_edit_op) with (Some [2; 7; 5]%Z).
  cbn [ok_or mbind result_bind]. destruct (verify_authority _ _); [discriminate Hv|reflexivity].
Qed.

Lemma invalid_edit_blocks_creation_witness :
  ∃ s' l e, demo_write empty_storage forged_edit = (s', Ok l) ∧ demo_write s' demo_create = (s', Err e).
Proof.
  destruct (accepted_write_Ok empty_storage forged_edit) as (s' & l & Hw); [vm_compute; reflexivity|].
  destruct (invalid_edit_blocks_creation demo_content nat demo_id 10 demo_list empty_storage demo_edit_op
    (demo_auth 2) s' l _ (StInvalidSignature (ed_key 1)) empty_files_ok empty_open
    eq_refl forged_invalid Hw create_op create_auth paid_sig eq_refl) as (e & He).
  exists s', l, e. split; [exact Hw|exact He].
Defined.

Lemma replay_order_irrelevant_witness :
  ∃ r1 r2, replay [demo_create; demo_edit; forged_edit] demo_register = Ok r1 ∧
    replay [demo_edit; forged_edit; demo_create] demo_register = Ok r2 ∧ reg_read r1 = reg_read r2.
Proof.
  destruct (replay_order_irrelevant demo_register [demo_create; demo_edit; forged_edit]
    [demo_edit; forged_edit; demo_create]) as (r1 & r2 & H1 & H2 & Hr & _).
  - apply (Permutation_app_comm [demo_create] [demo_edit; forged_edit]).
  - repeat constructor; simpl; unfold MAX_REG_ENTRY_SIZE; lia.
  - rewrite demo_size. unfold MAX_REG_NUM_ENTRIES. simpl. lia.
  - exists r1, r2. split; [exact H1|]. split; [exact H2|exact Hr].
Defined.

Lemma space_is_accounted_witness :
  accounted nat 10 (demo_write empty_storage demo_create).1.
Proof.
  destruct (space_is_accounted demo_content nat demo_id 10 demo_list empty_storage empty_accounted)
    as (_ & _ & Hw & _). exact (Hw demo_create).
Defined.
End StorageDemo.

(** * Spentbooks on the nodes that hold them

    A spentbook is a register with one entry per share of a spent proof.  What its files hold
    is what can be read from it, and a share that was written is found from then on. *)

Section spentbook.
Context {B : Bls} {BSh : BlsShares} {BPS : BlsPublicShares} {E : Ed25519} {X : Xor} {Cfg : Settings}.
Context {M : Merkle bytes} {ML : MerkleLaws bytes} (from_content : bytes → XorName).
Context {BA : Bincode RegisterAddress} {BC : Bincode CreateRegister} {BE : Bincode EditRegister}.
Context (CmdId : Type) `{Countable CmdId} (register_operation_id : RegisterCmd → option CmdId).
Context (cmd_size : Z) (list_files : gmap CmdId RegisterCmd → list RegisterCmd).
Context {SL : StorageLaws from_content CmdId register_operation_id list_files}.

Abbreviation DataStorage := (DataStorage CmdId).
Abbreviation load := (try_load_stored_register from_content CmdId list_files).
Abbreviation write_log := (write_log_to_disk CmdId register_operation_id cmd_size).
Abbreviation path_of := (address_to_filepath from_content).
Abbreviation files := (reg_files CmdId).
Implicit Types (s : DataStorage) (c : RegisterCmd) (a : RegisterAddress) (path : XorName).

(** ** What a spentbook holds *)

(** The permissions with which spentbooks are created: anyone may write. *)
Definition open_permissions : gmap User Permissions := {[Anyone := mkPermissions (Some true)]}.

(** A command for the spentbook: its creation with open permissions, or an entry without
    children. *)
Definition spent_cmd a c : Prop :=
  dst_address c = a ∧
  match c with
  | CmdCreate op _ _ => permissions (cr_policy op) = open_permissions
  | CmdEdit op _ => op_ok a (ed_edit op) ∧ node_children (crdt_op (ed_edit op)) = ∅
  end.

Record spentbook_ok s a path : Prop := {
  sb_path : path_of a = Ok path;
  sb_files : files_ok CmdId register_operation_id s;
  sb_cmds : ∀ id c, files s path !! id = Some c → spent_cmd a c;
  sb_created : files s path = ∅ ∨ ∃ id op auth sig, files s path !! id = Some (CmdCreate op auth sig);
}.

Lemma apply_ops_policy r ops : policy (apply_ops r ops).1 = policy r.
Proof.
  revert r. induction ops as [|op ops IH]; intros r; simpl; [done|].
  assert (policy (apply_op r op).1 = policy r) as Hp.
  { unfold apply_op. destruct (check_entry_and_reg_sizes _ _); [|done]. by destruct (crdt_apply_op _ _). }
  destruct (apply_op r op) as [r1 res]. specialize (IH r1). destruct (apply_ops r1 ops). simpl in *. congruence.
Qed.
Lemma new_known u n t p : reg_known (Register.new u n t p) = ∅.
Proof. unfold reg_known, mr_known. simpl. by rewrite mr_new_dag, mr_new_orphans, (left_id_L ∅ (∪)). Qed.

Lemma op_nodes_size ops : size (op_nodes ops) ≤ length ops.
Proof.
  rewrite <-(size_dom (D := gset (Hash bytes))), op_nodes_dom. etrans; [apply size_list_to_set_le|]. by rewrite length_fmap.
Qed.

Lemma edits_length log c : c ∈ log → created c ≠ None → length (edits log) < length log.
Proof.
  assert (∀ log, length (edits log) ≤ length log) as Hle.
  { intros l. induction l as [|[] l IH]; simpl; lia. }
  induction log as [|x log IH]; [by intros ?%not_elem_of_nil|]. intros [<-|Hin]%elem_of_cons Hc.
  - destruct c; [|done]. simpl. pose proof (Hle log). lia.
  - specialize (IH Hin Hc). destruct x; simpl; lia.
Qed.

Lemma head_omap_created log c : c ∈ log → created c ≠ None → ∃ c' r, c' ∈ log ∧ created c' = Some r ∧ head (omap created log) = Some r.
Proof.
  induction log as [|x log IH]; [by intros ?%not_elem_of_nil|]. intros Hin Hc. simpl.
  destruct (created x) as [r|] eqn:Hx; [exists x, r; split_and!; [left|done..]|].
  apply elem_of_cons in Hin as [<-|Hin]; [done|]. destruct (IH Hin Hc) as (c' & r & ? & ? & ?).
  exists c', r. split; [by right|done].
Qed.

Lemma elem_of_edits log op : op ∈ edits log ↔ ∃ eop auth, CmdEdit eop auth ∈ log ∧ ed_edit eop = op.
Proof.
  unfold edits. rewrite list_elem_of_omap. split.
  - intros ([|eop auth] & Hin & He); simplify_eq. eauto.
  - intros (eop & auth & Hin & <-). by exists (CmdEdit eop auth).
Qed.

(** Loading a spentbook that exists. *)
Lemma load_spentbook s a path :
  spentbook_ok s a path → files s path ≠ ∅ → size (files s path) ≤ MAX_REG_NUM_ENTRIES →
  ∃ log r, load s a = Ok (mkStored (Some r) log path) ∧ address r = a ∧ permissions (policy r) = open_permissions ∧
    reg_known r = op_nodes (edits log) ∧ reg_size r < MAX_REG_NUM_ENTRIES ∧
    ∀ c, c ∈ log ↔ ∃ id, files s path !! id = Some c.
Proof.
  intros [Hp Hok Hcmds Hcr] Hne Hsz. destruct Hcr as [?|(id0 & op0 & auth0 & sig0 & Hcr)]; [done|].
  unfold try_load_stored_register, open_reg_log_from_disk. rewrite Hp. cbn.
  unfold reg_files in *. destruct (reg_dirs CmdId s !! path) as [fs|]; [|done]. cbn in *.
  set (log := list_files fs).
  assert (∀ c, c ∈ log ↔ ∃ id, fs !! id = Some c) as Hlog.
  { intros c. unfold log. rewrite (list_files_perm from_content CmdId register_operation_id list_files), list_elem_of_fmap. split.
    - intros ([id c'] & -> & Hc%elem_of_map_to_list). eauto.
    - intros [id Hc]. exists (id, c). split; [done|]. by apply elem_of_map_to_list. }
  assert (length log = size fs) as Hlen.
  { unfold log. rewrite (list_files_perm from_content CmdId register_operation_id list_files), length_fmap. by rewrite length_map_to_list. }
  assert (CmdCreate op0 auth0 sig0 ∈ log) as Hin0 by (apply Hlog; eauto).
  destruct (head_omap_created log _ Hin0 ltac:(done)) as (c1 & r0 & Hin1 & Hc1 & ->). cbn.
  destruct c1 as [op1 auth1 sig1|]; [|done]. injection Hc1 as <-.
  apply Hlog in Hin1 as [id1 Hin1]. destruct (Hcmds _ _ Hin1) as [Ha1 Hp1].
  assert (length (edits log) < length log) as Hed by (by eapply edits_length).
  set (r1 := Register.new _ _ _ _).
  assert (address r1 = a) as Har by exact Ha1.
  assert (reg_known r1 = ∅) as Hnew by apply new_known.
  destruct (apply_ops_known r1 (edits log)) as (Hf & Hra & Hk).
  - rewrite Har. apply Forall_forall. intros op (eop & auth & Hin & <-)%elem_of_edits.
    apply Hlog in Hin as [id Hin]. by destruct (Hcmds _ _ Hin) as [_ [? _]].
  - rewrite Hnew, (left_id_L ∅ (∪)). pose proof (op_nodes_size (edits log)). lia.
  - rewrite reg_size_known, Hnew, map_size_empty. lia.
  - exists log, (apply_ops r1 (edits log)).1. rewrite replay_apply_ops by done. cbn.
    rewrite Hnew, (left_id_L ∅ (∪)) in Hk. split_and!; [done|congruence| |done| |done].
    + by rewrite apply_ops_policy.
    + rewrite reg_size_known, Hk. pose proof (op_nodes_size (edits log)). lia.
Qed.

Lemma load_empty s a path : spentbook_ok s a path → files s path = ∅ → load s a = Ok (mkStored None [] path).
Proof.
  intros Hsb He. unfold try_load_stored_register, open_reg_log_from_disk. rewrite (sb_path _ _ _ Hsb). cbn.
  unfold reg_files in He. destruct (reg_dirs CmdId s !! path) as [fs|]; [|done]. cbn in He. subst fs.
  assert (list_files ∅ = []) as ->; [|done]. apply Permutation_nil_r.
  rewrite (list_files_perm from_content CmdId register_operation_id list_files). by rewrite map_to_list_empty.
Qed.

(** All entries are readable: none replaces another. *)
Lemma spentbook_reads r ops h v :
  reg_known r = op_nodes ops → Forall (λ op, node_children (crdt_op op) = ∅) ops →
  (h, v) ∈ reg_read r ↔ ∃ op, op ∈ ops ∧ h = node_hash (crdt_op op) ∧ v = node_value (crdt_op op).
Proof.
  intros Hk Hch. rewrite Forall_forall in Hch.
  assert (∀ h n, reg_known r !! h = Some n ↔ ∃ op, op ∈ ops ∧ h = node_hash (crdt_op op) ∧ n = crdt_op op) as Hnodes.
  { intros h' n. rewrite Hk. split.
    - intros (op & [= -> ->] & Hin)%elem_of_list_to_map_2%list_elem_of_fmap. eauto.
    - intros (op & Hin & -> & ->).
      assert (is_Some (op_nodes ops !! node_hash (crdt_op op))) as [n' Hn'].
      { apply elem_of_dom. rewrite op_nodes_dom, elem_of_list_to_set. apply list_elem_of_fmap. eauto. }
      rewrite Hn'. f_equal. apply node_hash_inj. symmetry. by apply (op_nodes_hashed ops). }
  assert (∀ h n, mr_dag (data (crdt r)) !! h = Some n ↔ reg_known r !! h = Some n) as Hdag.
  { intros h' n. split; [apply mr_dag_known|]. intros Hn. apply mr_known_dag; [done|]. apply grounded_intro with n; [done|].
    apply Hnodes in Hn as (op & Hin & _ & ->). rewrite (Hch _ Hin). by intros c ?%elem_of_empty. }
  rewrite elem_of_reg_read. split.
  - intros (n & -> & (op & Hin & -> & ->)%Hdag%Hnodes & _). eauto.
  - intros (op & Hin & -> & ->). exists (crdt_op op). split; [done|]. split; [apply Hdag, Hnodes; eauto|].
    intros h' n' (op' & Hin' & _ & ->)%Hdag%Hnodes. rewrite (Hch _ Hin'). apply not_elem_of_empty.
Qed.

(** ** Writing *)

Lemma write_two_files s c1 c2 path s' level :
  write_log s [c1; c2] path = (s', Ok level) → files_ok CmdId register_operation_id s →
  ∃ id1 id2, register_operation_id c1 = Some id1 ∧ register_operation_id c2 = Some id2 ∧
    files_ok CmdId register_operation_id s' ∧ files s' path = <[id2 := c2]> (<[id1 := c1]> (files s path)).
Proof.
  unfold write_log_to_disk. cbn [write_cmds].
  set (s0 := mkStorage CmdId (chunk_files CmdId s)
    (<[path := default ∅ (reg_dirs CmdId s !! path)]> (reg_dirs CmdId s)) (used CmdId s)).
  assert (∀ q, files s0 q = files s q) as H0.
  { intros q. unfold reg_files, s0. simpl. rewrite lookup_insert. case_decide; by subst. }
  destruct (write_register_cmd CmdId register_operation_id cmd_size s0 c1 path) as [s1 r1] eqn:Hw1.
  destruct (write_register_cmd CmdId register_operation_id cmd_size s1 c2 path) as [s2 r2] eqn:Hw2.
  intros Hres Hok.
  apply (write_cmd_files from_content _ _ _ list_files) in Hw1 as (Hok1 & _ & _ & Hr1); [|intros q id c'; rewrite H0; apply Hok].
  apply (write_cmd_files from_content _ _ _ list_files) in Hw2 as (Hok2 & _ & _ & Hr2); [|done].
  destruct r1 as [l1|e1], r2 as [l2|e2]; simpl in Hres; rewrite ?Hw2 in Hres; simplify_eq/=.
  destruct Hr1 as (id1 & Hid1 & Hf1), Hr2 as (id2 & Hid2 & Hf2). exists id1, id2. rewrite H0 in Hf1.
  split; [done|]. split; [done|]. split; [done|]. by rewrite Hf2, Hf1.
Qed.

(** An edit that anyone may make, on the register of its address. *)
Lemma apply_open_edit r op auth :
  ed_address op = address r → op_ok (address r) (ed_edit op) → reg_size r < MAX_REG_NUM_ENTRIES →
  permissions (policy r) = open_permissions → verify_cmd_auth auth (bincode_serialize op) = Ok () →
  ∃ r', apply_cmd (CmdEdit op auth) r = (r', Ok ()).
Proof.
  intros Ha Hok Hsz Hperm Hv. unfold apply_cmd. cbn [dst_address]. rewrite decide_False by naive_solver. rewrite Hv.
  assert (check_permissions r Write (Some (Key (auth_public_key auth))) = Ok ()) as ->.
  { unfold check_permissions. cbn [default]. unfold is_action_allowed, is_action_allowed_by_user. rewrite Hperm.
    unfold open_permissions. rewrite lookup_singleton_ne by done. rewrite lookup_singleton_eq. cbn. by destruct (decide _). }
  destruct (apply_op_Ok r (ed_edit op) Hok Hsz) as (r' & -> & _). by exists r'.
Qed.

Section write.
Context (section_pk node_pk : ClientKey) (node_sign : bytes → ClientSignature) (todo_sig : SectionSig).
Context (node_signs : ∀ bs, key_verify node_pk (node_sign bs) bs = Ok ()).

Abbreviation write_spentbook s c := (write_spentbook_register from_content CmdId register_operation_id cmd_size list_files
  s c section_pk node_pk node_sign todo_sig).

Lemma node_auth bs : verify_cmd_auth (mkClientAuth node_pk (node_sign bs)) (Some bs) = Ok ().
Proof. unfold verify_cmd_auth, verify_authority. cbn. by rewrite node_signs. Qed.

(** Both the creation and the entry are accepted. *)
Lemma spentbook_accepts s a path st cop bs auth op :
  spentbook_ok s a path → size (files s path) ≤ MAX_REG_NUM_ENTRIES → load s a = Ok st →
  dst_address (CmdEdit op auth) = a → spent_cmd a (CmdEdit op auth) → verify_cmd_auth auth (bincode_serialize op) = Ok () →
  bincode_serialize cop = Some bs → mkRegisterAddress (cr_name cop) (cr_tag cop) = a →
  permissions (cr_policy cop) = open_permissions →
  let create := CmdCreate cop (mkClientAuth node_pk (node_sign bs)) todo_sig in
  op_log_path st = path ∧ (accept_log [create; CmdEdit op auth] st).2 = [create; CmdEdit op auth] ∧
  op_log_path (accept_log [create; CmdEdit op auth] st).1 = path.
Proof.
  intros Hsb Hsz Hl Hda [_ [Hok _]] Hv Hbs Hca Hperm create. cbn in Hda.
  destruct (decide (files s path = ∅)) as [He|Hne].
  - rewrite (load_empty s a path Hsb He) in Hl. injection Hl as <-.
    cbn [accept_log]. unfold create, try_to_apply_cmd_against_register_state. cbn [stored_state]. rewrite Hbs, node_auth.
    cbn [op_log apply_log op_log_path stored_state].
    destruct (apply_open_edit (Register.new (owner (cr_policy cop)) (cr_name cop) (cr_tag cop) (cr_policy cop)) op auth)
      as [r' Hap]; [by rewrite Hda|by rewrite <-Hca in Hok| |done|done|].
    { rewrite reg_size_known, new_known, map_size_empty. unfold MAX_REG_NUM_ENTRIES. lia. }
    rewrite Hap. done.
  - destruct (load_spentbook s a path Hsb Hne Hsz) as (log & r & Hl' & Har & Hpr & _ & Hrs & _).
    rewrite Hl in Hl'. injection Hl' as ->. cbn [accept_log]. unfold create, try_to_apply_cmd_against_register_state.
    cbn [stored_state op_log op_log_path].
    destruct (apply_open_edit r op auth) as [r' Hap]; [congruence|by rewrite Har|done..|]. by rewrite Hap.
Qed.

Lemma spentbook_write s a path op auth s' level :
  spentbook_ok s a path → size (files s path) + 2 ≤ MAX_REG_NUM_ENTRIES →
  spent_cmd a (CmdEdit op auth) → ra_tag a = SPENTBOOK_TYPE_TAG → verify_cmd_auth auth (bincode_serialize op) = Ok () →
  write_spentbook s (CmdEdit op auth) = (s', Ok level) →
  spentbook_ok s' a path ∧ size (files s' path) ≤ size (files s path) + 2 ∧
  (∃ id, files s' path !! id = Some (CmdEdit op auth)) ∧
  ∀ id c, files s path !! id = Some c → files s' path !! id = Some c.
Proof.
  intros Hsb Hsz Hcmd Htag Hv Hw. assert (dst_address (CmdEdit op auth) = a) as Hda by apply Hcmd.
  unfold write_spentbook_register in Hw. rewrite Hda in Hw. set (cop := mkCreate _ _ _) in Hw.
  destruct (bincode_serialize cop) as [bs|] eqn:Hbs; [|done]. unfold update_registers in Hw. cbn [log_address log_ops] in Hw.
  destruct (try_load_stored_register from_content CmdId list_files s a) as [st|] eqn:Hl; [|done].
  assert (mkRegisterAddress (cr_name cop) (cr_tag cop) = a) as Hca by (cbn; rewrite <-Htag; by destruct a).
  destruct (spentbook_accepts s a path st cop bs auth op) as (_ & Hlog & Hpath); [done|lia|done..|].
  set (create := CmdCreate cop (mkClientAuth node_pk (node_sign bs)) todo_sig) in *.
  destruct (accept_log _ st) as [st' log]. simpl in Hlog, Hpath. subst log. rewrite Hpath in Hw.
  apply write_two_files in Hw as (id1 & id2 & Hid1 & Hid2 & Hok' & Hf); [|apply Hsb].
  assert (∀ id c, files s path !! id = Some c → files s' path !! id = Some c) as Hkeep.
  { intros id c Hc. rewrite Hf. pose proof (sb_files _ _ _ Hsb _ _ _ Hc) as Hid.
    destruct (decide (id = id2)) as [->|Hne2].
    - rewrite lookup_insert_eq. f_equal. by eapply (operation_id_inj from_content CmdId register_operation_id list_files).
    - rewrite lookup_insert_ne by done. destruct (decide (id = id1)) as [->|Hne1].
      + rewrite lookup_insert_eq. f_equal. by eapply (operation_id_inj from_content CmdId register_operation_id list_files).
      + by rewrite lookup_insert_ne. }
  assert (id1 ≠ id2) as Hids.
  { intros ->. assert (create = CmdEdit op auth); [|done].
    by eapply (operation_id_inj from_content CmdId register_operation_id list_files). }
  split_and!.
  - split; [apply Hsb|done| |].
    + intros id c. rewrite Hf. intros [[<- <-]|[_ [[<- <-]|[_ Hc]]%lookup_insert_Some]]%lookup_insert_Some; [done| |by eapply sb_cmds].
      split; [done|]. done.
    + right. exists id1, cop, (mkClientAuth node_pk (node_sign bs)), todo_sig. rewrite Hf.
      by rewrite lookup_insert_ne, lookup_insert_eq.
  - rewrite Hf, !map_size_insert. destruct (_ !! id2), (_ !! id1); cbn; lia.
  - exists id2. by rewrite Hf, lookup_insert_eq.
  - done.
Qed.
End write.

(** ** Reading *)

(** A query gives the shares of all entries, and those only. *)
Lemma spentbook_query {Share : Type} (decode_share : bytes → option Share) {OE : Ord (Hash bytes * bytes)} s a path u :
  spentbook_ok s a path → size (files s path) ≤ MAX_REG_NUM_ENTRIES → ra_tag a = SPENTBOOK_TYPE_TAG →
  ∃ shares, query from_content CmdId list_files Share decode_share s (GetSpentProofSharesQuery (ra_name a)) u =
      RespGetSpentProofShares _ (Ok shares) ∧
    ∀ x, x ∈ shares ↔ ∃ id op auth, files s path !! id = Some (CmdEdit op auth) ∧
                        decode_share (node_value (crdt_op (ed_edit op))) = Some x.
Proof.
  intros Hsb Hsz Htag.
  assert (mkRegisterAddress (ra_name a) SPENTBOOK_TYPE_TAG = a) as Ha by (rewrite <-Htag; by destruct a).
  destruct (decide (files s path = ∅)) as [He|Hne].
  { unfold query, read_registers, get_register. rewrite Ha, (load_empty s a path Hsb He). exists []. split; [done|].
    intros x. rewrite He. setoid_rewrite lookup_empty. split; [by intros ?%not_elem_of_nil|naive_solver]. }
  destruct (load_spentbook s a path Hsb Hne Hsz) as (log & r & Hl & Har & _ & Hk & _ & Hlog).
  unfold query, read_registers, get_register. rewrite Ha, Hl. cbn. eexists. split; [done|].
  intros x. rewrite list_elem_of_omap. split.
  - intros ([h v] & Hin%elem_of_bset_iter & Hx). cbn in Hx.
    apply (spentbook_reads r (edits log) h v Hk) in Hin.
    + destruct Hin as (op & (eop & auth & Hin & <-)%elem_of_edits & _ & ->). apply Hlog in Hin as [id Hid]. eauto 10.
    + apply Forall_forall. intros op (eop & auth & Hc & <-)%elem_of_edits. apply Hlog in Hc as [id Hid].
      by destruct (sb_cmds _ _ _ Hsb _ _ Hid) as [_ [_ ?]].
  - intros (id & op & auth & Hid & Hx). exists (node_hash (crdt_op (ed_edit op)), node_value (crdt_op (ed_edit op))).
    split; [|done]. apply elem_of_bset_iter. apply (spentbook_reads r (edits log) _ _ Hk).
    + apply Forall_forall. intros op' (eop & auth' & Hc & <-)%elem_of_edits. apply Hlog in Hc as [id' Hid'].
      by destruct (sb_cmds _ _ _ Hsb _ _ Hid') as [_ [_ ?]].
    + exists (ed_edit op). split; [|done]. apply elem_of_edits. exists op, auth. split; [|done]. apply Hlog. eauto.
Qed.
End spentbook.
