(* ===== verification/Membership.v ===== *)
(** * Membership

    [sn_node/src/node/membership/mod.rs]: the voting rounds on membership changes, the
    section split and the choice of the next elders.

    [Consensus] of the crate [sn_consensus] is a parameter: one voting round, with the
    operations the code calls on it.  A vote names its generation and proposals. *)

From S2P Require Import Prelude External Xor NodeState SectionsDag Sap MemberHistory.

(** The answer to a vote. *)
Inductive VoteResponse (V : Type) :=
  | WaitingForMoreVotes
  | Broadcast (vote : V).
Arguments WaitingForMoreVotes {V}.
Arguments Broadcast {V} vote.

(** Voting on proposals of type [P] for a decision of type [D]. *)
Class ConsensusRounds {B : Bls} (P D : Type) := {
  Consensus : Type;
  SignedVote : Type;
  ConsensusError : Type;
  Faults : Type;
  con_elders : Consensus → PublicKeySet;
  con_restart : Consensus → Consensus;
  con_votes : Consensus → list SignedVote;
  con_faults : Consensus → Faults;
  con_decision : Consensus → option D;
  con_processed : Consensus → SignedVote → bool;
  con_handle_signed_vote :
    Consensus → SignedVote → Consensus * result ConsensusError (VoteResponse SignedVote);
  con_sign_propose : Consensus → nat → P → Faults → result ConsensusError SignedVote;
  con_cast_vote : Consensus → SignedVote → Consensus * result ConsensusError SignedVote;
  con_supermajority_vote : Consensus → nat → result ConsensusError SignedVote;
  vote_gen : SignedVote → nat;
  vote_proposals : SignedVote → list P;
  vote_valid_signature : SignedVote → PublicKeySet → result ConsensusError unit;
  vote_byzantine : SignedVote → Consensus → bool;
}.
Arguments Consensus {_} P D {_}.
Arguments SignedVote {_} P D {_}.
Arguments ConsensusError {_} P D {_}.

Section membership.
Context {B : Bls} {X : Xor} {Cfg : Settings} {Trigger : Type} `{Countable Trigger}.
Context {C : ConsensusDecision Trigger} {R : ConsensusRounds (NodeState Trigger) (Decision Trigger)} {OS : Ord (NodeState Trigger)}.

Abbreviation MemberConsensus := (Consensus (NodeState Trigger) (Decision Trigger)).
Abbreviation MemberVote := (SignedVote (NodeState Trigger) (Decision Trigger)).

Inductive MembershipError :=
  | ConsensusErr (e : ConsensusError (NodeState Trigger) (Decision Trigger))
  | BadGeneration (requested gen : nat)
  | InvalidGeneration (gen : nat)
  | RequestAntiEntropy
  | InvalidProposal
  | NetworkKnowledgeErr (e : Error).

(** ** Section split *)

Record DkgSessionId := mkSession {
  dkg_prefix : Prefix;
  dkg_elders : gmap XorName SocketAddr;
  dkg_section_chain_len : nat;
  dkg_bootstrap_members : gset (NodeState Trigger);
  dkg_membership_gen : nat;
}.

Definition get_split_info (prefix : Prefix) (members : gmap XorName (NodeState Trigger))
    : option (gset (NodeState Trigger) * gset (NodeState Trigger)) :=
  '(zero, one) ← partition_by_prefix prefix (bmap_iter members).*1;
  let split_threshold := recommended_section_size in
  if decide (size zero < split_threshold ∨ size one < split_threshold) then None
  else Some (list_to_set (omap (λ n, members !! n) (bset_iter zero)),
             list_to_set (omap (λ n, members !! n) (bset_iter one))).

(** Older nodes first, then current elders, then by name. *)
Definition cmp_elder_candidates (current : SectionAuthorityProvider Trigger) (lhs rhs : NodeState Trigger)
    : comparison :=
  match Z.compare (age rhs) (age lhs) with
  | Eq =>
      match contains_elder current (name lhs), contains_elder current (name rhs) with
      | true, false => Lt
      | false, true => Gt
      | _, _ => if decide (name lhs = name rhs) then Eq
                else if decide (ord_le (name lhs) (name rhs)) then Lt else Gt
      end
  | c => c
  end.
Definition candidate_le (current : SectionAuthorityProvider Trigger) : relation (NodeState Trigger) :=
  λ lhs rhs, cmp_elder_candidates current lhs rhs ≠ Gt.
#[export] Instance candidate_le_dec current : RelDecision (candidate_le current).
Proof. intros x y. unfold candidate_le. destruct (cmp_elder_candidates current x y); [left|left|right]; naive_solver. Defined.

Definition elder_candidates (candidates : gset (NodeState Trigger))
    (current_elders : SectionAuthorityProvider Trigger) : gset (NodeState Trigger) :=
  list_to_set (take elder_count (merge_sort (candidate_le current_elders) (bset_iter candidates))).

Definition session_elders (elders : gset (NodeState Trigger)) : gmap XorName SocketAddr :=
  list_to_map (reverse ((λ n, (name n, addr n)) <$> bset_iter elders)).

Definition try_split_dkg (members : gmap XorName (NodeState Trigger)) (sap : SectionAuthorityProvider Trigger)
    (section_chain_len membership_gen : nat) : option (DkgSessionId * DkgSessionId) :=
  let prefix := sap_prefix sap in
  '(zero, one) ← get_split_info prefix members;
  let zero_elders := elder_candidates zero sap in
  let one_elders := elder_candidates one sap in
  Some (mkSession (px_pushed prefix false) (session_elders zero_elders) section_chain_len zero membership_gen,
        mkSession (px_pushed prefix true) (session_elders one_elders) section_chain_len one membership_gen).

(** ** The rounds *)

Record Membership := mkMembership {
  consensus : MemberConsensus;
  bootstrap_members : gset (NodeState Trigger);
  gen : nat;
  history : gmap nat (Decision Trigger * MemberConsensus);
  last_received_vote_time : option nat;
}.

Definition membership_from (c : MemberConsensus) (bootstrap : gset (NodeState Trigger)) : Membership :=
  mkMembership c bootstrap 0 ∅ None.

Definition consensus_at_gen (m : Membership) (g : nat) : result MembershipError (MemberConsensus) :=
  if decide (g = gen m + 1) then Ok (consensus m)
  else snd <$> ok_or (history m !! g) (BadGeneration g (gen m)).

(** [consensus_at_gen_mut]: what becomes of the membership when that round changes. *)
Definition set_consensus_at_gen (m : Membership) (g : nat) (c : MemberConsensus) : Membership :=
  if decide (g = gen m + 1) then
    mkMembership c (bootstrap_members m) (gen m) (history m) (last_received_vote_time m)
  else mkMembership (consensus m) (bootstrap_members m) (gen m)
         (alter (λ e, (e.1, c)) g (history m)) (last_received_vote_time m).

Definition archived_names (m : Membership) : gset XorName :=
  list_to_set (name <$> filter (λ n, is_joined n = false) (bset_iter (bootstrap_members m))) ∪
  list_to_set (name <$> filter (λ n, is_joined n = false)
    (mjoin ((λ e, (dec_proposals e.2.1).*1) <$> bmap_iter (history m)))).

Fixpoint members_loop (members : gmap XorName (NodeState Trigger))
    (hist : list (nat * (Decision Trigger * MemberConsensus))) (g : nat)
    : result MembershipError (gmap XorName (NodeState Trigger)) :=
  match hist with
  | [] => Err (InvalidGeneration g)
  | (history_gen, (decision, _)) :: hist =>
      let members := apply_decision members decision in
      if decide (history_gen = g) then Ok members else members_loop members hist g
  end.

Definition section_members (m : Membership) (g : nat)
    : result MembershipError (gmap XorName (NodeState Trigger)) :=
  let members := joined_initial (bootstrap_members m) in
  if decide (g = 0) then Ok members else members_loop members (bmap_iter (history m)) g.

Fixpoint validate_states (proposals : list (NodeState Trigger)) (prefix : Prefix)
    (members : gmap XorName (NodeState Trigger)) (archived : gset XorName) : result MembershipError unit :=
  match proposals with
  | [] => Ok ()
  | n :: proposals =>
      match validate_node_state n prefix members archived with
      | Err e => Err (NetworkKnowledgeErr e)
      | Ok _ => validate_states proposals prefix members archived
      end
  end.

Definition already_decided (m : Membership) (v : MemberVote) : bool :=
  if decide (1 < vote_gen v) then
    match history m !! (vote_gen v - 1) with
    | Some (prev_decision, _) =>
        forallb (λ n, bool_decide (n ∈ (dec_proposals prev_decision).*1)) (vote_proposals v)
    | None => false
    end
  else false.

(** [vote.gen - 1] is only computed for a generation of a known round. *)
Definition validate_proposals (m : Membership) (v : MemberVote) (prefix : Prefix)
    : result MembershipError unit :=
  if already_decided m v then Err InvalidProposal
  else
    _ ← map_err ConsensusErr (vote_valid_signature v (con_elders (consensus m)));
    _ ← map_err (λ _, RequestAntiEntropy) (consensus_at_gen m (vote_gen v));
    members ← section_members m (vote_gen v - 1);
    validate_states (vote_proposals v) prefix members (archived_names m).

Definition cast_vote (m : Membership) (now : nat) (v : MemberVote)
    : Membership * result MembershipError MemberVote :=
  let '(c, r) := con_cast_vote (consensus m) v in
  (mkMembership c (bootstrap_members m) (gen m) (history m) (Some now), map_err ConsensusErr r).

Definition propose (m : Membership) (now : nat) (n : NodeState Trigger) (prefix : Prefix)
    : Membership * result MembershipError MemberVote :=
  match con_sign_propose (consensus m) (gen m + 1) n (con_faults (consensus m)) with
  | Err e => (m, Err (ConsensusErr e))
  | Ok v =>
      match validate_proposals m v prefix with
      | Err e => (m, Err e)
      | Ok _ => if vote_byzantine v (consensus m) then (m, Err InvalidProposal) else cast_vote m now v
      end
  end.

Fixpoint catchup_votes (hist : list (nat * (Decision Trigger * MemberConsensus)))
    : result MembershipError (list MemberVote) :=
  match hist with
  | [] => Ok []
  | (g, (_, c)) :: hist =>
      v ← map_err ConsensusErr (con_supermajority_vote c g);
      vs ← catchup_votes hist;
      Ok (v :: vs)
  end.
Definition anti_entropy (m : Membership) (from_gen : nat) : result MembershipError (list MemberVote) :=
  msgs ← catchup_votes (filter (λ e, from_gen ≤ e.1) (bmap_iter (history m)));
  Ok (msgs ++ con_votes (consensus m)).

Definition handle_signed_vote (m : Membership) (now : nat) (v : MemberVote) (prefix : Prefix)
    : Membership * result MembershipError (VoteResponse MemberVote * option (Decision Trigger)) :=
  match validate_proposals m v prefix with
  | Err e => (m, Err e)
  | Ok _ =>
      let vg := vote_gen v in
      let is_ongoing := bool_decide (vg = gen m + 1) in
      match consensus_at_gen m vg with
      | Err e => (m, Err e)
      | Ok c =>
          let is_fresh_vote := negb (con_processed c v) in
          let '(c, r) := con_handle_signed_vote c v in
          let m := set_consensus_at_gen m vg c in
          match r with
          | Err e => (m, Err (ConsensusErr e))
          | Ok response =>
              match con_decision c with
              | Some decision =>
                  if is_ongoing then
                    (mkMembership (con_restart (consensus m)) (bootstrap_members m) vg
                       (<[vg := (decision, consensus m)]> (history m)) None,
                     Ok (response, Some decision))
                  else (m, Ok (response, None))
              | None =>
                  if is_ongoing && is_fresh_vote then
                    (mkMembership (consensus m) (bootstrap_members m) (gen m) (history m) (Some now),
                     Ok (response, None))
                  else (m, Ok (response, None))
              end
          end
      end
  end.
End membership.
Arguments Membership {_ _} Trigger {_ _ _ _}.
Arguments DkgSessionId {_} Trigger {_ _}.
Arguments MembershipError {_ _} Trigger {_ _}.
