(* ===== verification/MembershipProps.v ===== *)
(** * Properties of the membership rounds

    Generations are decided one after the other and never change; the members of every
    generation agree with the history a node keeps from the decisions; a split and the
    choice of elders keep the promises of the section. *)

From S2P Require Import Prelude External Xor NodeState SectionsDag Sap MemberHistory.
From S2P Require Import MemberHistoryProps Membership.

Section props.
Context {B : Bls} {X : Xor} {XL : XorLaws} {Cfg : Settings} {Trigger : Type} `{Countable Trigger}.
Context {C : ConsensusDecision Trigger} {R : ConsensusRounds (NodeState Trigger) (Decision Trigger)} {OS : Ord (NodeState Trigger)}.
Implicit Types (m : Membership Trigger) (v : SignedVote (NodeState Trigger) (Decision Trigger)) (g : nat).

(** ** Generations *)

(** There is a decision for every generation up to the current one. *)
Definition gens_ok m : Prop := ∀ g, is_Some (history m !! g) ↔ 1 ≤ g ≤ gen m.

(** The decisions in the order of their generations. *)
Definition decided m : list (Decision Trigger) := (λ e, e.2.1) <$> bmap_iter (history m).

Lemma gens_keys m : gens_ok m → (bmap_iter (history m)).*1 = seq 1 (gen m).
Proof.
  intros Hg. apply (Sorted_unique le).
  - pose proof (bmap_iter_Sorted (history m)) as Hs. revert Hs.
    generalize (bmap_iter (history m)). induction 1 as [|[k x] l Hl IH Hd]; simpl; constructor; [done|].
    destruct Hd; simpl; constructor. done.
  - clear. generalize 1. induction (gen m) as [|n IH]; intros i; simpl; constructor; [done|].
    destruct n; simpl; constructor. lia.
  - apply NoDup_Permutation; [apply NoDup_bmap_iter|apply NoDup_seq|].
    intros g. rewrite elem_of_seq, list_elem_of_fmap. split.
    + intros ([g' x] & -> & Hx%elem_of_bmap_iter). simpl.
      assert (1 ≤ g' ≤ gen m) by (apply Hg; eauto). lia.
    + intros Hr. destruct (proj2 (Hg g)) as [x Hx]; [lia|]. exists (g, x).
      split; [done|]. by apply elem_of_bmap_iter.
Qed.

Lemma members_loop_spec hist i n members g :
  hist.*1 = seq (S i) n → i < g ≤ i + n →
  members_loop members hist g =
    Ok (foldl apply_decision members (take (g - i) ((λ e, e.2.1) <$> hist))).
Proof.
  revert i n members. induction hist as [|[k [d c]] hist IH]; intros i n members Hk Hg.
  { destruct n; [lia|done]. }
  destruct n as [|n]; [done|]. simpl in Hk. injection Hk as -> Hk. cbn [members_loop].
  case_decide as He.
  - subst. replace (S i - i) with 1 by lia. done.
  - rewrite (IH (S i) n); [|done|lia]. replace (g - i) with (S (g - S i)) by lia. done.
Qed.

Lemma section_members_spec m g :
  gens_ok m → g ≤ gen m →
  section_members m g = Ok (foldl apply_decision (joined_initial (bootstrap_members m)) (take g (decided m))).
Proof.
  intros Hg Hle. unfold section_members, decided. case_decide as H0; [by subst|].
  rewrite (members_loop_spec _ 0 (gen m)); [by rewrite Nat.sub_0_r|by apply gens_keys|lia].
Qed.

Lemma length_decided m : gens_ok m → length (decided m) = gen m.
Proof.
  intros Hg. unfold decided. rewrite length_fmap, <-(length_fmap fst), gens_keys by done.
  apply length_seq.
Qed.

(** The voting elders and the nodes that only follow the decisions agree on the
    members of every generation: with the same starting members and decisions, the
    members of a decided generation are those of the member history. *)
Theorem members_match_history m (h : SectionMemberHistory Trigger) g :
  gens_ok m → initial_members h = bootstrap_members m → decisions h = decided m → g ≤ gen m →
  section_members m g = Ok (members_at_gen h g).
Proof.
  intros Hg Hi Hd Hle. rewrite section_members_spec by done. unfold members_at_gen.
  rewrite decide_False, Hi, Hd; [done|]. rewrite Hd, length_decided by done. lia.
Qed.

Lemma consensus_at_gen_Ok m g c :
  gens_ok m → consensus_at_gen m g = Ok c → 1 ≤ g ≤ gen m + 1.
Proof.
  intros Hg. unfold consensus_at_gen. case_decide; [lia|].
  intros ([d c'] & Hh%ok_or_Ok & _)%result_fmap_Ok. assert (1 ≤ g ≤ gen m) by (apply Hg; eauto). lia.
Qed.

Lemma validate_states_error l prefix members archived e :
  validate_states l prefix members archived = Err e → ∃ e', e = NetworkKnowledgeErr e'.
Proof.
  induction l as [|n l IH]; simpl; [done|].
  destruct (validate_node_state _ _ _ _); [done|]. intros [= <-]. eauto.
Qed.

Lemma validate_proposals_inv m v prefix r :
  gens_ok m → validate_proposals m v prefix = r →
  match r with
  | Ok _ => 1 ≤ vote_gen v ≤ gen m + 1 ∧ ∃ c, consensus_at_gen m (vote_gen v) = Ok c
  | Err e => (∀ g, e ≠ InvalidGeneration g) ∧ ∀ g g', e ≠ BadGeneration g g'
  end.
Proof.
  intros Hg <-. unfold validate_proposals. destruct (already_decided m v); [done|].
  destruct (vote_valid_signature _ _) as [[]|]; [|done]. cbn.
  destruct (consensus_at_gen m (vote_gen v)) as [c|] eqn:Hc; [|done]. cbn.
  pose proof (consensus_at_gen_Ok m _ c Hg Hc) as Hr.
  rewrite section_members_spec by (done || lia). cbn.
  destruct (validate_states _ _ _ _) as [[]|e] eqn:Hv; [by eauto|].
  by apply validate_states_error in Hv as [e' ->].
Qed.

(** Decisions that were made stay. *)
Definition decisions_kept m m' : Prop :=
  ∀ g d c, history m !! g = Some (d, c) → ∃ c', history m' !! g = Some (d, c').

Lemma set_consensus_spec m g c :
  gen (set_consensus_at_gen m g c) = gen m ∧
  bootstrap_members (set_consensus_at_gen m g c) = bootstrap_members m ∧
  decisions_kept m (set_consensus_at_gen m g c) ∧
  ∀ g', is_Some (history (set_consensus_at_gen m g c) !! g') ↔ is_Some (history m !! g').
Proof.
  unfold set_consensus_at_gen, decisions_kept. case_decide; simpl; split_and!; try done; [eauto|..].
  - intros g' d c' Hh. rewrite lookup_alter. case_decide; subst; rewrite Hh; simpl; eauto.
  - intros g'. rewrite lookup_alter. case_decide; subst; [|done].
    destruct (history m !! g') as [[]|]; simpl; split; intros [? ?]; eauto; done.
Qed.

Lemma votes_decide_aux m now v prefix m' r :
  gens_ok m → handle_signed_vote m now v prefix = (m', r) →
  gens_ok m' ∧ bootstrap_members m' = bootstrap_members m ∧ decisions_kept m m' ∧
  match r with
  | Ok (_, Some d) => gen m' = gen m + 1 ∧ vote_gen v = gen m' ∧ fst <$> history m' !! gen m' = Some d
  | Ok (_, None) => gen m' = gen m
  | Err e => gen m' = gen m ∧ (∀ g, e ≠ InvalidGeneration g) ∧ ∀ g g', e ≠ BadGeneration g g'
  end.
Proof.
  intros Hg. unfold handle_signed_vote.
  assert (decisions_kept m m) as Hrefl by (intros ? ? ?; eauto).
  destruct (validate_proposals m v prefix) as [[]|e] eqn:Hv;
    apply (validate_proposals_inv _ _ _ _ Hg) in Hv; cycle 1.
  { intros [= <- <-]. done. }
  destruct Hv as (Hr & c & Hc). rewrite Hc. destruct (con_handle_signed_vote c v) as [c1 res].
  destruct (set_consensus_spec m (vote_gen v) c1) as (Hgen & Hboot & Hkept & Hdom).
  assert (gens_ok (set_consensus_at_gen m (vote_gen v) c1)) as Hg1.
  { intros g. by rewrite Hdom, Hgen. }
  set (m1 := set_consensus_at_gen m (vote_gen v) c1) in *.
  destruct res as [resp|e]; [|intros [= <- <-]; done].
  destruct (con_decision c1) as [d|].
  - case_bool_decide as Ho; [|intros [= <- <-]; done]. intros [= <- <-]. simpl. split_and!; try done.
    + intros g. simpl. rewrite lookup_insert. case_decide; [split; [lia|eauto]|]. rewrite Hdom, (Hg g). lia.
    + intros g d' c' Hh. simpl. rewrite lookup_insert_ne; [by eapply Hkept|].
      intros Heq. assert (1 ≤ g ≤ gen m) by (apply Hg; eauto). lia.
    + by rewrite lookup_insert_eq.
  - destruct (bool_decide _ && _); intros [= <- <-]; done.
Qed.

(** C33: the rounds are decided in order: handling a vote keeps one decision per
    generation, never changes a decision already made, and moves on by exactly one
    generation when it reports a decision, which is then the one of that generation;
    the lookups of generations never fail. *)
Theorem votes_decide_in_order m now v prefix m' r :
  gens_ok m → handle_signed_vote m now v prefix = (m', r) →
  gens_ok m' ∧ bootstrap_members m' = bootstrap_members m ∧ decisions_kept m m' ∧
  match r with
  | Ok (_, Some d) => gen m' = gen m + 1 ∧ vote_gen v = gen m' ∧ fst <$> history m' !! gen m' = Some d
  | Ok (_, None) => gen m' = gen m
  | Err e => gen m' = gen m ∧ (∀ g, e ≠ InvalidGeneration g) ∧ ∀ g g', e ≠ BadGeneration g g'
  end.
Proof. apply votes_decide_aux. Qed.

(** The decision of generation [i + 1]. *)
Lemma decided_lookup m i : gens_ok m → decided m !! i = fst <$> history m !! S i.
Proof.
  intros Hg. pose proof (gens_keys m Hg) as Hk. unfold decided. rewrite list_lookup_fmap.
  destruct (bmap_iter (history m) !! i) as [[k x]|] eqn:Hi; simpl.
  - assert ((bmap_iter (history m)).*1 !! i = Some k) as Hki by (by rewrite list_lookup_fmap, Hi).
    rewrite Hk in Hki. apply lookup_seq in Hki as [-> _]. apply list_elem_of_lookup_2, elem_of_bmap_iter in Hi.
    simpl in Hi. by rewrite Hi.
  - destruct (history m !! S i) as [x|] eqn:Hx; [|done].
    assert (1 ≤ S i ≤ gen m) by (apply Hg; eauto). apply lookup_ge_None in Hi.
    rewrite <-(length_fmap fst), Hk, length_seq in Hi. lia.
Qed.

(** A vote appends the decision it reports, if any. *)
Lemma decided_step m m' now v prefix r :
  gens_ok m → handle_signed_vote m now v prefix = (m', r) →
  decided m' = decided m ++ match r with Ok (_, Some d) => [d] | _ => [] end.
Proof.
  intros Hg Hv. destruct (votes_decide_aux _ _ _ _ _ _ Hg Hv) as (Hg' & _ & Hk & Hr).
  pose proof (length_decided m Hg) as Hl. pose proof (length_decided m' Hg') as Hl'.
  assert (take (gen m) (decided m') = decided m) as Ht.
  { apply list_eq. intros i. destruct (decide (i < gen m)) as [Hi|Hi].
    - rewrite lookup_take_lt, !decided_lookup by done. destruct (history m !! S i) as [[d c]|] eqn:Hd.
      + by destruct (Hk _ _ _ Hd) as [c' ->].
      + assert (is_Some (history m !! S i)) as [? ?] by (apply Hg; lia). congruence.
    - rewrite lookup_take_ge, lookup_ge_None_2 by lia. done. }
  rewrite <-(take_drop (gen m) (decided m')), Ht. f_equal.
  destruct r as [[response [d|]]|e]; [|apply drop_ge; lia..].
  destruct Hr as (Hgen & _ & Hd). apply list_eq. intros [|i]; rewrite lookup_drop.
  - rewrite decided_lookup, Nat.add_0_r by done. rewrite Hgen, Nat.add_1_r in Hd. exact Hd.
  - rewrite lookup_ge_None_2 by lia. done.
Qed.

(** ** Elders *)

#[local] Instance candidate_le_total current : Total (candidate_le (Trigger := Trigger) current).
Proof.
  intros x y. unfold candidate_le, cmp_elder_candidates. rewrite (Z.compare_antisym (age x) (age y)).
  destruct (Z.compare (age x) (age y)); simpl; [|by right|by left].
  destruct (contains_elder current (name x)), (contains_elder current (name y));
    try (by left); try (by right).
  all: repeat case_decide; try (by left); try (by right); try congruence.
  all: destruct (ord_le_total (name x) (name y)); done.
Qed.

Lemma candidate_le_age current (x y : NodeState Trigger) : candidate_le current x y → (age y ≤ age x)%Z.
Proof.
  unfold candidate_le, cmp_elder_candidates. destruct (Z.compare_spec (age y) (age x)); [lia|lia|done].
Qed.

Lemma sorted_by_age current (l : list (NodeState Trigger)) n x y :
  let s := merge_sort (candidate_le current) l in
  x ∈ take n s → y ∈ drop n s → (age y ≤ age x)%Z.
Proof.
  intros s Hx Hy. assert (StronglySorted (λ a b : NodeState Trigger, (age b ≤ age a)%Z) s) as Hs.
  { apply Sorted_StronglySorted; [intros a b c; lia|].
    assert (Sorted (candidate_le current) s) as Hc by apply (Sorted_merge_sort _).
    clear -Hc. induction Hc as [|a k Hk IH Hd]; constructor; [done|].
    destruct Hd; constructor. by eapply candidate_le_age. }
  rewrite <-(take_drop n s) in Hs. revert Hs Hx Hy. generalize (take n s) (drop n s).
  induction l0 as [|a l0 IH]; intros l1 Hs Hx Hy; [by apply not_elem_of_nil in Hx|].
  inversion Hs as [|? ? Hs' Hf]; subst. apply elem_of_cons in Hx as [->|Hx]; [|by eapply IH].
  rewrite Forall_forall in Hf. apply Hf, elem_of_app. by right.
Qed.

Lemma elders_are_oldest_aux (candidates : gset (NodeState Trigger)) current :
  let elders := elder_candidates candidates current in
  elders ⊆ candidates ∧ size elders = elder_count `min` size candidates ∧
  ∀ e n, e ∈ elders → n ∈ candidates → n ∉ elders → (age n ≤ age e)%Z.
Proof.
  intros elders. subst elders. unfold elder_candidates.
  set (s := merge_sort (candidate_le current) (bset_iter candidates)).
  assert (s ≡ₚ bset_iter candidates) as Hp by apply merge_sort_Permutation.
  assert (NoDup s) as Hnd by (rewrite Hp; apply NoDup_bset_iter).
  assert (∀ n, n ∈ s ↔ n ∈ candidates) as Hin by (intros n; rewrite Hp; apply elem_of_bset_iter).
  split_and!.
  - intros n Hn%elem_of_list_to_set. apply Hin. eapply elem_of_take in Hn as (i & Hi & _).
    by eapply list_elem_of_lookup_2.
  - rewrite size_list_to_set.
    + rewrite length_take, (Permutation_length Hp), length_bset_iter. done.
    + eapply sublist_NoDup; [done|apply sublist_take].
  - intros e n He%elem_of_list_to_set Hn Hno. rewrite elem_of_list_to_set in Hno.
    apply (sorted_by_age current (bset_iter candidates) elder_count); [done|].
    apply Hin in Hn. unfold s in *. rewrite <-(take_drop elder_count (merge_sort _ _)) in Hn.
    apply elem_of_app in Hn as [?|?]; done.
Qed.

(** The next elders are as many of the candidates as there are elder seats, and no
    candidate that was passed over is older than a chosen one. *)
Theorem elders_are_oldest (candidates : gset (NodeState Trigger)) current :
  let elders := elder_candidates candidates current in
  elders ⊆ candidates ∧ size elders = elder_count `min` size candidates ∧
  ∀ e n, e ∈ elders → n ∈ candidates → n ∉ elders → (age n ≤ age e)%Z.
Proof. apply elders_are_oldest_aux. Qed.

(** ** Splitting *)

(** Members filed under their names, which lie in the section and are longer than its
    prefix. *)
Definition section_wf (prefix : Prefix) (members : gmap XorName (NodeState Trigger)) : Prop :=
  map_Forall (λ nm n, nm = name n ∧ px_matches prefix nm = true ∧
                      px_bit_count prefix < length (xn_bits nm)) members.

Lemma matches_pushed prefix b nm :
  px_bit_count prefix < length (xn_bits nm) →
  px_matches (px_pushed prefix b) nm = true ↔
  px_matches prefix nm = true ∧ xn_bit nm (px_bit_count prefix) = b.
Proof.
  rewrite !px_matches_spec, px_pushed_spec, px_bit_count_spec, xn_bit_spec. intros Hlen. split.
  - intros [k Hk]. split; [exists (b :: k); by rewrite Hk, <-(assoc_L (++))|].
    by rewrite Hk, <-(assoc_L (++)), lookup_app_r, Nat.sub_diag.
  - intros [[k Hk] Hb]. rewrite Hk in Hlen, Hb. destruct k as [|x k].
    { rewrite app_nil_r in Hlen. lia. }
    rewrite lookup_app_r, Nat.sub_diag in Hb by done. simpl in Hb. subst. exists k.
    by rewrite Hk, <-(assoc_L (++)).
Qed.

Lemma omap_members (members : gmap XorName (NodeState Trigger)) (l : list XorName) :
  map_Forall (λ nm n, nm = name n) members → NoDup l → Forall (λ nm, is_Some (members !! nm)) l →
  NoDup (omap (λ nm, members !! nm) l) ∧ length (omap (λ nm, members !! nm) l) = length l ∧
  ∀ n, n ∈ omap (λ nm, members !! nm) l ↔ name n ∈ l ∧ members !! name n = Some n.
Proof.
  intros Hf Hnd Hs. assert (∀ n, n ∈ omap (λ nm, members !! nm) l ↔ name n ∈ l ∧ members !! name n = Some n) as Hin.
  { intros n. rewrite list_elem_of_omap. split.
    - intros (nm & Hnm & Hm). pose proof (Hf nm n Hm) as ->. done.
    - intros [? ?]. by exists (name n). }
  split_and!; [| |done]; clear Hin.
  - induction Hs as [|nm l [n Hn] Hs IH]; [constructor|]. apply NoDup_cons in Hnd as [Hnm Hnd].
    simpl. rewrite Hn. apply NoDup_cons. split; [|by apply IH].
    intros (nm' & Hnm' & Hm')%list_elem_of_omap.
    pose proof (Hf nm n Hn). pose proof (Hf nm' n Hm'). congruence.
  - induction Hs as [|nm l [n Hn] Hs IH]; [done|]. apply NoDup_cons in Hnd as [Hnm Hnd].
    cbn. rewrite Hn. cbn. f_equal. by apply IH.
Qed.

(** The half of the section with bit [b] after the prefix. *)
Definition half_ok (prefix : Prefix) (b : bool) (members : gmap XorName (NodeState Trigger))
    (half : gset (NodeState Trigger)) : Prop :=
  recommended_section_size ≤ size half ∧
  ∀ n, n ∈ half ↔ members !! name n = Some n ∧ px_matches (px_pushed prefix b) (name n) = true.

Lemma get_split_info_ok prefix (members : gmap XorName (NodeState Trigger)) zero one :
  section_wf prefix members → get_split_info prefix members = Some (zero, one) →
  half_ok prefix false members zero ∧ half_ok prefix true members one.
Proof.
  intros Hwf. unfold get_split_info, partition_by_prefix. case_decide; [|done]. simpl.
  set (l := filter (λ nm, px_matches prefix nm = true) (bmap_iter members).*1).
  assert (map_Forall (λ nm n, nm = name n) members) as Hf.
  { eapply map_Forall_impl; [exact Hwf|]. by intros nm n (? & _). }
  assert (∀ b half, half = list_to_set (filter (λ nm, xn_bit nm (px_bit_count prefix) = b) l) →
    recommended_section_size ≤ size half →
    half_ok prefix b members (list_to_set (omap (λ nm, members !! nm) (bset_iter half)))) as Hhalf.
  { intros b half Hh Hsz.
    assert (∀ nm, nm ∈ half ↔ is_Some (members !! nm) ∧ px_matches (px_pushed prefix b) nm = true) as Hin.
    { intros nm. rewrite Hh, elem_of_list_to_set. unfold l. rewrite !list_elem_of_filter, list_elem_of_fmap.
      split.
      - intros (Hb & Hm & [nm' n] & -> & Hn%elem_of_bmap_iter). simpl in *. split; [eauto|].
        apply matches_pushed; [|done]. by apply (Hwf nm' n Hn).
      - intros [[n Hn] Hm]. apply matches_pushed in Hm as [Hm Hb]; [|by apply (Hwf nm n Hn)].
        split_and!; [done..|]. exists (nm, n). split; [done|]. by apply elem_of_bmap_iter. }
    destruct (omap_members members (bset_iter half) Hf (NoDup_bset_iter half)) as (Hnd & Hlen & Hel).
    { apply Forall_forall. intros nm Hnm%elem_of_bset_iter. by apply Hin in Hnm as [? _]. }
    split; [rewrite size_list_to_set by done; by rewrite Hlen, length_bset_iter|].
    intros n. rewrite elem_of_list_to_set, Hel, elem_of_bset_iter, Hin. naive_solver. }
  case_decide as Hsz; [done|]. intros [= <- <-]. split; apply Hhalf; [done|lia|done|lia].
Qed.

Lemma session_elders_ok prefix b members half current :
  map_Forall (λ nm n, nm = name n) members → half_ok prefix b members half →
  size (session_elders (elder_candidates half current)) = elder_count ∧
  ∀ nm a, session_elders (elder_candidates half current) !! nm = Some a →
    ∃ n, n ∈ half ∧ name n = nm ∧ addr n = a.
Proof.
  intros Hf [Hsz Hin]. destruct (elders_are_oldest_aux half current) as (Hsub & Hsize & _).
  set (E := elder_candidates half current) in *. unfold session_elders. split.
  - rewrite map_size_list_to_map.
    + rewrite length_reverse, length_fmap, length_bset_iter, Hsize.
      unfold recommended_section_size in Hsz. lia.
    + rewrite fmap_reverse, reverse_Permutation, <-list_fmap_compose. apply NoDup_fmap_2_strong; [|apply NoDup_bset_iter].
      intros x y Hx%elem_of_bset_iter%Hsub%Hin Hy%elem_of_bset_iter%Hsub%Hin Heq. simpl in Heq.
      destruct Hx as [Hx _], Hy as [Hy _]. rewrite Heq in Hx. congruence.
  - intros nm a Hl%elem_of_list_to_map_2. rewrite elem_of_reverse, list_elem_of_fmap in Hl.
    destruct Hl as (n & [= -> ->] & Hn%elem_of_bset_iter%Hsub). eauto.
Qed.

(** A section is only split into two halves that are both large enough: each session
    is for one child prefix, starts with exactly the members that prefix covers, at
    least the recommended number, and has a full set of elders from among them. *)
Theorem split_sessions_sound members sap len g z o :
  section_wf (sap_prefix sap) members → try_split_dkg members sap len g = Some (z, o) →
  ∀ b s, (b, s) ∈ [(false, z); (true, o)] →
    dkg_prefix s = px_pushed (sap_prefix sap) b ∧ dkg_membership_gen s = g ∧
    (∀ n, n ∈ dkg_bootstrap_members s ↔
       members !! name n = Some n ∧ px_matches (dkg_prefix s) (name n) = true) ∧
    recommended_section_size ≤ size (dkg_bootstrap_members s) ∧
    size (dkg_elders s) = elder_count ∧
    ∀ nm a, dkg_elders s !! nm = Some a →
      ∃ n, n ∈ dkg_bootstrap_members s ∧ name n = nm ∧ addr n = a.
Proof.
  intros Hwf Ht. assert (map_Forall (λ nm n, nm = name n) members) as Hf.
  { eapply map_Forall_impl; [exact Hwf|]. by intros nm n (? & _). }
  unfold try_split_dkg in Ht. apply bind_Some in Ht as ([zero one] & Hs & [= <- <-]).
  apply get_split_info_ok in Hs as [Hz Ho]; [|done].
  pose proof (session_elders_ok _ _ _ _ sap Hf Hz). pose proof (session_elders_ok _ _ _ _ sap Hf Ho).
  destruct Hz, Ho. intros b s. rewrite elem_of_cons, list_elem_of_singleton.
  intros [[= -> ->]|[= -> ->]]; simpl; tauto.
Qed.
End props.

(** ** Witnesses

    A round is the section key with the votes received: the second vote decides on its
    proposals.  A section of four nodes with one elder seat. *)

Module MembershipDemo.
Import External.Concrete Xor.ConcreteXor HistoryDemo.

#[export] Instance one_elder : Settings := 1.

Section rounds.
Context {P D : Type} `{EqDecision P} (decide_on : nat → list P → PK → D).

Definition generic_rounds : ConsensusRounds (B := concrete_bls) P D := {|
  Consensus := PK * list (nat * list P * PK);
  SignedVote := nat * list P * PK;
  ConsensusError := unit;
  Faults := unit;
  con_elders c := c.1;
  con_restart c := (c.1, []);
  con_votes c := c.2;
  con_faults c := ();
  con_decision c := match c.2 with v :: _ :: _ => Some (decide_on v.1.1 v.1.2 c.1) | _ => None end;
  con_processed c v := bool_decide (v ∈ c.2);
  con_handle_signed_vote c v := ((c.1, v :: c.2), Ok WaitingForMoreVotes);
  con_sign_propose c g n _ := Ok (g, [n], c.1);
  con_cast_vote c v := ((c.1, v :: c.2), Ok v);
  con_supermajority_vote c g := match c.2 with v :: _ => Ok v | [] => Err () end;
  vote_gen v := v.1.1;
  vote_proposals v := v.1.2;
  vote_valid_signature v key := if decide (v.2 = key) then Ok () else Err ();
  vote_byzantine v c := bool_decide (v ∈ c.2);
|}.
End rounds.

#[export] Instance concrete_rounds : ConsensusRounds NS (Decision (X := concrete_xor) unit) :=
  generic_rounds (λ g l key, ((λ n, (n, (key, []))) <$> l, g, key)).

Definition demo_leave_vote : SignedVote NS (Decision (X := concrete_xor) unit) := (1, [demo_left [true] 2], 7).
Definition demo_start : Membership unit := membership_from (7, [demo_leave_vote]) demo_initial.

Lemma demo_start_gens : gens_ok demo_start.
Proof. intros g. unfold demo_start, membership_from. simpl. rewrite lookup_empty, is_Some_alt. lia. Qed.

Definition demo_decided : Membership unit := (handle_signed_vote demo_start 3 demo_leave_vote []).1.

Lemma votes_decide_in_order_witness :
  gens_ok demo_decided ∧ gen demo_decided = 1.
Proof.
  pose proof (votes_decide_in_order demo_start 3 demo_leave_vote [] _ _ demo_start_gens
    (surjective_pairing _)) as (Hg & _). split; [exact Hg|]. vm_compute. reflexivity.
Defined.

Definition demo_history : SectionMemberHistory unit := mkHistory demo_initial (decided demo_decided) ∅.

Lemma members_match_history_witness :
  section_members demo_decided 1 = Ok (members_at_gen demo_history 1).
Proof.
  pose proof (votes_decide_aux demo_start 3 demo_leave_vote [] _ _ demo_start_gens
    (surjective_pairing _)) as (Hg & Hb & _).
  apply (members_match_history demo_decided demo_history 1); [exact Hg|symmetry; exact Hb|done|].
  apply (bool_decide_unpack _). vm_compute. exact I.
Defined.

Definition demo_four : gmap XorName NS :=
  list_to_map ((λ p, (p.1, demo_join p.1 p.2)) <$>
    [([false; false], 1%Z); ([false; true], 2%Z); ([true; false], 3%Z); ([true; true], 4%Z)]).
Definition demo_whole : SectionAuthorityProvider unit := mkSap [] (7 : PK) ∅ ∅ 0.

Definition split_ok (r : option (DkgSessionId unit * DkgSessionId unit)) : bool :=
  match r with Some _ => true | None => false end.

Lemma split_sessions_sound_witness :
  ∃ z o, try_split_dkg demo_four demo_whole 1 5 = Some (z, o) ∧
    dkg_prefix z = [false] ∧ size (dkg_elders z) = 1 ∧ dkg_prefix o = [true] ∧ size (dkg_elders o) = 1.
Proof.
  assert (split_ok (try_split_dkg demo_four demo_whole 1 5) = true) as Hok by (vm_compute; reflexivity).
  destruct (try_split_dkg demo_four demo_whole 1 5) as [[z o]|] eqn:Hs; [|discriminate Hok].
  assert (section_wf (sap_prefix demo_whole) demo_four) as Hwf.
  { apply (bool_decide_unpack _). vm_compute. exact I. }
  destruct (split_sessions_sound demo_four demo_whole 1 5 z o Hwf Hs false z) as (Hz & _ & _ & _ & Hez & _);
    [left|].
  destruct (split_sessions_sound demo_four demo_whole 1 5 z o Hwf Hs true o) as (Ho & _ & _ & _ & Heo & _);
    [right; left|].
  exists z, o. split_and!; [reflexivity|exact Hz|exact Hez|exact Ho|exact Heo].
Defined.
End MembershipDemo.
