(* ===== verification/Handover.v ===== *)
(** * Handover voting

    [sn_node/src/node/handover/handover_consensus.rs]: the votes of the elders on the
    next section authority.  A round that ends without any proposal has failed and the
    next generation starts.  The voting round of [sn_consensus] is a parameter; the
    proposals of a decision are listed in the order of their map. *)

From S2P Require Import Prelude External Xor NodeState SectionsDag Sap MemberHistory Membership.

Section handover.
Context {B : Bls} {X : Xor} {Trigger : Type} `{Countable Trigger}.
Context {D : Type} (decided_proposals : D → list (SapCandidate Trigger)).
Context {R : ConsensusRounds (SapCandidate Trigger) D}.

Abbreviation HandoverConsensus := (Consensus (SapCandidate Trigger) D).
Abbreviation HandoverVote := (SignedVote (SapCandidate Trigger) D).

Inductive HandoverError :=
  | FaultyProposal
  | HandoverRequestAntiEntropy
  | CorruptedHandoverHistory (vote_gen gen : nat)
  | ConsensusFault (e : ConsensusError (SapCandidate Trigger) D).

Record Handover := mkHandover {
  ho_consensus : HandoverConsensus;
  failed_consensus_rounds : gmap nat (HandoverConsensus * D);
  ho_gen : nat;
}.

Definition handover_from (c : HandoverConsensus) : Handover := mkHandover c ∅ 0.

Definition ho_cast_vote (h : Handover) (v : HandoverVote) : Handover * result HandoverError HandoverVote :=
  let '(c, r) := con_cast_vote (ho_consensus h) v in
  (mkHandover c (failed_consensus_rounds h) (ho_gen h), map_err ConsensusFault r).

Definition ho_propose (h : Handover) (proposal : SapCandidate Trigger)
    : Handover * result HandoverError HandoverVote :=
  let key_sets := candidate_key_sets proposal in
  if bool_decide (con_elders (ho_consensus h) ∈ key_sets) && bool_decide (size key_sets = 1)
  then (h, Err FaultyProposal)
  else
    match con_sign_propose (ho_consensus h) (ho_gen h) proposal (con_faults (ho_consensus h)) with
    | Err e => (h, Err (ConsensusFault e))
    | Ok v => if vote_byzantine v (ho_consensus h) then (h, Err FaultyProposal) else ho_cast_vote h v
    end.

Fixpoint proof_votes (rounds : list (nat * (HandoverConsensus * D)))
    : result HandoverError (list HandoverVote) :=
  match rounds with
  | [] => Ok []
  | (g, (c, _)) :: rounds =>
      v ← map_err ConsensusFault (con_supermajority_vote c g);
      vs ← proof_votes rounds;
      Ok (v :: vs)
  end.
Definition ho_anti_entropy (h : Handover) (from_gen : nat) : result HandoverError (list HandoverVote) :=
  votes ← proof_votes (filter (λ e, from_gen ≤ e.1) (bmap_iter (failed_consensus_rounds h)));
  Ok (votes ++ con_votes (ho_consensus h)).

Definition handle_empty_set_decision (h : Handover) : Handover :=
  match con_decision (ho_consensus h) with
  | Some decision =>
      match decided_proposals decision with
      | [] => mkHandover (con_restart (ho_consensus h))
                (<[ho_gen h := (ho_consensus h, decision)]> (failed_consensus_rounds h)) (ho_gen h + 1)
      | _ :: _ => h
      end
  | None => h
  end.

Definition handle_outdated_signed_vote (h : Handover) (v : HandoverVote)
    : Handover * result HandoverError (VoteResponse HandoverVote) :=
  match failed_consensus_rounds h !! vote_gen v with
  | Some (c, decision) =>
      let '(c, r) := con_handle_signed_vote c v in
      (mkHandover (ho_consensus h) (<[vote_gen v := (c, decision)]> (failed_consensus_rounds h)) (ho_gen h),
       map_err ConsensusFault r)
  | None => (h, Err (CorruptedHandoverHistory (vote_gen v) (ho_gen h)))
  end.

Definition ho_handle_signed_vote (h : Handover) (v : HandoverVote)
    : Handover * result HandoverError (VoteResponse HandoverVote) :=
  match Nat.compare (vote_gen v) (ho_gen h) with
  | Lt => handle_outdated_signed_vote h v
  | Gt => (h, Err HandoverRequestAntiEntropy)
  | Eq =>
      let '(c, r) := con_handle_signed_vote (ho_consensus h) v in
      (mkHandover c (failed_consensus_rounds h) (ho_gen h), map_err ConsensusFault r)
  end.

(** The proposals are in key order, so the minimum is the first. *)
Definition consensus_value (h : Handover) : option (SapCandidate Trigger) :=
  decision ← con_decision (ho_consensus h);
  head (decided_proposals decision).

End handover.
Arguments Handover {_ _} Trigger {_ _} D {_}.
Arguments HandoverError {_ _} Trigger {_ _} D {_}.
