(* ===== verification/Relocation.v ===== *)
(** * Relocation of nodes

    [network_knowledge/node_state/relocation.rs]: what triggers a relocation and the
    proof a relocated node shows to its new section; and
    [sn_node/src/node/relocation.rs]: which nodes a churn event relocates.

    The trigger of a relocation wraps a decision about nodes, whose states may carry
    triggers again: the recursive type is the parameter [Trigger] with its constructor
    and projection.  The hashes of [xor_name] are parameters. *)

From S2P Require Import Prelude External Xor NodeState SectionsDag Sap SectionTree MemberHistory.
From S2P Require Import NetworkKnowledge Keys.

Class RelocationTriggers {B : Bls} {X : Xor} (Trigger : Type) {C : ConsensusDecision Trigger} := {
  trigger_new : Decision Trigger → Trigger;
  trigger_decision : Trigger → Decision Trigger;
}.

(** [XorName(bytes)], [from_content], [from_content_parts], [cmp_distance] and the
    bytes of a BLS signature. *)
Class NameHashing {B : Bls} {X : Xor} := {
  name_of_bytes : bytes → XorName;
  from_content : bytes → XorName;
  from_content_parts : list bytes → XorName;
  xn_cmp_distance : XorName → XorName → XorName → comparison;
  sig_to_bytes : Signature → bytes;
}.

(** [cmp_distance] orders names by their distance to the first argument. *)
Class DistanceLaws {B : Bls} {X : Xor} {NH : NameHashing} : Prop := {
  xn_cmp_distance_flip t a b : xn_cmp_distance t b a = CompOpp (xn_cmp_distance t a b);
  xn_cmp_distance_trans t a b c :
    xn_cmp_distance t a b ≠ Gt → xn_cmp_distance t b c ≠ Gt → xn_cmp_distance t a c ≠ Gt;
}.

Section relocation.
Context {B : Bls} {X : Xor} {Cfg : Settings} {NH : NameHashing} {E : Ed25519}.
Context {BP : Bincode PublicKey} {M : Merkle SectionInfo}.
Context {Trigger : Type} `{Countable Trigger} {C : ConsensusDecision Trigger} {RT : RelocationTriggers Trigger}.
Context {OS : Ord (NodeState Trigger)} {BN : Bincode (NodeState Trigger)}.

(** ** Triggers *)

Definition trigger_sigs (trigger : Trigger) : list bytes :=
  (λ p, sig_to_bytes p.2) <$> dec_proposals (trigger_decision trigger).

Definition dst_section (trigger : Trigger) (peer_name : XorName) : XorName :=
  from_content_parts (xn_bytes peer_name :: trigger_sigs trigger).

Definition churn_id (trigger : Trigger) : XorName := from_content_parts (trigger_sigs trigger).

(** ** Proofs *)

Record RelocationInfo := mkRelocationInfo {
  signed_relocation : SectionSigned (NodeState Trigger);
  new_name : XorName;
}.

Record RelocationProof := mkRelocationProof {
  info : RelocationInfo;
  self_sig : EdSignature;
  self_old_key : EdPublicKey;
}.

Definition signed_by (p : RelocationProof) : PublicKey := sig_public_key (sig (signed_relocation (info p))).
Definition old_key_name (p : RelocationProof) : XorName := name_of_bytes (ed_to_bytes (self_old_key p)).
Definition relocation_new_name (p : RelocationProof) : XorName := new_name (info p).
Definition new_age (p : RelocationProof) : Z := calc_age (relocation_new_name p).
Definition relocation_previous_name (p : RelocationProof) : XorName := name (value (signed_relocation (info p))).
Definition previous_age (p : RelocationProof) : Z := age (value (signed_relocation (info p))).

Definition verify {BI : Bincode RelocationInfo} (p : RelocationProof) : result Error unit :=
  if decide (old_key_name p ≠ name (value (signed_relocation (info p)))) then Err InvalidRelocationProof
  else
    match bincode_serialize (info p) with
    | None => Err InvalidRelocationProof
    | Some serialized_info =>
        if ed_verify (self_old_key p) serialized_info (self_sig p) then
          match bincode_serialize (value (signed_relocation (info p))) with
          | None => Err InvalidRelocationProof
          | Some serialized_state =>
              if section_sig_verify (sig (signed_relocation (info p))) serialized_state then Ok ()
              else Err InvalidRelocationProof
          end
        else Err InvalidRelocationProof
    end.

Inductive RelocationState :=
  | NoRelocation
  | PreparingToRelocate (trigger : Trigger)
  | ReadyToJoinNewSection (proof : RelocationProof).

Definition relocation_proof (s : RelocationState) : option RelocationProof :=
  match s with ReadyToJoinNewSection proof => Some proof | _ => None end.

(** ** The nodes to relocate *)

Definition closer (target : XorName) : relation (NodeState Trigger) :=
  λ lhs rhs, xn_cmp_distance target (name lhs) (name rhs) ≠ Gt.
#[export] Instance closer_dec target : RelDecision (closer target).
Proof.
  intros x y. unfold closer. destruct (xn_cmp_distance target (name x) (name y)); [left|left|right];
    naive_solver.
Defined.

Fixpoint max_age (l : list (NodeState Trigger)) : option Z :=
  match l with
  | [] => None
  | n :: l => Some (match max_age l with None => age n | Some a => Z.max (age n) a end)
  end.

Definition relocation_candidates (k : NetworkKnowledge Trigger) (trigger : Trigger)
    (excluded : gset XorName) : list (NodeState Trigger) :=
  filter (λ n, is_adult k (name n) = true ∧ relocation_check (age n) (xn_bytes (churn_id trigger)) = true ∧
               name n ∉ excluded) (bset_iter (members (nk_section_members k))).

Definition find_nodes_to_relocate (k : NetworkKnowledge Trigger) (trigger : Trigger)
    (excluded : gset XorName) : list (NodeState Trigger) :=
  let section_size := size (members (nk_section_members k)) in
  if decide (section_size ≤ recommended_section_size) then []
  else
    let max_relocations := elder_count / 2 in
    let allowed_relocations := (section_size - recommended_section_size) `min` max_relocations in
    let target_name := from_content (xn_bytes (churn_id trigger)) in
    let candidates := merge_sort (closer target_name) (relocation_candidates k trigger excluded) in
    match max_age candidates with
    | None => []
    | Some max => take allowed_relocations (filter (λ n, age n = max) candidates)
    end.
End relocation.
Arguments RelocationProof {_ _ _} Trigger.
Arguments RelocationInfo {_ _} Trigger.
Arguments RelocationState {_ _ _} Trigger.
