(* ===== verification/Dkg.v ===== *)
(** * Distributed key generation: the sessions of a node

    [messaging/system/dkg.rs] (the session id), [types/keys/ed25519.rs] and
    [sn_node/src/node/dkg/mod.rs] (the voter).  Before the candidates of a session vote,
    each of them announces an ephemeral BLS key, signed with the key pair of its name;
    when a candidate has all keys it starts voting.

    The votes are those of the crate [sn_sdkg], a parameter: [DkgState] is one session of
    it.  Random numbers are arguments; so is the time of a message. *)

From S2P Require Import Prelude External Xor NodeState SectionsDag Sap MemberHistory.
From S2P Require Import Keys Membership Relocation.

(** Key pairs of ed25519 ([ed25519_dalek]). *)
Class EdKeypairs {E : Ed25519} := {
  Keypair : Type;
  kp_public : Keypair → EdPublicKey;
  ed_sign : bytes → Keypair → EdSignature;
  ed_from_bytes : bytes → option EdPublicKey;
}.

(** What a vote makes the voter do. *)
Inductive DkgVoteResponse (V S K : Type) :=
  | DkgWaitingForMoreVotes
  | BroadcastVote (vote : V)
  | RequestDkgAntiEntropy
  | DkgComplete (key_set : S) (share : K).
Arguments DkgWaitingForMoreVotes {V S K}.
Arguments BroadcastVote {V S K} vote.
Arguments RequestDkgAntiEntropy {V S K}.
Arguments DkgComplete {V S K} key_set share.

(** [bls::SecretKey] and [sn_sdkg::DkgState]. *)
Class Sdkg {B : Bls} {BSh : BlsShares} := {
  SecretKey : Type;
  sk_public_key : SecretKey → PublicKey;
  Rng : Type;
  DkgState : Type;
  DkgSignedVote : Type;
  SdkgError : Type;
  dkg_new : nat → SecretKey → gmap nat PublicKey → Z → Rng → result SdkgError DkgState;
  dkg_id : DkgState → nat;
  dkg_first_vote : DkgState → DkgState * result SdkgError DkgSignedVote;
  dkg_all_votes : DkgState → list DkgSignedVote;
  dkg_handle_signed_vote : DkgState → DkgSignedVote → Rng →
    DkgState * result SdkgError (list (DkgVoteResponse DkgSignedVote PublicKeySet SecretKeyShare));
  dkg_reached_termination : DkgState → result SdkgError bool;
  dkg_outcome : DkgState → result SdkgError (option (PublicKeySet * SecretKeyShare));
  dkg_force_termination : DkgState →
    DkgState * result SdkgError (option (PublicKeySet * SecretKeyShare));
}.

(** ** Names and keys *)

Section names.
Context {B : Bls} {X : Xor} {NH : NameHashing} {E : Ed25519} {EK : EdKeypairs}.

Definition ed_name (public_key : EdPublicKey) : XorName := name_of_bytes (ed_to_bytes public_key).
Definition pub_key (name : XorName) : option EdPublicKey := ed_from_bytes (xn_bytes name).
End names.

(** A key pair signs for its public key, and the key can be read back from its name. *)
Class EdKeypairLaws {B : Bls} {X : Xor} {NH : NameHashing} {E : Ed25519} {EK : EdKeypairs} : Prop := {
  ed_sign_verifies (kp : Keypair) (msg : bytes) : ed_verify (kp_public kp) msg (ed_sign msg kp) = true;
  pub_key_name (k : EdPublicKey) : pub_key (ed_name k) = Some k;
}.

(** ** Session ids *)

Section session.
Context {B : Bls} {X : Xor} {Trigger : Type} `{Countable Trigger} {OS : Ord (NodeState Trigger)}.
Context {Digest : Type} `{Countable Digest} (sha3 : list bytes → Digest).
Implicit Types (s : DkgSessionId Trigger).

Definition session_elder_names s : list XorName := (bmap_iter (dkg_elders s)).*1.
Definition elder_ids s : list NodeId := (λ e, mkNodeId e.1 e.2) <$> bmap_iter (dkg_elders s).
Definition elder_index s (elder : XorName) : option nat :=
  fst <$> list_find (λ p, p = elder) (merge_sort ord_le (session_elder_names s)).

(** The parts that [hash_update] feeds to the hasher. *)
Definition hash_update s : list bytes :=
  [xn_bytes (px_name (dkg_prefix s))] ++ (xn_bytes <$> session_elder_names s) ++
  [to_le_bytes 8 (Z.of_nat (dkg_section_chain_len s))] ++
  ((λ m, xn_bytes (name m)) <$> bset_iter (dkg_bootstrap_members s)).
Definition session_hash s : Digest := sha3 (hash_update s).

(** [SectionAuthorityProvider::from_dkg_session]. *)
Definition from_dkg_session s (pk_set : PublicKeySet) : SectionAuthorityProvider Trigger :=
  mkSap (dkg_prefix s) pk_set (list_to_set (elder_ids s)) (dkg_bootstrap_members s) (dkg_membership_gen s).
End session.

(** ** The voter *)

Section voter.
Context {B : Bls} {BSh : BlsShares} {X : Xor} {NH : NameHashing} {E : Ed25519} {EK : EdKeypairs} {S : Sdkg}.
Context {Trigger : Type} `{Countable Trigger} {OS : Ord (NodeState Trigger)} {BP : Bincode PublicKey}.
Context {Digest : Type} `{Countable Digest} (sha3 : list bytes → Digest).
Implicit Types (s : DkgSessionId Trigger).

Abbreviation hash := (session_hash sha3).
Abbreviation DkgPubKeys := (gmap XorName (PublicKey * EdSignature)).

Inductive DkgError :=
  | NodeNotInDkgSession (name : XorName)
  | InvalidXorname (name : XorName)
  | DkgBincode
  | DkgInvalidSignature
  | DkgEphemeralKeyAlreadyGenerated
  | NoDkgKeysForSession (session_id : DkgSessionId Trigger)
  | NoDkgStateForSession (session_id : DkgSessionId Trigger)
  | DoubleKeyAttackDetected (name : XorName) (key : PublicKey) (key_sig : EdSignature)
      (already_had : PublicKey) (old_sig : EdSignature)
  | SdkgErr (e : SdkgError).

Record DkgEphemeralKeys := mkEphemeralKeys {
  eph_secret_key : SecretKey;
  eph_pub_keys : DkgPubKeys;
}.

Record DkgVoter := mkDkgVoter {
  dkg_ephemeral_keys : gmap Digest DkgEphemeralKeys;
  dkg_states : gmap Digest DkgState;
  last_received_dkg_msg_time : option nat;
}.
Implicit Types (v : DkgVoter).

Definition dkg_voter_default : DkgVoter := mkDkgVoter ∅ ∅ None.
Definition set_keys v k : DkgVoter := mkDkgVoter k (dkg_states v) (last_received_dkg_msg_time v).
Definition set_states v t : DkgVoter := mkDkgVoter (dkg_ephemeral_keys v) t (last_received_dkg_msg_time v).

(** [index as u8]. *)
Definition as_u8 (index : nat) : nat := index mod 256.

Fixpoint index_keys s (keys : list (XorName * (PublicKey * EdSignature))) (public_keys : gmap nat PublicKey)
    : result DkgError (gmap nat PublicKey) :=
  match keys with
  | [] => Ok public_keys
  | (xorname, (ephemeral_pk, _)) :: keys =>
      match elder_index s xorname with
      | Some index => index_keys s keys (<[as_u8 index := ephemeral_pk]> public_keys)
      | None => Err (NodeNotInDkgSession xorname)
      end
  end.

Definition create_dkg_state s (participant_index : nat) (secret_key : SecretKey) (ephemeral_bls_pks : DkgPubKeys)
    (rng : Rng) : result DkgError DkgState :=
  let threshold := threshold (Z.of_nat (size (dkg_elders s))) in
  public_keys ← index_keys s (bmap_iter ephemeral_bls_pks) ∅;
  map_err SdkgErr (dkg_new (as_u8 participant_index) secret_key public_keys threshold rng).

Definition check_ephemeral_dkg_key s (key_owner : XorName) (key : PublicKey) (key_sig : EdSignature)
    : result DkgError unit :=
  if negb (bool_decide (is_Some (dkg_elders s !! key_owner))) then Err (NodeNotInDkgSession key_owner)
  else
    sender_pubkey ← ok_or (pub_key key_owner) (InvalidXorname key_owner);
    serialized_key ← ok_or (bincode_serialize key) DkgBincode;
    if ed_verify sender_pubkey serialized_key key_sig then Ok () else Err DkgInvalidSignature.

Definition gen_ephemeral_key v s (our_name : XorName) (keypair : Keypair) (new_secret_key : SecretKey)
    : DkgVoter * result DkgError (PublicKey * EdSignature) :=
  if bool_decide (is_Some (dkg_ephemeral_keys v !! hash s)) then (v, Err DkgEphemeralKeyAlreadyGenerated)
  else
    let new_pub_key := sk_public_key new_secret_key in
    match bincode_serialize new_pub_key with
    | None => (v, Err DkgBincode)
    | Some serialized_key =>
        let key_sig := ed_sign serialized_key keypair in
        let ephemeral_keys := mkEphemeralKeys new_secret_key {[our_name := (new_pub_key, key_sig)]} in
        (set_keys v (<[hash s := ephemeral_keys]> (dkg_ephemeral_keys v)), Ok (new_pub_key, key_sig))
    end.

Definition learned_something_from_message v (now : nat) : DkgVoter :=
  mkDkgVoter (dkg_ephemeral_keys v) (dkg_states v) (Some now).
Definition clear_dkg_msg_timer v : DkgVoter := mkDkgVoter (dkg_ephemeral_keys v) (dkg_states v) None.

(** The new state is created, and may fail to be, also when there is one already. *)
Definition initialize_dkg_state v s (participant_index : nat) (rng : Rng)
    : DkgVoter * result DkgError (DkgSignedVote * DkgPubKeys) :=
  match dkg_ephemeral_keys v !! hash s with
  | None => (v, Err (NoDkgKeysForSession s))
  | Some our_keys =>
      match create_dkg_state s participant_index (eph_secret_key our_keys) (eph_pub_keys our_keys) rng with
      | Err e => (v, Err e)
      | Ok new_state =>
          let dkg_state := default new_state (dkg_states v !! hash s) in
          let '(dkg_state, r) := dkg_first_vote dkg_state in
          (set_states v (<[hash s := dkg_state]> (dkg_states v)),
           match r with
           | Ok first_vote => Ok (first_vote, eph_pub_keys our_keys)
           | Err e => Err (SdkgErr e)
           end)
      end
  end.

Definition save_key v (now : nat) s (key_owner : XorName) (key : PublicKey) (key_sig : EdSignature)
    : DkgVoter * result DkgError bool :=
  match check_ephemeral_dkg_key s key_owner key key_sig with
  | Err e => (v, Err e)
  | Ok _ =>
      match dkg_ephemeral_keys v !! hash s with
      | None => (v, Err (NoDkgKeysForSession s))
      | Some our_keys =>
          match eph_pub_keys our_keys !! key_owner with
          | Some (already_had, old_sig) =>
              if decide (already_had = key) then (v, Ok false)
              else (v, Err (DoubleKeyAttackDetected key_owner key key_sig already_had old_sig))
          | None =>
              let did_insert := bool_decide (is_Some (eph_pub_keys our_keys !! key_owner)) in
              let pub_keys := <[key_owner := (key, key_sig)]> (eph_pub_keys our_keys) in
              let v := set_keys v (<[hash s := mkEphemeralKeys (eph_secret_key our_keys) pub_keys]>
                                     (dkg_ephemeral_keys v)) in
              let what_we_have := dom pub_keys in
              let what_we_need := dom (dkg_elders s) in
              let just_completed := bool_decide (what_we_have = what_we_need) in
              ((if did_insert then learned_something_from_message v now else v), Ok just_completed)
          end
      end
  end.

Definition try_init_dkg v (now : nat) s (participant_index : nat) (ephemeral_pub_key : PublicKey)
    (key_sig : EdSignature) (sender : XorName) (rng : Rng)
    : DkgVoter * result DkgError (option (DkgSignedVote * DkgPubKeys)) :=
  match save_key v now s sender ephemeral_pub_key key_sig with
  | (v, Err e) => (v, Err e)
  | (v, Ok false) => (v, Ok None)
  | (v, Ok true) =>
      match initialize_dkg_state v s participant_index rng with
      | (v, Err e) => (v, Err e)
      | (v, Ok start) => (v, Ok (Some start))
      end
  end.

(** Saving stops at the first key that is refused. *)
Fixpoint save_keys v (now : nat) s (keys : list (XorName * (PublicKey * EdSignature)))
    : DkgVoter * result DkgError (list bool) :=
  match keys with
  | [] => (v, Ok [])
  | (name, (key, key_sig)) :: keys =>
      match save_key v now s name key key_sig with
      | (v, Err e) => (v, Err e)
      | (v, Ok completed) =>
          match save_keys v now s keys with
          | (v, Err e) => (v, Err e)
          | (v, Ok rest) => (v, Ok (completed :: rest))
          end
      end
  end.

Definition check_keys v (now : nat) s (keys : DkgPubKeys) : DkgVoter * result DkgError (DkgPubKeys * bool) :=
  match dkg_ephemeral_keys v !! hash s with
  | None => (v, Err (NoDkgKeysForSession s))
  | Some our_keys =>
      if decide (keys = eph_pub_keys our_keys) then (v, Ok (keys, false))
      else
        match save_keys v now s (bmap_iter keys) with
        | (v, Err e) => (v, Err e)
        | (v, Ok completed) => (v, Ok (keys, existsb id completed))
        end
  end.

Definition get_dkg_keys v s : result DkgError DkgPubKeys :=
  eph_pub_keys <$> ok_or (dkg_ephemeral_keys v !! hash s) (NoDkgKeysForSession s).

Definition get_all_votes v s : result DkgError (list DkgSignedVote) :=
  match dkg_states v !! hash s with
  | Some state => Ok (dkg_all_votes state)
  | None => Err (NoDkgStateForSession s)
  end.

Definition handle_dkg_vote v s (vote : DkgSignedVote) (rng : Rng)
    : DkgVoter * result DkgError (list (DkgVoteResponse DkgSignedVote PublicKeySet SecretKeyShare)) :=
  match dkg_states v !! hash s with
  | Some state =>
      let '(state, r) := dkg_handle_signed_vote state vote rng in
      (set_states v (<[hash s := state]> (dkg_states v)), map_err SdkgErr r)
  | None => (v, Err (NoDkgStateForSession s))
  end.

Definition reached_termination v s : result DkgError bool :=
  match dkg_states v !! hash s with
  | Some state => map_err SdkgErr (dkg_reached_termination state)
  | None => Ok false
  end.

Definition with_id (our_id : nat) (o : option (PublicKeySet * SecretKeyShare))
    : option (nat * PublicKeySet * SecretKeyShare) :=
  '(pks, sks) ← o; Some (our_id, pks, sks).

Definition outcome v s : result DkgError (option (nat * PublicKeySet * SecretKeyShare)) :=
  match dkg_states v !! hash s with
  | Some state => with_id (dkg_id state) <$> map_err SdkgErr (dkg_outcome state)
  | None => Err (NoDkgStateForSession s)
  end.

Definition force_termination v s
    : DkgVoter * result DkgError (option (nat * PublicKeySet * SecretKeyShare)) :=
  match dkg_states v !! hash s with
  | Some state =>
      let our_id := dkg_id state in
      let '(state, r) := dkg_force_termination state in
      (set_states v (<[hash s := state]> (dkg_states v)), with_id our_id <$> map_err SdkgErr r)
  | None => (v, Err (NoDkgStateForSession s))
  end.

Definition dkg_remove v (sessions_hash : Digest) : DkgVoter :=
  mkDkgVoter (delete sessions_hash (dkg_ephemeral_keys v)) (delete sessions_hash (dkg_states v))
    (last_received_dkg_msg_time v).
End voter.
Arguments DkgVoter {_ _ _ _ _} Digest {_ _}.
Arguments DkgError {_ _ _ _ _} Trigger {_ _}.
