(* ===== verification/FaultDetection.v ===== *)
(** * Fault detection

    [sn_fault_detection/src/lib.rs] and [detection.rs]: the issues logged against the
    members of a section and the nodes whose score is too far from the mean; and the
    commands of [sn_node/src/node/flow_ctrl/fault_detection.rs] that drive it.

    Instants are numbers of seconds and the present is an argument.  [f32] is IEEE single
    arithmetic ([SpecFloat] with 24 bits of precision). *)

From Stdlib Require Import SpecFloat.
From S2P Require Import Prelude External Xor.

(** ** Single-precision floats *)

Definition f32 := spec_float.
Definition f32_of_Z (z : Z) : f32 := binary_normalize 24 128 z 0 false.
(** The float [z / 2]. *)
Definition f32_halves (z : Z) : f32 := binary_normalize 24 128 z (-1) false.
Definition f32_add : f32 → f32 → f32 := SFadd 24 128.
Definition f32_sub : f32 → f32 → f32 := SFsub 24 128.
Definition f32_mul : f32 → f32 → f32 := SFmul 24 128.
Definition f32_div : f32 → f32 → f32 := SFdiv 24 128.
Definition f32_sqrt : f32 → f32 := SFsqrt 24 128.
Definition f32_ltb : f32 → f32 → bool := SFltb.

(** [as usize]: truncation towards zero, saturating; NaN is 0. *)
Definition f32_to_usize (x : f32) : Z :=
  match x with
  | S754_finite false m e =>
      Z.min (2 ^ 64 - 1) (if (0 <=? e)%Z then Z.pos m * 2 ^ e else Z.pos m / 2 ^ (- e))
  | S754_infinity false => 2 ^ 64 - 1
  | _ => 0
  end.

(** [f32::ceil]; a finite number without fractional part is its own ceiling. *)
Definition f32_ceil (x : f32) : f32 :=
  match x with
  | S754_finite sign m e =>
      if (0 <=? e)%Z then x
      else binary_normalize 24 128 (- ((if sign then Z.pos m else Z.neg m) / 2 ^ (- e))) 0 sign
  | _ => x
  end.

(** [iter().sum()] of floats. *)
Definition f32_sum (l : list f32) : f32 := foldl f32_add (f32_of_Z 0) l.

Definition get_mean_of (data : list f32) : option f32 :=
  let sum := f32_sum data in
  let count := length data in
  if decide (0 < count) then Some (f32_div sum (f32_of_Z (Z.of_nat count))) else None.

Definition std_deviation (data : list f32) : option f32 :=
  match get_mean_of data with
  | Some data_mean =>
      let count := length data in
      if decide (0 < count) then
        let variance :=
          f32_div (f32_sum ((λ value, let diff := f32_sub data_mean value in f32_mul diff diff) <$> data))
            (f32_of_Z (Z.of_nat count)) in
        Some (f32_sqrt variance)
      else None
  | None => None
  end.

(** ** The tracker *)

Inductive IssueType :=
  | AeProbeMsg
  | Dkg
  | ElderVoting
  | Communication
  | NetworkKnowledgeIssue
  | RequestOperation.
#[export] Instance issue_type_eq_dec : EqDecision IssueType.
Proof. solve_decision. Defined.

Definition RECENT_ISSUE_DURATION : Z := 60 * 10.
Definition STD_DEVS_AWAY : Z := 3.
Definition CONN_WEIGHTING : f32 := f32_halves 3.
Definition OP_WEIGHTING : f32 := f32_halves 2.
Definition KNOWLEDGE_WEIGHTING : f32 := f32_halves 4.
Definition DKG_WEIGHTING : f32 := f32_halves 4.
Definition ELDER_VOTE_WEIGHTING : f32 := f32_halves 5.
Definition AE_PROBE_WEIGHTING : f32 := f32_halves 5.

Section detection.
Context {X : Xor}.

Abbreviation TimedTracker := (gmap XorName (list Z)).

Record FaultDetection := mkDetection {
  communication_issues : TimedTracker;
  dkg_issues : TimedTracker;
  elder_voting_issues : TimedTracker;
  probe_issues : TimedTracker;
  network_knowledge_issues : TimedTracker;
  unfulfilled_ops : TimedTracker;
  non_elder_nodes : gset XorName;
  fd_elders : gset XorName;
}.
Implicit Types (t : FaultDetection) (node : XorName) (now : Z).

Definition detection_new (non_elders elders : gset XorName) : FaultDetection :=
  mkDetection ∅ ∅ ∅ ∅ ∅ ∅ non_elders elders.

(** [entry(node_id).or_default().push_back(now)] and [get_mut(node_id)] with [pop_front]. *)
Definition push_issue (tr : TimedTracker) node now : TimedTracker :=
  <[node := default [] (tr !! node) ++ [now]]> tr.
Definition pop_issue (tr : TimedTracker) node : TimedTracker := alter tail node tr.

Definition track_issue t node (issue_type : IssueType) now : FaultDetection :=
  let '(mkDetection c d v p k o ns es) := t in
  match issue_type with
  | Dkg => mkDetection c (push_issue d node now) v p k o ns es
  | ElderVoting => mkDetection c d (push_issue v node now) p k o ns es
  | AeProbeMsg => mkDetection c d v (push_issue p node now) k o ns es
  | Communication => mkDetection (push_issue c node now) d v p k o ns es
  | NetworkKnowledgeIssue => mkDetection c d v p (push_issue k node now) o ns es
  | RequestOperation => mkDetection c d v p k (push_issue o node now) ns es
  end.

Definition dkg_ack_fulfilled t node : FaultDetection :=
  let '(mkDetection c d v p k o ns es) := t in mkDetection c (pop_issue d node) v p k o ns es.
Definition elder_vote_received t node : FaultDetection :=
  let '(mkDetection c d v p k o ns es) := t in mkDetection c d (pop_issue v node) p k o ns es.
Definition ae_update_msg_received t node : FaultDetection :=
  let '(mkDetection c d v p k o ns es) := t in mkDetection c d v (pop_issue p node) k o ns es.

Definition all_current_nodes t : gset XorName := non_elder_nodes t ∪ fd_elders t.

Definition add_new_node t node : FaultDetection :=
  let '(mkDetection c d v p k o ns es) := t in mkDetection c d v p k o ({[node]} ∪ ns) es.

Definition remove_node t node : FaultDetection :=
  let '(mkDetection c d v p k o ns es) := t in
  mkDetection (delete node c) (delete node d) (delete node v) (delete node p) (delete node k)
    (delete node o) ns es.

Definition update_and_only_retain_members t (non_elders elders : gset XorName) : FaultDetection :=
  let current_members := all_current_nodes t in
  let '(mkDetection c d v p k o _ _) := t in
  let t := mkDetection c d v p k o non_elders elders in
  let nodes_being_removed := filter (λ x, x ∉ non_elder_nodes t ∧ x ∉ fd_elders t) (bset_iter current_members) in
  foldl remove_node t nodes_being_removed.

(** ** Scores *)

Definition tracker_of t (issue_type : IssueType) : TimedTracker :=
  match issue_type with
  | Communication => communication_issues t
  | Dkg => dkg_issues t
  | AeProbeMsg => probe_issues t
  | NetworkKnowledgeIssue => network_knowledge_issues t
  | ElderVoting => elder_voting_issues t
  | RequestOperation => unfulfilled_ops t
  end.

Definition get_node_issue_count_for_type t node (issue_type : IssueType) : Z :=
  match tracker_of t issue_type !! node with
  | Some issues => Z.of_nat (length issues)
  | None => 0
  end.

Definition calculate_node_score_for_type t node (issue_type : IssueType) : f32 :=
  let node_issue_count := get_node_issue_count_for_type t node issue_type in
  if decide (node_issue_count = 0)%Z then f32_of_Z 0
  else
    let other_node_counts :=
      (λ itr, f32_of_Z (get_node_issue_count_for_type t itr issue_type)) <$>
        filter (λ itr, itr ≠ node) (bset_iter (non_elder_nodes t)) in
    let average := default (f32_of_Z 1) (get_mean_of other_node_counts) in
    f32_of_Z (Z.max 0 (node_issue_count - f32_to_usize average)).

Record ScoreResults := mkScores {
  communication_scores : gmap XorName f32;
  dkg_scores : gmap XorName f32;
  elder_voting_scores : gmap XorName f32;
  knowledge_scores : gmap XorName f32;
  op_scores : gmap XorName f32;
  probe_scores : gmap XorName f32;
}.

Definition calculate_scores t (nodes_in_question : gset XorName) : ScoreResults :=
  let scores issue_type : gmap XorName f32 :=
    foldl (λ m node, <[node := calculate_node_score_for_type t node issue_type]> m) ∅
      (bset_iter nodes_in_question) in
  mkScores (scores Communication) (scores Dkg) (scores ElderVoting) (scores NetworkKnowledgeIssue)
    (scores RequestOperation) (scores AeProbeMsg).

Definition final_score (s : ScoreResults) (name : XorName) (score : f32) : f32 :=
  let weigh (m : gmap XorName f32) (w : f32) := f32_mul (default (f32_of_Z 1) (m !! name)) w in
  let ops_score := f32_mul score OP_WEIGHTING in
  let node_conn_score := weigh (communication_scores s) CONN_WEIGHTING in
  let node_dkg_score := weigh (dkg_scores s) DKG_WEIGHTING in
  let node_elder_voting_score := weigh (elder_voting_scores s) ELDER_VOTE_WEIGHTING in
  let node_knowledge_score := weigh (knowledge_scores s) KNOWLEDGE_WEIGHTING in
  let node_probe_score := weigh (probe_scores s) AE_PROBE_WEIGHTING in
  f32_add (f32_add (f32_add (f32_add (f32_add ops_score node_conn_score) node_knowledge_score)
    node_elder_voting_score) node_dkg_score) node_probe_score.

(** The multiplication and the addition of [usize] wrap. *)
Definition score_threshold (mean std_dev : f32) : Z :=
  let at_least_1_as_std_dev := if f32_ltb std_dev (f32_of_Z 1) then f32_of_Z 1 else f32_ceil std_dev in
  wrap64 (STD_DEVS_AWAY * f32_to_usize at_least_1_as_std_dev + f32_to_usize mean).

Definition get_weighted_scores t (nodes_in_question : gset XorName) : gmap XorName Z :=
  let scores := calculate_scores t nodes_in_question in
  let finals := (λ e, (e.1, final_score scores e.1 e.2)) <$> bmap_iter (op_scores scores) in
  let scores_only := finals.*2 in
  let pre_standardised_scores : gmap XorName Z :=
    foldl (λ m e, <[e.1 := f32_to_usize e.2]> m) ∅ finals in
  let mean := default (f32_of_Z 1) (get_mean_of scores_only) in
  let std_dev := default (f32_of_Z 1) (std_deviation scores_only) in
  let threshold := score_threshold mean std_dev in
  filter (λ e, threshold ≤ e.2 ∧ 1 < threshold)%Z pre_standardised_scores.

Definition retain_recent now (tr : TimedTracker) : TimedTracker :=
  filter (λ time, now - time < RECENT_ISSUE_DURATION)%Z <$> tr.

Definition cleanup_time_sensistive_checks t now : FaultDetection :=
  let '(mkDetection c d v p k o ns es) := t in
  let retain := retain_recent now in
  mkDetection (retain c) (retain d) v (retain p) (retain k) (retain o) ns es.

(** Highest score first; the names of equal scores in their order. *)
Definition by_score (scores : gmap XorName Z) : list XorName :=
  (stable_sort (λ a b, bool_decide (b.2 ≤ a.2)%Z) (bmap_iter scores)).*1.

Definition get_faulty_nodes t now : FaultDetection * list XorName :=
  let t := cleanup_time_sensistive_checks t now in
  let final_non_elder_scores := get_weighted_scores t (non_elder_nodes t) in
  let final_elder_scores := get_weighted_scores t (fd_elders t) in
  (t, by_score final_elder_scores ++ by_score final_non_elder_scores).

(** ** Commands of the node *)

Inductive FaultsCmd :=
  | AddNode (node : XorName)
  | UpdateNodes (adults elders : gset XorName)
  | TrackIssue (node : XorName) (issue : IssueType)
  | UntrackIssue (node : XorName) (issue : IssueType)
  | GetFaultyNodes.

(** One turn of the loop of [start_fault_detection]: the tracker and what is sent back. *)
Definition handle_faults_cmd t now (cmd : FaultsCmd) : FaultDetection * option (list XorName) :=
  match cmd with
  | AddNode node => (add_new_node t node, None)
  | UpdateNodes adults elders => (update_and_only_retain_members t adults elders, None)
  | TrackIssue node issue => (track_issue t node issue now, None)
  | UntrackIssue node issue =>
      (match issue with
       | AeProbeMsg => ae_update_msg_received t node
       | Dkg => dkg_ack_fulfilled t node
       | ElderVoting => elder_vote_received t node
       | _ => t
       end, None)
  | GetFaultyNodes => let '(t, faulty) := get_faulty_nodes t now in (t, Some faulty)
  end.
End detection.
