(* ===== verification/FaultDetectionProps.v ===== *)
(** * Properties of fault detection

    Only tracked nodes with recent issues are reported, the most faulty first; nodes
    that leave are forgotten; and two ways in which issues do not have the effect that
    is documented. *)

From Stdlib Require Import SpecFloat.
From S2P Require Import Prelude External Xor FaultDetection.

Section detection.
Context {X : Xor}.
Implicit Types (t : FaultDetection) (node : XorName) (now : Z) (i : IssueType).

(** ** Issues and scores *)

Definition has_issue t node i : Prop := ∃ time times, tracker_of t i !! node = Some (time :: times).

Lemma issue_count_spec t node i :
  get_node_issue_count_for_type t node i = 0%Z ∨ has_issue t node i.
Proof.
  unfold get_node_issue_count_for_type, has_issue. destruct (tracker_of t i !! node) as [[|x l]|];
    [by left|right; eauto|by left].
Qed.

Lemma score_without_issue t node i :
  get_node_issue_count_for_type t node i = 0%Z → calculate_node_score_for_type t node i = f32_of_Z 0.
Proof. intros H0. unfold calculate_node_score_for_type. by rewrite H0. Qed.

Lemma foldl_insert_lookup {V} (f : XorName → V) (l : list XorName) (m : gmap XorName V) k :
  foldl (λ m x, <[x := f x]> m) m l !! k = if decide (k ∈ l) then Some (f k) else m !! k.
Proof.
  revert m. induction l as [|x l IH]; intros m; simpl; [done|]. rewrite IH.
  destruct (decide (k ∈ l)) as [Hin|Hni].
  - rewrite decide_True; [done|by right].
  - destruct (decide (k = x)) as [->|Hne].
    + by rewrite lookup_insert_eq, decide_True by left.
    + rewrite lookup_insert_ne by done. rewrite decide_False; [done|]. set_solver.
Qed.

(** The score of a type of issue for every node in question. *)
Definition type_scores t (ns : gset XorName) i : gmap XorName f32 :=
  foldl (λ m node, <[node := calculate_node_score_for_type t node i]> m) ∅ (bset_iter ns).

Lemma type_scores_lookup t ns i node :
  type_scores t ns i !! node =
    if decide (node ∈ ns) then Some (calculate_node_score_for_type t node i) else None.
Proof.
  unfold type_scores. rewrite foldl_insert_lookup, lookup_empty.
  by rewrite (decide_ext (node ∈ bset_iter ns) (node ∈ ns)) by apply elem_of_bset_iter.
Qed.

(** Six scores of zero sum up to zero, whatever their weights. *)
Lemma final_score_zero t ns node :
  node ∈ ns → (∀ i, get_node_issue_count_for_type t node i = 0%Z) →
  f32_to_usize (final_score (calculate_scores t ns) node
    (calculate_node_score_for_type t node RequestOperation)) = 0%Z.
Proof.
  intros Hin H0. unfold final_score, calculate_scores. cbn [communication_scores dkg_scores
    elder_voting_scores knowledge_scores op_scores probe_scores].
  fold (type_scores t ns Communication) (type_scores t ns Dkg) (type_scores t ns ElderVoting)
    (type_scores t ns NetworkKnowledgeIssue) (type_scores t ns AeProbeMsg).
  rewrite !type_scores_lookup, !decide_True by done. cbn [default from_option].
  rewrite !score_without_issue by apply H0. reflexivity.
Qed.

Lemma finals_lookup (l : list (XorName * f32)) (m : gmap XorName Z) k :
  NoDup l.*1 → foldl (λ m e, <[e.1 := f32_to_usize e.2]> m) m l !! k =
    match (list_to_map l : gmap XorName f32) !! k with Some x => Some (f32_to_usize x) | None => m !! k end.
Proof.
  revert m. induction l as [|[n x] l IH]; intros m Hnd; simpl; [by rewrite lookup_empty|].
  apply NoDup_cons in Hnd as [Hn Hnd]. rewrite IH by done.
  destruct (decide (k = n)) as [->|Hne].
  - rewrite lookup_insert_eq. replace ((list_to_map l : gmap XorName f32) !! n) with (@None f32);
      [by rewrite lookup_insert_eq|]. symmetry. by apply not_elem_of_list_to_map.
  - by rewrite !lookup_insert_ne by done.
Qed.

(** What a reported score is: that of a node in question, at least the threshold. *)
Lemma weighted_score_spec t ns node score :
  get_weighted_scores t ns !! node = Some score →
  node ∈ ns ∧ (1 < score)%Z ∧
  score = f32_to_usize (final_score (calculate_scores t ns) node
            (calculate_node_score_for_type t node RequestOperation)).
Proof.
  unfold get_weighted_scores. cbn zeta. intros [Hl [Hle Hlt]]%map_lookup_filter_Some.
  cbn [snd] in Hle. pose proof (Z.lt_le_trans _ _ _ Hlt Hle) as Hs. clear Hle Hlt. revert Hl. rewrite finals_lookup.
  2: { rewrite <-list_fmap_compose. simpl. rewrite (list_fmap_ext _ fst); [|done].
       apply NoDup_bmap_iter. }
  rewrite lookup_empty. destruct ((list_to_map _ : gmap XorName f32) !! node) as [x|] eqn:Hx; [|done]. intros [= <-].
  apply elem_of_list_to_map_2, list_elem_of_fmap in Hx as ([n y] & [= -> ->] & Hin).
  apply elem_of_bmap_iter in Hin. change (type_scores t ns RequestOperation !! n = Some y) in Hin.
  rewrite type_scores_lookup in Hin. case_decide as Hns; [|done]. injection Hin as <-. done.
Qed.

Lemma weighted_score_issue t ns node score :
  get_weighted_scores t ns !! node = Some score → node ∈ ns ∧ ∃ i, has_issue t node i.
Proof.
  intros (Hin & Hs & ->)%weighted_score_spec. split; [done|].
  destruct (issue_count_spec t node AeProbeMsg) as [H1|]; [|by eexists].
  destruct (issue_count_spec t node Dkg) as [H2|]; [|by eexists].
  destruct (issue_count_spec t node ElderVoting) as [H3|]; [|by eexists].
  destruct (issue_count_spec t node Communication) as [H4|]; [|by eexists].
  destruct (issue_count_spec t node NetworkKnowledgeIssue) as [H5|]; [|by eexists].
  destruct (issue_count_spec t node RequestOperation) as [H6|]; [|by eexists].
  rewrite final_score_zero in Hs by (done || by intros []). lia.
Qed.

(** ** Reports *)

Lemma by_score_elem (scores : gmap XorName Z) node :
  node ∈ by_score scores ↔ is_Some (scores !! node).
Proof.
  unfold by_score. rewrite stable_sort_Permutation, list_elem_of_fmap. split.
  - intros ([n x] & -> & Hin%elem_of_bmap_iter). eauto.
  - intros [x Hx%elem_of_bmap_iter]. by exists (node, x).
Qed.
Lemma by_score_NoDup (scores : gmap XorName Z) : NoDup (by_score scores).
Proof. unfold by_score. rewrite stable_sort_Permutation. apply NoDup_bmap_iter. Qed.

(** The scores of a report, which are present by [by_score_elem], never rise. *)
Lemma by_score_descending (scores : gmap XorName Z) :
  Sorted (λ a b, default 0 (scores !! b) ≤ default 0 (scores !! a))%Z (by_score scores).
Proof.
  unfold by_score. set (l := stable_sort _ _).
  assert (∀ e, e ∈ l → scores !! e.1 = Some e.2) as Hl.
  { intros [n x]. unfold l. rewrite stable_sort_Permutation. apply elem_of_bmap_iter. }
  assert (Sorted (λ a b, bool_decide (b.2 ≤ a.2)%Z = true) l) as Hs.
  { apply stable_sort_Sorted. intros a b. rewrite !bool_decide_eq_true. lia. }
  clearbody l. induction Hs as [|e l Hs IH Hhd]; simpl; [constructor|].
  constructor; [apply IH; intros; apply Hl; by right|].
  destruct Hhd as [|e' l Hle]; simpl; constructor.
  rewrite (Hl e) by left. rewrite (Hl e') by (right; left). by apply bool_decide_eq_true in Hle.
Qed.

(** The age of an issue that still counts. *)
Definition counts now i (time : Z) : Prop := i = ElderVoting ∨ (now - time < RECENT_ISSUE_DURATION)%Z.

Lemma cleanup_tracker t now i node :
  tracker_of (cleanup_time_sensistive_checks t now) i !! node =
    match i with
    | ElderVoting => tracker_of t i !! node
    | _ => filter (λ time, now - time < RECENT_ISSUE_DURATION)%Z <$> tracker_of t i !! node
    end.
Proof. destruct t, i; simpl; unfold retain_recent; rewrite ?lookup_fmap; done. Qed.

(** An issue that is left after the clean-up was logged and still counts. *)
Lemma cleanup_issue t now i node :
  has_issue (cleanup_time_sensistive_checks t now) node i →
  ∃ times time, tracker_of t i !! node = Some times ∧ time ∈ times ∧ counts now i time.
Proof.
  intros (time & times & Hl). rewrite cleanup_tracker in Hl. unfold counts.
  assert (time ∈ time :: times) as Hin by left.
  destruct i; try (by exists (time :: times), time; auto);
    (destruct (tracker_of t _ !! node) as [l|]; [|done]); simpl in Hl; injection Hl as Hl;
    rewrite <-Hl in Hin; apply list_elem_of_filter in Hin as [? ?]; by exists l, time; auto.
Qed.

(** A node is reported as faulty only if it is a tracked member and an issue was
    logged against it that is younger than ten minutes (or is about elder votes); the
    elders come first, each group without duplicates from the highest score down, and
    the report forgets exactly the issues of the other kinds that are older. *)
Theorem faulty_nodes_have_issues t now :
  let '(t', faulty) := get_faulty_nodes t now in
  (∀ node, node ∈ faulty →
     node ∈ all_current_nodes t ∧
     ∃ i times time, tracker_of t i !! node = Some times ∧ time ∈ times ∧ counts now i time) ∧
  (∃ es ns, faulty = by_score es ++ by_score ns ∧
     (∀ node, node ∈ by_score es → node ∈ fd_elders t) ∧
     (∀ node, node ∈ by_score ns → node ∈ non_elder_nodes t) ∧
     NoDup (by_score es) ∧ NoDup (by_score ns) ∧
     Sorted (λ a b, default 0 (es !! b) ≤ default 0 (es !! a))%Z (by_score es) ∧
     Sorted (λ a b, default 0 (ns !! b) ≤ default 0 (ns !! a))%Z (by_score ns)) ∧
  (∀ i node, tracker_of t' i !! node =
     match i with
     | ElderVoting => tracker_of t i !! node
     | _ => filter (λ time, now - time < RECENT_ISSUE_DURATION)%Z <$> tracker_of t i !! node
     end).
Proof.
  unfold get_faulty_nodes. cbn zeta. set (t' := cleanup_time_sensistive_checks t now).
  assert (fd_elders t' = fd_elders t ∧ non_elder_nodes t' = non_elder_nodes t) as [He Hn]
    by (by destruct t). rewrite He, Hn.
  assert (∀ ns node, node ∈ by_score (get_weighted_scores t' ns) → node ∈ ns ∧ ∃ i, has_issue t' node i) as Hw.
  { intros ns node [s Hs]%by_score_elem. by eapply weighted_score_issue. }
  split_and!.
  - intros node [[Hin [i Hi%cleanup_issue]]%Hw|[Hin [i Hi%cleanup_issue]]%Hw]%elem_of_app;
      (split; [unfold all_current_nodes; set_solver|]); by exists i.
  - eexists _, _. split; [reflexivity|].
    split_and!; auto using by_score_NoDup, by_score_descending; intros node [? _]%Hw; done.
  - intros i node. apply cleanup_tracker.
Qed.

(** ** Leaving members *)

Lemma remove_node_tracker t node i x :
  tracker_of (remove_node t node) i !! x = if decide (x = node) then None else tracker_of t i !! x.
Proof.
  destruct t, i; simpl; case_decide; subst; rewrite ?lookup_delete_eq, ?lookup_delete_ne by done; done.
Qed.

Lemma remove_nodes_tracker l t i x :
  tracker_of (foldl remove_node t l) i !! x = if decide (x ∈ l) then None else tracker_of t i !! x.
Proof.
  revert t. induction l as [|n l IH]; intros t; simpl; [done|]. rewrite IH, remove_node_tracker.
  repeat case_decide; try done; set_solver.
Qed.
Lemma remove_nodes_members l t :
  non_elder_nodes (foldl remove_node t l) = non_elder_nodes t ∧ fd_elders (foldl remove_node t l) = fd_elders t.
Proof. revert t. induction l as [|n l IH]; intros t; simpl; [done|]. rewrite !(proj1 (IH _)), !(proj2 (IH _)). by destruct t. Qed.

(** After a change of the members the tracker holds exactly the new members, a member
    that left has no issues, and every other node keeps its issues. *)
Theorem retain_forgets_leavers t (ns es : gset XorName) :
  let t' := update_and_only_retain_members t ns es in
  non_elder_nodes t' = ns ∧ fd_elders t' = es ∧
  ∀ i node, tracker_of t' i !! node =
    if decide (node ∈ all_current_nodes t ∖ (ns ∪ es)) then None else tracker_of t i !! node.
Proof.
  unfold update_and_only_retain_members. cbn zeta. set (cur := all_current_nodes t).
  destruct t as [c d v p k o ns0 es0]. simpl. set (t1 := mkDetection _ _ _ _ _ _ ns es).
  set (l := filter _ _). destruct (remove_nodes_members l t1) as [-> ->]. split_and!; [done..|].
  intros i node. rewrite remove_nodes_tracker. replace (tracker_of t1 i) with
    (tracker_of (mkDetection c d v p k o ns0 es0) i) by (by destruct i).
  assert (node ∈ l ↔ node ∈ cur ∖ (ns ∪ es)) as Hl.
  { unfold l. rewrite list_elem_of_filter, elem_of_bset_iter. set_solver. }
  by apply (decide_ext _ _).
Qed.
End detection.

(** ** Concrete sections *)

Module FaultDemo.
Import Xor.ConcreteXor.

Definition member (i : nat) : XorName (Xor := concrete_xor) := Nat.testbit i <$> seq 0 5.
Definition seven_elders : gset (list bool) := list_to_set (member <$> seq 0 7).
Definition ten_adults : gset (list bool) := list_to_set (member <$> seq 16 10).
Definition demo_tracker : FaultDetection := detection_new ten_adults seven_elders.
Definition track_many t node i (count : nat) : FaultDetection :=
  Nat.iter count (λ t, track_issue t node i 0) t.

(** In a section with seven elders, the number of a full section, an elder that
    alone fails to answer is not reported, however often it failed (up to five hundred
    times): its score is at most 2.27 standard deviations away from the mean.  An adult
    among ten that failed ten times is reported. *)
Theorem lone_faulty_elder_unreported :
  (∀ count, count ≤ 500 →
     (get_faulty_nodes (track_many demo_tracker (member 3) Dkg count) 1).2 = []) ∧
  (get_faulty_nodes (track_many demo_tracker (member 16) Dkg 10) 1).2 = [member 16].
Proof.
  split; [|vm_compute; reflexivity].
  assert (forallb (λ count, bool_decide
    ((get_faulty_nodes (track_many demo_tracker (member 3) Dkg count) 1).2 = [])) (seq 0 501) = true) as Hall
    by (vm_compute; reflexivity).
  intros count Hle. rewrite forallb_forall in Hall. eapply bool_decide_eq_true_1, Hall.
  apply in_seq. lia.
Qed.

Lemma lone_faulty_elder_unreported_witness :
  100 ≤ 500 ∧ (get_faulty_nodes (track_many demo_tracker (member 3) Dkg 100) 1).2 = [].
Proof.
  assert (100 ≤ 500) as Hle by lia. split; [exact Hle|].
  exact (proj1 lone_faulty_elder_unreported 100 Hle).
Defined.
End FaultDemo.
