(* ===== verification/MyNode.v ===== *)
(** * The node and its messages

    [sn_node/src/node/mod.rs] ([MyNode]), the messages of
    [sn_interface/src/messaging/system/mod.rs] and [anti_entropy.rs], the commands of
    [sn_node/src/node/flow_ctrl/cmds.rs] and the cache of key shares of
    [network_knowledge/section_keys.rs].

    Message ids are not kept: they are random.  The channel to the fault detection is
    the list of the commands sent over it.  The data storage is seen through the interface
    [DataStore], which the storage model implements (in [NodeDemo]). *)

From S2P Require Import Prelude External Xor NodeState SectionsDag Sap SectionTree MemberHistory.
From S2P Require Import NetworkKnowledge Aggregator Keys Membership Handover Relocation Dkg FaultDetection.

(** ** What a node asks of its data storage *)

Class DataStore {X : Xor} := {
  Store : Type;
  store_data_addrs : Store → list DataAddress;
  store_retain : Store → Prefix → Store;
  store_reached_min_capacity : Store → bool;
  store_below_half_limit : Store → bool;
}.

(** [Consensus::from] of [sn_consensus]: a voting round for an elder with its key share. *)
Class ConsensusStart {B : Bls} {BSh : BlsShares} (P D : Type) {R : ConsensusRounds P D} :=
  con_from : nat * SecretKeyShare → PublicKeySet → nat → Consensus P D.

Section node.
Context {B : Bls} {BSh : BlsShares} {X : Xor} {NH : NameHashing} {E : Ed25519} {EK : EdKeypairs}.
Context {SD : Sdkg} {DS : DataStore}.
Context {Trigger : Type} `{Countable Trigger} {C : ConsensusDecision Trigger}.
Context {R : ConsensusRounds (NodeState Trigger) (Decision Trigger)}.
Context {D : Type} {RH : ConsensusRounds (SapCandidate Trigger) D} {M : Merkle SectionInfo}.
Context {Digest : Type} `{Countable Digest} {Stream : Type}.

Abbreviation SignedSap := (SectionSigned (SectionAuthorityProvider Trigger)).

(** ** Key shares *)

Record SectionKeyShare := mkKeyShare {
  ks_public_key_set : PublicKeySet;
  ks_index : nat;
  ks_secret_key_share : SecretKeyShare;
}.

Definition KEY_CACHE_SIZE : nat := 50.
(** The cache lists the most recent share first and drops the oldest one when full. *)
Definition insert_key_share (cache : list SectionKeyShare) (share : SectionKeyShare) : list SectionKeyShare :=
  take KEY_CACHE_SIZE (share :: cache).

(** ** Messages and commands *)

Inductive JoinResponse :=
  | Approved (decision : Decision Trigger)
  | JoinsDisallowed
  | UnderConsideration.

(** The node that reports [CouldNotStoreData] is given by the name of its key. *)
Inductive NodeMsg :=
  | PrepareToRelocate (trigger : Trigger)
  | ProceedRelocation (trigger : Trigger)
  | CompleteRelocation (signed_relocation : SectionSigned (NodeState Trigger))
  | MembershipVotes (votes : list (SignedVote (NodeState Trigger) (Decision Trigger)))
  | MembershipAE (gen : nat)
  | TryJoin (proof : option (RelocationProof Trigger))
  | JoinResponseMsg (response : JoinResponse)
  | DkgStart (session_id : DkgSessionId Trigger) (sig_share : SectionSigShare)
  | DkgEphemeralPubKey (session_id : DkgSessionId Trigger) (section_auth : SectionSig)
      (pub_key : PublicKey) (sig : EdSignature)
  | DkgVotes (session_id : DkgSessionId Trigger) (pub_keys : gmap XorName (PublicKey * EdSignature))
      (votes : list DkgSignedVote)
  | DkgAE (session_id : DkgSessionId Trigger)
  | RequestHandover (sap : SectionAuthorityProvider Trigger) (sig_share : SectionSigShare)
  | HandoverVotes (votes : list (SignedVote (SapCandidate Trigger) D))
  | HandoverAE (gen : nat)
  | SectionHandoverPromotion (sap : SignedSap) (sig_share : SectionSigShare)
  | SectionSplitPromotion (sap0 : SignedSap) (sig_share0 : SectionSigShare)
      (sap1 : SignedSap) (sig_share1 : SectionSigShare)
  | ProposeNodeOff (vote_node_off : NodeState Trigger) (sig_share : SectionSigShare)
  | CouldNotStoreData (reporter : XorName) (data_address : DataAddress) (full : bool)
  | SendAnyMissingRelevantData (data_i_have : list DataAddress).

(** The bytes of a header, a destination and a payload. *)
Abbreviation WireBytes := (bytes * bytes * bytes)%type.

Inductive AntiEntropyKind :=
  | Retry (bounced_msg : WireBytes)
  | Redirect (bounced_msg : WireBytes)
  | Update (section_decisions : list (Decision Trigger)).

Inductive AntiEntropyMsg :=
  | Probe (section_key : PublicKey)
  | AntiEntropy (kind : AntiEntropyKind) (section_tree_update : SectionTreeUpdate Trigger).

(** Of the messages of a network, those that nodes send to nodes. *)
Inductive NetworkMsg :=
  | AeMsg (msg : AntiEntropyMsg)
  | NodeNetMsg (msg : NodeMsg).

Inductive Recipients :=
  | Single (node : NodeId)
  | Multiple (nodes : gset NodeId).

(** The message of a client, with its id, sender and authority, is in wire form: what it says is
    a matter of [ClientMsgs]. *)
Inductive Cmd :=
  | TryJoinNetwork
  | ProcessNodeMsg (msg : NodeMsg) (node_id : NodeId) (send_stream : option Stream)
  | ProcessAeMsg (kind : AntiEntropyKind) (section_tree_update : SectionTreeUpdate Trigger) (sender : NodeId)
  | SetJoinsAllowed (allowed : bool)
  | SetJoinsAllowedUntilSplit (allowed : bool)
  | HandleCommsError (participant : NodeId)
  | ProposeVoteNodesOffline (names : gset XorName)
  | SendMsgEnqueueAnyResponse (msg : NodeMsg) (recipients : gset NodeId)
  | SendNetworkMsg (msg : NetworkMsg) (recipients : Recipients)
  | SendNodeMsgResponse (msg : NodeMsg) (node : NodeId) (stream : Stream)
  | TrackNodeIssue (name : XorName) (issue : IssueType)
  | UpdateNetworkAndHandleValidClientMsg (proof_chain : SectionsDAG) (signed_sap : SignedSap)
      (client_msg : bytes) (send_stream : Stream)
  | HandleNodeOffAgreement (proposal : NodeState Trigger) (sig : SectionSig)
  | HandleMembershipDecision (decision : Decision Trigger)
  | HandleNewEldersAgreement (new_elders : SignedSap) (sig : SectionSig)
  | HandleNewSectionsAgreement (sap1 : SignedSap) (sig1 : SectionSig) (sap2 : SignedSap) (sig2 : SectionSig)
  | HandleDkgOutcome (section_auth : SectionAuthorityProvider Trigger) (outcome : SectionKeyShare)
  | EnqueueDataForReplication (recipient : NodeId) (data_batch : list DataAddress)
  | UpdateCaller (caller : NodeId) (kind : AntiEntropyKind) (section_tree_update : SectionTreeUpdate Trigger)
  | UpdateCallerOnStream (caller : NodeId) (kind : AntiEntropyKind)
      (section_tree_update : SectionTreeUpdate Trigger) (stream : Stream).

Inductive RejoinReason := RejoinJoinsDisallowed | RemovedFromSection.

Inductive NodeError :=
  | NodeInvalidSignature
  | UntrustedSap
  | FailedToGetSAPforPrefix (prefix : Prefix)
  | InvalidElderCandidates
  | InvalidSplitCandidates
  | InvalidSectionPrefixForCandidate
  | InvalidSectionPrefixForSplitCandidates
  | InvalidRelocationDetails
  | BincodeError
  | HandoverErr (e : HandoverError Trigger D)
  | RequestHandoverAntiEntropy (gen : nat)
  | KnowledgeErr (e : Error)
  | DkgErr (e : DkgError Trigger)
  | InvalidKeyShareSectionKey
  | InvalidSignatureShare
  | NodeNoMatchingSection
  | MessagingErr
  | RejoinRequired (reason : RejoinReason).

(** ** State *)

Record DkgSessionInfo := mkSessionInfo {
  info_session_id : DkgSessionId Trigger;
  info_authority : SectionSig;
}.

Record MyNode := mkNode {
  keypair : Keypair;
  section_keys_provider : list SectionKeyShare;
  network_knowledge : NetworkKnowledge Trigger;
  dkg_start_aggregator : gmap Digest (gset SectionSigShare);
  dkg_sessions_info : gmap Digest DkgSessionInfo;
  dkg_voter : DkgVoter Digest;
  elder_promotion_aggregator : gmap Digest (gset SectionSigShare);
  pending_split_sections : gmap nat (gset SignedSap);
  relocation_state : RelocationState Trigger;
  membership : option (Membership Trigger);
  handover_request_aggregator : gmap Digest (gset SectionSigShare);
  handover_voting : option (Handover Trigger D);
  joins_allowed : bool;
  joins_allowed_until_split : bool;
  section_proposal_aggregator : gmap Digest (gset SectionSigShare);
  data_storage : Store;
  fault_cmds : list FaultsCmd;
  comm_targets : gset NodeId;
}.

Definition set_keypair (n : MyNode) x : MyNode :=
  mkNode x (section_keys_provider n) (network_knowledge n) (dkg_start_aggregator n) (dkg_sessions_info n)
    (dkg_voter n) (elder_promotion_aggregator n) (pending_split_sections n) (relocation_state n) (membership
    n) (handover_request_aggregator n) (handover_voting n) (joins_allowed n) (joins_allowed_until_split n)
    (section_proposal_aggregator n) (data_storage n) (fault_cmds n) (comm_targets n).
Definition set_section_keys (n : MyNode) x : MyNode :=
  mkNode (keypair n) x (network_knowledge n) (dkg_start_aggregator n) (dkg_sessions_info n) (dkg_voter n)
    (elder_promotion_aggregator n) (pending_split_sections n) (relocation_state n) (membership n)
    (handover_request_aggregator n) (handover_voting n) (joins_allowed n) (joins_allowed_until_split n)
    (section_proposal_aggregator n) (data_storage n) (fault_cmds n) (comm_targets n).
Definition set_knowledge (n : MyNode) x : MyNode :=
  mkNode (keypair n) (section_keys_provider n) x (dkg_start_aggregator n) (dkg_sessions_info n) (dkg_voter
    n) (elder_promotion_aggregator n) (pending_split_sections n) (relocation_state n) (membership n)
    (handover_request_aggregator n) (handover_voting n) (joins_allowed n) (joins_allowed_until_split n)
    (section_proposal_aggregator n) (data_storage n) (fault_cmds n) (comm_targets n).
Definition set_dkg_start_aggregator (n : MyNode) x : MyNode :=
  mkNode (keypair n) (section_keys_provider n) (network_knowledge n) x (dkg_sessions_info n) (dkg_voter n)
    (elder_promotion_aggregator n) (pending_split_sections n) (relocation_state n) (membership n)
    (handover_request_aggregator n) (handover_voting n) (joins_allowed n) (joins_allowed_until_split n)
    (section_proposal_aggregator n) (data_storage n) (fault_cmds n) (comm_targets n).
Definition set_dkg_sessions_info (n : MyNode) x : MyNode :=
  mkNode (keypair n) (section_keys_provider n) (network_knowledge n) (dkg_start_aggregator n) x (dkg_voter
    n) (elder_promotion_aggregator n) (pending_split_sections n) (relocation_state n) (membership n)
    (handover_request_aggregator n) (handover_voting n) (joins_allowed n) (joins_allowed_until_split n)
    (section_proposal_aggregator n) (data_storage n) (fault_cmds n) (comm_targets n).
Definition set_dkg_voter (n : MyNode) x : MyNode :=
  mkNode (keypair n) (section_keys_provider n) (network_knowledge n) (dkg_start_aggregator n)
    (dkg_sessions_info n) x (elder_promotion_aggregator n) (pending_split_sections n) (relocation_state n)
    (membership n) (handover_request_aggregator n) (handover_voting n) (joins_allowed n)
    (joins_allowed_until_split n) (section_proposal_aggregator n) (data_storage n) (fault_cmds n)
    (comm_targets n).
Definition set_promotion_aggregator (n : MyNode) x : MyNode :=
  mkNode (keypair n) (section_keys_provider n) (network_knowledge n) (dkg_start_aggregator n)
    (dkg_sessions_info n) (dkg_voter n) x (pending_split_sections n) (relocation_state n) (membership n)
    (handover_request_aggregator n) (handover_voting n) (joins_allowed n) (joins_allowed_until_split n)
    (section_proposal_aggregator n) (data_storage n) (fault_cmds n) (comm_targets n).
Definition set_pending_split (n : MyNode) x : MyNode :=
  mkNode (keypair n) (section_keys_provider n) (network_knowledge n) (dkg_start_aggregator n)
    (dkg_sessions_info n) (dkg_voter n) (elder_promotion_aggregator n) x (relocation_state n) (membership n)
    (handover_request_aggregator n) (handover_voting n) (joins_allowed n) (joins_allowed_until_split n)
    (section_proposal_aggregator n) (data_storage n) (fault_cmds n) (comm_targets n).
Definition set_relocation_state (n : MyNode) x : MyNode :=
  mkNode (keypair n) (section_keys_provider n) (network_knowledge n) (dkg_start_aggregator n)
    (dkg_sessions_info n) (dkg_voter n) (elder_promotion_aggregator n) (pending_split_sections n) x
    (membership n) (handover_request_aggregator n) (handover_voting n) (joins_allowed n)
    (joins_allowed_until_split n) (section_proposal_aggregator n) (data_storage n) (fault_cmds n)
    (comm_targets n).
Definition set_membership (n : MyNode) x : MyNode :=
  mkNode (keypair n) (section_keys_provider n) (network_knowledge n) (dkg_start_aggregator n)
    (dkg_sessions_info n) (dkg_voter n) (elder_promotion_aggregator n) (pending_split_sections n)
    (relocation_state n) x (handover_request_aggregator n) (handover_voting n) (joins_allowed n)
    (joins_allowed_until_split n) (section_proposal_aggregator n) (data_storage n) (fault_cmds n)
    (comm_targets n).
Definition set_request_aggregator (n : MyNode) x : MyNode :=
  mkNode (keypair n) (section_keys_provider n) (network_knowledge n) (dkg_start_aggregator n)
    (dkg_sessions_info n) (dkg_voter n) (elder_promotion_aggregator n) (pending_split_sections n)
    (relocation_state n) (membership n) x (handover_voting n) (joins_allowed n) (joins_allowed_until_split
    n) (section_proposal_aggregator n) (data_storage n) (fault_cmds n) (comm_targets n).
Definition set_handover (n : MyNode) x : MyNode :=
  mkNode (keypair n) (section_keys_provider n) (network_knowledge n) (dkg_start_aggregator n)
    (dkg_sessions_info n) (dkg_voter n) (elder_promotion_aggregator n) (pending_split_sections n)
    (relocation_state n) (membership n) (handover_request_aggregator n) x (joins_allowed n)
    (joins_allowed_until_split n) (section_proposal_aggregator n) (data_storage n) (fault_cmds n)
    (comm_targets n).
Definition set_joins_allowed (n : MyNode) x : MyNode :=
  mkNode (keypair n) (section_keys_provider n) (network_knowledge n) (dkg_start_aggregator n)
    (dkg_sessions_info n) (dkg_voter n) (elder_promotion_aggregator n) (pending_split_sections n)
    (relocation_state n) (membership n) (handover_request_aggregator n) (handover_voting n) x
    (joins_allowed_until_split n) (section_proposal_aggregator n) (data_storage n) (fault_cmds n)
    (comm_targets n).
Definition set_joins_allowed_until_split (n : MyNode) x : MyNode :=
  mkNode (keypair n) (section_keys_provider n) (network_knowledge n) (dkg_start_aggregator n)
    (dkg_sessions_info n) (dkg_voter n) (elder_promotion_aggregator n) (pending_split_sections n)
    (relocation_state n) (membership n) (handover_request_aggregator n) (handover_voting n) (joins_allowed
    n) x (section_proposal_aggregator n) (data_storage n) (fault_cmds n) (comm_targets n).
Definition set_proposal_aggregator (n : MyNode) x : MyNode :=
  mkNode (keypair n) (section_keys_provider n) (network_knowledge n) (dkg_start_aggregator n)
    (dkg_sessions_info n) (dkg_voter n) (elder_promotion_aggregator n) (pending_split_sections n)
    (relocation_state n) (membership n) (handover_request_aggregator n) (handover_voting n) (joins_allowed
    n) (joins_allowed_until_split n) x (data_storage n) (fault_cmds n) (comm_targets n).
Definition set_data_storage (n : MyNode) x : MyNode :=
  mkNode (keypair n) (section_keys_provider n) (network_knowledge n) (dkg_start_aggregator n)
    (dkg_sessions_info n) (dkg_voter n) (elder_promotion_aggregator n) (pending_split_sections n)
    (relocation_state n) (membership n) (handover_request_aggregator n) (handover_voting n) (joins_allowed
    n) (joins_allowed_until_split n) (section_proposal_aggregator n) x (fault_cmds n) (comm_targets n).
Definition set_fault_cmds (n : MyNode) x : MyNode :=
  mkNode (keypair n) (section_keys_provider n) (network_knowledge n) (dkg_start_aggregator n)
    (dkg_sessions_info n) (dkg_voter n) (elder_promotion_aggregator n) (pending_split_sections n)
    (relocation_state n) (membership n) (handover_request_aggregator n) (handover_voting n) (joins_allowed
    n) (joins_allowed_until_split n) (section_proposal_aggregator n) (data_storage n) x (comm_targets n).
Definition set_comm_targets (n : MyNode) x : MyNode :=
  mkNode (keypair n) (section_keys_provider n) (network_knowledge n) (dkg_start_aggregator n)
    (dkg_sessions_info n) (dkg_voter n) (elder_promotion_aggregator n) (pending_split_sections n)
    (relocation_state n) (membership n) (handover_request_aggregator n) (handover_voting n) (joins_allowed
    n) (joins_allowed_until_split n) (section_proposal_aggregator n) (data_storage n) (fault_cmds n) x.

Definition node_name (n : MyNode) : XorName := ed_name (kp_public (keypair n)).
Definition node_is_elder (n : MyNode) : bool := is_elder (network_knowledge n) (node_name n).
(** [joins_allowed] of the node's context. *)
Definition context_joins_allowed (n : MyNode) : bool := joins_allowed n || joins_allowed_until_split n.

Definition SendMsg (msg : NodeMsg) (recipients : Recipients) : Cmd := SendNetworkMsg (NodeNetMsg msg) recipients.

Definition send_to_elders (n : MyNode) (msg : NodeMsg) : Cmd :=
  SendMsg msg (Multiple (nk_elders (network_knowledge n))).

(** The nodes other than us, and us if we are among them. *)
Definition split_nodes_and_self {ON : Ord NodeId} (n : MyNode) (all_nodes : list NodeId)
    : gset NodeId * option NodeId :=
  (list_to_set (filter (λ i, id_name i ≠ node_name n) all_nodes),
   head (bset_iter (list_to_set (filter (λ i, id_name i = node_name n) all_nodes) : gset NodeId))).

(** [cmds.extend(handler?)]: the commands so far and those of a handler, unless it fails. *)
Definition extend_cmds (cmds : list Cmd) (o : option (MyNode * result NodeError (list Cmd)))
    : option (MyNode * result NodeError (list Cmd)) :=
  match o with
  | None => None
  | Some (n, Ok c) => Some (n, Ok (cmds ++ c))
  | Some (n, Err e) => Some (n, Err e)
  end.

(** ** Handlers as a monad

    A handler changes the node and fails with an error, keeping the changes made so far;
    [None] is spent fuel or a panic. *)
Definition NodeM (A : Type) : Type := MyNode → option (MyNode * result NodeError A).
#[export] Instance node_ret : MRet NodeM := λ A a n, Some (n, Ok a).
#[export] Instance node_bind : MBind NodeM := λ A A' f m n,
  match m n with
  | None => None
  | Some (n, Err e) => Some (n, Err e)
  | Some (n, Ok a) => f a n
  end.
Definition gets {A} (f : MyNode → A) : NodeM A := λ n, Some (n, Ok (f n)).
Definition modify (f : MyNode → MyNode) : NodeM unit := λ n, Some (f n, Ok ()).
Definition lift_option {A} (o : option A) : NodeM A := λ n, a ← o; Some (n, Ok a).
Definition lift_result {A} (r : result NodeError A) : NodeM A := λ n, Some (n, r).
Definition when_m (b : bool) (m : NodeM unit) : NodeM unit := if b then m else mret ().

(** ** Fault tracking *)

Definition send_fault_cmd (n : MyNode) (cmd : FaultsCmd) : MyNode := set_fault_cmds n (fault_cmds n ++ [cmd]).

Definition track_node_issue (n : MyNode) (nm : XorName) (issue : IssueType) : MyNode :=
  if decide (node_name n = nm) then n else send_fault_cmd n (TrackIssue nm issue).
Definition untrack_node_issue (n : MyNode) (nm : XorName) (issue : IssueType) : MyNode :=
  send_fault_cmd n (UntrackIssue nm issue).

(** ** Signing with our key share *)

Definition key_share (n : MyNode) (public_key : PublicKey) : result Error SectionKeyShare :=
  ok_or (snd <$> list_find (λ s, public_key = pks_public_key (ks_public_key_set s)) (section_keys_provider n))
    (MissingSecretKeyShare public_key).

Definition sign_with_key_share (data : bytes) (s : SectionKeyShare) : SectionSigShare :=
  share_new (ks_public_key_set s) (ks_index s) (ks_secret_key_share s) data.

Definition sign_with_section_key_share (n : MyNode) (data : bytes) : result NodeError SectionSigShare :=
  match key_share n (nk_section_key (network_knowledge n)) with
  | Err e => Err (KnowledgeErr e)
  | Ok s => Ok (sign_with_key_share data s)
  end.
End node.
Arguments MyNode {_ _ _ _ _ _ _} Trigger {_ _ _ _} D {_ _} Digest {_ _}.
Arguments Cmd {_ _ _ _ _} Trigger {_ _ _ _} D {_ _} Stream.
Arguments NodeError {_ _ _ _ _} Trigger {_ _} D {_}.
Arguments NodeMsg {_ _ _ _ _} Trigger {_ _ _ _} D {_}.
Arguments DkgSessionInfo {_ _} Trigger {_ _}.
Arguments NodeM {_ _ _ _ _ _ _} Trigger {_ _ _ _} D {_ _} Digest {_ _} A.
