(* ===== verification/NodeDemo.v ===== *)
(** * Concrete interfaces of a node

    Instances of the parameters of a node, at which its properties are applied: a key
    pair is its name, a signature names the signer and the message; a key generation
    ends with the votes of all its participants; the data storage holds nothing. *)

From Stdlib Require Import SpecFloat.
From S2P Require Import Prelude External Xor NodeState SectionsDag SectionsDagProps Sap SectionTree.
From S2P Require Import SectionTreeProps MemberHistory MemberHistoryProps NetworkKnowledge.
From S2P Require Import NetworkKnowledgeProps Aggregator Keys Register UsedSpace Storage Membership.
From S2P Require Import MembershipProps Handover Relocation Dkg FaultDetection MyNode.

Module NodeDemo.
Import External.Concrete Xor.ConcreteXor DagDemo TreeDemo HistoryDemo KnowledgeDemo AggregatorDemo.
Import MembershipDemo.

Definition bits_of (bs : bytes) : list bool := (λ z, bool_decide (z = 1%Z)) <$> bs.

#[export] Instance node_ed : Ed25519 := {|
  EdPublicKey := list bool;
  EdSignature := list bool * bytes;
  ed_verify k msg s := bool_decide (s = (k, msg));
  ed_to_bytes k := xn_bytes (Xor := concrete_xor) k;
|}.
#[export] Instance node_keypairs : EdKeypairs := {|
  Keypair := list bool;
  kp_public k := k;
  ed_sign msg k := (k, msg);
  ed_from_bytes bs := Some (bits_of bs);
|}.
#[export] Instance node_public_shares : BlsPublicShares (BSh := concrete_shares) := {|
  PublicKeyShare := nat * nat;
  pkshare_verify k s msg := bool_decide (s = (k, msg));
|}.
#[export] Instance concrete_hashing : NameHashing (X := concrete_xor) := {|
  name_of_bytes := bits_of;
  from_content := bits_of;
  from_content_parts l := bits_of (mjoin l);
  xn_cmp_distance t a b := Nat.compare (common_bits t b) (common_bits t a);
  sig_to_bytes s := s.2;
|}.

#[export] Instance concrete_distance_laws : DistanceLaws (X := concrete_xor).
Proof.
  split; intros *; cbn.
  - apply Nat.compare_antisym.
  - rewrite !Nat.compare_gt_iff. lia.
Qed.

Lemma bits_of_bytes (k : list bool) : bits_of (xn_bytes (Xor := concrete_xor) k) = k.
Proof.
  unfold bits_of. simpl. rewrite <-list_fmap_compose. rewrite <-(list_fmap_id k) at 2.
  apply list_fmap_ext. intros _ [] _; reflexivity.
Qed.
#[export] Instance node_keypair_laws : EdKeypairLaws.
Proof.
  split.
  - intros kp msg. simpl. by apply bool_decide_eq_true.
  - intros k. unfold pub_key, ed_name. cbn -[bits_of xn_bytes]. f_equal.
    by rewrite !bits_of_bytes.
Qed.

(** A session: our index, the number of participants and the votes. *)
#[export] Instance concrete_sdkg : Sdkg (BSh := concrete_shares) := {|
  SecretKey := nat;
  sk_public_key k := k;
  Rng := unit;
  DkgState := nat * nat * list nat;
  DkgSignedVote := nat;
  SdkgError := unit;
  dkg_new i _ ks _ _ := Ok (i, size ks, []);
  dkg_id s := s.1.1;
  dkg_first_vote s := ((s.1, if decide (s.1.1 ∈ s.2) then s.2 else s.1.1 :: s.2), Ok s.1.1);
  dkg_all_votes s := s.2;
  dkg_handle_signed_vote s v _ :=
    if decide (v ∈ s.2) then (s, Ok [])
    else ((s.1, v :: s.2),
          Ok [if decide (length (v :: s.2) = s.1.2) then DkgComplete (100 : nat) ((100, s.1.1) : nat * nat)
              else DkgWaitingForMoreVotes]);
  dkg_reached_termination s := Ok (bool_decide (length s.2 = s.1.2));
  dkg_outcome s := Ok (if decide (length s.2 = s.1.2) then Some ((100 : nat), ((100, s.1.1) : nat * nat)) else None);
  dkg_force_termination s :=
    (s, Ok (if decide (length s.2 = s.1.2) then Some ((100 : nat), ((100, s.1.1) : nat * nat)) else None));
|}.

#[export] Instance concrete_store : DataStore (X := concrete_xor) := {|
  Store := bool;
  store_data_addrs _ := [];
  store_retain s _ := s;
  store_reached_min_capacity s := s;
  store_below_half_limit s := negb s;
|}.

Abbreviation Candidate := (SapCandidate (X := concrete_xor) unit).
#[export] Instance handover_rounds : ConsensusRounds Candidate (list Candidate) :=
  generic_rounds (λ _ l _, l).
#[export] Instance node_id_ord : Ord (NodeId (X := concrete_xor)) := countable_ord.
#[export] Instance signed_sap_ord : Ord (SectionSigned Sap) := countable_ord.
#[export] Instance member_start : ConsensusStart (BSh := concrete_shares) NS (Decision (X := concrete_xor) unit) :=
  λ _ key_set _, (key_set, []).
#[export] Instance handover_start : ConsensusStart (BSh := concrete_shares) Candidate (list Candidate) :=
  λ _ key_set _, (key_set, []).

Definition demo_key_share : SectionKeyShare :=
  mkKeyShare (BSh := concrete_shares) (pk 1 : PublicKeySet (Bls := concrete_bls)) 0 (1, 0).

(** A node with the given name, key shares and knowledge, at its start. *)
Definition fresh_node (name : list bool) (shares : list (SectionKeyShare (BSh := concrete_shares)))
    (k : NetworkKnowledge unit) : MyNode unit (list Candidate) (list bytes) :=
  mkNode (name : Keypair) shares k ∅ ∅ dkg_voter_default ∅ ∅ NoRelocation None ∅ None false false ∅
    (false : Store) [] ∅.
End NodeDemo.

(** * The data storage of a node

    The storage model as an instance of what a node asks of its storage ([DataStore]). *)

Section node_storage.
Context {B : Bls} {BSh : BlsShares} {BPS : BlsPublicShares} {E : Ed25519} {X : Xor} {Cfg : Settings}.
Context {M : Merkle bytes} (from_content : bytes → XorName).
Context {BA : Bincode RegisterAddress}.
Context (CmdId : Type) `{Countable CmdId} (list_files : gmap CmdId RegisterCmd → list RegisterCmd).

Definition is_below_half_limit (s : DataStorage CmdId) : bool :=
  SFltb (ratio (used _ s)) (f64_div (f64_of_Z 1) (f64_of_Z 2)).

#[local] Instance node_storage : DataStore := {|
  Store := DataStorage CmdId;
  store_data_addrs := data_addrs CmdId list_files;
  store_retain := try_retain_data_of from_content CmdId list_files;
  store_reached_min_capacity s := has_reached_min_capacity (used _ s);
  store_below_half_limit := is_below_half_limit;
|}.
End node_storage.
