(* ===== verification/HandoverMsgs.v ===== *)
(** * Handlers of handover messages

    [sn_node/src/node/messaging/handover.rs] and the promotion handlers of
    [sn_node/src/node/messaging/promotion.rs].  A handler returns the new state of the
    node with its result; [None] is spent fuel of a walk over the section chain. *)

From S2P Require Import Prelude External Xor NodeState SectionsDag Sap SectionTree MemberHistory.
From S2P Require Import NetworkKnowledge Aggregator Keys Membership Handover Relocation Dkg FaultDetection MyNode.

Section handlers.
Context {B : Bls} {BSh : BlsShares} {X : Xor} {Cfg : Settings} {E : Ed25519}.
Context {NH : NameHashing} {EK : EdKeypairs} {SD : Sdkg} {DS : DataStore}.
Context {Trigger : Type} `{Countable Trigger} {C : ConsensusDecision Trigger}.
Context {R : ConsensusRounds (NodeState Trigger) (Decision Trigger)}.
Context {D : Type} (decided_proposals : D → list (SapCandidate Trigger)).
Context {RH : ConsensusRounds (SapCandidate Trigger) D} {M : Merkle SectionInfo}.
Context {Digest : Type} `{Countable Digest} (sha3 : list bytes → Digest) {Stream : Type}.
Context {BP : Bincode PublicKey} {BS : Bincode (SectionAuthorityProvider Trigger)}.
Context {ON : Ord NodeId} {OS : Ord (NodeState Trigger)} {OSh : Ord SectionSigShare}.
Context {OSap : Ord (SectionSigned (SectionAuthorityProvider Trigger))}.

Abbreviation SignedSap := (SectionSigned (SectionAuthorityProvider Trigger)).
Abbreviation Node := (MyNode Trigger D Digest).
Abbreviation NodeCmd := (Cmd Trigger D Stream).
Abbreviation Outcome := (MyNode Trigger D Digest * result (NodeError Trigger D) (list NodeCmd))%type.

(** ** Promotions *)

Definition handle_handover_promotion (n : Node) (sap : SignedSap) (sig_share : SectionSigShare)
    (sender : NodeId) : option Outcome :=
  let our_prefix := nk_prefix (network_knowledge n) in
  let sig_share_pk := pks_public_key (share_public_key_set sig_share) in
  if negb (px_matches our_prefix (id_name sender)) then Some (n, Ok [])
  else
    trusted ← has_chain_key (network_knowledge n) sig_share_pk;
    if negb trusted then Some (n, Ok [])
    else
      match bincode_serialize (sig_public_key (sig sap)) with
      | None => Some (n, Err BincodeError)
      | Some serialised_pk =>
          let '(a, r) := try_aggregate Digest sha3 (elder_promotion_aggregator n) serialised_pk sig_share in
          let n := set_promotion_aggregator n a in
          match r with
          | Ok (Some sig) => Some (n, Ok [HandleNewEldersAgreement sap sig])
          | Ok None => Some (n, Ok [])
          | Err _ => Some (n, Ok [])
          end
      end.

Definition handle_section_split_promotion (n : Node) (sap1 : SignedSap) (sig_share1 : SectionSigShare)
    (sap2 : SignedSap) (sig_share2 : SectionSigShare) (sender : NodeId) : option Outcome :=
  let our_prefix := nk_prefix (network_knowledge n) in
  let pk1 := pks_public_key (share_public_key_set sig_share1) in
  let pk2 := pks_public_key (share_public_key_set sig_share2) in
  if negb (px_matches our_prefix (id_name sender)) then Some (n, Ok [])
  else
    trusted1 ← has_chain_key (network_knowledge n) pk1;
    trusted2 ← has_chain_key (network_knowledge n) pk2;
    if negb trusted1 || negb trusted2 then Some (n, Ok [])
    else
      match bincode_serialize (sig_public_key (sig sap1)), bincode_serialize (sig_public_key (sig sap2)) with
      | Some serialised_pk1, Some serialised_pk2 =>
          let '(a, res1) := try_aggregate Digest sha3 (elder_promotion_aggregator n) serialised_pk1 sig_share1 in
          let '(a, res2) := try_aggregate Digest sha3 a serialised_pk2 sig_share2 in
          let n := set_promotion_aggregator n a in
          match res1, res2 with
          | Ok (Some sig1), Ok (Some sig2) => Some (n, Ok [HandleNewSectionsAgreement sap1 sig1 sap2 sig2])
          | _, _ => Some (n, Ok [])
          end
      | _, _ => Some (n, Err BincodeError)
      end.

(** ** Completing a handover *)

Definition candidate_elders (c : SapCandidate Trigger) : list NodeId :=
  match c with
  | ElderHandover sap => bset_iter (sap_elders (value sap))
  | SectionSplit sap1 sap2 => bset_iter (sap_elders (value sap1)) ++ bset_iter (sap_elders (value sap2))
  end.

(** Our share over the key of a new authority. *)
Definition sign_sap_key (n : Node) (sap : SignedSap) : result (NodeError Trigger D) SectionSigShare :=
  match bincode_serialize (sig_public_key (sig sap)) with
  | None => Err BincodeError
  | Some bs => sign_with_section_key_share n bs
  end.

(** The commands of our own promotion; its failure is only logged. *)
Definition add_own (cmds : list NodeCmd) (own : option Outcome) : option Outcome :=
  '(n, r) ← own;
  Some (n, Ok (cmds ++ match r with Ok c => c | Err _ => [] end)).

Definition broadcast_handover_completed (n : Node) (candidate : SapCandidate Trigger) : option Outcome :=
  let '(others, myself) := split_nodes_and_self n (candidate_elders candidate) in
  let nodes := Multiple others in
  match candidate with
  | ElderHandover sap =>
      match sign_sap_key n sap with
      | Err e => Some (n, Err e)
      | Ok sig_share =>
          let cmds := [SendMsg (SectionHandoverPromotion sap sig_share) nodes] in
          match myself with
          | Some elder => add_own cmds (handle_handover_promotion n sap sig_share elder)
          | None => Some (n, Ok cmds)
          end
      end
  | SectionSplit sap0 sap1 =>
      match sign_sap_key n sap0 with
      | Err e => Some (n, Err e)
      | Ok sig_share0 =>
          match sign_sap_key n sap1 with
          | Err e => Some (n, Err e)
          | Ok sig_share1 =>
              let cmds := [SendMsg (SectionSplitPromotion sap0 sig_share0 sap1 sig_share1) nodes] in
              match myself with
              | Some elder =>
                  add_own cmds (handle_section_split_promotion n sap0 sig_share0 sap1 sig_share1 elder)
              | None => Some (n, Ok cmds)
              end
          end
      end
  end.

(** ** Proposing *)

Definition broadcast_handover_vote_msg (n : Node) (v : SignedVote (SapCandidate Trigger) D) : NodeCmd :=
  send_to_elders n (HandoverVotes [v]).

Definition propose_handover_consensus (n : Node) (sap_candidates : SapCandidate Trigger) : option Outcome :=
  match handover_voting n with
  | None => Some (n, Ok [])
  | Some h =>
      let '(vs, r) := ho_propose h sap_candidates in
      match r with
      | Err e => Some (n, Err (HandoverErr e))
      | Ok vote =>
          let n := set_handover n (Some vs) in
          let cmds := [broadcast_handover_vote_msg n vote] in
          match consensus_value decided_proposals vs with
          | Some _ => add_own cmds (broadcast_handover_completed n sap_candidates)
          | None => Some (n, Ok cmds)
          end
      end
  end.

Definition handle_request_handover_agreement (n : Node) (sap : SectionAuthorityProvider Trigger)
    (s : SectionSig) : option Outcome :=
  let our_prefix := nk_prefix (network_knowledge n) in
  let equal_prefix := bool_decide (sap_prefix sap = our_prefix) in
  let is_extension_prefix := px_is_extension_of (sap_prefix sap) our_prefix in
  if negb equal_prefix && negb is_extension_prefix then Some (n, Ok [])
  else
    let signed_sap := mkSectionSigned sap s in
    if equal_prefix then propose_handover_consensus n (ElderHandover signed_sap)
    else
      let membership_gen := sap_membership_gen sap in
      let candidates := {[signed_sap]} ∪ default ∅ (pending_split_sections n !! membership_gen) in
      let n := set_pending_split n (<[membership_gen := candidates]> (pending_split_sections n)) in
      match bset_iter candidates with
      | [sap1; sap2] => propose_handover_consensus n (SectionSplit sap1 sap2)
      | _ => Some (n, Ok [])
      end.

Definition handle_handover_request (n : Node) (sap : SectionAuthorityProvider Trigger)
    (sig_share : SectionSigShare) (sender : NodeId) : option Outcome :=
  if negb (contains_elder sap (id_name sender)) then Some (n, Ok [])
  else
    match bincode_serialize sap with
    | None => Some (n, Err BincodeError)
    | Some serialised_sap =>
        let '(a, r) := total_try_aggregate Digest sha3 (handover_request_aggregator n) serialised_sap sig_share
                         (sap_elder_count sap) in
        let n := set_request_aggregator n a in
        match r with
        | Ok (Some sig) => handle_request_handover_agreement n sap sig
        | Ok None => Some (n, Ok [])
        | Err _ => Some (n, Ok [])
        end
    end.

(** ** Checking candidates *)

Definition check_sap_sig (sap : SignedSap) : result (NodeError Trigger D) unit :=
  match bincode_serialize (value sap) with
  | None => Err BincodeError
  | Some sap_bytes =>
      if negb (section_sig_verify (sig sap) sap_bytes) then Err NodeInvalidSignature
      else if decide (section_key (value sap) = sig_public_key (sig sap)) then Ok ()
      else Err UntrustedSap
  end.

Definition get_sap_for_prefix (n : Node) (prefix : Prefix)
    : result (NodeError Trigger D) (SectionAuthorityProvider Trigger) :=
  ok_or (value <$> get_signed (nk_section_tree (network_knowledge n)) prefix) (FailedToGetSAPforPrefix prefix).

Definition check_elder_handover_candidates (n : Node) (sap : SectionAuthorityProvider Trigger)
    : result (NodeError Trigger D) unit :=
  previous_gen_sap ← get_sap_for_prefix n (sap_prefix sap);
  let members := members_at_gen (nk_section_members (network_knowledge n)) (sap_membership_gen sap) in
  let received_candidates := sap_elders sap in
  let expected_candidates := set_map node_id (elder_candidates (map_img members) previous_gen_sap) in
  if decide (received_candidates = expected_candidates) then Ok () else Err InvalidElderCandidates.

Definition session_nodes (s : DkgSessionId Trigger) : gset NodeId :=
  list_to_set ((λ e, mkNodeId e.1 e.2) <$> map_to_list (dkg_elders s)).

Definition check_section_split_candidates (n : Node) (sap1 sap2 : SectionAuthorityProvider Trigger)
    : result (NodeError Trigger D) unit :=
  let prev_prefix := px_popped (sap_prefix sap1) in
  previous_gen_sap ← get_sap_for_prefix n prev_prefix;
  let members := members_at_gen (nk_section_members (network_knowledge n)) (sap_membership_gen previous_gen_sap) in
  match try_split_dkg members previous_gen_sap 0 0 with
  | Some (dkg1, dkg2) =>
      let received1 := sap_elders sap1 in
      let received2 := sap_elders sap2 in
      let expected1 := session_nodes dkg1 in
      let expected2 := session_nodes dkg2 in
      if decide ((received1 ≠ expected1 ∨ received2 ≠ expected2) ∧
                 (received2 ≠ expected1 ∨ received1 ≠ expected2))
      then Err InvalidElderCandidates else Ok ()
  | None => Err InvalidSplitCandidates
  end.

Definition check_sap_candidate_prefix (n : Node) (c : SapCandidate Trigger)
    : result (NodeError Trigger D) unit :=
  let our_p := nk_prefix (network_knowledge n) in
  match c with
  | ElderHandover sap =>
      if decide (sap_prefix (value sap) = our_p) then Ok () else Err InvalidSectionPrefixForCandidate
  | SectionSplit sap1 sap2 =>
      let p1 := sap_prefix (value sap1) in
      let p2 := sap_prefix (value sap2) in
      if px_is_extension_of p1 our_p && px_is_extension_of p2 our_p &&
         bool_decide (px_bit_count p1 = px_bit_count our_p + 1) &&
         bool_decide (px_bit_count p2 = px_bit_count our_p + 1) && bool_decide (p1 ≠ p2)
      then Ok () else Err InvalidSectionPrefixForSplitCandidates
  end.

Definition check_sap_candidate (n : Node) (c : SapCandidate Trigger) : result (NodeError Trigger D) unit :=
  _ ← check_sap_candidate_prefix n c;
  match c with
  | ElderHandover sap =>
      _ ← check_sap_sig sap;
      check_elder_handover_candidates n (value sap)
  | SectionSplit sap1 sap2 =>
      _ ← check_sap_sig sap1;
      _ ← check_sap_sig sap2;
      check_section_split_candidates n (value sap1) (value sap2)
  end.

(** Every candidate of the vote is checked and the outcome of the check dropped. *)
Fixpoint check_candidates (n : Node) (l : list (SapCandidate Trigger)) : result (NodeError Trigger D) unit :=
  match l with
  | [] => Ok ()
  | c :: l => let _ := check_sap_candidate n c in check_candidates n l
  end.
Definition check_signed_vote_saps (n : Node) (v : SignedVote (SapCandidate Trigger) D)
    : result (NodeError Trigger D) unit := check_candidates n (vote_proposals v).

(** ** Votes *)

Definition handle_vote (n : Node) (h : Handover Trigger D) (v : SignedVote (SapCandidate Trigger) D)
    : Handover Trigger D * result (NodeError Trigger D) (list NodeCmd) :=
  let '(h, r) := ho_handle_signed_vote h v in
  match r with
  | Ok (Broadcast v) => (h, Ok [broadcast_handover_vote_msg n v])
  | Ok WaitingForMoreVotes => (h, Ok [])
  | Err HandoverRequestAntiEntropy => (h, Err (RequestHandoverAntiEntropy (ho_gen h)))
  | Err _ => (h, Ok [])
  end.

Definition handle_handover_vote (n : Node) (v : SignedVote (SapCandidate Trigger) D) : option Outcome :=
  match check_signed_vote_saps n v with
  | Err e => Some (n, Err e)
  | Ok _ =>
      match handover_voting n with
      | None => Some (n, Ok [])
      | Some h =>
          let had_consensus_value := consensus_value decided_proposals h in
          let '(state, r) := handle_vote n h v in
          match r with
          | Err e => Some (n, Err e)
          | Ok cmds =>
              let state := handle_empty_set_decision decided_proposals state in
              '(n, r) ← match consensus_value decided_proposals state, had_consensus_value with
                        | Some candidates_sap, None =>
                            add_own cmds (broadcast_handover_completed n candidates_sap)
                        | _, _ => Some (n, Ok cmds)
                        end;
              Some (set_handover n (Some state), r)
          end
      end
  end.

Fixpoint handle_handover_msg (n : Node) (node_id : NodeId)
    (votes : list (SignedVote (SapCandidate Trigger) D)) : option Outcome :=
  match votes with
  | [] => Some (n, Ok [])
  | v :: votes =>
      '(n, r) ← handle_handover_vote n v;
      match r with
      | Ok cmds =>
          match handle_handover_msg n node_id votes with
          | None => None
          | Some (n, Ok rest) => Some (n, Ok (cmds ++ rest))
          | Some (n, Err e) => Some (n, Err e)
          end
      | Err (RequestHandoverAntiEntropy gen) => Some (n, Ok [SendMsg (HandoverAE gen) (Single node_id)])
      | Err e => Some (n, Err e)
      end
  end.

Definition handle_handover_anti_entropy (n : Node) (node_id : NodeId) (gen : nat) : option NodeCmd :=
  h ← handover_voting n;
  match ho_anti_entropy h gen with
  | Ok catchup_votes => Some (SendMsg (HandoverVotes catchup_votes) (Single node_id))
  | Err _ => None
  end.
End handlers.
