(* ===== verification/HandoverProps.v ===== *)
(** * Properties of handover votes

    Failed rounds are numbered without gaps; a candidate that passes the checks is what
    the section expects; and the checks are never applied to a vote. *)

From S2P Require Import Prelude External Xor NodeState SectionsDag Sap SectionTree MemberHistory.
From S2P Require Import NetworkKnowledge Aggregator Keys Membership Handover Relocation Dkg FaultDetection MyNode HandoverMsgs.
From S2P Require Import SectionsDagProps SectionTreeProps MemberHistoryProps NetworkKnowledgeProps.
From S2P Require Import MembershipProps NodeDemo.

Section rounds.
Context {B : Bls} {X : Xor} {Trigger : Type} `{Countable Trigger}.
Context {D : Type} (decided_proposals : D → list (SapCandidate Trigger)).
Context {RH : ConsensusRounds (SapCandidate Trigger) D}.
Implicit Types (h : Handover Trigger D).

(** The operations of an elder on its handover state. *)
Inductive ho_step : Handover Trigger D → Handover Trigger D → Prop :=
  | step_propose h c : ho_step h (ho_propose h c).1
  | step_vote h v : ho_step h (ho_handle_signed_vote h v).1
  | step_empty h : ho_step h (handle_empty_set_decision decided_proposals h).

(** The failed rounds are those before the current generation, each without proposals. *)
Definition rounds_ok h : Prop :=
  (∀ g, is_Some (failed_consensus_rounds h !! g) ↔ g < ho_gen h) ∧
  map_Forall (λ _ e, decided_proposals e.2 = []) (failed_consensus_rounds h).

Lemma outdated_spec h v :
  rounds_ok h → vote_gen v < ho_gen h →
  ∃ c d c' r, failed_consensus_rounds h !! vote_gen v = Some (c, d) ∧
    handle_outdated_signed_vote h v =
      (mkHandover (ho_consensus h) (<[vote_gen v := (c', d)]> (failed_consensus_rounds h)) (ho_gen h),
       map_err ConsensusFault r).
Proof.
  intros [Hg _] Hlt. destruct (proj2 (Hg (vote_gen v)) Hlt) as [[c d] Hl].
  unfold handle_outdated_signed_vote. rewrite Hl.
  destruct (con_handle_signed_vote c v) as [c' r]. by exists c, d, c', r.
Qed.

Lemma rounds_ok_vote h v : rounds_ok h → rounds_ok (ho_handle_signed_vote h v).1.
Proof.
  intros Hok. unfold ho_handle_signed_vote. destruct (Nat.compare_spec (vote_gen v) (ho_gen h)) as [_|Hlt|_].
  - destruct (con_handle_signed_vote (ho_consensus h) v). exact Hok.
  - destruct (outdated_spec h v Hok Hlt) as (c & d & c' & r & Hl & ->). destruct Hok as [Hg Hf].
    split; simpl.
    + intros g. rewrite lookup_insert. case_decide as Heq; [|apply Hg]. subst. split; [done|eauto].
    + apply map_Forall_insert_2; [|done]. by apply (Hf _ _ Hl).
  - exact Hok.
Qed.

Lemma rounds_ok_step h h' : ho_step h h' → rounds_ok h → rounds_ok h'.
Proof.
  intros [h0 c|h0 v|h0] Hok.
  - unfold ho_propose, ho_cast_vote. destruct (_ && _); [done|].
    destruct (con_sign_propose _ _ _ _) as [v|]; [|done]. destruct (vote_byzantine _ _); [done|].
    destruct (con_cast_vote _ _). exact Hok.
  - by apply rounds_ok_vote.
  - unfold handle_empty_set_decision. destruct (con_decision _) as [d|]; [|done].
    destruct (decided_proposals d) eqn:Hd; [|done]. destruct Hok as [Hg Hf]. split; simpl.
    + intros g. rewrite lookup_insert. case_decide as Heq; [subst; split; [lia|eauto]|].
      rewrite Hg. lia.
    + by apply map_Forall_insert_2.
Qed.

Lemma rounds_ok_reachable c h : rtc ho_step (handover_from c) h → rounds_ok h.
Proof.
  intros Hr. assert (rounds_ok (handover_from c)) as H0.
  { split; [|apply map_Forall_empty]. intros g. simpl. rewrite lookup_empty, is_Some_alt. lia. }
  revert H0. induction Hr; eauto using rounds_ok_step.
Qed.

(** C35: whatever an elder proposes and votes on, its failed rounds are exactly the
    generations before the current one and all ended without a proposal, so a vote for
    an older generation always finds its round; anti-entropy is requested exactly for
    votes of a later generation. *)
Theorem handover_history_complete c h v :
  rtc ho_step (handover_from c) h →
  rounds_ok h ∧
  (∀ g g', (ho_handle_signed_vote h v).2 ≠ Err (CorruptedHandoverHistory g g')) ∧
  ((ho_handle_signed_vote h v).2 = Err HandoverRequestAntiEntropy ↔ ho_gen h < vote_gen v).
Proof.
  intros Hok%rounds_ok_reachable. split; [done|]. unfold ho_handle_signed_vote.
  destruct (Nat.compare_spec (vote_gen v) (ho_gen h)) as [Heq|Hlt|Hgt].
  - destruct (con_handle_signed_vote (ho_consensus h) v) as [c' [r|e]]; simpl; split; try done;
      (split; [done|lia]).
  - destruct (outdated_spec h v Hok Hlt) as (c1 & d & c2 & [r|e] & _ & ->); simpl; split; try done;
      (split; [done|lia]).
  - simpl. split; done.
Qed.
End rounds.

(** ** Candidates *)

Section candidates.
Context {B : Bls} {BSh : BlsShares} {X : Xor} {XL : XorLaws} {Cfg : Settings} {E : Ed25519}.
Context {NH : NameHashing} {EK : EdKeypairs} {SD : Sdkg} {DS : DataStore}.
Context {Trigger : Type} `{Countable Trigger} {C : ConsensusDecision Trigger}.
Context {R : ConsensusRounds (NodeState Trigger) (Decision Trigger)}.
Context {D : Type} {RH : ConsensusRounds (SapCandidate Trigger) D} {M : Merkle SectionInfo}.
Context {Digest : Type} `{Countable Digest}.
Context {BP : Bincode PublicKey} {BS : Bincode (SectionAuthorityProvider Trigger)}.
Context {ON : Ord NodeId} {OS : Ord (NodeState Trigger)}.
Implicit Types (n : MyNode Trigger D Digest) (p q : Prefix).

Lemma child_of p q :
  px_is_extension_of q p = true → px_bit_count q = px_bit_count p + 1 → ∃ b, q = px_pushed p b.
Proof.
  rewrite px_is_extension_of_spec, !px_bit_count_spec. intros [[l Hl] _] Hlen.
  rewrite Hl, length_app in Hlen. destruct l as [|b [|]]; simpl in Hlen; try lia.
  exists b. apply px_bits_inj. by rewrite px_pushed_spec.
Qed.

Lemma pushed_child p b :
  px_is_extension_of (px_pushed p b) p = true ∧ px_bit_count (px_pushed p b) = px_bit_count p + 1.
Proof.
  rewrite px_is_extension_of_spec, !px_bit_count_spec, px_pushed_spec, length_app. split; [|done].
  split; [by exists [b]|]. intros Heq%(f_equal px_bits). rewrite px_pushed_spec in Heq.
  apply (f_equal length) in Heq. rewrite length_app in Heq. simpl in Heq. lia.
Qed.

Lemma pushed_inj p b b' : px_pushed p b = px_pushed p b' → b = b'.
Proof.
  intros Heq%(f_equal px_bits). rewrite !px_pushed_spec in Heq. by apply app_inj_2 in Heq as [_ [= ->]].
Qed.

(** Split candidates are for the two children of our prefix, in either order. *)
Lemma split_prefix_spec n sap1 sap2 :
  check_sap_candidate_prefix (D := D) n (SectionSplit sap1 sap2) = Ok () ↔
  ∃ b, sap_prefix (value sap1) = px_pushed (nk_prefix (network_knowledge n)) b ∧
       sap_prefix (value sap2) = px_pushed (nk_prefix (network_knowledge n)) (negb b).
Proof.
  unfold check_sap_candidate_prefix. set (p := nk_prefix _).
  set (p1 := sap_prefix _). set (p2 := sap_prefix _). split.
  - destruct (px_is_extension_of p1 p) eqn:H1; [|done]. destruct (px_is_extension_of p2 p) eqn:H2; [|done].
    simpl. case_bool_decide as Hb1; [|done]. case_bool_decide as Hb2; [|done]. case_bool_decide as Hne; [|done].
    intros _. destruct (child_of p p1 H1 Hb1) as [b Hp1], (child_of p p2 H2 Hb2) as [b' Hp2].
    exists b. split; [done|]. rewrite Hp2. f_equal. destruct b, b'; simpl; congruence.
  - intros (b & -> & ->). destruct (pushed_child p b) as [-> Hb], (pushed_child p (negb b)) as [-> Hb'].
    rewrite !bool_decide_eq_true_2; [done| |done..]. intros ?%pushed_inj. by destruct b.
Qed.

(** The authority is signed by the key it announces. *)
Definition sap_self_signed (sap : SectionSigned (SectionAuthorityProvider Trigger)) : Prop :=
  section_key (value sap) = sig_public_key (sig sap) ∧
  ∃ bs, bincode_serialize (value sap) = Some bs ∧ section_sig_verify (sig sap) bs = true.

Lemma check_sap_sig_spec sap : check_sap_sig (D := D) sap = Ok () ↔ sap_self_signed sap.
Proof.
  unfold check_sap_sig, sap_self_signed. destruct (bincode_serialize (value sap)) as [bs|];
    [|split; [done|by intros (_ & ? & ? & _)]].
  destruct (section_sig_verify (sig sap) bs) eqn:Hv; simpl.
  - case_decide as Hk; split; [by eauto|done|done|by intros [? _]].
  - split; [done|]. intros (_ & bs' & [= <-] & Hv'). congruence.
Qed.

(** The elders the section expects: the oldest members at the generation of the
    authority for a handover, those of the two split sessions for a split. *)
Definition expected_candidate n (c : SapCandidate Trigger) : Prop :=
  let p := nk_prefix (network_knowledge n) in
  let known q := value <$> get_signed (nk_section_tree (network_knowledge n)) q in
  let members g := members_at_gen (nk_section_members (network_knowledge n)) g in
  match c with
  | ElderHandover sap =>
      sap_prefix (value sap) = p ∧ sap_self_signed sap ∧
      ∃ prev, known p = Some prev ∧
        sap_elders (value sap) =
          set_map node_id (elder_candidates (map_img (members (sap_membership_gen (value sap)))) prev)
  | SectionSplit sap1 sap2 =>
      (∃ b, sap_prefix (value sap1) = px_pushed p b ∧ sap_prefix (value sap2) = px_pushed p (negb b)) ∧
      sap_self_signed sap1 ∧ sap_self_signed sap2 ∧
      ∃ prev z o, known p = Some prev ∧
        try_split_dkg (members (sap_membership_gen prev)) prev 0 0 = Some (z, o) ∧
        (sap_elders (value sap1) = session_nodes z ∧ sap_elders (value sap2) = session_nodes o ∨
         sap_elders (value sap1) = session_nodes o ∧ sap_elders (value sap2) = session_nodes z)
  end.

Lemma popped_pushed p b : px_popped (px_pushed p b) = p.
Proof.
  apply px_bits_inj. rewrite px_popped_spec, px_pushed_spec, length_app. simpl.
  by rewrite Nat.add_sub, take_app_length.
Qed.

Lemma check_handover_spec n sap :
  sap_prefix sap = nk_prefix (network_knowledge n) →
  check_elder_handover_candidates n sap = Ok () ↔
  ∃ prev, value <$> get_signed (nk_section_tree (network_knowledge n)) (nk_prefix (network_knowledge n)) = Some prev ∧
    sap_elders sap = set_map node_id (elder_candidates
      (map_img (members_at_gen (nk_section_members (network_knowledge n)) (sap_membership_gen sap))) prev).
Proof.
  intros Hp. unfold check_elder_handover_candidates, get_sap_for_prefix. rewrite Hp.
  destruct (value <$> get_signed _ _) as [prev|]; simpl; [|naive_solver].
  case_decide; naive_solver.
Qed.

Lemma check_split_spec n sap1 sap2 b :
  sap_prefix sap1 = px_pushed (nk_prefix (network_knowledge n)) b →
  check_section_split_candidates n sap1 sap2 = Ok () ↔
  ∃ prev z o,
    value <$> get_signed (nk_section_tree (network_knowledge n)) (nk_prefix (network_knowledge n)) = Some prev ∧
    try_split_dkg (members_at_gen (nk_section_members (network_knowledge n)) (sap_membership_gen prev)) prev 0 0
      = Some (z, o) ∧
    (sap_elders sap1 = session_nodes z ∧ sap_elders sap2 = session_nodes o ∨
     sap_elders sap1 = session_nodes o ∧ sap_elders sap2 = session_nodes z).
Proof.
  intros Hp. unfold check_section_split_candidates, get_sap_for_prefix. rewrite Hp, popped_pushed.
  destruct (value <$> get_signed _ _) as [prev|]; simpl; [|naive_solver].
  destruct (try_split_dkg _ prev 0 0) as [[z o]|] eqn:Hs; [|naive_solver].
  case_decide as Hd; split; try done.
  - intros (prev' & z' & o' & [= <-] & Hs' & He). rewrite Hs in Hs'. injection Hs' as <- <-. naive_solver.
  - intros _. exists prev, z, o. split_and!; [done..|].
    destruct (decide (sap_elders sap1 = session_nodes z ∧ sap_elders sap2 = session_nodes o)) as [|Hn];
      [by left|right].
    destruct (decide (sap_elders sap1 = session_nodes o ∧ sap_elders sap2 = session_nodes z)) as [|Hn'];
      [done|]. destruct Hd. split.
    + destruct (decide (sap_elders sap1 = session_nodes z)); [right|by left]. intros ?. by apply Hn.
    + destruct (decide (sap_elders sap1 = session_nodes o)); [left|by right]. intros ?. by apply Hn'.
Qed.

(** The checks of a handover candidate accept exactly what the section expects: an
    authority that signs itself, for our prefix with the oldest members of its
    generation as elders, or two for the children of our prefix with the elders of the
    two split sessions. *)
Theorem check_sap_candidate_exact n c : check_sap_candidate n c = Ok () ↔ expected_candidate n c.
Proof.
  unfold check_sap_candidate. destruct c as [sap|sap1 sap2].
  - unfold expected_candidate, check_sap_candidate_prefix. cbn zeta.
    destruct (decide (sap_prefix (value sap) = nk_prefix (network_knowledge n))) as [Hp|Hp]; simpl;
      [|naive_solver].
    rewrite <-check_handover_spec, <-check_sap_sig_spec by done.
    destruct (check_sap_sig sap) as [[]|]; simpl; naive_solver.
  - unfold expected_candidate. cbn zeta. rewrite <-split_prefix_spec.
    destruct (check_sap_candidate_prefix n (SectionSplit sap1 sap2)) as [[]|] eqn:Hp; simpl; [|naive_solver].
    apply split_prefix_spec in Hp as (b & Hp & _). rewrite <-(check_split_spec n _ _ b Hp), <-!check_sap_sig_spec.
    destruct (check_sap_sig sap1) as [[]|]; simpl; [|naive_solver].
    destruct (check_sap_sig sap2) as [[]|]; simpl; naive_solver.
Qed.
End candidates.

(** ** Concrete votes

    An elder of the genesis section with key 1, and a candidate for the prefix 1 that
    is signed by no key. *)

Module HandoverDemo.
Import External.Concrete Xor.ConcreteXor DagDemo TreeDemo HistoryDemo KnowledgeDemo AggregatorDemo.
Import MembershipDemo NodeDemo.

Definition proposals (d : list Candidate) : list Candidate := d.

Definition bad_sap : SectionSigned Sap :=
  mkSectionSigned (mkSap [true] (pk 6) {[demo_id [true; true] 4]} ∅ 0) (mkSectionSig (pk 6) (pk 9, [])).
Definition bad_vote : SignedVote Candidate (list Candidate) := (0, [ElderHandover bad_sap], pk 1).

Definition demo_round : Consensus Candidate (list Candidate) := (pk 1, [bad_vote]).
Definition late_vote : SignedVote Candidate (list Candidate) := (3, [], pk 1).
Definition demo_node : MyNode unit (list Candidate) (list bytes) :=
  set_handover (fresh_node [false; false] [demo_key_share] genesis_knowledge) (Some (handover_from demo_round)).

Abbreviation demo_handle_vote :=
  (handle_handover_vote (Stream := unit) proposals concat_hash demo_node).

(** The candidate and the share of a promotion, when that is the only command. *)
Definition promotion (o : option (MyNode unit (list Candidate) (list bytes) *
    result (NodeError unit (list Candidate)) (list (Cmd unit (list Candidate) unit))))
    : option (SectionSigned Sap * SectionSigShare) :=
  match o with
  | Some (_, Ok [SendNetworkMsg (NodeNetMsg (SectionHandoverPromotion sap share)) _]) => Some (sap, share)
  | _ => None
  end.

(** The candidates of a handover vote are checked but the outcome is dropped: an
    elder that receives the deciding vote for an authority with the wrong prefix and an
    invalid signature signs its key and sends the promotion. *)
Theorem unchecked_candidate_promoted :
  is_ok (check_sap_candidate demo_node (ElderHandover bad_sap)) = false ∧
  is_ok (check_sap_sig (D := list Candidate) bad_sap) = false ∧
  ∃ share, promotion (demo_handle_vote bad_vote) = Some (bad_sap, share) ∧
    share_verify share (default [] (bincode_serialize (pk 6))) = true.
Proof.
  split; [vm_compute; reflexivity|]. split; [vm_compute; reflexivity|].
  exists (share_new (BSh := concrete_shares) (pk 1) 0 (1, 0) (default [] (bincode_serialize (pk 6)))).
  split; [reflexivity|vm_compute; reflexivity].
Qed.

Lemma handover_history_complete_witness :
  rounds_ok proposals (handover_from demo_round) ∧
  (ho_handle_signed_vote (handover_from demo_round) late_vote).2 = Err HandoverRequestAntiEntropy.
Proof.
  destruct (handover_history_complete proposals demo_round (handover_from demo_round)
    late_vote (rtc_refl _ _)) as (Hok & _ & Hae).
  split; [exact Hok|]. apply Hae. apply (bool_decide_unpack _). vm_compute. exact I.
Defined.

(** The exact check has no hypothesis but the laws of the address space. *)
Lemma check_sap_candidate_exact_witness :
  is_ok (check_sap_candidate demo_node (ElderHandover bad_sap)) = false ∧
  (expected_candidate demo_node (ElderHandover bad_sap) → False).
Proof.
  assert (is_ok (check_sap_candidate demo_node (ElderHandover bad_sap)) = false) as Hno
    by (vm_compute; reflexivity).
  split; [exact Hno|]. intros He.
  rewrite (proj2 (check_sap_candidate_exact demo_node (ElderHandover bad_sap)) He) in Hno. discriminate Hno.
Defined.
End HandoverDemo.
