(* ===== verification/JoinMsgs.v ===== *)
(** * Handlers of joins, membership votes and relocations

    [sn_node/src/node/messaging/joining_nodes.rs], [membership.rs] and [relocation.rs] of
    the same directory.  The time of a vote is an argument; a response stream is an
    opaque value. *)

From S2P Require Import Prelude External Xor NodeState SectionsDag Sap SectionTree MemberHistory.
From S2P Require Import NetworkKnowledge Aggregator Keys Membership Handover Relocation Dkg FaultDetection MyNode.

Section handlers.
Context {B : Bls} {BSh : BlsShares} {X : Xor} {Cfg : Settings} {E : Ed25519} {NH : NameHashing}.
Context {EK : EdKeypairs} {SD : Sdkg} {DS : DataStore}.
Context {Trigger : Type} `{Countable Trigger} {C : ConsensusDecision Trigger} {RT : RelocationTriggers Trigger}.
Context {R : ConsensusRounds (NodeState Trigger) (Decision Trigger)}.
Context {D : Type} {RH : ConsensusRounds (SapCandidate Trigger) D} {M : Merkle SectionInfo}.
Context {Digest : Type} `{Countable Digest} {Stream : Type}.
Context {BP : Bincode PublicKey} {BN : Bincode (NodeState Trigger)} {BI : Bincode (RelocationInfo Trigger)}.
Context {OS : Ord (NodeState Trigger)}.

Abbreviation Node := (MyNode Trigger D Digest).
Abbreviation NodeCmd := (Cmd Trigger D Stream).
Abbreviation MemberVote := (SignedVote (NodeState Trigger) (Decision Trigger)).

(** ** Membership votes *)

Definition propose_membership_change (n : Node) (now : nat) (node_state : NodeState Trigger)
    : Node * option NodeCmd :=
  match membership n with
  | Some m =>
      let '(m, r) := propose m now node_state (nk_prefix (network_knowledge n)) in
      let n' := set_membership n (Some m) in
      match r with
      | Ok vote => (n', Some (send_to_elders n (MembershipVotes [vote])))
      | Err _ => (n', None)
      end
  | None => (n, None)
  end.

Definition membership_gossip_votes (n : Node) : option NodeCmd :=
  m ← membership n;
  match anti_entropy m (gen m) with
  | Ok ae_votes => Some (send_to_elders n (MembershipVotes ae_votes))
  | Err _ => None
  end.

(** [None] without a membership instance: the votes are dropped one by one. *)
Fixpoint handle_membership_votes (n : Node) (now : nat) (node_id : NodeId) (signed_votes : list MemberVote)
    : Node * list NodeCmd :=
  match signed_votes with
  | [] => (n, [])
  | v :: signed_votes =>
      match membership n with
      | None => handle_membership_votes n now node_id signed_votes
      | Some m =>
          let '(m, r) := handle_signed_vote m now v (nk_prefix (network_knowledge n)) in
          let n := set_membership n (Some m) in
          match r with
          | Err RequestAntiEntropy => (n, [SendMsg (MembershipAE (gen m)) (Single node_id)])
          | Err _ => (n, [])
          | Ok (response, decision) =>
              let decided := match decision with Some d => [HandleMembershipDecision d] | None => [] end in
              let vote_broadcast :=
                match response with
                | Broadcast response_vote => [send_to_elders n (MembershipVotes [response_vote])]
                | WaitingForMoreVotes => []
                end in
              let '(n, cmds) := handle_membership_votes n now node_id signed_votes in
              (n, decided ++ vote_broadcast ++ cmds)
          end
      end
  end.

Definition handle_membership_anti_entropy_request (m : option (Membership Trigger)) (node_id : NodeId)
    (gen : nat) : option NodeCmd :=
  m ← m;
  match anti_entropy m gen with
  | Ok catchup_votes => Some (SendMsg (MembershipVotes catchup_votes) (Single node_id))
  | Err _ => None
  end.

Definition send_node_approvals (decision : Decision Trigger) : NodeCmd :=
  let nodes := list_to_set (node_id <$> filter (λ s, is_joined s = true) (dec_proposals decision).*1) in
  SendMsg (JoinResponseMsg (Approved decision)) (Multiple nodes).

Definition handle_node_left (n : Node) (node_state : NodeState Trigger) (signature : Signature)
    : option NodeCmd :=
  if is_relocated node_state then
    let s := mkSectionSig (nk_section_key (network_knowledge n)) signature in
    Some (SendMsg (CompleteRelocation (mkSectionSigned node_state s)) (Single (node_id node_state)))
  else None.

(** ** Joining *)

Definition MIN_ADULT_AGE : Z := 5.

Definition is_infant_node (id : NodeId) : bool := bool_decide (calc_age (id_name id) = MIN_ADULT_AGE).

Definition verify_relocated_age (id : NodeId) (proof : RelocationProof Trigger)
    : result (NodeError Trigger D) unit :=
  let new_age := calc_age (id_name id) in
  if decide (new_age = Z.min 255 (previous_age proof + 1)) then Ok () else Err InvalidRelocationDetails.

(** The joining node is told and proposed to the other elders. *)
Definition consider_join (n : Node) (now : nat) (id : NodeId) (previous_name : option XorName)
    (send_stream : option Stream) : Node * result (NodeError Trigger D) (list NodeCmd) :=
  let cmds := match send_stream with
              | Some stream => [SendNodeMsgResponse (JoinResponseMsg UnderConsideration) id stream]
              | None => []
              end in
  let '(n, cmd) := propose_membership_change n now (joined id previous_name) in
  (n, Ok (cmds ++ match cmd with Some cmd => [cmd] | None => [] end)).

Definition handle_join (n : Node) (now : nat) (id : NodeId) (relocation : option (RelocationProof Trigger))
    (send_stream : option Stream) : Node * result (NodeError Trigger D) (list NodeCmd) :=
  if negb (node_is_elder n) then (n, Ok [])
  else if negb (px_matches (nk_prefix (network_knowledge n)) (id_name id)) then (n, Ok [])
  else
    match relocation with
    | Some proof =>
        if negb (verify_section_key_is_known (network_knowledge n) (signed_by proof)) then (n, Ok [])
        else
          match verify proof with
          | Err e => (n, Err (KnowledgeErr e))
          | Ok _ =>
              match verify_relocated_age id proof with
              | Err e => (n, Err e)
              | Ok _ => consider_join n now id (Some (relocation_previous_name proof)) send_stream
              end
          end
    | None =>
        if negb (is_infant_node id) then (n, Ok [])
        else if negb (context_joins_allowed n) then
          let msg := JoinResponseMsg JoinsDisallowed in
          match send_stream with
          | Some stream => (n, Ok [SendNodeMsgResponse msg id stream])
          | None => (n, Ok [SendMsg msg (Single id)])
          end
        else consider_join n now id None send_stream
    end.

(** ** Relocating *)

Definition try_relocate_nodes (n : Node) (trigger : Trigger) (excluded : gset XorName) : list NodeCmd :=
  if decide (nk_prefix (network_knowledge n) = px_default) then []
  else if decide (sap_elder_count (value (nk_signed_sap (network_knowledge n))) < elder_count) then []
  else (λ s, SendMsg (PrepareToRelocate trigger) (Single (node_id s))) <$>
         find_nodes_to_relocate (network_knowledge n) trigger excluded.

Definition prepare_to_relocate (n : Node) (trigger : Trigger) : Node * list NodeCmd :=
  match relocation_state n with
  | NoRelocation =>
      let n := set_relocation_state n (PreparingToRelocate trigger) in
      (n, [send_to_elders n (ProceedRelocation trigger)])
  | _ => (n, [])
  end.

Definition proceed_relocation (n : Node) (now : nat) (relocation_node : XorName) (trigger : Trigger)
    : Node * result (NodeError Trigger D) (list NodeCmd) :=
  match get_section_member (network_knowledge n) relocation_node with
  | None => (n, Err (KnowledgeErr NotAMember))
  | Some node_state =>
      let '(n, cmd) := propose_membership_change n now (relocate node_state trigger) in
      (n, Ok (match cmd with Some cmd => [cmd] | None => [] end))
  end.

Definition try_join_section (n : Node) (relocation : option (RelocationProof Trigger)) : option NodeCmd :=
  if is_section_member (network_knowledge n) (node_name n) then None
  else Some (SendMsgEnqueueAnyResponse (TryJoin relocation) (nk_elders (network_knowledge n))).

(** Connections are kept to the members and to the nodes that are being relocated. *)
Definition update_comm_target_list (n : Node) : Node :=
  let k := network_knowledge n in
  let relocated_members := filter (λ state, is_relocated state = true) (archived_members (nk_section_members k)) in
  set_comm_targets n (nk_members k ∪ set_map node_id relocated_members).

Definition node_switch_section (n : Node) (dst_sap : SectionSigned (SectionAuthorityProvider Trigger))
    (new_keypair : Keypair) : Node * result (NodeError Trigger D) unit :=
  let '(k, r) := switch_section (network_knowledge n) dst_sap in
  let n := set_knowledge n k in
  match r with
  | Err e => (n, Err (KnowledgeErr e))
  | Ok _ => (set_keypair n new_keypair, Ok ())
  end.

Definition relocation_trigger (s : NodeState Trigger) : option Trigger :=
  match state s with Relocated trigger => Some trigger | _ => None end.

(** The switch to the new section: [gen_keypair] makes a key pair with a name in the
    range of a prefix and the given age. *)
Definition join_as_relocated (n : Node) (signed_relocation : SectionSigned (NodeState Trigger)) (dst : XorName)
    (gen_keypair : Prefix → Z → Keypair) : Node * result (NodeError Trigger D) (option NodeCmd) :=
  match closest_signed_sap (network_knowledge n) dst with
  | None => (n, Err NodeNoMatchingSection)
  | Some dst_sap =>
      let new_keypair := gen_keypair (sap_prefix (value dst_sap)) (Z.min 255 (calc_age (node_name n) + 1)) in
      let info := mkRelocationInfo signed_relocation (ed_name (kp_public new_keypair)) in
      match bincode_serialize info with
      | None => (n, Err BincodeError)
      | Some serialized_info =>
          let node_sig := ed_sign serialized_info (keypair n) in
          let proof := mkRelocationProof info node_sig (kp_public (keypair n)) in
          let '(n, r) := node_switch_section n dst_sap new_keypair in
          match r with
          | Err e => (n, Err e)
          | Ok _ =>
              let n := set_relocation_state (update_comm_target_list n) (ReadyToJoinNewSection proof) in
              (n, Ok (try_join_section n (Some proof)))
          end
      end
  end.

Definition relocate_node (n : Node) (signed_relocation : SectionSigned (NodeState Trigger))
    (gen_keypair : Prefix → Z → Keypair) : Node * result (NodeError Trigger D) (option NodeCmd) :=
  match bincode_serialize (value signed_relocation) with
  | None => (n, Err BincodeError)
  | Some serialized =>
      if negb (section_sig_verify (sig signed_relocation) serialized) then (n, Err NodeInvalidSignature)
      else if decide (node_name n ≠ name (value signed_relocation)) then (n, Ok None)
      else match relocation_trigger (value signed_relocation) with
           | None => (n, Ok None)
           | Some trigger => join_as_relocated n signed_relocation (dst_section trigger (node_name n)) gen_keypair
           end
  end.

Definition finalise_relocation (n : Node) (decision : Decision Trigger) : Node :=
  let n := set_relocation_state n NoRelocation in
  set_knowledge n (try_update_member (network_knowledge n) decision).1.
End handlers.
