(* ===== verification/JoinProps.v ===== *)
(** * Properties of joins, relocations and membership votes

    Who may join, which nodes are relocated, and that a batch of votes reports every
    decision it makes. *)

From S2P Require Import Prelude External Xor NodeState SectionsDag Sap SectionTree MemberHistory.
From S2P Require Import NetworkKnowledge Aggregator Keys Membership Handover Relocation Dkg FaultDetection MyNode JoinMsgs.
From S2P Require Import SectionsDagProps SectionTreeProps MemberHistoryProps NetworkKnowledgeProps.
From S2P Require Import MembershipProps NodeDemo.

Section joins.
Context {B : Bls} {BSh : BlsShares} {X : Xor} {Cfg : Settings} {E : Ed25519} {NH : NameHashing}.
Context {EK : EdKeypairs} {SD : Sdkg} {DS : DataStore}.
Context {Trigger : Type} `{Countable Trigger} {C : ConsensusDecision Trigger} {RT : RelocationTriggers Trigger}.
Context {R : ConsensusRounds (NodeState Trigger) (Decision Trigger)}.
Context {D : Type} {RH : ConsensusRounds (SapCandidate Trigger) D} {M : Merkle SectionInfo}.
Context {Digest : Type} `{Countable Digest} {Stream : Type}.
Context {BP : Bincode PublicKey} {BN : Bincode (NodeState Trigger)} {BI : Bincode (RelocationInfo Trigger)}.
Context {OS : Ord (NodeState Trigger)}.
Implicit Types (n : MyNode Trigger D Digest) (p : RelocationProof Trigger).

(** ** Joining *)

(** The old key is the one of the relocated name and signs the information of the
    relocation; the section signs the state of the relocated node. *)
Definition proof_ok p : Prop :=
  old_key_name p = relocation_previous_name p ∧
  (∃ bs, bincode_serialize (info p) = Some bs ∧ ed_verify (self_old_key p) bs (self_sig p) = true) ∧
  ∃ bs, bincode_serialize (value (signed_relocation (info p))) = Some bs ∧
        section_sig_verify (sig (signed_relocation (info p))) bs = true.

Lemma verify_spec p : verify p = Ok () ↔ proof_ok p.
Proof.
  unfold verify, proof_ok, relocation_previous_name. case_decide as Hn; [split; [done|by intros [? _]]|].
  destruct (bincode_serialize (info p)) as [bs|];
    [|split; [done|by intros (_ & (? & ? & _) & _)]].
  destruct (ed_verify _ _ _) eqn:He; [|split; [done|intros (_ & (? & [= <-] & ?) & _); congruence]].
  destruct (bincode_serialize (value _)) as [bs'|]; [|split; [done|by intros (_ & _ & ? & ? & _)]].
  destruct (section_sig_verify _ _) eqn:Hs;
    [split; [intros _; split_and!; [done|by exists bs|by exists bs']|done]|split; [done|intros (_ & _ & ? & [= <-] & ?); congruence]].
Qed.

(** Who may join: in a section we are elder of, a relocated node with a valid proof by a
    known section that is one older than before, or a new node of the minimal age
    while joins are allowed. *)
Definition admitted n (id : NodeId) (relocation : option (RelocationProof Trigger)) : Prop :=
  node_is_elder n = true ∧ px_matches (nk_prefix (network_knowledge n)) (id_name id) = true ∧
  match relocation with
  | Some p =>
      verify_section_key_is_known (network_knowledge n) (signed_by p) = true ∧ proof_ok p ∧
      calc_age (id_name id) = Z.min 255 (previous_age p + 1)
  | None => calc_age (id_name id) = MIN_ADULT_AGE ∧ context_joins_allowed n = true
  end.

(** The answers to a node that may not join. *)
Definition refused (id : NodeId) (stream : option Stream) (r : result (NodeError Trigger D) (list (Cmd Trigger D Stream)))
    : Prop :=
  r = Ok [] ∨ (∃ e, r = Err e) ∨ (∃ s, r = Ok [SendNodeMsgResponse (JoinResponseMsg JoinsDisallowed) id s]) ∨
  r = Ok [SendMsg (JoinResponseMsg JoinsDisallowed) (Single id)].

(** Whether a node is considered at all. *)
Lemma handle_join_admits n now id relocation stream :
  admitted n id relocation ∧
    handle_join n now id relocation stream =
      consider_join n now id (relocation_previous_name <$> relocation) stream ∨
  ¬ admitted n id relocation ∧ (handle_join n now id relocation stream).1 = n ∧
    refused id stream (handle_join n now id relocation stream).2.
Proof.
  unfold handle_join, admitted, refused.
  destruct (node_is_elder n); simpl; [|right; split; [by intros [? _]|auto]].
  destruct (px_matches _ _); simpl; [|right; split; [by intros (_ & ? & _)|auto]].
  destruct relocation as [p|]; simpl.
  - destruct (verify_section_key_is_known _ _); simpl; [|right; split; [by intros (_ & _ & ? & _)|auto]].
    destruct (verify p) as [[]|e] eqn:Hv; simpl.
    2: { right. split; [|eauto]. intros (_ & _ & _ & Hp%verify_spec & _). congruence. }
    apply verify_spec in Hv. unfold verify_relocated_age.
    case_decide as Ha; simpl; [left; done|right; split; [naive_solver|eauto]].
  - unfold is_infant_node. case_bool_decide as Ha; simpl; [|right; split; [naive_solver|auto]].
    destruct (context_joins_allowed n); simpl; [left; done|right].
    split; [naive_solver|]. destruct stream; simpl; split; eauto.
Qed.

(** What lets an elder vote for [s] as the next change of the members: the vote can be signed
    and is valid, and nobody it would convict of voting twice is left. *)
Definition can_propose (m : Membership Trigger) prefix (s : NodeState Trigger) v : Prop :=
  con_sign_propose (consensus m) (gen m + 1) s (con_faults (consensus m)) = Ok v ∧
  validate_proposals m v prefix = Ok () ∧ vote_byzantine v (consensus m) = false.
(** The membership after a vote of our own. *)
Definition voted (m : Membership Trigger) (now : nat) c : Membership Trigger :=
  mkMembership c (bootstrap_members m) (gen m) (history m) (Some now).

(** A change is voted for and the vote sent to the elders, or it cannot be voted for. *)
Lemma propose_change_cases n now s :
  (∃ m v c vote, membership n = Some m ∧ can_propose m (nk_prefix (network_knowledge n)) s v ∧
    con_cast_vote (consensus m) v = (c, Ok vote) ∧
    propose_membership_change n now s =
      (set_membership n (Some (voted m now c)), Some (send_to_elders (Stream := Stream) n (MembershipVotes [vote])))) ∨
  (∃ m', propose_membership_change (Stream := Stream) n now s = (set_membership n m', None)) ∧
  ∀ m v, membership n = Some m → can_propose m (nk_prefix (network_knowledge n)) s v →
    ∃ e, (con_cast_vote (consensus m) v).2 = Err e.
Proof.
  unfold propose_membership_change, can_propose. destruct (membership n) as [m|] eqn:Hm.
  2: { right. split; [|done]. exists None. f_equal. destruct n. simpl in *. by subst. }
  unfold propose. destruct (con_sign_propose _ _ _ _) as [v|e] eqn:Hs.
  2: { right. split; [by eexists|]. intros m' v' [= <-] [Hv _]. congruence. }
  destruct (validate_proposals _ _ _) as [[]|e] eqn:Hv.
  2: { right. split; [by eexists|]. intros m' v' [= <-] (Hs' & Hv' & _). rewrite Hs in Hs'. injection Hs' as <-. congruence. }
  destruct (vote_byzantine _ _) eqn:Hb.
  { right. split; [by eexists|]. intros m' v' [= <-] (Hs' & _ & Hb'). rewrite Hs in Hs'. injection Hs' as <-. congruence. }
  unfold cast_vote. destruct (con_cast_vote (consensus m) v) as [c [vote|e]] eqn:Hc; simpl.
  - left. exists m, v, c, vote. done.
  - right. split; [by eexists|]. intros m' v' [= <-] (Hs' & _ & _). rewrite Hs in Hs'. injection Hs' as <-. rewrite Hc. by eexists.
Qed.

(** The answer to a node that may join, if it waits for one. *)
Definition told (id : NodeId) (stream : option Stream) : list (Cmd Trigger D Stream) :=
  match stream with Some s => [SendNodeMsgResponse (JoinResponseMsg UnderConsideration) id s] | None => [] end.

(** C36: an elder that is asked by a node that may join (as new with the minimal age, or as
    relocated with the proof of a known section) tells it so and votes for it, with its name
    before the relocation, and sends the vote to all elders, unless it cannot vote for it now:
    without a membership, or if the vote cannot be signed, is not valid or is refused by the
    consensus; then nothing is sent to the elders.  If the node may not join, the state of the
    elder is unchanged and nothing but a refusal is sent. *)
Theorem join_admission n now id relocation stream :
  let s := joined id (relocation_previous_name <$> relocation) in
  let prefix := nk_prefix (network_knowledge n) in
  admitted n id relocation ∧
    ((∃ m v c vote, membership n = Some m ∧ can_propose m prefix s v ∧ con_cast_vote (consensus m) v = (c, Ok vote) ∧
       handle_join n now id relocation stream =
         (set_membership n (Some (voted m now c)), Ok (told id stream ++ [send_to_elders n (MembershipVotes [vote])]))) ∨
     (∃ m', handle_join n now id relocation stream = (set_membership n m', Ok (told id stream))) ∧
     ∀ m v, membership n = Some m → can_propose m prefix s v → ∃ e, (con_cast_vote (consensus m) v).2 = Err e) ∨
  ¬ admitted n id relocation ∧ (handle_join n now id relocation stream).1 = n ∧
    refused id stream (handle_join n now id relocation stream).2.
Proof.
  intros s prefix.
  destruct (handle_join_admits n now id relocation stream) as [[Ha ->]|Hr]; [left|by right]. split; [done|].
  unfold consider_join. fold s. fold (told id stream).
  destruct (propose_change_cases n now s) as [(m & v & c & vote & Hm & Hp & Hc & ->)|[[m' ->] Hno]].
  - left. exists m, v, c, vote. done.
  - right. split; [|done]. exists m'. by rewrite app_nil_r.
Qed.

(** ** Relocating *)

Lemma max_age_spec l a :
  max_age l = Some a → (∃ x, x ∈ l ∧ age x = a) ∧ ∀ x, x ∈ l → (age (Trigger := Trigger) x ≤ a)%Z.
Proof.
  revert a. induction l as [|y l IH]; intros a Ha; [done|]. simpl in Ha. injection Ha as <-.
  destruct (max_age l) as [b|] eqn:Hb.
  - destruct (IH b eq_refl) as [(x & Hx & <-) Hmax]. split.
    + destruct (Z.max_spec (age y) (age x)) as [[_ ->]|[_ ->]]; [exists x|exists y];
        (split; [|done]); rewrite elem_of_cons; auto.
    + intros z [->|Hz%Hmax]%elem_of_cons; lia.
  - destruct l; [|done]. split; [exists y; split; [left|done]|]. by intros z ->%list_elem_of_singleton.
Qed.

Lemma relocation_candidates_spec k trigger excluded x :
  x ∈ relocation_candidates k trigger excluded ↔
  (is_adult k (name x) = true ∧ relocation_check (age x) (xn_bytes (churn_id trigger)) = true ∧
   name x ∉ excluded) ∧ x ∈ MemberHistory.members (nk_section_members k).
Proof. unfold relocation_candidates. by rewrite list_elem_of_filter, elem_of_bset_iter. Qed.

(** A churn event relocates only adults that pass the relocation check and did not
    just join, the oldest of these, at most half as many as there are elder seats and
    never so many that the section falls below its recommended size; and it relocates
    someone whenever the section is larger than recommended, there are at least two
    elder seats and some node qualifies. *)
Theorem relocations_bounded (k : NetworkKnowledge Trigger) (trigger : Trigger) (excluded : gset XorName) :
  let r := find_nodes_to_relocate k trigger excluded in
  let size_before := size (MemberHistory.members (nk_section_members k)) in
  NoDup r ∧ length r ≤ elder_count / 2 ∧
  (r ≠ [] → recommended_section_size ≤ size_before - length r) ∧
  (∀ x, x ∈ r → x ∈ relocation_candidates k trigger excluded ∧
     ∀ y, y ∈ relocation_candidates k trigger excluded → (age y ≤ age x)%Z) ∧
  (recommended_section_size < size_before → 2 ≤ elder_count →
   relocation_candidates k trigger excluded ≠ [] → r ≠ []).
Proof.
  unfold find_nodes_to_relocate. cbn zeta. case_decide as Hs.
  { split_and!; [constructor|simpl; lia|done| |lia]. by intros x ?%not_elem_of_nil. }
  set (cs := relocation_candidates k trigger excluded).
  set (s := merge_sort _ cs). assert (s ≡ₚ cs) as Hp by apply merge_sort_Permutation.
  destruct (max_age s) as [a|] eqn:Ha; cycle 1.
  { split_and!; [constructor|simpl; lia|done|by intros x ?%not_elem_of_nil|].
    intros _ _ []. clearbody s cs. destruct s; [|done]. by apply Permutation_nil_l in Hp. }
  apply max_age_spec in Ha as [(m & Hm & Hma) Hmax].
  assert (NoDup s) as Hnd by (rewrite Hp; apply NoDup_filter, NoDup_bset_iter).
  split_and!.
  - eapply sublist_NoDup; [|apply sublist_take]. by apply NoDup_filter.
  - rewrite length_take. lia.
  - intros _. rewrite length_take. lia.
  - intros x Hx. apply elem_of_take in Hx as (i & [Hxa Hx]%list_elem_of_lookup_2%list_elem_of_filter & _).
    rewrite Hp in Hx. split; [done|]. intros y. rewrite <-Hp. intros Hy%Hmax. lia.
  - intros Hlt He _. assert (m ∈ filter (λ x, age x = a) s) as Hin by (by apply list_elem_of_filter).
    assert (1 ≤ elder_count / 2) by (by apply (Nat.Div0.div_le_mono 2 _ 2)).
    destruct (filter _ s) as [|y l]; [by apply not_elem_of_nil in Hin|].
    destruct (_ `min` _) eqn:Hmin; [lia|done].
Qed.

(** ** Votes *)

(** The decisions that a batch of commands reports. *)
Definition reported (cmds : list (Cmd Trigger D Stream)) : list (Decision Trigger) :=
  omap (λ c, match c with HandleMembershipDecision d => Some d | _ => None end) cmds.

Lemma vote_response_reports n (response : VoteResponse (SignedVote (NodeState Trigger) (Decision Trigger))) :
  reported (match response with
            | Broadcast v => [send_to_elders n (MembershipVotes [v])]
            | WaitingForMoreVotes => []
            end) = [].
Proof. by destruct response. Qed.

Lemma reported_app l l' : reported (l ++ l') = reported l ++ reported l'.
Proof. apply omap_app. Qed.

Lemma decisions_kept_trans (m m' m'' : Membership Trigger) :
  decisions_kept m m' → decisions_kept m' m'' → decisions_kept m m''.
Proof. intros H1 H2 g d c Hg. destruct (H1 _ _ _ Hg) as [c' Hg']. by eapply H2. Qed.

(** A batch of votes keeps the order of the generations and never loses a decision:
    the commands it returns report exactly the decisions of the generations it decided,
    in their order, whether or not a vote of the batch is refused. *)
Theorem batch_reports_decisions n now id votes m :
  membership n = Some m → gens_ok m →
  ∃ m', membership (handle_membership_votes (Stream := Stream) n now id votes).1 = Some m' ∧ gens_ok m' ∧
    decided m' = decided m ++ reported (handle_membership_votes n now id votes).2.
Proof.
  revert n m. induction votes as [|v votes IH]; intros n m Hm Hg; simpl.
  { exists m. split; [done|]. split; [done|]. by rewrite app_nil_r. }
  rewrite Hm. destruct (handle_signed_vote m now v _) as [m1 r] eqn:Hv.
  pose proof (decided_step _ _ _ _ _ _ Hg Hv) as Hd.
  destruct (votes_decide_aux _ _ _ _ _ _ Hg Hv) as (Hg1 & _).
  destruct r as [[response decision]|e]; cycle 1.
  { rewrite app_nil_r in Hd. exists m1. destruct e; simpl; split_and!; try done; by rewrite app_nil_r. }
  destruct (IH (set_membership n (Some m1)) m1 eq_refl Hg1) as (m' & Hm' & Hg' & Hd').
  destruct (handle_membership_votes _ now id votes) as [n' cmds]. simpl in *.
  exists m'. split; [done|]. split; [done|].
  rewrite Hd', Hd, !reported_app, vote_response_reports, <-(assoc_L (++)). by destruct decision.
Qed.
End joins.

(** ** Concrete joins

    The only elder of the genesis section.  A node with the name 0 holds
    a state signed by the section and a proof for the new name 11. *)

Module JoinDemo.
Import External.Concrete Xor.ConcreteXor DagDemo TreeDemo HistoryDemo KnowledgeDemo AggregatorDemo.
Import MembershipDemo NodeDemo.

#[export] Instance bincode_info : Bincode (RelocationInfo (X := concrete_xor) unit) := λ i,
  Some (xn_bytes (new_name i) ++ xn_bytes (name (value (signed_relocation i)))).

Definition elder_id := demo_id [false; false] 1.
Definition elder_sap : Sap := mkSap [] (pk 1) {[elder_id]} ∅ 0.
Definition elder_knowledge : NetworkKnowledge unit :=
  mkKnowledge (mkSectionSigned elder_sap (mkSectionSig (pk 1) (pk 1, default [] (bincode_serialize elder_sap))))
    history_default genesis_tree.
Definition elder_membership : Membership unit :=
  membership_from ((pk 1, []) : Consensus NS (Decision (X := concrete_xor) unit)) ∅.
Definition elder_node : MyNode unit (list Candidate) (list bytes) :=
  set_membership (fresh_node [false; false] [demo_key_share] elder_knowledge) (Some elder_membership).

Definition old_state : NS := demo_join [false] 3.
Definition demo_info : RelocationInfo (X := concrete_xor) unit :=
  mkRelocationInfo
    (mkSectionSigned old_state (mkSectionSig (pk 1) (pk 1, default [] (bincode_serialize old_state))))
    [true; true].
Definition demo_proof : RelocationProof (X := concrete_xor) unit :=
  mkRelocationProof demo_info (([false], default [] (bincode_serialize demo_info)) : EdSignature) ([false] : EdPublicKey).
Definition other_id := demo_id [false; true] 9.

(** The nodes proposed by the votes that a join sends to the elders. *)
Definition proposed (r : result (NodeError unit (list Candidate)) (list (Cmd unit (list Candidate) unit)))
    : list NS :=
  match r with
  | Ok [SendNetworkMsg (NodeNetMsg (MembershipVotes votes)) _] => votes ≫= vote_proposals
  | _ => []
  end.

(** Neither the proof nor the handler compares the new name of the proof with the
    name of the joining node, or looks at the state that the section signed: with a
    proof for the name 11, over the state of a node that was never relocated, a node
    with another name is proposed as relocated although joins are not allowed. *)
Theorem relocated_join_any_name :
  relocation_new_name demo_proof ≠ id_name other_id ∧
  is_relocated (value (signed_relocation (info demo_proof))) = false ∧
  context_joins_allowed elder_node = false ∧
  proposed (handle_join elder_node 1 other_id (Some demo_proof) None).2 =
    [joined other_id (Some (relocation_previous_name demo_proof))].
Proof.
  split; [by intros [=]|]. split; [reflexivity|]. split; [reflexivity|]. vm_compute. reflexivity.
Qed.

Definition demo_voter : MyNode unit (list Candidate) (list bytes) :=
  set_membership elder_node (Some demo_start).

Lemma batch_reports_decisions_witness :
  ∃ m', membership (handle_membership_votes (Stream := unit) demo_voter 1 other_id [demo_leave_vote]).1
          = Some m' ∧ gens_ok m' ∧
    decided m' = reported (handle_membership_votes (Stream := unit) demo_voter 1 other_id [demo_leave_vote]).2.
Proof.
  destruct (batch_reports_decisions (Stream := unit) demo_voter 1 other_id [demo_leave_vote] demo_start
    eq_refl demo_start_gens) as (m' & Hm & Hg & Hd).
  exists m'. split; [exact Hm|]. split; [exact Hg|]. exact Hd.
Defined.
End JoinDemo.
