(* ===== verification/DkgMsgs.v ===== *)
(** * Handlers of key-generation messages

    [sn_node/src/node/messaging/dkg.rs].  The elders of a section sign the session of the
    next candidates; a candidate that has enough shares of this signature announces its
    ephemeral key, and votes when it has all keys.  The outcome of the votes is a key
    share of the next section key, with which the candidate requests the handover.

    Fresh keys, random numbers and the time are arguments.  [None] is spent fuel of a
    walk over the section chain, a failed assertion, or spent fuel of the recursion
    between [handle_dkg_ephemeral_pubkey] and [handle_missed_dkg_start]. *)

From S2P Require Import Prelude External Xor NodeState SectionsDag Sap SectionTree MemberHistory.
From S2P Require Import NetworkKnowledge Aggregator Keys Membership Handover Relocation Dkg FaultDetection MyNode.
From S2P Require Import HandoverMsgs.

Section handlers.
Context {B : Bls} {BSh : BlsShares} {X : Xor} {Cfg : Settings} {E : Ed25519}.
Context {NH : NameHashing} {EK : EdKeypairs} {SD : Sdkg} {DS : DataStore}.
Context {Trigger : Type} `{Countable Trigger} {C : ConsensusDecision Trigger}.
Context {R : ConsensusRounds (NodeState Trigger) (Decision Trigger)}.
Context {D : Type} (decided_proposals : D → list (SapCandidate Trigger)).
Context {RH : ConsensusRounds (SapCandidate Trigger) D} {M : Merkle SectionInfo}.
Context {Digest : Type} `{Countable Digest} (sha3 : list bytes → Digest) {Stream : Type}.
Context {BP : Bincode PublicKey} {BS : Bincode (SectionAuthorityProvider Trigger)}.
Context {BD : Bincode (DkgSessionId Trigger)}.
Context {ON : Ord NodeId} {OS : Ord (NodeState Trigger)} {OSh : Ord SectionSigShare}.
Context {OSap : Ord (SectionSigned (SectionAuthorityProvider Trigger))}.

Abbreviation Node := (MyNode Trigger D Digest).
Abbreviation NodeCmd := (Cmd Trigger D Stream).
Abbreviation Outcome := (MyNode Trigger D Digest * result (NodeError Trigger D) (list NodeCmd))%type.
Abbreviation PubKeys := (gmap XorName (PublicKey * EdSignature)).
Implicit Types (n : Node) (s : DkgSessionId Trigger) (sender : NodeId).

Definition dkg_nodes (our_index : nat) s : gset NodeId :=
  list_to_set (snd <$> filter (λ e, e.1 ≠ our_index) (imap pair (elder_ids s))).

Definition acknowledge_dkg_outcome s (participant_index : nat) (pub_key_set : PublicKeySet)
    (sec_key_share : SecretKeyShare) : NodeCmd :=
  HandleDkgOutcome (from_dkg_session s pub_key_set) (mkKeyShare pub_key_set participant_index sec_key_share).

Definition broadcast_dkg_votes s (pub_keys : PubKeys) (participant_index : nat) (votes : list DkgSignedVote)
    : NodeCmd :=
  SendMsg (DkgVotes s pub_keys votes) (Multiple (dkg_nodes participant_index s)).

Definition request_dkg_ae s sender : NodeCmd := SendMsg (DkgAE s) (Single sender).

(** ** Starting a session *)

Definition sign_session_id n s : result (NodeError Trigger D) SectionSigShare :=
  match key_share n (nk_section_key (network_knowledge n)) with
  | Err e => Err (KnowledgeErr e)
  | Ok key_share =>
      match bincode_serialize s with
      | None => Err BincodeError
      | Some serialized_session_id =>
          Ok (mkShare (ks_public_key_set key_share) (ks_index key_share)
                (sk_share_sign (ks_secret_key_share key_share) serialized_session_id))
      end
  end.

Definition aggregate_dkg_start n s (elder_sig : SectionSigShare)
    : Node * result (NodeError Trigger D) (option SectionSig) :=
  let public_key := pks_public_key (share_public_key_set elder_sig) in
  if decide (nk_section_key (network_knowledge n) = public_key) then
    match bincode_serialize s with
    | None => (n, Err BincodeError)
    | Some serialized_session_id =>
        let '(a, r) := try_aggregate Digest sha3 (dkg_start_aggregator n) serialized_session_id elder_sig in
        (set_dkg_start_aggregator n a, map_err (λ _, InvalidSignatureShare) r)
    end
  else (n, Err InvalidKeyShareSectionKey).

Definition dkg_start n s (section_sig : SectionSig) (new_key : SecretKey) : option Outcome :=
  let our_name := node_name n in
  match elder_index s our_name with
  | None => Some (n, Ok [])
  | Some our_id =>
      current_chain_len ← section_chain_len (network_knowledge n);
      if decide (dkg_section_chain_len s < current_chain_len) then Some (n, Ok [])
      else
        let session_info := mkSessionInfo s section_sig in
        let n := set_dkg_sessions_info n (<[session_hash sha3 s := session_info]> (dkg_sessions_info n)) in
        let '(v, r) := gen_ephemeral_key sha3 (dkg_voter n) s our_name (keypair n) new_key in
        let n := set_dkg_voter n v in
        match r with
        | Err DkgEphemeralKeyAlreadyGenerated => Some (n, Ok [])
        | Err e => Some (n, Err (DkgErr e))
        | Ok (ephemeral_pub_key, sig) =>
            match check_ephemeral_dkg_key s our_name ephemeral_pub_key sig with
            | Err _ => None
            | Ok _ =>
                let nodes := dkg_nodes our_id s in
                Some (n, Ok [SendMsg (DkgEphemeralPubKey s section_sig ephemeral_pub_key sig) (Multiple nodes)])
            end
        end
  end.

Definition handle_dkg_start n s (elder_sig : SectionSigShare) (new_key : SecretKey) : option Outcome :=
  match aggregate_dkg_start n s elder_sig with
  | (n, Ok (Some section_sig)) => dkg_start n s section_sig new_key
  | (n, Ok None) => Some (n, Ok [])
  | (n, Err _) => Some (n, Ok [])
  end.

Definition send_dkg_start n s (new_key : SecretKey) : option Outcome :=
  let recipients := elder_ids s in
  let our_name := node_name n in
  let we_are_a_participant := existsb (λ r, bool_decide (id_name r = our_name)) recipients in
  let others : gset NodeId := list_to_set (filter (λ r, id_name r ≠ our_name) recipients) in
  match sign_session_id n s with
  | Err e => Some (n, Err e)
  | Ok section_sig_share =>
      let cmds := if decide (others = ∅) then []
                  else [SendMsg (DkgStart s section_sig_share) (Multiple others)] in
      if we_are_a_participant then extend_cmds cmds (handle_dkg_start n s section_sig_share new_key)
      else Some (n, Ok cmds)
  end.

(** ** Ephemeral keys *)

(** [again] is the handler of the key that the session was missed for. *)
Definition handle_missed_dkg_start (again : Node → option Outcome) n s (section_auth : SectionSig)
    (new_key : SecretKey) : option Outcome :=
  match bincode_serialize s with
  | None => Some (n, Err BincodeError)
  | Some serialized_session_id =>
      let section_sig := section_auth in
      if decide (nk_section_key (network_knowledge n) = sig_public_key section_sig) then
        if section_sig_verify section_sig serialized_session_id then
          match dkg_start n s section_sig new_key with
          | None => None
          | Some (n, Err e) => Some (n, Err e)
          | Some (n, Ok cmds) => extend_cmds cmds (again n)
          end
        else Some (n, Ok [])
      else Some (n, Ok [])
  end.

Fixpoint handle_dkg_ephemeral_pubkey (fuel : nat) n (now : nat) s (section_auth : SectionSig) (pub_key : PublicKey)
    (sig : EdSignature) sender (new_key : SecretKey) (rng : Rng) : option Outcome :=
  match fuel with
  | 0 => None
  | S fuel =>
      match elder_index s (node_name n) with
      | None => Some (n, Ok [])
      | Some our_id =>
          let '(v, r) := try_init_dkg sha3 (dkg_voter n) now s our_id pub_key sig (id_name sender) rng in
          let n := set_dkg_voter n v in
          match r with
          | Err (NoDkgKeysForSession _) =>
              handle_missed_dkg_start
                (λ n, handle_dkg_ephemeral_pubkey fuel n now s section_auth pub_key sig sender new_key rng)
                n s section_auth new_key
          | Err _ => Some (n, Ok [])
          | Ok None => Some (n, Ok [])
          | Ok (Some (vote, pub_keys)) => Some (n, Ok [broadcast_dkg_votes s pub_keys our_id [vote]])
          end
      end
  end.

(** ** Votes *)

(** The commands, and the anti-entropy requests, that answer a vote. *)
Definition handle_vote_response s (pub_keys : PubKeys) sender (our_id : nat)
    (response : DkgVoteResponse DkgSignedVote PublicKeySet SecretKeyShare) : list NodeCmd * list NodeCmd :=
  match response with
  | DkgWaitingForMoreVotes => ([], [])
  | RequestDkgAntiEntropy => ([], [request_dkg_ae s sender])
  | BroadcastVote vote => ([broadcast_dkg_votes s pub_keys our_id [vote]], [])
  | DkgComplete new_pubs new_sec => ([acknowledge_dkg_outcome s our_id new_pubs new_sec], [])
  end.

Fixpoint handle_responses n s (pub_keys : PubKeys) sender (our_id : nat)
    (responses : list (DkgVoteResponse DkgSignedVote PublicKeySet SecretKeyShare))
    : Node * list NodeCmd * list NodeCmd :=
  match responses with
  | [] => (n, [], [])
  | r :: responses =>
      let n := match r with
               | DkgComplete _ _ => set_dkg_voter n (clear_dkg_msg_timer (dkg_voter n))
               | _ => n
               end in
      let '(cmd, ae_cmd) := handle_vote_response s pub_keys sender our_id r in
      let '(n, cmds, ae_cmds) := handle_responses n s pub_keys sender our_id responses in
      (n, cmd ++ cmds, ae_cmd ++ ae_cmds)
  end.

(** The commands, the anti-entropy requests and whether all votes were known; [rng i] is
    the random source for the vote number [i]. *)
Fixpoint handle_votes n (now : nat) s (pub_keys : PubKeys) sender (our_id : nat) (votes : list DkgSignedVote)
    (rng : nat → Rng) : Node * list NodeCmd * list NodeCmd * bool :=
  match votes with
  | [] => (n, [], [], true)
  | v :: votes =>
      let '(voter, r) := handle_dkg_vote sha3 (dkg_voter n) s v (rng 0) in
      let n := set_dkg_voter n voter in
      match r with
      | Ok vote_responses =>
          let news := negb (bool_decide (vote_responses = [])) in
          let n := if news then set_dkg_voter n (learned_something_from_message (dkg_voter n) now) else n in
          let '(n, cmds, ae_cmds) := handle_responses n s pub_keys sender our_id vote_responses in
          let '(n, cmds', ae_cmds', is_old_gossip) :=
            handle_votes n now s pub_keys sender our_id votes (λ i, rng (S i)) in
          (n, cmds ++ cmds', ae_cmds ++ ae_cmds', negb news && is_old_gossip)
      | Err _ => handle_votes n now s pub_keys sender our_id votes (λ i, rng (S i))
      end
  end.

Definition gossip_missing_votes n s sender (their_votes_len : nat)
    : result (DkgError Trigger) (list NodeCmd) :=
  our_votes ← get_all_votes sha3 (dkg_voter n) s;
  if decide (their_votes_len < length our_votes) then
    pub_keys ← get_dkg_keys sha3 (dkg_voter n) s;
    Ok [SendMsg (DkgVotes s pub_keys our_votes) (Single sender)]
  else Ok [].

Definition handle_dkg_votes n (now : nat) s (msg_keys : PubKeys) (votes : list DkgSignedVote) sender
    (rng : nat → Rng) : Outcome :=
  match elder_index s (node_name n) with
  | None => (n, Ok [])
  | Some our_id =>
      let '(v, r) := check_keys sha3 (dkg_voter n) now s msg_keys in
      let n := set_dkg_voter n v in
      match r with
      | Err e => (n, Err (DkgErr e))
      | Ok (pub_keys, just_completed) =>
          let '(n, first) :=
            if just_completed : bool then
              let '(v, r) := initialize_dkg_state sha3 (dkg_voter n) s our_id (rng 0) in
              (set_dkg_voter n v,
               match r with
               | Ok (first_vote, _) => Ok [broadcast_dkg_votes s pub_keys our_id [first_vote]]
               | Err e => Err (DkgErr e)
               end)
            else (n, Ok []) in
          match first with
          | Err e => (n, Err e)
          | Ok first =>
              let their_votes_len := length votes in
              let '(n, cmds, ae_cmds, is_old_gossip) :=
                handle_votes n now s pub_keys sender our_id votes (λ i, rng (S i)) in
              let cmds := first ++ cmds in
              let cmds := if decide (length cmds = 0) then cmds ++ ae_cmds else cmds in
              if is_old_gossip && negb (bool_decide (their_votes_len = 1)) then
                let manual_ae := match gossip_missing_votes n s sender their_votes_len with
                                 | Ok g => g
                                 | Err _ => []
                                 end in
                (n, Ok (cmds ++ manual_ae))
              else (n, Ok cmds)
          end
      end
  end.

Definition handle_dkg_anti_entropy_request (v : DkgVoter Digest) s sender
    : result (DkgError Trigger) (list NodeCmd) :=
  pub_keys ← get_dkg_keys sha3 v s;
  votes ← get_all_votes sha3 v s;
  Ok [SendMsg (DkgVotes s pub_keys votes) (Single sender)].

(** ** Gossip *)

Definition gossip_votes (v : DkgVoter Digest) s (votes : list DkgSignedVote) (our_id : nat) : list NodeCmd :=
  match get_dkg_keys sha3 v s with
  | Ok pub_keys => [broadcast_dkg_votes s pub_keys our_id votes]
  | Err _ => []
  end.

Definition gossip_our_key (v : DkgVoter Digest) (infos : gmap Digest (DkgSessionInfo Trigger)) s (our_name : XorName)
    (our_id : nat) : list NodeCmd :=
  match get_dkg_keys sha3 v s with
  | Err _ => []
  | Ok dkg_keys =>
      match dkg_keys !! our_name with
      | None => []
      | Some (pub_key, sig) =>
          match infos !! session_hash sha3 s with
          | None => []
          | Some section_info =>
              [SendMsg (DkgEphemeralPubKey s (info_authority section_info) pub_key sig)
                 (Multiple (dkg_nodes our_id s))]
          end
      end
  end.

Definition gossip_handover_trigger (v : DkgVoter Digest) s : list NodeCmd :=
  match outcome sha3 v s with
  | Ok (Some (our_id, new_pubs, new_sec)) => [acknowledge_dkg_outcome s our_id new_pubs new_sec]
  | Ok None => []
  | Err _ => []
  end.

(** What is gossiped for one session. *)
Definition gossip_session n (chain_len : nat) (session_info : DkgSessionInfo Trigger) : list NodeCmd :=
  let s := info_session_id session_info in
  match elder_index s (node_name n) with
  | None => []
  | Some our_id =>
      match reached_termination sha3 (dkg_voter n) s with
      | Ok true =>
          let had_sap_change_since := negb (bool_decide (chain_len = dkg_section_chain_len s)) in
          if had_sap_change_since then [] else gossip_handover_trigger (dkg_voter n) s
      | _ =>
          match get_all_votes sha3 (dkg_voter n) s with
          | Ok votes => gossip_votes (dkg_voter n) s votes our_id
          | Err _ => gossip_our_key (dkg_voter n) (dkg_sessions_info n) s (node_name n) our_id
          end
      end
  end.

(** [infos] lists the sessions in the order the hash map yields them. *)
Definition dkg_gossip_msgs n (infos : list (DkgSessionInfo Trigger)) : option (list NodeCmd) :=
  chain_len ← section_chain_len (network_knowledge n);
  Some (mjoin (gossip_session n chain_len <$> infos)).

(** ** Outcomes *)

Definition force_dkg_termination n s (expected_pk : PublicKey) : Node :=
  let '(v, r) := force_termination sha3 (dkg_voter n) s in
  let n := set_dkg_voter n v in
  match r with
  | Ok (Some (our_id, new_pubs, new_sec)) =>
      if decide (pks_public_key new_pubs = expected_pk) then
        set_section_keys n (insert_key_share (section_keys_provider n) (mkKeyShare new_pubs our_id new_sec))
      else n
  | Ok None => n
  | Err _ => n
  end.

(** ** Forgetting sessions *)

Definition remove_session n (hash : Digest) : Node :=
  let n := set_dkg_sessions_info n (delete hash (dkg_sessions_info n)) in
  set_dkg_voter n (dkg_remove (dkg_voter n) hash).

(** [entries] lists the sessions of the node in the order the hash map yields them, before
    and after the forced terminations. *)
Definition update_dkg_on_section_change n (new_section_key : PublicKey)
    (entries : list (Digest * DkgSessionInfo Trigger)) : option Node :=
  current_chain_len ← section_chain_len (network_knowledge n);
  let prev_chain_len := current_chain_len - 1 in
  let prev_sessions := (λ e, info_session_id e.2) <$>
    filter (λ e, dkg_section_chain_len (info_session_id e.2) = prev_chain_len) entries in
  let n := foldl (λ n id, force_dkg_termination n id new_section_key) n prev_sessions in
  let old_hashes :=
    (filter (λ e, dkg_section_chain_len (info_session_id e.2) < current_chain_len) entries).*1 in
  Some (foldl remove_session n old_hashes).

Definition remove_dkg_sessions_with_missing_members n (entries : list (Digest * DkgSessionInfo Trigger)) : Node :=
  let current_section_members : gset XorName := set_map id_name (nk_members (network_knowledge n)) in
  let missing_members_hashes :=
    (filter (λ e, ¬ dom (dkg_elders (info_session_id e.2)) ⊆ current_section_members) entries).*1 in
  foldl remove_session n missing_members_hashes.

(** ** Requesting the handover *)

Definition handle_dkg_outcome n (sap : SectionAuthorityProvider Trigger) (share : SectionKeyShare)
    : option Outcome :=
  let n := set_section_keys n (insert_key_share (section_keys_provider n) share) in
  known ← has_chain_key (network_knowledge n) (section_key sap);
  if known : bool then Some (n, Ok [])
  else
    match bincode_serialize sap with
    | None => Some (n, Err BincodeError)
    | Some serialized_sap =>
        let sig_share := sign_with_key_share serialized_sap share in
        let current_elders := bset_iter (nk_elders (network_knowledge n)) in
        let '(other_elders, myself) := split_nodes_and_self n current_elders in
        let cmds := [SendMsg (RequestHandover sap sig_share) (Multiple other_elders)] in
        match myself with
        | Some elder => add_own cmds (handle_handover_request decided_proposals sha3 n sap sig_share elder)
        | None => Some (n, Ok cmds)
        end
    end.
End handlers.
