(* ===== verification/DkgProps.v ===== *)
(** * Properties of key generation

    The keys a node collects for a session are verified and are never replaced, the
    session starts with the last missing key and once only; the sessions of a node are
    consistent, so that it can always gossip about them. *)

From S2P Require Import Prelude External Xor NodeState SectionsDag Sap SectionTree MemberHistory.
From S2P Require Import NetworkKnowledge Aggregator Keys Membership Handover Relocation Dkg FaultDetection MyNode.
From S2P Require Import HandoverMsgs DkgMsgs.
From S2P Require Import SectionsDagProps SectionTreeProps MemberHistoryProps NetworkKnowledgeProps.
From S2P Require Import MembershipProps NodeDemo.

(** ** The voter *)

Section voter.
Context {B : Bls} {BSh : BlsShares} {X : Xor} {NH : NameHashing} {E : Ed25519} {EK : EdKeypairs} {SD : Sdkg}.
Context {Trigger : Type} `{Countable Trigger} {OS : Ord (NodeState Trigger)} {BP : Bincode PublicKey}.
Context {Digest : Type} `{Countable Digest} (sha3 : list bytes → Digest).
Implicit Types (s : DkgSessionId Trigger) (v : DkgVoter Digest).

Abbreviation hash := (session_hash sha3).

(** The key is signed by the key pair of the name. *)
Definition key_valid (owner : XorName) (key : PublicKey) (key_sig : EdSignature) : Prop :=
  ∃ pk bs, pub_key owner = Some pk ∧ bincode_serialize key = Some bs ∧ ed_verify pk bs key_sig = true.

Lemma check_key_spec s owner key key_sig :
  check_ephemeral_dkg_key s owner key key_sig = Ok () ↔
  owner ∈ dom (dkg_elders s) ∧ key_valid owner key key_sig.
Proof.
  unfold check_ephemeral_dkg_key, key_valid. rewrite elem_of_dom.
  case_bool_decide as He; cbn [negb]; [|split; [discriminate|by intros [? _]]].
  destruct (pub_key owner) as [pk|]; cbn; [|split; [discriminate|by intros (_ & ? & ? & [=] & _)]].
  destruct (bincode_serialize key) as [bs|]; cbn; [|split; [discriminate|by intros (_ & ? & ? & _ & [=] & _)]].
  destruct (ed_verify pk bs key_sig) eqn:Hv; cbn.
  - split; [|done]. intros _. split; [done|]. by exists pk, bs.
  - split; [discriminate|]. intros (_ & pk' & bs' & [= <-] & [= <-] & Hv'). congruence.
Qed.
Lemma check_key_cases s owner key key_sig :
  check_ephemeral_dkg_key s owner key key_sig = Ok () ∨
  ∃ e, check_ephemeral_dkg_key s owner key key_sig = Err e ∧ ∀ s', e ≠ NoDkgKeysForSession s'.
Proof.
  unfold check_ephemeral_dkg_key. case_bool_decide; simpl; [|right; by eexists].
  destruct (pub_key owner); simpl; [|right; by eexists].
  destruct (bincode_serialize key); simpl; [|right; by eexists].
  destruct (ed_verify _ _ _); [by left|right; by eexists].
Qed.

Definition keys_valid (ks : gmap XorName (PublicKey * EdSignature)) : Prop :=
  map_Forall (λ owner k, key_valid owner k.1 k.2) ks.

(** What an announcement does to the keys of its session. *)
Lemma save_key_spec v now s owner key key_sig :
  let '(v', r) := save_key sha3 v now s owner key key_sig in
  (v' = v ∧ r ≠ Ok true) ∨
  ∃ ek, dkg_ephemeral_keys v !! hash s = Some ek ∧ eph_pub_keys ek !! owner = None ∧
    owner ∈ dom (dkg_elders s) ∧ key_valid owner key key_sig ∧
    let keys := <[owner := (key, key_sig)]> (eph_pub_keys ek) in
    v' = set_keys v (<[hash s := mkEphemeralKeys (eph_secret_key ek) keys]> (dkg_ephemeral_keys v)) ∧
    r = Ok (bool_decide (dom keys = dom (dkg_elders s))).
Proof.
  unfold save_key. destruct (check_key_cases s owner key key_sig) as [Hc|(e & -> & _)]; [|by left].
  rewrite Hc. apply check_key_spec in Hc as [Hin Hv].
  destruct (dkg_ephemeral_keys v !! hash s) as [ek|]; [|by left].
  destruct (eph_pub_keys ek !! owner) as [[k g]|] eqn:Ho; [by case_decide; left|].
  right. exists ek. rewrite bool_decide_eq_false_2 by apply is_Some_None. done.
Qed.

(** The keys, if any, that a voter holds for a session. *)
Definition session_keys v s : option (gmap XorName (PublicKey * EdSignature)) :=
  eph_pub_keys <$> dkg_ephemeral_keys v !! hash s.

(** A node is told a list of keys one after the other; the results are listed. *)
Fixpoint announce v now s (l : list (XorName * (PublicKey * EdSignature)))
    : DkgVoter Digest * list (result (DkgError Trigger) bool) :=
  match l with
  | [] => (v, [])
  | (owner, (key, key_sig)) :: l =>
      let '(v, r) := save_key sha3 v now s owner key key_sig in
      let '(v, rs) := announce v now s l in (v, r :: rs)
  end.

(** The keys that count: of candidates of the session, with a valid signature. *)
Definition accepted s (l : list (XorName * (PublicKey * EdSignature))) : gset XorName :=
  list_to_set ((filter (λ a, is_ok (check_ephemeral_dkg_key s a.1 a.2.1 a.2.2) = true) l).*1).

Definition completions (rs : list (result (DkgError Trigger) bool)) : nat :=
  length (filter (λ r, match r with Ok b => b | Err _ => false end = true) rs).

Lemma save_key_session_keys v now s owner key key_sig ks :
  session_keys v s = Some ks → dom ks ⊆ dom (dkg_elders s) →
  let '(v', r) := save_key sha3 v now s owner key key_sig in
  let ok := is_ok (check_ephemeral_dkg_key s owner key key_sig) in
  let ks' := if ok && bool_decide (ks !! owner = None) then <[owner := (key, key_sig)]> ks else ks in
  session_keys v' s = Some ks' ∧ dom ks' ⊆ dom (dkg_elders s) ∧
  (r = Ok true ↔ dom ks ≠ dom (dkg_elders s) ∧ dom ks' = dom (dkg_elders s)).
Proof.
  unfold session_keys. rewrite fmap_Some. intros (ek & Hek & ->) Hsub. unfold save_key.
  destruct (check_key_cases s owner key key_sig) as [Hc|(e & -> & _)].
  2: { simpl. rewrite Hek. split_and!; [done..|]. split; [done|]. naive_solver. }
  rewrite Hc. apply check_key_spec in Hc as [Hin Hv]. rewrite Hek. simpl.
  destruct (eph_pub_keys ek !! owner) as [[k g]|] eqn:Ho.
  - rewrite (bool_decide_eq_false_2 (Some _ = None)) by done.
    case_decide; rewrite Hek; (split_and!; [done..|]); (split; [done|naive_solver]).
  - rewrite (bool_decide_eq_false_2 (is_Some None)) by apply is_Some_None.
    rewrite (bool_decide_eq_true_2 (None = None)) by done. simpl. rewrite lookup_insert_eq. split_and!; [done|set_solver|].
    assert (dom (eph_pub_keys ek) ≠ dom (dkg_elders s)) as Hne.
    { intros Heq. rewrite <-Heq in Hin. apply elem_of_dom in Hin as [? ?]. congruence. }
    case_bool_decide as Hd; simpl; naive_solver.
Qed.

Lemma announce_spec l v now s ks :
  session_keys v s = Some ks → dom ks ⊆ dom (dkg_elders s) →
  let '(v', rs) := announce v now s l in
  ∃ ks', session_keys v' s = Some ks' ∧ ks ⊆ ks' ∧ dom ks' = dom ks ∪ accepted s l ∧
    dom ks' ⊆ dom (dkg_elders s) ∧ (keys_valid ks → keys_valid ks') ∧
    completions rs = (if decide (dom ks ≠ dom (dkg_elders s) ∧ dom ks' = dom (dkg_elders s)) then 1 else 0).
Proof.
  revert v ks. induction l as [|[o [k g]] l IH]; intros v ks Hks Hsub; simpl.
  { exists ks. split_and!; [done..|unfold accepted; set_solver|done|done|]. rewrite decide_False; [done|naive_solver]. }
  pose proof (save_key_session_keys v now s o k g ks Hks Hsub) as Hsave.
  destruct (save_key sha3 v now s o k g) as [v1 r]. destruct Hsave as (Hks1 & Hsub1 & Hr).
  match type of Hks1 with _ = Some ?k1 => set (ks1 := k1) in * end. specialize (IH v1 ks1 Hks1 Hsub1).
  destruct (announce v1 now s l) as [v2 rs]. destruct IH as (ks2 & Hks2 & Hle & Hdom & Hsub2 & Hval & Hcount).
  assert (ks ⊆ ks1) as Hle1.
  { unfold ks1. destruct (is_ok _); simpl; [|done]. case_bool_decide; [|done]. by apply insert_subseteq. }
  assert (dom ks1 ∪ accepted s l = dom ks ∪ accepted s ((o, (k, g)) :: l)) as Hacc.
  { unfold accepted, ks1. rewrite filter_cons. simpl. destruct (is_ok _); simpl; [|done].
    case_bool_decide as Hno; [set_solver|].
    apply not_eq_None_Some, elem_of_dom in Hno. set_solver. }
  exists ks2. split_and!; [done|by etrans|by rewrite Hdom|done| |].
  - intros Hv. apply Hval. unfold ks1. destruct (is_ok _) eqn:Hok; simpl; [|done].
    case_bool_decide; [|done]. apply map_Forall_insert_2; [|done]. simpl.
    destruct (check_key_cases s o k g) as [[_ Hc]%check_key_spec|(e & He & _)]; [done|]. by rewrite He in Hok.
  - unfold completions in *. rewrite filter_cons.
    assert (dom ks ⊆ dom ks1) by (by apply subseteq_dom).
    assert (r = Ok true ∨ r ≠ Ok true) as [->|Hnr] by (destruct r as [[]|]; [left|right..]; done).
    + rewrite decide_True by done. cbn [length]. rewrite Hcount. destruct (proj1 Hr eq_refl) as [Hn0 Hd1].
      rewrite decide_False by naive_solver. rewrite decide_True; [done|]. split; [done|].
      apply subseteq_dom in Hle. set_solver.
    + rewrite decide_False by (destruct r as [[]|]; naive_solver). rewrite Hcount.
      destruct (decide (dom ks = dom (dkg_elders s))) as [Heq|Hne].
      * rewrite !decide_False; [done|naive_solver|]. intros [Hne _]. apply Hne. set_solver.
      * apply decide_ext. naive_solver.
Qed.

(** C26: whatever keys are announced for a session, in whatever order, the voter keeps the
    keys it has, ends with a verified key for exactly the candidates that announced one
    validly, and reports the completion of the keys once: with the last candidate
    missing, if all of them announced a key, and never otherwise. *)
Theorem dkg_keys_complete_once l v now s ks :
  session_keys v s = Some ks → dom ks ⊆ dom (dkg_elders s) → dom ks ≠ dom (dkg_elders s) →
  keys_valid ks →
  let '(v', rs) := announce v now s l in
  ∃ ks', session_keys v' s = Some ks' ∧ ks ⊆ ks' ∧ dom ks' = dom ks ∪ accepted s l ∧
    keys_valid ks' ∧
    completions rs = (if decide (dom ks ∪ accepted s l = dom (dkg_elders s)) then 1 else 0).
Proof.
  intros Hks Hsub Hne Hv. pose proof (announce_spec l v now s ks Hks Hsub) as Ha.
  destruct (announce v now s l) as [v' rs]. destruct Ha as (ks' & H1 & H2 & H3 & _ & H5 & H6).
  exists ks'. split_and!; [done..|by apply H5|]. rewrite H6, <-H3. apply decide_ext. naive_solver.
Qed.

(** ** What the operations keep *)

(** Every key is verified, our own key belongs to our secret key, and a session that
    votes has its keys. *)
Definition voter_ok (our_name : XorName) v : Prop :=
  (∀ h ek, dkg_ephemeral_keys v !! h = Some ek →
     keys_valid (eph_pub_keys ek) ∧
     ∃ key_sig, eph_pub_keys ek !! our_name = Some (sk_public_key (eph_secret_key ek), key_sig)) ∧
  dom (dkg_states v) ⊆ dom (dkg_ephemeral_keys v).

(** An operation that keeps these and the set of sessions with keys. *)
Definition voter_step (our_name : XorName) v v' : Prop :=
  dom (dkg_ephemeral_keys v') = dom (dkg_ephemeral_keys v) ∧ (voter_ok our_name v → voter_ok our_name v').

#[export] Instance voter_step_preorder our_name : PreOrder (voter_step our_name).
Proof.
  split; [by intros v|]. intros v1 v2 v3 [Hd1 Ho1] [Hd2 Ho2]. split; [congruence|auto].
Qed.

Lemma save_key_step our_name v now s owner key key_sig :
  voter_step our_name v (save_key sha3 v now s owner key key_sig).1.
Proof.
  pose proof (save_key_spec v now s owner key key_sig) as Hs.
  destruct (save_key sha3 v now s owner key key_sig) as [v' r]. simpl.
  destruct Hs as [[-> _]|(ek & Hek & Hno & _ & Hval & -> & _)]; [reflexivity|]. split.
  - simpl. apply dom_insert_lookup_L. by eexists.
  - intros [Hk Hst]. split; simpl; [|by rewrite dom_insert_lookup_L].
    intros h ek'. rewrite lookup_insert. case_decide as Hh; [|apply Hk]. intros [= <-]. subst. simpl.
    destruct (Hk _ _ Hek) as [Hkv (g & Hour)]. split; [by apply map_Forall_insert_2|].
    exists g. rewrite lookup_insert_ne; [done|]. congruence.
Qed.

Lemma set_states_step our_name v h (st : DkgState) :
  h ∈ dom (dkg_ephemeral_keys v) → voter_step our_name v (set_states v (<[h := st]> (dkg_states v))).
Proof. intros Hh. split; [done|]. intros [Hk Hst]. split; simpl; [done|set_solver]. Qed.

Lemma initialize_step our_name v s i rng : voter_step our_name v (initialize_dkg_state sha3 v s i rng).1.
Proof.
  unfold initialize_dkg_state. destruct (dkg_ephemeral_keys v !! hash s) as [ek|] eqn:Hek; [|reflexivity].
  destruct (create_dkg_state _ _ _ _ _); [|reflexivity]. destruct (dkg_first_vote _).
  apply set_states_step, elem_of_dom. by eexists.
Qed.

Lemma try_init_step our_name v now s i key key_sig sender rng :
  voter_step our_name v (try_init_dkg sha3 v now s i key key_sig sender rng).1.
Proof.
  unfold try_init_dkg. pose proof (save_key_step our_name v now s sender key key_sig) as Hs.
  destruct (save_key sha3 v now s sender key key_sig) as [v1 [[]|e]]; try done.
  pose proof (initialize_step our_name v1 s i rng) as Hi.
  destruct (initialize_dkg_state sha3 v1 s i rng) as [v2 [start|e]]; by etrans.
Qed.

Lemma save_keys_step our_name l v now s : voter_step our_name v (save_keys sha3 v now s l).1.
Proof.
  revert v. induction l as [|[o [k g]] l IH]; intros v; simpl; [reflexivity|].
  pose proof (save_key_step our_name v now s o k g) as Hs.
  destruct (save_key sha3 v now s o k g) as [v1 [c|e]]; [|done]. specialize (IH v1).
  destruct (save_keys sha3 v1 now s l) as [v2 [rest|e]]; by etrans.
Qed.

Lemma check_keys_step our_name v now s keys : voter_step our_name v (check_keys sha3 v now s keys).1.
Proof.
  unfold check_keys. destruct (dkg_ephemeral_keys v !! hash s); [|reflexivity].
  case_decide; [reflexivity|]. pose proof (save_keys_step our_name (bmap_iter keys) v now s) as Hs.
  by destruct (save_keys sha3 v now s (bmap_iter keys)) as [v1 [c|e]].
Qed.

Lemma voter_ok_state_keys our_name v s :
  voter_ok our_name v → is_Some (dkg_states v !! hash s) → hash s ∈ dom (dkg_ephemeral_keys v).
Proof. intros [_ Hst] Hs%elem_of_dom. set_solver. Qed.

Lemma handle_dkg_vote_step our_name v s vote rng : voter_step our_name v (handle_dkg_vote sha3 v s vote rng).1.
Proof.
  unfold handle_dkg_vote. destruct (dkg_states v !! hash s) as [st|] eqn:Hst; [|reflexivity].
  destruct (dkg_handle_signed_vote st vote rng) as [st' r]. split; [done|]. intros Hok.
  eapply set_states_step; [|done]. eapply voter_ok_state_keys; [done|by eexists].
Qed.

Lemma force_termination_step our_name v s : voter_step our_name v (force_termination sha3 v s).1.
Proof.
  unfold force_termination. destruct (dkg_states v !! hash s) as [st|] eqn:Hst; [|reflexivity].
  destruct (dkg_force_termination st) as [st' r]. split; [done|]. intros Hok.
  eapply set_states_step; [|done]. eapply voter_ok_state_keys; [done|by eexists].
Qed.

Lemma timer_step our_name v t :
  voter_step our_name v (mkDkgVoter (dkg_ephemeral_keys v) (dkg_states v) t).
Proof. done. Qed.

(** Our own key is generated with a signature that everybody can check. *)
Context {EL : EdKeypairLaws}.

Lemma gen_ephemeral_key_ok v s kp sk :
  let our_name := ed_name (kp_public kp) in
  voter_ok our_name v →
  match gen_ephemeral_key sha3 v s our_name kp sk with
  | (v', Ok (key, key_sig)) =>
      voter_ok our_name v' ∧ key_valid our_name key key_sig ∧
      dom (dkg_ephemeral_keys v') = {[hash s]} ∪ dom (dkg_ephemeral_keys v)
  | (v', Err e) => v' = v ∧ (e = DkgEphemeralKeyAlreadyGenerated → hash s ∈ dom (dkg_ephemeral_keys v))
  end.
Proof.
  intros our_name [Hk Hst]. unfold gen_ephemeral_key. case_bool_decide as Hh; [by rewrite elem_of_dom|].
  destruct (bincode_serialize (sk_public_key sk)) as [bs|] eqn:Hbs; [|done]. simpl.
  assert (key_valid our_name (sk_public_key sk) (ed_sign bs kp)) as Hv.
  { exists (kp_public kp), bs. split_and!; [apply pub_key_name|done|apply ed_sign_verifies]. }
  split_and!; [|done|set_solver]. split; simpl; [|set_solver].
  intros h ek. rewrite lookup_insert. case_decide; [|apply Hk]. intros [= <-]. simpl. split.
  - intros o p. rewrite lookup_singleton_Some. by intros [<- <-].
  - exists (ed_sign bs kp). by rewrite lookup_singleton_eq.
Qed.
End voter.

(** ** The sessions of a node *)

Section node.
Context {B : Bls} {BSh : BlsShares} {X : Xor} {Cfg : Settings} {E : Ed25519}.
Context {NH : NameHashing} {EK : EdKeypairs} {EL : EdKeypairLaws} {SD : Sdkg} {DS : DataStore}.
Context {Trigger : Type} `{Countable Trigger} {C : ConsensusDecision Trigger}.
Context {R : ConsensusRounds (NodeState Trigger) (Decision Trigger)}.
Context {D : Type} {RH : ConsensusRounds (SapCandidate Trigger) D} {M : Merkle SectionInfo}.
Context {Digest : Type} `{Countable Digest} (sha3 : list bytes → Digest) {Stream : Type}.
Context {BP : Bincode PublicKey} {BS : Bincode (SectionAuthorityProvider Trigger)}.
Context {BD : Bincode (DkgSessionId Trigger)}.
Context {ON : Ord NodeId} {OS : Ord (NodeState Trigger)} {OSh : Ord SectionSigShare}.
Implicit Types (n : MyNode Trigger D Digest) (s : DkgSessionId Trigger).

Abbreviation hash := (session_hash sha3).
Abbreviation NodeCmd := (Cmd Trigger D Stream).

(** The candidates of a session other than the node with the given index. *)
Lemma session_names_sorted s : merge_sort ord_le (session_elder_names s) = session_elder_names s.
Proof.
  apply (Sorted_unique ord_le); [apply Sorted_merge_sort, _| |apply merge_sort_Permutation].
  unfold session_elder_names. apply (Sorted_fmap _ key_le); [|apply bmap_iter_Sorted]. by intros [] [].
Qed.
Lemma elder_index_lookup s nm i : elder_index s nm = Some i → session_elder_names s !! i = Some nm.
Proof.
  unfold elder_index. rewrite session_names_sorted. intros ([j x] & Hf & ->)%fmap_Some.
  apply list_find_Some in Hf as (Hl & -> & _). done.
Qed.

Lemma dkg_nodes_spec s nm i :
  elder_index s nm = Some i → dkg_nodes i s = list_to_set (filter (λ x, id_name x ≠ nm) (elder_ids s)).
Proof.
  intros Hi%elder_index_lookup. apply set_eq. intros x. unfold dkg_nodes.
  rewrite !elem_of_list_to_set, list_elem_of_filter, list_elem_of_fmap.
  assert (∀ j y, elder_ids s !! j = Some y → session_elder_names s !! j = Some (id_name y)) as Hn.
  { intros j y. unfold elder_ids, session_elder_names. rewrite !list_lookup_fmap.
    destruct (bmap_iter (dkg_elders s) !! j) as [[]|]; simpl; [|done]. by intros [= <-]. }
  assert (NoDup (session_elder_names s)) as Hnd by apply NoDup_bmap_iter.
  split.
  - intros ([j y] & -> & [Hne (k & y' & [= <- <-] & Hk)%elem_of_lookup_imap]%list_elem_of_filter). simpl in *.
    split; [|by eapply list_elem_of_lookup_2]. intros Hnm. apply Hne. eapply NoDup_lookup; [done|by apply Hn|].
    by rewrite Hnm.
  - intros [Hne (j & Hj)%list_elem_of_lookup]. exists (j, x). split; [done|]. apply list_elem_of_filter.
    split; [|apply elem_of_lookup_imap; by exists j, x]. simpl. intros ->. apply Hne.
    apply Hn in Hj. congruence.
Qed.

(** The sessions of a node are consistent: the voter is, every session with keys has
    its authority, and an authority is kept under the hash of its session. *)
Definition dkg_ok n : Prop :=
  voter_ok (node_name n) (dkg_voter n) ∧
  dom (dkg_ephemeral_keys (dkg_voter n)) ⊆ dom (dkg_sessions_info n) ∧
  map_Forall (λ h i, hash (info_session_id i) = h) (dkg_sessions_info n).

(** A handler that keeps the sessions and only steps the voter. *)
Definition dkg_frame n n' : Prop :=
  keypair n' = keypair n ∧ network_knowledge n' = network_knowledge n ∧
  dkg_sessions_info n' = dkg_sessions_info n ∧ voter_step (node_name n) (dkg_voter n) (dkg_voter n').

#[export] Instance dkg_frame_preorder : PreOrder dkg_frame.
Proof.
  split.
  - intros n. unfold dkg_frame. split_and!; reflexivity.
  - intros n1 n2 n3 (K1 & N1 & I1 & V1) (K2 & N2 & I2 & V2). split_and!; [congruence..|].
    unfold node_name in *. rewrite K1 in V2. by etrans.
Qed.

Lemma dkg_frame_ok n n' : dkg_frame n n' → dkg_ok n → dkg_ok n'.
Proof.
  unfold dkg_ok, node_name. intros (-> & _ & -> & Hd & Hv) (H1 & H2 & H3).
  split_and!; [by apply Hv|by rewrite Hd|done].
Qed.
Lemma set_voter_frame n v : voter_step (node_name n) (dkg_voter n) v → dkg_frame n (set_dkg_voter n v).
Proof. intros Hv. unfold dkg_frame. split_and!; done. Qed.

(** The start of a session adds its authority and our key, or nothing. *)
Lemma dkg_start_ok n s sig sk n' (r : result (NodeError Trigger D) (list NodeCmd)) :
  dkg_start sha3 n s sig sk = Some (n', r) → dkg_ok n → dkg_ok n'.
Proof.
  unfold dkg_start. destruct (elder_index s (node_name n)) as [i|]; [|by intros [= <- _]].
  destruct (section_chain_len _) as [c|]; [|done]. simpl. case_decide; [by intros [= <- _]|].
  intros Hr (Hv & Hd & Hi). pose proof (gen_ephemeral_key_ok sha3 (dkg_voter n) s (keypair n) sk Hv) as Hg.
  change (ed_name (kp_public (keypair n))) with (node_name n) in Hg.
  assert (map_Forall (λ h i, hash (info_session_id i) = h)
    (<[hash s := mkSessionInfo s sig]> (dkg_sessions_info n))) as Hi'
    by (by apply map_Forall_insert_2).
  destruct (gen_ephemeral_key sha3 (dkg_voter n) s (node_name n) (keypair n) sk) as [v [[key g]|e]].
  - destruct Hg as (Hv' & _ & Hd'). destruct (check_ephemeral_dkg_key _ _ _ _); [|done].
    injection Hr as <- _. split_and!; [done| |done]. simpl. rewrite Hd'. set_solver.
  - destruct Hg as [-> _]. assert (n' = set_dkg_voter (set_dkg_sessions_info n
      (<[hash s := mkSessionInfo s sig]> (dkg_sessions_info n))) (dkg_voter n)) as ->
      by (destruct e; by injection Hr as <- _).
    split_and!; [done| |done]. simpl. set_solver.
Qed.

Lemma aggregate_frame n s share : dkg_frame n (aggregate_dkg_start sha3 n s share).1.
Proof.
  unfold aggregate_dkg_start. case_decide; [|reflexivity].
  destruct (bincode_serialize s); [|reflexivity]. by destruct (try_aggregate _ _ _ _ _).
Qed.

Lemma handle_dkg_start_ok n s share sk n' (r : result (NodeError Trigger D) (list NodeCmd)) :
  handle_dkg_start sha3 n s share sk = Some (n', r) → dkg_ok n → dkg_ok n'.
Proof.
  unfold handle_dkg_start. intros Hr Hok. pose proof (dkg_frame_ok _ _ (aggregate_frame n s share) Hok) as Ha.
  destruct (aggregate_dkg_start sha3 n s share) as [n1 [[sg|]|e]]; [|by injection Hr as <- _..].
  by eapply dkg_start_ok.
Qed.

Lemma extend_cmds_Some (cmds : list NodeCmd) o n' r :
  extend_cmds cmds o = Some (n', r) → ∃ r0, o = Some (n', r0).
Proof. destruct o as [[n0 [c|e]]|]; simpl; [intros [= <- _]; by eexists..|done]. Qed.

Lemma send_dkg_start_ok n s sk n' (r : result (NodeError Trigger D) (list NodeCmd)) :
  send_dkg_start sha3 n s sk = Some (n', r) → dkg_ok n → dkg_ok n'.
Proof.
  unfold send_dkg_start. destruct (sign_session_id n s) as [share|e]; [|by intros [= <- _]].
  destruct (existsb _ _); [|by intros [= <- _]].
  intros (r0 & Hr)%extend_cmds_Some. by eapply handle_dkg_start_ok.
Qed.

Lemma handle_ephemeral_ok fuel n now s auth key key_sig sender sk rng n'
    (r : result (NodeError Trigger D) (list NodeCmd)) :
  handle_dkg_ephemeral_pubkey sha3 fuel n now s auth key key_sig sender sk rng = Some (n', r) →
  dkg_ok n → dkg_ok n'.
Proof.
  revert n n' r. induction fuel as [|fuel IH]; intros n n' r; [done|]. simpl.
  destruct (elder_index s (node_name n)) as [i|]; [|by intros [= <- _]].
  pose proof (try_init_step sha3 (node_name n) (dkg_voter n) now s i key key_sig (id_name sender) rng) as Ht.
  destruct (try_init_dkg _ _ _ _ _ _ _ _ _) as [v [[[vote keys]|]|e]]; simpl in Ht.
  1-2: intros [= <- _]; by apply dkg_frame_ok, set_voter_frame.
  intros Hr Hok. apply (dkg_frame_ok _ _ (set_voter_frame _ _ Ht)) in Hok.
  destruct e; try (by injection Hr as <- _).
  unfold handle_missed_dkg_start in Hr. destruct (bincode_serialize s); [|by injection Hr as <- _].
  destruct (decide _); [|by injection Hr as <- _]. destruct (section_sig_verify _ _); [|by injection Hr as <- _].
  destruct (dkg_start _ _ _ _ _) as [[n1 [cmds|er]]|] eqn:Hs; [| |done].
  - apply extend_cmds_Some in Hr as [r0 Hr]. eapply IH; [exact Hr|]. by eapply dkg_start_ok.
  - injection Hr as <- _. by eapply dkg_start_ok.
Qed.

Lemma handle_responses_frame l n s keys sender i :
  dkg_frame n (handle_responses (Stream := Stream) n s keys sender i l).1.1.
Proof.
  revert n. induction l as [|r l IH]; intros n; simpl; [reflexivity|].
  set (n1 := match r with DkgComplete _ _ => _ | _ => n end).
  assert (dkg_frame n n1) as H1 by (destruct r; [reflexivity..|]; by apply set_voter_frame, timer_step).
  destruct (handle_vote_response s keys sender i r). specialize (IH n1).
  destruct (handle_responses n1 s keys sender i l) as [[n2 c] a]. by etrans.
Qed.

Lemma handle_votes_frame l n now s keys sender i rng :
  dkg_frame n (handle_votes (Stream := Stream) sha3 n now s keys sender i l rng).1.1.1.
Proof.
  revert n rng. induction l as [|vt l IH]; intros n rng; simpl; [reflexivity|].
  pose proof (handle_dkg_vote_step sha3 (node_name n) (dkg_voter n) s vt (rng 0)) as Hv.
  destruct (handle_dkg_vote sha3 (dkg_voter n) s vt (rng 0)) as [v r]. simpl in Hv.
  apply set_voter_frame in Hv. destruct r as [rs|e]; [|by etrans; [exact Hv|apply IH]].
  set (n1 := if negb _ then _ else _).
  assert (dkg_frame n n1) as H1.
  { etrans; [exact Hv|]. unfold n1. destruct (negb _); [|reflexivity]. by apply set_voter_frame, timer_step. }
  pose proof (handle_responses_frame rs n1 s keys sender i) as H2.
  destruct (handle_responses n1 s keys sender i rs) as [[n2 c] a]. specialize (IH n2 (λ i, rng (S i))).
  destruct (handle_votes sha3 n2 now s keys sender i l _) as [[[n3 c'] a'] o].
  etrans; [exact H1|]. by etrans.
Qed.

Lemma handle_dkg_votes_frame n now s keys votes sender rng :
  dkg_frame n (handle_dkg_votes (Stream := Stream) sha3 n now s keys votes sender rng).1.
Proof.
  unfold handle_dkg_votes. destruct (elder_index s (node_name n)) as [i|]; [|reflexivity].
  pose proof (check_keys_step sha3 (node_name n) (dkg_voter n) now s keys) as Hc.
  destruct (check_keys sha3 (dkg_voter n) now s keys) as [v r]. simpl in Hc. apply set_voter_frame in Hc.
  destruct r as [[ks completed]|e]; [|done].
  set (p := if completed then _ else _).
  assert (dkg_frame n p.1) as Hp.
  { etrans; [exact Hc|]. unfold p. destruct completed; [|reflexivity].
    pose proof (initialize_step sha3 (node_name (set_dkg_voter n v)) (dkg_voter (set_dkg_voter n v)) s i (rng 0)) as Hi.
    destruct (initialize_dkg_state sha3 _ s i (rng 0)) as [v' r']. by apply set_voter_frame. }
  destruct p as [n1 [first|e]]; [|done]. simpl in Hp.
  pose proof (handle_votes_frame votes n1 now s ks sender i (λ i, rng (S i))) as Hv.
  destruct (handle_votes sha3 n1 now s ks sender i votes _) as [[[n2 c] a] o].
  destruct (o && _); by etrans.
Qed.

Lemma force_dkg_termination_frame n s key : dkg_frame n (force_dkg_termination sha3 n s key).
Proof.
  unfold force_dkg_termination.
  pose proof (force_termination_step sha3 (node_name n) (dkg_voter n) s) as Hf.
  destruct (force_termination sha3 (dkg_voter n) s) as [v r]. simpl in Hf. apply set_voter_frame in Hf.
  destruct r as [[[[i pks] sks]|]|e]; [|done..]. case_decide; [|done]. exact Hf.
Qed.

Lemma remove_session_ok n h : dkg_ok n → dkg_ok (remove_session n h).
Proof.
  intros ([Hk Hst] & Hd & Hi). unfold dkg_ok, remove_session. simpl. split_and!.
  - split; simpl; [|set_solver]. intros h' ek. rewrite lookup_delete. case_decide; [done|]. apply Hk.
  - set_solver.
  - intros h' i. rewrite lookup_delete. case_decide; [done|]. apply Hi.
Qed.

Lemma foldl_ok {A} (f : MyNode Trigger D Digest → A → MyNode Trigger D Digest) (l : list A) n :
  (∀ n x, dkg_ok n → dkg_ok (f n x)) → dkg_ok n → dkg_ok (foldl f n l).
Proof. intros Hf. revert n. induction l as [|x l IH]; intros n Hok; simpl; auto. Qed.

(** Everything a node does to its sessions. *)
Inductive dkg_step n : MyNode Trigger D Digest → Prop :=
  | step_send_start s sk n' (r : result _ (list NodeCmd)) :
      send_dkg_start sha3 n s sk = Some (n', r) → dkg_step n n'
  | step_handle_start s share sk n' (r : result _ (list NodeCmd)) :
      handle_dkg_start sha3 n s share sk = Some (n', r) → dkg_step n n'
  | step_handle_key fuel now s auth key key_sig sender sk rng n' (r : result _ (list NodeCmd)) :
      handle_dkg_ephemeral_pubkey sha3 fuel n now s auth key key_sig sender sk rng = Some (n', r) → dkg_step n n'
  | step_handle_votes now s keys votes sender rng :
      dkg_step n (handle_dkg_votes (Stream := Stream) sha3 n now s keys votes sender rng).1
  | step_section_change key entries n' :
      update_dkg_on_section_change sha3 n key entries = Some n' → dkg_step n n'
  | step_members entries : dkg_step n (remove_dkg_sessions_with_missing_members n entries).

Lemma dkg_step_ok n n' : dkg_step n n' → dkg_ok n → dkg_ok n'.
Proof.
  intros [s sk n1 r Hr|s share sk n1 r Hr|fuel now s auth key g sender sk rng n1 r Hr
         |now s keys votes sender rng|key entries n1 Hr|entries] Hok.
  - by eapply send_dkg_start_ok.
  - by eapply handle_dkg_start_ok.
  - by eapply handle_ephemeral_ok.
  - by eapply dkg_frame_ok; [apply handle_dkg_votes_frame|].
  - unfold update_dkg_on_section_change in Hr. destruct (section_chain_len _); [|done].
    injection Hr as <-. apply foldl_ok; [by intros; apply remove_session_ok|].
    apply foldl_ok; [|done]. intros m id Hm. by eapply dkg_frame_ok; [apply force_dkg_termination_frame|].
  - by apply foldl_ok; [intros; apply remove_session_ok|].
Qed.

(** What a session in progress must tell the other candidates. *)
Definition gossips_to_all n s (cmds : list NodeCmd) : Prop :=
  ∃ msg, cmds = [SendMsg msg (Multiple (list_to_set (filter (λ x, id_name x ≠ node_name n) (elder_ids s))))] ∧
    ((∃ keys votes, msg = DkgVotes s keys votes) ∨ ∃ auth key key_sig, msg = DkgEphemeralPubKey s auth key key_sig).

Lemma gossip_session_ok n c i :
  let s := info_session_id i in
  dkg_ok n → dkg_sessions_info n !! hash s = Some i → hash s ∈ dom (dkg_ephemeral_keys (dkg_voter n)) →
  is_Some (elder_index s (node_name n)) → reached_termination sha3 (dkg_voter n) s ≠ Ok true →
  gossips_to_all n s (gossip_session sha3 n c i).
Proof.
  intros s ([Hk Hst] & _ & _) Hi [ek Hek]%elem_of_dom [idx Hidx] Hrt. unfold gossip_session.
  fold s. rewrite Hidx. destruct (Hk _ _ Hek) as [_ [g Hour]].
  assert (get_dkg_keys sha3 (dkg_voter n) s = Ok (eph_pub_keys ek)) as Hkeys
    by (unfold get_dkg_keys; by rewrite Hek).
  assert (gossips_to_all n s match get_all_votes sha3 (dkg_voter n) s with
          | Ok votes => gossip_votes sha3 (dkg_voter n) s votes idx
          | Err _ => gossip_our_key sha3 (dkg_voter n) (dkg_sessions_info n) s (node_name n) idx end) as Hg.
  { destruct (get_all_votes sha3 (dkg_voter n) s) as [votes|e].
    - unfold gossip_votes, broadcast_dkg_votes. rewrite Hkeys, (dkg_nodes_spec s _ _ Hidx).
      eexists. split; [reflexivity|]. left. eauto.
    - unfold gossip_our_key. rewrite Hkeys, Hour, Hi, (dkg_nodes_spec s _ _ Hidx).
      eexists. split; [reflexivity|]. right. eauto. }
  by destruct (reached_termination sha3 (dkg_voter n) s) as [[]|].
Qed.

Lemma dkg_ok_empty n :
  dkg_ephemeral_keys (dkg_voter n) = ∅ → dkg_states (dkg_voter n) = ∅ → dkg_sessions_info n = ∅ → dkg_ok n.
Proof.
  intros Hk Hs Hi. unfold dkg_ok, voter_ok. rewrite Hk, Hs, Hi, !dom_empty_L.
  split_and!; [|done..|apply map_Forall_empty]. intros h ek. by rewrite lookup_empty.
Qed.

(** ** Missed starts *)

Lemma elder_index_elder s nm i : elder_index s nm = Some i → nm ∈ dom (dkg_elders s).
Proof.
  intros Hi%elder_index_lookup%list_elem_of_lookup_2. unfold session_elder_names in Hi.
  apply list_elem_of_fmap in Hi as ([x a] & -> & Hin%elem_of_bmap_iter). apply elem_of_dom. by eexists.
Qed.

Lemma create_state_error s i sk keys rng s' : create_dkg_state s i sk keys rng ≠ Err (NoDkgKeysForSession s').
Proof.
  unfold create_dkg_state. assert (∀ l m, index_keys s l m ≠ Err (NoDkgKeysForSession s')) as Hidx.
  { induction l as [|[x [k g]] l IH]; intros m; simpl; [done|]. by destruct (elder_index s x). }
  pose proof (Hidx (bmap_iter keys) ∅) as Hi. destruct (index_keys _ _ _); simpl; [|congruence].
  by destruct (dkg_new _ _ _ _ _).
Qed.

(** The keys of a session are missed exactly for a valid key of an unknown session. *)
Lemma try_init_missed (v : DkgVoter Digest) now s i key key_sig sender rng :
  let r := try_init_dkg sha3 v now s i key key_sig sender rng in
  (r = (v, Err (NoDkgKeysForSession s)) ∧ dkg_ephemeral_keys v !! hash s = None ∧
   check_ephemeral_dkg_key s sender key key_sig = Ok ()) ∨
  ((∀ s', r.2 ≠ Err (NoDkgKeysForSession s')) ∧
   (is_Some (dkg_ephemeral_keys v !! hash s) ∨ check_ephemeral_dkg_key s sender key key_sig ≠ Ok ())).
Proof.
  cbn zeta. unfold try_init_dkg, save_key.
  destruct (check_key_cases s sender key key_sig) as [Hc|(e & He & Hne)]; [rewrite Hc|rewrite He; simpl; right].
  2: { split; [intros s' [= ->]; by eapply Hne|by right]. }
  destruct (dkg_ephemeral_keys v !! hash s) as [ek|] eqn:Hek; [|by left]. right. split; [|left; by eexists].
  destruct (eph_pub_keys ek !! sender) as [[k g]|]; [by case_decide|].
  rewrite (bool_decide_eq_false_2 (is_Some None)) by apply is_Some_None. case_bool_decide; [|done].
  unfold initialize_dkg_state. simpl. rewrite lookup_insert_eq. simpl. intros s'.
  pose proof (create_state_error s i (eph_secret_key ek) (<[sender:=(key, key_sig)]> (eph_pub_keys ek)) rng s').
  destruct (create_dkg_state _ _ _ _ _); [|simpl; congruence]. by destruct (dkg_first_vote _) as [? []].
Qed.

(** A session that is not older than our chain is started: our key is there afterwards. *)
Lemma dkg_start_recent n s sig sk c i :
  section_chain_len (network_knowledge n) = Some c → elder_index s (node_name n) = Some i →
  ¬ dkg_section_chain_len s < c →
  ∃ n' r, dkg_start (Stream := Stream) sha3 n s sig sk = Some (n', r) ∧ node_name n' = node_name n ∧
    (is_ok r = true → is_Some (dkg_ephemeral_keys (dkg_voter n') !! hash s)).
Proof.
  intros Hc Hi Hlt. unfold dkg_start. rewrite Hi, Hc. simpl. rewrite decide_False by done.
  unfold gen_ephemeral_key. simpl. case_bool_decide as Hk.
  { eexists _, _. split; [reflexivity|]. by split. }
  destruct (bincode_serialize (sk_public_key sk)) as [bs|] eqn:Hbs.
  2: { eexists _, _. split; [reflexivity|]. by split. }
  simpl. assert (check_ephemeral_dkg_key s (node_name n) (sk_public_key sk) (ed_sign bs (keypair n)) = Ok ()) as ->.
  { apply check_key_spec. split; [by eapply elder_index_elder|]. exists (kp_public (keypair n)), bs.
    split_and!; [apply pub_key_name|done|apply ed_sign_verifies]. }
  eexists _, _. split; [reflexivity|]. split; [done|]. intros _. simpl. rewrite lookup_insert_eq. by eexists.
Qed.

(** The session has an authority of our section but is older than our chain. *)
Definition outdated_but_authorised n s (auth : SectionSig) (key : PublicKey) (key_sig : EdSignature)
    (sender : NodeId) : Prop :=
  is_Some (elder_index s (node_name n)) ∧ dkg_ephemeral_keys (dkg_voter n) !! hash s = None ∧
  check_ephemeral_dkg_key s (id_name sender) key key_sig = Ok () ∧
  (∃ bs, bincode_serialize s = Some bs ∧ section_sig_verify auth bs = true) ∧
  nk_section_key (network_knowledge n) = sig_public_key auth ∧
  ∃ c, section_chain_len (network_knowledge n) = Some c ∧ dkg_section_chain_len s < c.

Lemma outdated_never_returns fuel n now s auth key key_sig sender sk rng :
  outdated_but_authorised n s auth key key_sig sender →
  handle_dkg_ephemeral_pubkey (Stream := Stream) sha3 fuel n now s auth key key_sig sender sk rng = None.
Proof.
  intros Ho. revert n Ho. induction fuel as [|fuel IH]; intros n Ho; [done|].
  pose proof Ho as ([i Hi] & Hk & Hc & (bs & Hbs & Hv) & Hsk & c & Hlen & Hlt). simpl. rewrite Hi.
  destruct (try_init_missed (dkg_voter n) now s i key key_sig (id_name sender) rng) as [(-> & _)|(_ & [[? ?]|?])];
    [|congruence|congruence].
  unfold handle_missed_dkg_start. rewrite Hbs, decide_True by done. rewrite Hv.
  unfold dkg_start. simpl. change (node_name (set_dkg_voter n (dkg_voter n))) with (node_name n).
  rewrite Hi, Hlen. simpl. rewrite decide_True by done. rewrite IH; [done|]. exact Ho.
Qed.

(** The handler of an ephemeral key and the handler of a missed start call each other;
    this ends after one round, with the key handled in the started session, unless the
    session has a valid authority of our section but is older than our section chain:
    then they call each other for ever. *)
Theorem dkg_key_handler_terminates n now s auth key key_sig sender sk rng c :
  section_chain_len (network_knowledge n) = Some c →
  let handle fuel := handle_dkg_ephemeral_pubkey (Stream := Stream) sha3 fuel n now s auth key key_sig sender sk rng in
  (outdated_but_authorised n s auth key key_sig sender → ∀ fuel, handle fuel = None) ∧
  (¬ outdated_but_authorised n s auth key key_sig sender → ∃ n' r, handle 2 = Some (n', r)).
Proof.
  intros Hlen handle. split; [intros Ho fuel; by apply outdated_never_returns|]. intros Hno.
  subst handle. cbn beta. remember 1 as one eqn:Hone. simpl.
  destruct (elder_index s (node_name n)) as [i|] eqn:Hi; [|by eexists _, _].
  destruct (try_init_missed (dkg_voter n) now s i key key_sig (id_name sender) rng) as [(-> & Hk & Hc)|(Hne & _)].
  2: { destruct (try_init_dkg _ _ _ _ _ _ _ _ _) as [v [[[vote keys]|]|e]]; [by eexists _, _..|].
       destruct e; try (by eexists _, _). exfalso. by eapply Hne. }
  unfold handle_missed_dkg_start. destruct (bincode_serialize s) as [bs|] eqn:Hbs; [|by eexists _, _].
  destruct (decide _) as [Hsk|_]; [|by eexists _, _].
  destruct (section_sig_verify auth bs) eqn:Hv; [|by eexists _, _].
  destruct (dkg_start_recent (set_dkg_voter n (dkg_voter n)) s auth sk c i Hlen Hi) as (n1 & r & -> & Hn1 & Hk1).
  { intros Hlt. apply Hno. unfold outdated_but_authorised. rewrite Hi. split_and!; eauto. }
  destruct r as [cmds|e]; [|by eexists _, _]. specialize (Hk1 eq_refl). subst one. simpl.
  rewrite Hn1. change (node_name (set_dkg_voter n (dkg_voter n))) with (node_name n). rewrite Hi.
  destruct (try_init_missed (dkg_voter n1) now s i key key_sig (id_name sender) rng) as [(_ & Hk2 & _)|(Hne & _)].
  { destruct Hk1 as [? ?]. congruence. }
  destruct (try_init_dkg _ _ _ _ _ _ _ _ _) as [v [[[vote keys]|]|e]]; [by eexists _, _..|].
  destruct e; try (by eexists _, _). exfalso. by eapply Hne.
Qed.

(** ** Sessions that never vote *)

(** All keys of the session are there, but it does not vote yet. *)
Definition complete_without_votes (v : DkgVoter Digest) s : Prop :=
  (∃ ek, dkg_ephemeral_keys v !! hash s = Some ek ∧ dom (eph_pub_keys ek) = dom (dkg_elders s)) ∧
  dkg_states v !! hash s = None.

Lemma save_key_complete v now s owner key key_sig :
  complete_without_votes v s →
  save_key sha3 v now s owner key key_sig = (v, Ok false) ∨
  ∃ e, save_key sha3 v now s owner key key_sig = (v, Err e) ∧ ∀ s', e ≠ NoDkgKeysForSession s'.
Proof.
  intros [(ek & Hek & Hdom) _]. unfold save_key.
  destruct (check_key_cases s owner key key_sig) as [Hc|(e & He & Hne)];
    [rewrite Hc|rewrite He; right; by exists e].
  apply check_key_spec in Hc as [Hin _]. rewrite Hek. rewrite <-Hdom in Hin.
  apply elem_of_dom in Hin as [[k g] ->]. case_decide; [by left|right]. by eexists.
Qed.

Lemma save_keys_complete l v now s :
  complete_without_votes v s →
  (∃ e, save_keys sha3 v now s l = (v, Err e)) ∨
  ∃ completed, save_keys sha3 v now s l = (v, Ok completed) ∧ existsb id completed = false.
Proof.
  intros Hv. induction l as [|[o [k g]] l IH]; simpl; [right; by exists []|].
  destruct (save_key_complete v now s o k g Hv) as [->|(e & -> & _)]; [|left; by eexists].
  destruct IH as [[e ->]|(cs & -> & Hcs)]; [left; by eexists|right]. by exists (false :: cs).
Qed.

Lemma check_keys_complete v now s keys :
  complete_without_votes v s →
  (∃ e, check_keys sha3 v now s keys = (v, Err e)) ∨ check_keys sha3 v now s keys = (v, Ok (keys, false)).
Proof.
  intros Hv. pose proof Hv as [(ek & Hek & _) _]. unfold check_keys. rewrite Hek.
  case_decide; [by right|]. destruct (save_keys_complete (bmap_iter keys) v now s Hv) as [[e ->]|(cs & -> & ->)];
    [left; by eexists|by right].
Qed.

Lemma handle_votes_complete l n now s keys sender i rng :
  complete_without_votes (dkg_voter n) s →
  ∃ n', handle_votes (Stream := Stream) sha3 n now s keys sender i l rng = (n', [], [], true) ∧
    dkg_voter n' = dkg_voter n.
Proof.
  revert n rng. induction l as [|vt l IH]; intros n rng Hv; simpl; [by exists n|].
  unfold handle_dkg_vote. destruct Hv as [Hk Hst]. rewrite Hst.
  destruct (IH (set_dkg_voter n (dkg_voter n)) (λ i, rng (S i)) (conj Hk Hst)) as (n' & -> & Hn'). by exists n'.
Qed.

(** A node that has all keys of a session without voting in it never starts to vote:
    neither a key nor any votes it receives for the session make it send anything or
    change its voter.  It gets there when the message that completes its keys also
    carries a key it refuses. *)
Theorem completed_session_never_votes n now s sender :
  complete_without_votes (dkg_voter n) s →
  (∀ auth key key_sig sk rng, ∃ n',
     handle_dkg_ephemeral_pubkey (Stream := Stream) sha3 1 n now s auth key key_sig sender sk rng = Some (n', Ok []) ∧
     dkg_voter n' = dkg_voter n) ∧
  (∀ keys votes rng,
     let '(n', r) := handle_dkg_votes (Stream := Stream) sha3 n now s keys votes sender rng in
     (r = Ok [] ∨ is_ok r = false) ∧ dkg_voter n' = dkg_voter n).
Proof.
  intros Hv. split.
  - intros auth key g sk rng. simpl. destruct (elder_index s (node_name n)) as [i|]; [|by exists n].
    unfold try_init_dkg. destruct (save_key_complete (dkg_voter n) now s (id_name sender) key g Hv) as [->|(e & -> & He)].
    + by eexists.
    + destruct e; try (by eexists). exfalso. by eapply He.
  - intros keys votes rng. unfold handle_dkg_votes. destruct (elder_index s (node_name n)) as [i|]; [|auto].
    destruct (check_keys_complete (dkg_voter n) now s keys Hv) as [[e ->]| ->]; [by auto|].
    destruct (handle_votes_complete votes (set_dkg_voter n (dkg_voter n)) now s keys sender i (λ i, rng (S i)) Hv)
      as (n' & -> & Hn'). simpl. unfold gossip_missing_votes, get_all_votes. rewrite Hn'. destruct Hv as [_ Hst].
    simpl. rewrite Hst. simpl. destruct (negb _); simpl; auto.
Qed.
End node.

(** ** A concrete session

    Three candidates of the genesis section, the node 00 among them.  It is told the keys
    of the others together with a key of a node that is no candidate. *)

Module DkgDemo.
Import External.Concrete Xor.ConcreteXor DagDemo TreeDemo HistoryDemo KnowledgeDemo AggregatorDemo.
Import MembershipDemo NodeDemo.

Definition demo_candidates : gmap (list bool) SocketAddr :=
  list_to_map [([false; false], id_addr (demo_id [false; false] 1));
               ([false; true], id_addr (demo_id [false; true] 2));
               ([true; true], id_addr (demo_id [true; true] 3))].
Definition demo_session : DkgSessionId (X := concrete_xor) unit := mkSession [] demo_candidates 1 ∅ 0.
#[export] Instance bincode_session : Bincode (DkgSessionId (X := concrete_xor) unit) := λ s,
  Some (mjoin (hash_update s)).
Definition demo_auth : SectionSig :=
  mkSectionSig (pk 1) (pk 1, default [] (bincode_serialize demo_session)).
Definition demo_key (owner : list bool) (key : nat) : list bool * (PublicKey (Bls := concrete_bls) * EdSignature) :=
  (owner, (key, (owner, default [] (concrete_bincode_pk key)))).
Definition demo_keys : gmap (list bool) (PublicKey (Bls := concrete_bls) * EdSignature) :=
  list_to_map [demo_key [false; true] 8; demo_key [true; true] 9; demo_key [true; true; true] 10].

Abbreviation DemoNode := (MyNode unit (list Candidate) (list bytes)).
Definition node_before : DemoNode := fresh_node [false; false] [] genesis_knowledge.
(** The start was missed: the key of another candidate comes with its authority. *)
Definition missed_start :=
  handle_dkg_ephemeral_pubkey (Stream := unit) concat_hash 2 node_before 1 demo_session demo_auth
    (9 : PublicKey) (demo_key [true; true] 9).2.2 (demo_id [true; true] 3) (7 : SecretKey) (() : Rng).
Definition node_started : DemoNode := default node_before (fst <$> missed_start).
Definition demo_sender : NodeId (X := concrete_xor) := demo_id [false; true] 2.
Definition node_complete : DemoNode :=
  (handle_dkg_votes (Stream := unit) concat_hash node_started 1 demo_session demo_keys [(1 : DkgSignedVote)] demo_sender
     (λ _, () : Rng)).1.

Definition complete_without_votes_b (v : DkgVoter (list bytes)) (s : DkgSessionId (X := concrete_xor) unit) : bool :=
  match dkg_ephemeral_keys v !! session_hash concat_hash s, dkg_states v !! session_hash concat_hash s with
  | Some ek, None => bool_decide (dom (eph_pub_keys ek) = dom (dkg_elders s))
  | _, _ => false
  end.
Lemma complete_without_votes_spec v s :
  complete_without_votes_b v s = true → complete_without_votes concat_hash v s.
Proof.
  unfold complete_without_votes_b, complete_without_votes.
  destruct (dkg_ephemeral_keys v !! _) as [ek|]; [|done]. destruct (dkg_states v !! _); [done|].
  intros Hd%bool_decide_eq_true. split; [by exists ek|done].
Qed.

Lemma completed_session_never_votes_witness :
  ∃ n', handle_dkg_ephemeral_pubkey (Stream := unit) concat_hash 1 node_complete 2 demo_session demo_auth
          (8 : PublicKey) (demo_key [false; true] 8).2.2 demo_sender (5 : SecretKey) (() : Rng) = Some (n', Ok []) ∧
        dkg_voter n' = dkg_voter node_complete.
Proof.
  apply (completed_session_never_votes (Stream := unit) concat_hash node_complete 2 demo_session demo_sender).
  apply complete_without_votes_spec. vm_compute. reflexivity.
Defined.

Definition demo_ks : gmap (list bool) (PublicKey (Bls := concrete_bls) * EdSignature) :=
  list_to_map [demo_key [false; false] 7; demo_key [true; true] 9].
Lemma demo_ks_started : session_keys concat_hash (dkg_voter node_started) demo_session = Some demo_ks.
Proof. apply (bool_decide_unpack _). vm_compute. exact I. Qed.
Lemma demo_key_valid (owner : list bool) (key : nat) :
  key_valid (X := concrete_xor) owner (key : PublicKey) (demo_key owner key).2.2.
Proof.
  exists (owner : EdPublicKey (Ed25519 := node_ed)), (default [] (concrete_bincode_pk key)). split_and!; [|done|].
  - apply (f_equal Some), bits_of_bytes.
  - by apply bool_decide_eq_true.
Qed.

Lemma dkg_keys_complete_once_witness :
  let '(v', rs) := announce concat_hash (dkg_voter node_started) 1 demo_session
                     [demo_key [true; true] 9; demo_key [false; true] 8; demo_key [true; true] 9] in
  ∃ ks', session_keys concat_hash v' demo_session = Some ks' ∧ demo_ks ⊆ ks' ∧ completions rs = 1.
Proof.
  pose proof (dkg_keys_complete_once concat_hash
    [demo_key [true; true] 9; demo_key [false; true] 8; demo_key [true; true] 9]
    (dkg_voter node_started) 1 demo_session demo_ks demo_ks_started) as Ht.
  destruct (announce _ _ _ _ _) as [v' rs].
  destruct Ht as (ks' & Hks & Hle & _ & _ & Hc).
  - apply (bool_decide_unpack _). vm_compute. exact I.
  - apply (bool_decide_unpack _). vm_compute. exact I.
  - apply map_Forall_insert_2; [apply demo_key_valid|]. apply map_Forall_insert_2; [apply demo_key_valid|].
    apply map_Forall_empty.
  - exists ks'. split; [exact Hks|]. split; [exact Hle|]. rewrite Hc.
    rewrite decide_True; [reflexivity|]. apply (bool_decide_unpack _). vm_compute. exact I.
Defined.

Lemma missed_start_returns : ∃ r, missed_start = Some (node_started, r).
Proof.
  assert (bool_decide (is_Some missed_start) = true) as Hs%bool_decide_eq_true by (vm_compute; reflexivity).
  unfold node_started. destruct missed_start as [[n r]|]; [by exists r|]. by apply is_Some_None in Hs.
Qed.

Lemma dkg_key_handler_terminates_witness :
  section_chain_len (network_knowledge node_before) = Some 1 ∧
  ∃ n' r, handle_dkg_ephemeral_pubkey (Stream := unit) concat_hash 2 node_before 1 demo_session demo_auth
    (9 : PublicKey (Bls := concrete_bls)) (demo_key [true; true] 9).2.2 (demo_id [true; true] 3) (7 : SecretKey (Sdkg := concrete_sdkg)) (() : Rng (Sdkg := concrete_sdkg)) = Some (n', r).
Proof.
  assert (section_chain_len (network_knowledge node_before) = Some 1) as Hc by (vm_compute; reflexivity).
  split; [exact Hc|].
  apply (proj2 (dkg_key_handler_terminates (Stream := unit) concat_hash node_before 1 demo_session demo_auth
    (9 : PublicKey (Bls := concrete_bls)) (demo_key [true; true] 9).2.2 (demo_id [true; true] 3) (7 : SecretKey (Sdkg := concrete_sdkg)) (() : Rng (Sdkg := concrete_sdkg)) 1 Hc)).
  intros (_ & _ & _ & _ & _ & c & Hc' & Hlt). rewrite Hc in Hc'. injection Hc' as <-. simpl in Hlt. lia.
Defined.
End DkgDemo.
