(* ===== verification/WireMsg.v ===== *)
(** * Wire messages

    [messaging/serialisation/wire_msg_header.rs] and [wire_msg.rs], with [msg_kind.rs] and
    [network_msg.rs]: the header with its length and version, the destination and the
    payload of a message.  The encoding of values with [rmp_serde] is a parameter; the
    fixed-size encoding of the two leading numbers is written out.  The kinds of payload
    are parameters.  [None] of [header_from] is a panic. *)

From S2P Require Import Prelude External Xor NodeState SectionsDag Sap SectionTree MemberHistory.
From S2P Require Import NetworkKnowledge Aggregator Keys Membership Handover Relocation Dkg FaultDetection.
From S2P Require Import MyNode NodeDemo.

Inductive WireError := Serialisation | FailedToParse | WireInvalidSignature | UnsupportedVersion (version : Z).

Section wire.
Context {B : Bls} {BSh : BlsShares} {BPS : BlsPublicShares} {E : Ed25519} {X : Xor}.
Context {MsgId : Type} {Ae Client Response Node : Type}.

Inductive MsgKind :=
  | KindAntiEntropy (name : XorName)
  | KindClient (auth : ClientAuth) (is_spend : bool) (query_index : option nat)
  | KindNode (name : XorName) (is_join : bool)
  | KindDataResponse (name : XorName).

Definition is_ae_msg (k : MsgKind) : bool := match k with KindAntiEntropy _ => true | _ => false end.
Definition is_client_spend (k : MsgKind) : bool := match k with KindClient _ is_spend _ => is_spend | _ => false end.
Definition query_index (k : MsgKind) : option nat := match k with KindClient _ _ i => i | _ => None end.

Record MsgEnvelope := mkEnvelope { env_msg_id : MsgId; env_kind : MsgKind }.
Record WireMsgHeader := mkHeader { hd_version : Z; hd_msg_envelope : MsgEnvelope }.

Context {RE : Rmp MsgEnvelope} {RD : Rmp Dst} {RA : Rmp Ae} {RC : Rmp Client} {RR : Rmp Response} {RN : Rmp Node}.

(** ** Headers *)

Definition MESSAGING_PROTO_VERSION : Z := 1.
(** The size of [HeaderMeta], two [u16]. *)
Definition META_SIZE : nat := 4.

Definition u16_be (z : Z) : bytes := [(z / 256)%Z; (z mod 256)%Z].

(** The leading length and version; bytes may follow. *)
Definition parse_meta (bs : bytes) : option (Z * Z) :=
  match bs with
  | a :: b :: c :: d :: _ => Some (a * 256 + b, c * 256 + d)%Z
  | _ => None
  end.

Definition header_new (msg_id : MsgId) (kind : MsgKind) : WireMsgHeader :=
  mkHeader MESSAGING_PROTO_VERSION (mkEnvelope msg_id kind).

(** The slice [bytes[META_SIZE..header_len]] panics if it ends before it starts. *)
Definition header_from (bs : bytes) : option (result WireError WireMsgHeader) :=
  let bytes_len := length bs in
  match parse_meta bs with
  | None => Some (Err FailedToParse)
  | Some (header_len, version) =>
      if decide (Z.of_nat bytes_len < header_len)%Z then Some (Err FailedToParse)
      else if decide (version ≠ MESSAGING_PROTO_VERSION) then Some (Err (UnsupportedVersion version))
      else if decide (header_len < Z.of_nat META_SIZE)%Z then None
      else
        let msg_envelope_bytes := take (Z.to_nat header_len - META_SIZE) (drop META_SIZE bs) in
        match rmp_decode msg_envelope_bytes with
        | None => Some (Err FailedToParse)
        | Some msg_envelope => Some (Ok (mkHeader version msg_envelope))
        end
  end.

(** [as u16] keeps the low 16 bits of the length. *)
Definition header_serialize (h : WireMsgHeader) : result WireError bytes :=
  msg_envelope_vec ← ok_or (rmp_encode (hd_msg_envelope h)) Serialisation;
  let header_len := (Z.of_nat (META_SIZE + length msg_envelope_vec) mod 2 ^ 16)%Z in
  Ok (u16_be header_len ++ u16_be (hd_version h) ++ msg_envelope_vec).

(** ** Messages *)

Record WireMsg := mkWireMsg {
  wm_header : WireMsgHeader;
  wm_serialized_header : option bytes;
  wm_payload : bytes;
  wm_dst : Dst;
  wm_serialized_dst : option bytes;
}.

Inductive WireContent :=
  | WireAntiEntropy (msg : Ae)
  | WireClient (auth : ClientAuth) (msg : Client)
  | WireNode (msg : Node)
  | WireDataResponse (msg : Response).

Definition wm_msg_id (m : WireMsg) : MsgId := env_msg_id (hd_msg_envelope (wm_header m)).
Definition wm_kind (m : WireMsg) : MsgKind := env_kind (hd_msg_envelope (wm_header m)).

Definition serialize_msg_payload {T} `{!Rmp T} (msg : T) : result WireError bytes := ok_or (rmp_encode msg) Serialisation.
Definition serialize_dst_payload (dst : Dst) : result WireError bytes := ok_or (rmp_encode dst) Serialisation.

Definition new_msg (msg_id : MsgId) (payload : bytes) (kind : MsgKind) (dst : Dst) : WireMsg :=
  mkWireMsg (header_new msg_id kind) None payload dst None.

Definition wire_from (bs : bytes * bytes * bytes) : option (result WireError WireMsg) :=
  let '(header_bytes, dst_bytes, payload) := bs in
  match header_from header_bytes with
  | None => None
  | Some (Err e) => Some (Err e)
  | Some (Ok header) =>
      match rmp_decode dst_bytes with
      | None => Some (Err FailedToParse)
      | Some dst => Some (Ok (mkWireMsg header (Some header_bytes) payload dst (Some dst_bytes)))
      end
  end.

Definition header_bytes (m : WireMsg) : result WireError bytes :=
  match wm_serialized_header m with Some bs => Ok bs | None => header_serialize (wm_header m) end.
Definition dst_bytes (m : WireMsg) : result WireError bytes :=
  match wm_serialized_dst m with Some bs => Ok bs | None => serialize_dst_payload (wm_dst m) end.

Definition wire_serialize (m : WireMsg) : result WireError (bytes * bytes * bytes) :=
  header ← header_bytes m;
  dst ← dst_bytes m;
  Ok (header, dst, wm_payload m).

(** The bytes of the header are cached also when the destination cannot be encoded. *)
Definition serialize_and_cache_bytes (m : WireMsg) : WireMsg * result WireError (bytes * bytes * bytes) :=
  match header_bytes m with
  | Err e => (m, Err e)
  | Ok header =>
      let m := mkWireMsg (wm_header m) (Some header) (wm_payload m) (wm_dst m) (wm_serialized_dst m) in
      match dst_bytes m with
      | Err e => (m, Err e)
      | Ok dst =>
          (mkWireMsg (wm_header m) (wm_serialized_header m) (wm_payload m) (wm_dst m) (Some dst),
           Ok (header, dst, wm_payload m))
      end
  end.

Definition serialize_with_new_dst (m : WireMsg) (dst : Dst) : result WireError (bytes * bytes * bytes) :=
  header ← header_bytes m;
  dst ← serialize_dst_payload dst;
  Ok (header, dst, wm_payload m).

Definition into_msg (m : WireMsg) : result WireError WireContent :=
  match wm_kind m with
  | KindAntiEntropy _ => WireAntiEntropy <$> ok_or (rmp_decode (wm_payload m)) FailedToParse
  | KindClient auth _ _ =>
      msg ← ok_or (rmp_decode (wm_payload m)) FailedToParse;
      auth ← map_err (λ _, WireInvalidSignature) (verify_authority auth (wm_payload m));
      Ok (WireClient auth msg)
  | KindDataResponse _ => WireDataResponse <$> ok_or (rmp_decode (wm_payload m)) FailedToParse
  | KindNode _ _ => WireNode <$> ok_or (rmp_decode (wm_payload m)) FailedToParse
  end.

Definition deserialize_wire (bs : bytes * bytes * bytes) : option (result WireError (MsgId * WireContent)) :=
  match wire_from bs with
  | None => None
  | Some (Err e) => Some (Err e)
  | Some (Ok m) => Some (msg ← into_msg m; Ok (wm_msg_id m, msg))
  end.
End wire.
Arguments MsgEnvelope {_ _ _ _ _} MsgId.
Arguments WireMsg {_ _ _ _ _} MsgId.

(** * Properties of wire messages

    What is sent is what is read, and which bytes make the parser of headers panic. *)

Section wire.
Context {B : Bls} {BSh : BlsShares} {BPS : BlsPublicShares} {E : Ed25519} {X : Xor}.
Context {MsgId : Type} {Ae Client Response Node : Type}.
Context {RE : Rmp (MsgEnvelope MsgId)} {RD : Rmp Dst} {RA : Rmp Ae} {RC : Rmp Client}.
Context {RR : Rmp Response} {RN : Rmp Node} {LE : RmpLaws (MsgEnvelope MsgId)} {LD : RmpLaws Dst}.
Implicit Types (h : WireMsgHeader (MsgId := MsgId)) (m : WireMsg MsgId).
Abbreviation WireContent := (@WireContent B BSh BPS E Ae Client Response Node).


(** The bytes of an encoding fit into the 16-bit length of the header. *)
Definition envelope_fits (e : MsgEnvelope MsgId) : Prop :=
  ∀ bs, rmp_encode e = Some bs → (Z.of_nat (META_SIZE + length bs) < 2 ^ 16)%Z.

Lemma header_roundtrip h bs :
  hd_version h = MESSAGING_PROTO_VERSION → envelope_fits (hd_msg_envelope h) →
  header_serialize h = Ok bs → header_from bs = Some (Ok h).
Proof.
  intros Hv Hfit. unfold header_serialize. destruct (rmp_encode _) as [env|] eqn:He; [|done].
  specialize (Hfit env He). unfold ok_or, mbind, result_bind. intros [= <-]. rewrite Hv. unfold header_from.
  rewrite Z.mod_small by (split; [apply Nat2Z.is_nonneg|exact Hfit]). unfold u16_be. cbn [parse_meta app].
  set (len := Z.of_nat (S (S (S (S (length env)))))). assert (len / 256 * 256 + len mod 256 = len)%Z as ->
    by (pose proof (Z.div_mod len 256); lia).
  change (MESSAGING_PROTO_VERSION / 256 * 256 + MESSAGING_PROTO_VERSION mod 256)%Z with 1%Z.
  cbn [length]. rewrite decide_False by (unfold len, META_SIZE; lia).
  rewrite decide_False by (intros Hn; by apply Hn). rewrite decide_False by (unfold len, META_SIZE; lia).
  assert (Z.to_nat len - META_SIZE = length env) as -> by (unfold len, META_SIZE; lia).
  unfold META_SIZE. cbn [drop]. rewrite firstn_all.
  rewrite drop_0, (rmp_decode_encode _ _ He). by destruct h; simpl in *; subst.
Qed.

(** The kinds whose payload decodes to a message of that kind. *)
Definition carries (kind : MsgKind) (payload : bytes) (msg : WireContent) : Prop :=
  match kind, msg with
  | KindAntiEntropy _, WireAntiEntropy m => rmp_decode payload = Some m
  | KindClient auth _ _, WireClient auth' m =>
      rmp_decode payload = Some m ∧ auth' = auth ∧ verify_authority auth payload = Ok auth
  | KindNode _ _, WireNode m => rmp_decode payload = Some m
  | KindDataResponse _, WireDataResponse m => rmp_decode payload = Some m
  | _, _ => False
  end.

Lemma into_msg_carries m msg : into_msg m = Ok msg ↔ carries (wm_kind m) (wm_payload m) msg.
Proof.
  unfold into_msg, carries. destruct (wm_kind m) as [|auth spend idx| |].
  1,3,4: rewrite result_fmap_Ok; setoid_rewrite ok_or_Ok; destruct msg; naive_solver.
  unfold verify_authority. destruct (rmp_decode (wm_payload m)) as [c|]; cbn; [|destruct msg; naive_solver].
  destruct (key_verify _ _ _) as [[]|]; cbn; destruct msg; naive_solver.
Qed.

(** C37: a message that was created with an envelope that fits the header is read back
    from the bytes it is serialised to, with its id, kind, destination and payload; it
    has the content of its kind if the payload decodes to it and, for a client, the
    signature over the payload is valid; and its bytes stay the same when it is
    serialised again, with the caches filled. *)
Theorem wire_roundtrip msg_id payload kind dst bs :
  envelope_fits (mkEnvelope msg_id kind) →
  wire_serialize (new_msg msg_id payload kind dst) = Ok bs →
  ∃ m, wire_from bs = Some (Ok m) ∧
    wm_header m = header_new msg_id kind ∧ wm_dst m = dst ∧ wm_payload m = payload ∧
    wire_serialize m = Ok bs ∧ (serialize_and_cache_bytes (new_msg msg_id payload kind dst)).2 = Ok bs ∧
    ∀ msg, deserialize_wire bs = Some (Ok (msg_id, msg)) ↔ carries kind payload msg.
Proof.
  intros Hfit. unfold wire_serialize, serialize_and_cache_bytes, header_bytes, dst_bytes. simpl.
  destruct (header_serialize (header_new msg_id kind)) as [hb|] eqn:Hh; [|done]. cbn.
  unfold serialize_dst_payload. destruct (rmp_encode dst) as [db|] eqn:Hd; [|done]. cbn. intros [= <-].
  pose proof (header_roundtrip (header_new msg_id kind) _ eq_refl Hfit Hh) as Hr.
  exists (mkWireMsg (header_new msg_id kind) (Some hb) payload dst (Some db)).
  unfold deserialize_wire, wire_from. rewrite Hr, (rmp_decode_encode _ _ Hd).
  split_and!; [done..|]. intros msg. rewrite <-(into_msg_carries (mkWireMsg (header_new msg_id kind) (Some hb) payload dst (Some db))).
  destruct (into_msg _); cbn; naive_solver.
Qed.

(** A header that claims to be shorter than its two leading numbers, in the right
    version, makes the parser panic; other bytes never do. *)
Theorem short_header_panics bs :
  header_from bs = None ↔
  ∃ header_len, parse_meta bs = Some (header_len, MESSAGING_PROTO_VERSION) ∧ (header_len < 4)%Z.
Proof.
  unfold header_from. destruct (parse_meta bs) as [[len v]|] eqn:Hp; [|naive_solver].
  assert (4 ≤ length bs) as Hlen by (destruct bs as [|? [|? [|? [|? ?]]]]; simpl in *; (done || lia)).
  case_decide as Hl; [split; [done|]; intros (l & [= <- _] & ?); lia|].
  case_decide as Hv; [split; [done|]; naive_solver|].
  case_decide as Hs; [split; [|done]; intros _; exists len; split; [|done]|].
  { f_equal. f_equal. destruct (decide (v = MESSAGING_PROTO_VERSION)); done. }
  split; [by destruct (rmp_decode _)|]. intros (l & [= <- _] & ?). unfold META_SIZE in Hs. lia.
Qed.
End wire.

(** ** A concrete message *)

Module WireDemo.
Import External.Concrete Xor.ConcreteXor AggregatorDemo NodeDemo.

Abbreviation DemoKind := (@MsgKind concrete_bls concrete_shares node_public_shares node_ed concrete_xor).
Abbreviation DemoEnvelope :=
  (@MsgEnvelope concrete_bls concrete_shares node_public_shares node_ed concrete_xor nat).
Definition node_kind (name : list bool) (is_join : bool) : DemoKind := KindNode name is_join.

(** Only messages of nodes have an encoding. *)
#[export] Instance rmp_envelope : Rmp DemoEnvelope := {|
  rmp_encode e :=
    match env_kind e with
    | KindNode name is_join =>
        Some (Z.of_nat (env_msg_id e) :: (if is_join then 1%Z else 0%Z) :: xn_bytes (Xor := concrete_xor) name)
    | _ => None
    end;
  rmp_decode bs :=
    match bs with
    | i :: j :: name => Some (mkEnvelope (Z.to_nat i) (node_kind (bits_of name) (bool_decide (j = 1%Z))))
    | _ => None
    end;
|}.
#[export] Instance rmp_dst : Rmp (Dst (B := concrete_bls) (X := concrete_xor)) := {|
  rmp_encode d := Some (Z.of_nat (dst_section_key d) :: xn_bytes (Xor := concrete_xor) (dst_name d));
  rmp_decode bs := match bs with k :: name => Some (mkDst concrete_bls concrete_xor (bits_of name) (Z.to_nat k)) | [] => None end;
|}.
#[export] Instance rmp_bytes : Rmp bytes := {| rmp_encode := Some; rmp_decode := Some |}.

#[export] Instance rmp_envelope_laws : RmpLaws DemoEnvelope.
Proof.
  intros [i []] bs; cbn -[xn_bytes]; try done. intros <-%(inj Some). cbn -[xn_bytes bits_of]. rewrite Nat2Z.id.
  rewrite (bits_of_bytes name). by destruct is_join.
Qed.
#[export] Instance rmp_dst_laws : RmpLaws (Dst (B := concrete_bls) (X := concrete_xor)).
Proof. intros [n k] bs <-%(inj Some). cbn -[xn_bytes bits_of]. by rewrite Nat2Z.id, (bits_of_bytes n). Qed.

Definition demo_dst : Dst (B := concrete_bls) (X := concrete_xor) := mkDst concrete_bls concrete_xor [true] 4.
Lemma wire_roundtrip_witness :
  ∃ bs m, wire_serialize (new_msg 7 [1; 2]%Z (node_kind [true; false] false) demo_dst) = Ok bs ∧
    wire_from bs = Some (Ok m) ∧ wm_payload m = [1; 2]%Z ∧ wm_dst m = demo_dst.
Proof.
  eexists _.
  destruct (wire_roundtrip (Ae := bytes) (Client := bytes) (Response := bytes) (Node := bytes) 7 [1; 2]%Z
    (node_kind [true; false] false) demo_dst ([0; 8; 0; 1; 7; 0; 1; 0]%Z, [4; 1]%Z, [1; 2]%Z))
    as (m & Hm & _ & Hd & Hp & _).
  - intros bs [= <-]. simpl. lia.
  - vm_compute. reflexivity.
  - exists m. split; [vm_compute; reflexivity|]. split; [exact Hm|]. split; [exact Hp|exact Hd].
Defined.
End WireDemo.
