(* ===== verification/SectionChange.v ===== *)
(** * Changes of the section

    What a node does when its section changes: [sn_node/src/node/mod.rs] (new elders, key
    generations, the state of an elder), the updates it sends
    ([sn_node/src/node/messaging/anti_entropy.rs]), the end of a handover
    ([promotion.rs]), a decision on the members ([membership.rs]), votes on nodes to be
    removed ([section_state.rs]) and the data to be replicated ([update_section.rs]).

    The snapshot [NodeContext] of a node is the node itself.  The entries of a hash map
    are arguments, in the order in which the map yields them; so are the results of
    shuffling, fresh keys and the time.  Writing the section tree to disk is left out. *)

From S2P Require Import Prelude External Xor NodeState SectionsDag Sap SectionTree MemberHistory.
From S2P Require Import NetworkKnowledge Aggregator Keys Membership Handover Relocation Dkg FaultDetection MyNode.
From S2P Require Import HandoverMsgs JoinMsgs DkgMsgs.

Section change.
Context {B : Bls} {BSh : BlsShares} {X : Xor} {Cfg : Settings} {E : Ed25519}.
Context {NH : NameHashing} {EK : EdKeypairs} {SD : Sdkg} {DS : DataStore}.
Context {Trigger : Type} `{Countable Trigger} {C : ConsensusDecision Trigger} {RT : RelocationTriggers Trigger}.
Context {R : ConsensusRounds (NodeState Trigger) (Decision Trigger)}.
Context {D : Type} {RH : ConsensusRounds (SapCandidate Trigger) D} {M : Merkle SectionInfo}.
Context {CM : ConsensusStart (NodeState Trigger) (Decision Trigger)} {CH : ConsensusStart (SapCandidate Trigger) D}.
Context {Digest : Type} `{Countable Digest} (sha3 : list bytes → Digest) {Stream : Type}.
Context {BP : Bincode PublicKey} {BS : Bincode (SectionAuthorityProvider Trigger)}.
Context {BD : Bincode (DkgSessionId Trigger)} {BN : Bincode (NodeState Trigger)}.
Context {ON : Ord NodeId} {OS : Ord (NodeState Trigger)} {OSh : Ord SectionSigShare}.

Abbreviation Node := (MyNode Trigger D Digest).
Abbreviation NodeCmd := (Cmd Trigger D Stream).
Abbreviation Handler := (NodeM Trigger D Digest).
Abbreviation Knowledge := (NetworkKnowledge Trigger).
Abbreviation SignedSap := (SectionSigned (SectionAuthorityProvider Trigger)).
Implicit Types (n old : Node) (k : Knowledge) (s : DkgSessionId Trigger).

Definition when_cmds (b : bool) (m : Handler (list NodeCmd)) : Handler (list NodeCmd) :=
  if b then m else mret [].

(** ** Updates to other nodes *)

(** The chain from the key that the receiver knows, or from the genesis key. *)
Definition generate_ae_section_tree_update k (dst_section_key : option PublicKey)
    : option (SectionTreeUpdate Trigger) :=
  known ← match dst_section_key with
          | None => Some None
          | Some key =>
              match get_proof_chain_to_current_section k key with
              | None => None
              | Some (Ok chain) => Some (Some chain)
              | Some (Err _) => Some None
              end
          end;
  proof_chain ← match known with Some chain => Some chain | None => section_chain k end;
  Some (mkSectionTreeUpdate (nk_signed_sap k) proof_chain).

Definition section_decisions k : list (Decision Trigger) := decisions (nk_section_members k).

Definition send_ae_update_to_nodes k (recipients : Recipients) (section_pk : PublicKey) : option NodeCmd :=
  u ← generate_ae_section_tree_update k (Some section_pk);
  Some (SendNetworkMsg (AeMsg (AntiEntropy (Update (section_decisions k)) u)) recipients).

Definition send_ae_update_to_our_section n : option (result (NodeError Trigger D) (option NodeCmd)) :=
  let our_name := node_name n in
  let k := network_knowledge n in
  let recipients : gset NodeId :=
    set_map node_id (filter (λ info, name info ≠ our_name) (MemberHistory.members (nk_section_members k))) in
  if decide (recipients = ∅) then Some (Ok None)
  else
    chain ← section_chain k;
    match last_key chain with
    | Err e => Some (Err (KnowledgeErr e))
    | Ok leaf =>
        match get_parent_key chain leaf with
        | Ok prev_pk =>
            cmd ← send_ae_update_to_nodes k (Multiple recipients) (default (genesis_key chain) prev_pk);
            Some (Ok (Some cmd))
        | Err _ => Some (Ok None)
        end
    end.
Definition ae_update_cmds : Handler (list NodeCmd) :=
  r ← gets send_ae_update_to_our_section;
  r ← lift_option r;
  cmd ← lift_result r;
  mret (match cmd with Some cmd => [cmd] | None => [] end).

(** The sibling of the prefix before the split, looked up before the split. *)
Definition send_updates_to_sibling_section (prev : Knowledge) : option (list NodeCmd) :=
  let sibling_prefix := px_sibling (nk_prefix prev) in
  match get_signed (nk_section_tree prev) sibling_prefix with
  | Some sibling_sap =>
      let promoted_sibling_elders := filter (λ elder, elder ∉ nk_elders prev) (sap_elders (value sibling_sap)) in
      if decide (promoted_sibling_elders = ∅) then Some []
      else
        let previous_section_key := nk_section_key prev in
        cmd ← send_ae_update_to_nodes prev (Multiple promoted_sibling_elders) previous_section_key;
        Some [cmd]
  | None => Some []
  end.

(** ** Probes *)

Definition GOSSIP_SECTION_COUNT : nat := 3.

Definition anti_entropy_probe k : NetworkMsg := AeMsg (Probe (nk_section_key k)).

(** The sections in a random order, and the elders of each section likewise. *)
Fixpoint probe_targets n (shuffle_elders : list NodeId → list NodeId) (targets : list Prefix)
    : result (NodeError Trigger D) (gset NodeId) :=
  match targets with
  | [] => Ok ∅
  | target :: targets =>
      matching_section ← map_err KnowledgeErr (section_auth_by_prefix (network_knowledge n) target);
      let elders := shuffle_elders
        (filter (λ p, id_name p ≠ node_name n) (bset_iter (sap_elders matching_section))) in
      let chosen : gset NodeId :=
        match list_find (λ elder, id_name elder ≠ node_name n) elders with
        | Some (_, elder) => {[elder]}
        | None => ∅
        end in
      recipients ← probe_targets n shuffle_elders targets;
      Ok (chosen ∪ recipients)
  end.

Definition generate_probe_msg n (shuffle_prefixes : list Prefix → list Prefix)
    (shuffle_elders : list NodeId → list NodeId) : result (NodeError Trigger D) NodeCmd :=
  let our_prefix := nk_prefix (network_knowledge n) in
  let other_prefixes := shuffle_prefixes
    (filter (λ p, p ≠ our_prefix) (bmap_iter (sections (nk_section_tree (network_knowledge n)))).*1) in
  recipients ← probe_targets n shuffle_elders (take GOSSIP_SECTION_COUNT other_prefixes);
  Ok (SendNetworkMsg (anti_entropy_probe (network_knowledge n)) (Multiple recipients)).

Definition generate_section_probe_msg n : NodeCmd :=
  SendNetworkMsg (anti_entropy_probe (network_knowledge n)) (Multiple (nk_elders (network_knowledge n))).

(** ** The next elders *)

Definition track_all n (names : list XorName) (issue : IssueType) : Node :=
  foldl (λ n nm, track_node_issue n nm issue) n names.

Definition track_session s : Handler unit := modify (λ n, track_all n (session_elder_names s) Dkg).

(** The candidates if they should replace the current elders. *)
Definition handover_session n (membership_gen chain_len : nat) : option (DkgSessionId Trigger) :=
  let sap := value (nk_signed_sap (network_knowledge n)) in
  let members := members_at_gen (nk_section_members (network_knowledge n)) membership_gen in
  let current_elders := sap_elders sap in
  if decide (elder_count ≤ size current_elders) then None
  else
    let elder_candidates := elder_candidates (map_img members) sap in
    if decide ((node_id <$> bset_iter elder_candidates) = bset_iter current_elders) then None
    else if decide (Z.of_nat (size elder_candidates) < supermajority (Z.of_nat (size current_elders)))%Z then None
    else if decide (size elder_candidates < size current_elders) then None
    else Some (mkSession (sap_prefix sap) (session_elders elder_candidates) chain_len (map_img members)
                 membership_gen).

Definition best_elder_candidates_at_gen (membership_gen : nat) : Handler (list (DkgSessionId Trigger)) :=
  n ← gets id;
  let sap := value (nk_signed_sap (network_knowledge n)) in
  chain_len ← lift_option (section_chain_len (network_knowledge n));
  let members := members_at_gen (nk_section_members (network_knowledge n)) membership_gen in
  match try_split_dkg members sap chain_len membership_gen with
  | Some (zero_dkg_id, one_dkg_id) =>
      _ ← (if decide (is_Some (dkg_elders zero_dkg_id !! node_name n)) then track_session zero_dkg_id
           else if decide (is_Some (dkg_elders one_dkg_id !! node_name n)) then track_session one_dkg_id
           else mret ());
      mret [zero_dkg_id; one_dkg_id]
  | None =>
      match handover_session n membership_gen chain_len with
      | Some session_id => _ ← track_session session_id; mret [session_id]
      | None => mret []
      end
  end.

Definition best_elder_candidates : Handler (list (DkgSessionId Trigger)) :=
  g ← gets (λ n, length (section_decisions (network_knowledge n)));
  best_elder_candidates_at_gen g.

(** [new_keys i] is the fresh key for the session number [i]. *)
Fixpoint send_dkg_starts (sessions : list (DkgSessionId Trigger)) (new_keys : nat → SecretKey)
    : Handler (list NodeCmd) :=
  match sessions with
  | [] => mret []
  | s :: sessions =>
      cmds ← (λ n, send_dkg_start sha3 n s (new_keys 0));
      rest ← send_dkg_starts sessions (λ i, new_keys (S i));
      mret (cmds ++ rest)
  end.
Definition trigger_dkg (new_keys : nat → SecretKey) : Handler (list NodeCmd) :=
  sessions ← best_elder_candidates;
  send_dkg_starts sessions new_keys.

(** ** The state of an elder *)

Definition initialize_membership n (key : SectionKeyShare) : Node * bool :=
  let sap := value (nk_signed_sap (network_knowledge n)) in
  let initialized :=
    match membership n with
    | Some m => bool_decide (pks_public_key (con_elders (consensus m)) = section_key sap)
    | None => false
    end in
  if initialized then (n, false)
  else
    let c := con_from (as_u8 (ks_index key), ks_secret_key_share key) (ks_public_key_set key) (size (sap_elders sap)) in
    (set_membership n (Some (membership_from c (sap_members sap))), true).

Definition initialize_handover n (key : SectionKeyShare) : Node * bool :=
  let sap := value (nk_signed_sap (network_knowledge n)) in
  let initialized :=
    match handover_voting n with
    | Some h => bool_decide (pks_public_key (con_elders (ho_consensus h)) = section_key sap)
    | None => false
    end in
  if initialized then (n, false)
  else
    let c := con_from (as_u8 (ks_index key), ks_secret_key_share key) (ks_public_key_set key) (size (sap_elders sap)) in
    (set_handover n (Some (handover_from c)), true).

Definition initialize_elder_state n (key : SectionKeyShare) : Node * bool :=
  let '(n, updated) := initialize_membership n key in
  let '(n, updated') := initialize_handover n key in
  (n, updated || updated').

Definition retain_only_members : Handler unit :=
  modify (λ n, send_fault_cmd n
    (UpdateNodes (set_map id_name (nk_adults (network_knowledge n))) (set_map id_name (nk_elders (network_knowledge n))))).

Definition become_elder n : Node :=
  match key_share n (section_key (value (nk_signed_sap (network_knowledge n)))) with
  | Ok key =>
      let '(n, initialized) := initialize_elder_state n key in
      if initialized then set_joins_allowed n (joins_allowed n || joins_allowed_until_split n) else n
  | Err _ => n
  end.

Definition update_on_sap_change old (entries : list (Digest * DkgSessionInfo Trigger)) : Handler (list NodeCmd) :=
  new ← gets id;
  let new_section_key := nk_section_key (network_knowledge new) in
  let new_prefix := nk_prefix (network_knowledge new) in
  let old_prefix := nk_prefix (network_knowledge old) in
  let old_section_key := nk_section_key (network_knowledge old) in
  let new_is_elder := node_is_elder new in
  let old_is_elder := node_is_elder old in
  _ ← (λ n, n ← update_dkg_on_section_change sha3 n new_section_key entries; Some (n, Ok ()));
  _ ← when_m (bool_decide (new_section_key ≠ old_section_key)) (modify (λ n, set_pending_split n ∅));
  _ ← modify (λ n, if new_is_elder then become_elder n else set_membership (set_handover n None) None);
  ae_cmds ← when_cmds (new_is_elder || old_is_elder) ae_update_cmds;
  let section_split := bool_decide (new_prefix ≠ old_prefix) in
  _ ← when_m (old_is_elder && negb new_is_elder) (modify (λ n, set_section_keys n []));
  sibling_cmds ← when_cmds (section_split && new_is_elder)
    (cmds ← lift_option (send_updates_to_sibling_section (network_knowledge old));
     _ ← retain_only_members;
     mret cmds);
  _ ← when_m (section_split && old_is_elder || new_is_elder) (modify (λ n, set_joins_allowed_until_split n false));
  mret (ae_cmds ++ sibling_cmds).

(** ** The end of a handover *)

Definition update_knowledge (u : SectionTreeUpdate Trigger) (our_name : XorName) : Handler bool := λ n,
  match update_sap_knowledge_if_valid (network_knowledge n) u our_name with
  | None => None
  | Some (k, r) => Some (set_knowledge n k, map_err KnowledgeErr r)
  end.

(** The chain with the key of a new authority added under its last key. *)
Definition extend_chain (chain : SectionsDAG) (parent key : PublicKey) (signature : Signature)
    : result (NodeError Trigger D) SectionsDAG :=
  let '(chain, r) := verify_and_insert chain parent key signature in
  _ ← map_err KnowledgeErr r; Ok chain.

Definition after_knowledge_update old (entries : list (Digest * DkgSessionInfo Trigger)) : Handler (list NodeCmd) := λ n,
  match update_on_sap_change old entries n with
  | None => None
  | Some (n, r) => Some (update_comm_target_list n, r)
  end.

Definition handle_new_elders_agreement (signed_sap : SignedSap) (section_sig : SectionSig)
    (entries : list (Digest * DkgSessionInfo Trigger)) : Handler (list NodeCmd) :=
  old ← gets id;
  chain ← lift_option (section_chain (network_knowledge old));
  last_key ← lift_result (map_err KnowledgeErr (last_key chain));
  chain ← lift_result (extend_chain chain last_key (section_key (value signed_sap)) (sig_signature section_sig));
  updated ← update_knowledge (mkSectionTreeUpdate signed_sap chain) (node_name old);
  if updated : bool then after_knowledge_update old entries else mret [].

Definition update_us (our_sap : SignedSap) (sig_over_us : SectionSig) (their_sap : SignedSap)
    (sig_over_them : SectionSig) (entries : list (Digest * DkgSessionInfo Trigger)) : Handler (list NodeCmd) :=
  n ← gets id;
  parent_section_chain ← lift_option (section_chain (network_knowledge n));
  parent_key ← lift_result (map_err KnowledgeErr (last_key parent_section_chain));
  cmds ← handle_new_elders_agreement our_sap sig_over_us entries;
  chain ← lift_result (extend_chain parent_section_chain parent_key (section_key (value their_sap))
                         (sig_signature sig_over_them));
  our_name ← gets node_name;
  updated ← update_knowledge (mkSectionTreeUpdate their_sap chain) our_name;
  _ ← when_m updated (modify update_comm_target_list);
  mret cmds.

Definition is_member_of (sap : SignedSap) (nm : XorName) : bool :=
  bool_decide (set_Exists (λ m, name m = nm) (sap_members (value sap))).

Definition handle_new_sections_agreement (sap1 : SignedSap) (sig1 : SectionSig) (sap2 : SignedSap) (sig2 : SectionSig)
    (entries : list (Digest * DkgSessionInfo Trigger)) : Handler (list NodeCmd) :=
  our_name ← gets node_name;
  if is_member_of sap1 our_name then update_us sap1 sig1 sap2 sig2 entries
  else if is_member_of sap2 our_name then update_us sap2 sig2 sap1 sig1 entries
  else mret [].

(** ** Data to replicate *)

Definition ask_for_any_new_data_from_whole_section n : NodeCmd :=
  let data_i_have := store_data_addrs (data_storage n) in
  SendMsg (SendAnyMissingRelevantData data_i_have) (Multiple (nk_members (network_knowledge n))).

Definition MAX_REPLICATION_BATCH_SIZE : nat := 25.

(** The names of the members nearest to a data name. *)
Definition nearer (target : XorName) : relation XorName := λ lhs rhs, xn_cmp_distance target lhs rhs ≠ Gt.
#[export] Instance nearer_dec target : RelDecision (nearer target).
Proof. intros x y. unfold nearer. destruct (xn_cmp_distance target x y); [left|left|right]; naive_solver. Defined.

Definition holders n (copies : nat) (data : DataAddress) : gset XorName :=
  let members_names := id_name <$> bset_iter (nk_members (network_knowledge n)) in
  list_to_set (take copies
    (stable_sort (λ lhs rhs, bool_decide (nearer (data_address_name data) lhs rhs)) members_names)).

(** The batch is filled in the given order until it is full. *)
Fixpoint missing_data n (copies : nat) (sender : NodeId) (data_sender_has data_i_have : list DataAddress)
    (room : nat) : list DataAddress :=
  match data_i_have, room with
  | [], _ => []
  | _, 0 => []
  | data :: data_i_have, S room' =>
      if existsb (λ d, bool_decide (d = data)) data_sender_has then
        missing_data n copies sender data_sender_has data_i_have room
      else if decide (id_name sender ∈ holders n copies data) then
        data :: missing_data n copies sender data_sender_has data_i_have room'
      else missing_data n copies sender data_sender_has data_i_have room
  end.

Definition get_missing_data_for_node n (copies : nat) (sender : NodeId) (data_sender_has : list DataAddress)
    (shuffle : list DataAddress → list DataAddress) : option NodeCmd :=
  let data_i_have := store_data_addrs (data_storage n) in
  if decide (length data_i_have = 0) then None
  else
    let data_for_sender :=
      missing_data n copies sender data_sender_has (shuffle data_i_have) MAX_REPLICATION_BATCH_SIZE in
    if decide (length data_for_sender = 0) then None
    else Some (EnqueueDataForReplication sender data_for_sender).
End change.
