(* ===== verification/SectionChangeProps.v ===== *)
(** * Properties of section changes

    A node that learns a new authority of its section takes up or drops the duties of an
    elder; who gets which data when data is replicated; whom a node tells about a split. *)

From S2P Require Import Prelude External Xor NodeState SectionsDag Sap SectionTree MemberHistory.
From S2P Require Import NetworkKnowledge Aggregator Keys Membership Handover Relocation Dkg FaultDetection MyNode.
From S2P Require Import SectionsDagSpec SectionsDagWalk SectionsDagChain SectionsDagProps SectionTreeProps.
From S2P Require Import MemberHistoryProps NetworkKnowledgeProps MembershipProps.
From S2P Require Import HandoverMsgs JoinMsgs DkgMsgs SectionChange NodeDemo.

(** A round starts with the key set it was given. *)
Class ConsensusStartLaws {B : Bls} {BSh : BlsShares} (P D : Type) {R : ConsensusRounds P D}
    {CS : ConsensusStart P D} : Prop :=
  con_from_elders i key_set n : con_elders (con_from i key_set n) = key_set.

Section total.
Context {B : Bls} {X : Xor} {XL : XorLaws} {BP : Bincode PublicKey}.
Context {M : Merkle SectionInfo} {ML : MerkleLaws SectionInfo}.
Context {Trigger : Type} `{Countable Trigger} {C : ConsensusDecision Trigger}.
Context {OS : Ord (NodeState Trigger)} {BN : Bincode (NodeState Trigger)}.
Context {BS : Bincode (SectionAuthorityProvider Trigger)}.
Implicit Types (k : NetworkKnowledge Trigger) (e : list entry).

Lemma section_chain_total k e :
  nk_ok k e → ∃ d b, section_chain k = Some d ∧ repr d b ∧ last_key d = Ok (nk_section_key k).
Proof.
  intros Hok. destruct (nk_partial_dag _ _ _ Hok (nk_key _ _ Hok)) as (d & b & Hp & _ & R & _ & Hl).
  exists d, b. unfold section_chain, get_proof_chain_to_current_section. by rewrite Hp.
Qed.
Lemma section_chain_len_total k e : nk_ok k e → ∃ c, section_chain_len k = Some c.
Proof.
  intros (d & b & Hd & _)%section_chain_total. unfold section_chain_len. rewrite Hd. by eexists.
Qed.
Lemma generate_update_total k e key : nk_ok k e → ∃ u, generate_ae_section_tree_update k key = Some u.
Proof.
  intros Hok. destruct (section_chain_total _ _ Hok) as (d & _ & Hd & _).
  unfold generate_ae_section_tree_update, get_proof_chain_to_current_section. rewrite Hd.
  destruct key as [key|]; [|by eexists].
  pose proof (partial_dag_repr _ _ key _ (ok_repr _ _ (nk_tree _ _ Hok)) (nk_key _ _ Hok)) as Hp.
  destruct (tree_branch e key _); [destruct Hp as (d' & -> & _)|rewrite Hp]; by eexists.
Qed.
End total.

Section change.
Context {B : Bls} {BSh : BlsShares} {X : Xor} {XL : XorLaws} {E : Ed25519}.
Context {NH : NameHashing} {EK : EdKeypairs} {SD : Sdkg} {DS : DataStore}.
Context {Trigger : Type} `{Countable Trigger} {C : ConsensusDecision Trigger}.
Context {R : ConsensusRounds (NodeState Trigger) (Decision Trigger)}.
Context {D : Type} {RH : ConsensusRounds (SapCandidate Trigger) D}.
Context {M : Merkle SectionInfo} {ML : MerkleLaws SectionInfo}.
Context {CM : ConsensusStart (NodeState Trigger) (Decision Trigger)} {CH : ConsensusStart (SapCandidate Trigger) D}.
Context {LM : ConsensusStartLaws (NodeState Trigger) (Decision Trigger)}.
Context {LH : ConsensusStartLaws (SapCandidate Trigger) D}.
Context {Digest : Type} `{Countable Digest} (sha3 : list bytes → Digest) {Stream : Type}.
Context {BP : Bincode PublicKey} {BS : Bincode (SectionAuthorityProvider Trigger)}.
Context {BD : Bincode (DkgSessionId Trigger)} {BN : Bincode (NodeState Trigger)}.
Context {ON : Ord NodeId} {OS : Ord (NodeState Trigger)}.

Abbreviation Node := (MyNode Trigger D Digest).
Abbreviation NodeCmd := (Cmd Trigger D Stream).
Implicit Types (n old : Node) (k : NetworkKnowledge Trigger).

(** ** Sessions and key shares *)

Lemma key_share_Ok n key s :
  key_share n key = Ok s → pks_public_key (ks_public_key_set s) = key.
Proof.
  unfold key_share. intros (p & Hp & Hs)%ok_or_Ok%fmap_Some. destruct p as [i s'].
  apply list_find_Some in Hp as (_ & ? & _). simpl in Hs. by subst.
Qed.

Definition holds_share n (key : PublicKey) : Prop := ∃ s, key_share n key = Ok s.

Lemma holds_share_spec n key :
  holds_share n key ↔ ∃ s, s ∈ section_keys_provider n ∧ pks_public_key (ks_public_key_set s) = key.
Proof.
  unfold holds_share, key_share. split.
  - intros (s & ((i & s') & Hp & Hs)%ok_or_Ok%fmap_Some). apply list_find_Some in Hp as (Hi & Hk & _).
    simpl in Hs. subst. exists s'. split; [by eapply list_elem_of_lookup_2|done].
  - intros (s & Hs & <-).
    destruct (list_find_elem_of (λ s', pks_public_key (ks_public_key_set s) = pks_public_key (ks_public_key_set s'))
      (section_keys_provider n) s Hs eq_refl) as [[i s'] Hf]. rewrite Hf. by eexists.
Qed.

(** What stays when sessions end and are forgotten: shares of the given key and all but
    the state of key generation. *)
Record dkg_only (key : PublicKey) n n' : Prop := {
  do_keypair : keypair n' = keypair n;
  do_knowledge : network_knowledge n' = network_knowledge n;
  do_share : holds_share n key → holds_share n' key;
}.
Lemma dkg_only_refl key n : dkg_only key n n.
Proof. done. Qed.
Lemma dkg_only_trans key n1 n2 n3 : dkg_only key n1 n2 → dkg_only key n2 n3 → dkg_only key n1 n3.
Proof. intros [? ? ?] [? ? ?]. split; [congruence..|auto]. Qed.

Lemma force_dkg_termination_only n s key :
  dkg_only key n (force_dkg_termination sha3 n s key) ∧
  dkg_sessions_info (force_dkg_termination sha3 n s key) = dkg_sessions_info n.
Proof.
  unfold force_dkg_termination. destruct (force_termination _ _ _) as [v [[[[i pubs] sec]|]|]]; [|by split..].
  case_decide as Hp; [|by split]. split; [|done]. split; [done..|]. intros _. apply holds_share_spec.
  exists (mkKeyShare pubs i sec). split; [by left|done].
Qed.
Lemma force_terminations_only l n key :
  let n' := foldl (λ n s, force_dkg_termination sha3 n s key) n l in
  dkg_only key n n' ∧ dkg_sessions_info n' = dkg_sessions_info n.
Proof.
  revert n. induction l as [|s l IH]; intros n; simpl; [by split|].
  destruct (force_dkg_termination_only n s key) as [H1 H2]. destruct (IH (force_dkg_termination sha3 n s key)) as [H3 H4].
  split; [by eapply dkg_only_trans|congruence].
Qed.
Lemma remove_sessions_only l n key :
  let n' := foldl remove_session n l in
  dkg_only key n n' ∧
  ∀ h, dkg_sessions_info n' !! h = if decide (h ∈ l) then None else dkg_sessions_info n !! h.
Proof.
  revert n. induction l as [|x l IH]; intros n; simpl; [by split|].
  destruct (IH (remove_session n x)) as [Ho Hl]. split.
  - eapply dkg_only_trans; [|exact Ho]. split; [done..|]. by rewrite !holds_share_spec.
  - intros h. rewrite Hl. cbn [remove_session set_dkg_sessions_info set_dkg_voter dkg_sessions_info].
    destruct (decide (h = x)) as [->|Hne].
    + rewrite lookup_delete_eq, (decide_True (P := x ∈ x :: l)) by (by left). by case_decide.
    + rewrite lookup_delete_ne by done. assert (h ∈ x :: l ↔ h ∈ l) as Hx by (rewrite elem_of_cons; naive_solver).
      by rewrite (decide_ext _ _ _ _ Hx).
Qed.

Lemma update_dkg_spec n e key entries :
  nk_ok (network_knowledge n) e → entries ≡ₚ map_to_list (dkg_sessions_info n) →
  ∃ n' c, update_dkg_on_section_change sha3 n key entries = Some n' ∧ dkg_only key n n' ∧
    section_chain_len (network_knowledge n) = Some c ∧
    ∀ h i, dkg_sessions_info n' !! h = Some i → c ≤ dkg_section_chain_len (info_session_id i).
Proof.
  intros Hok He. destruct (section_chain_len_total _ _ Hok) as [c Hc].
  unfold update_dkg_on_section_change. rewrite Hc. cbn -[foldl].
  set (l := _ <$> _). set (hs := (filter _ entries).*1).
  destruct (force_terminations_only l n key) as [Ho1 Hi1]. set (n1 := foldl _ n l) in *.
  destruct (remove_sessions_only hs n1 key) as [Ho2 Hi2].
  eexists _, c. split_and!; [done|by eapply dkg_only_trans|done|]. intros h i. rewrite Hi2, Hi1.
  case_decide as Hin; [done|]. intros Hi. apply Nat.nlt_ge. intros Hlt. apply Hin.
  apply list_elem_of_fmap. exists (h, i). split; [done|]. apply list_elem_of_filter. split; [done|].
  rewrite He. by apply elem_of_map_to_list.
Qed.
(** ** The duties of an elder *)

Definition votes_for n (key : PublicKey) : Prop :=
  (∃ m, membership n = Some m ∧ pks_public_key (con_elders (consensus m)) = key) ∧
  (∃ h, handover_voting n = Some h ∧ pks_public_key (con_elders (ho_consensus h)) = key).

(** What the rest of a section change leaves alone. *)
Record duties_kept n n' : Prop := {
  dk_keypair : keypair n' = keypair n;
  dk_knowledge : network_knowledge n' = network_knowledge n;
  dk_sessions : dkg_sessions_info n' = dkg_sessions_info n;
  dk_pending : pending_split_sections n' = pending_split_sections n;
}.

Lemma initialize_elder_state_spec n s :
  pks_public_key (ks_public_key_set s) = nk_section_key (network_knowledge n) →
  let n' := (initialize_elder_state n s).1 in
  votes_for n' (nk_section_key (network_knowledge n)) ∧ duties_kept n n'.
Proof.
  intros Hs. unfold initialize_elder_state, initialize_membership. fold (nk_section_key (network_knowledge n)).
  destruct (membership n) as [m|] eqn:Hm; [case_bool_decide as Hk|]; simpl;
    unfold initialize_handover; simpl; fold (nk_section_key (network_knowledge n));
    (destruct (handover_voting n) as [h|] eqn:Hh; [case_bool_decide as Hk'|]); simpl;
    (split; [split; eexists; (split; [try done|simpl; rewrite ?con_from_elders; done])|done]).
Qed.

Lemma become_elder_spec n :
  duties_kept n (become_elder n) ∧
  (holds_share n (nk_section_key (network_knowledge n)) →
   votes_for (become_elder n) (nk_section_key (network_knowledge n))).
Proof.
  unfold become_elder, holds_share. fold (nk_section_key (network_knowledge n)).
  destruct (key_share n _) as [s|] eqn:Hs; [|split; [done|by intros [? ?]]].
  destruct (initialize_elder_state_spec n s (key_share_Ok _ _ _ Hs)) as [Hv Hd].
  destruct (initialize_elder_state n s) as [n' []]; simpl in *; [|by split].
  split; [by destruct Hd|]. intros _. by destruct Hv as [? ?].
Qed.

Lemma send_ae_update_total n e :
  nk_ok (network_knowledge n) e → ∃ cmd, send_ae_update_to_our_section n = Some (Ok cmd : result (NodeError Trigger D) (option NodeCmd)).
Proof.
  intros Hok. unfold send_ae_update_to_our_section. case_decide; [by eexists|].
  destruct (section_chain_total _ _ Hok) as (d & b & -> & _ & Hl). cbn -[send_ae_update_to_nodes]. rewrite Hl.
  destruct (get_parent_key d _) as [prev|]; [|by eexists].
  unfold send_ae_update_to_nodes.
  match goal with |- context [generate_ae_section_tree_update ?k ?key] =>
    destruct (generate_update_total k e key Hok) as (u & ->) end. by eexists.
Qed.
Lemma ae_update_cmds_total n e :
  nk_ok (network_knowledge n) e → ∃ cmds : list NodeCmd, ae_update_cmds n = Some (n, Ok cmds).
Proof.
  intros (cmd & Hc)%send_ae_update_total. unfold ae_update_cmds, mbind, node_bind, gets, lift_option, lift_result.
  rewrite Hc. by eexists.
Qed.
Lemma sibling_update_total k e :
  nk_ok k e → ∃ cmds : list NodeCmd, send_updates_to_sibling_section k = Some cmds.
Proof.
  intros Hok. unfold send_updates_to_sibling_section. destruct (get_signed _ _) as [s|]; [|by eexists].
  case_decide; [by eexists|]. unfold send_ae_update_to_nodes.
  destruct (generate_update_total _ _ (Some (nk_section_key k)) Hok) as (u & ->). by eexists.
Qed.

Lemma gets_bind {A A'} (f : Node → A) (g : A → NodeM Trigger D Digest A') n : (gets f ≫= g) n = g (f n) n.
Proof. done. Qed.
Lemma modify_bind {A'} (f : Node → Node) (g : unit → NodeM Trigger D Digest A') n : (modify f ≫= g) n = g () (f n).
Proof. done. Qed.
Lemma bind_Some {A A'} (m : NodeM Trigger D Digest A) (g : A → NodeM Trigger D Digest A') n n1 a :
  m n = Some (n1, Ok a) → (m ≫= g) n = g a n1.
Proof. intros Hm. unfold mbind, node_bind. by rewrite Hm. Qed.

Lemma when_modify_bind {A'} (b : bool) (f : Node → Node) (g : unit → NodeM Trigger D Digest A') n :
  (when_m b (modify f) ≫= g) n = g () (if b then f n else n).
Proof. by destruct b. Qed.
Lemma when_cmds_total b (m : NodeM Trigger D Digest (list NodeCmd)) n (P : Node → Prop) :
  P n → (∃ n' cmds, m n = Some (n', Ok cmds) ∧ P n') →
  ∃ n' cmds, when_cmds b m n = Some (n', Ok cmds) ∧ P n'.
Proof. intros Hn (n' & cmds & Hm & Hn'). destruct b; [by exists n', cmds|by exists n, []]. Qed.

(** What the commands after the change of duties leave alone. *)
Record only_fault_cmds n n' : Prop := {
  fc_knowledge : network_knowledge n' = network_knowledge n;
  fc_membership : membership n' = membership n;
  fc_handover : handover_voting n' = handover_voting n;
  fc_sessions : dkg_sessions_info n' = dkg_sessions_info n;
  fc_pending : pending_split_sections n' = pending_split_sections n;
  fc_shares : section_keys_provider n' = section_keys_provider n;
}.

Lemma only_fault_until (b : bool) n n' :
  only_fault_cmds n n' → only_fault_cmds n (if b then set_joins_allowed_until_split n' false else n').
Proof. intros []. by destruct b. Qed.
Lemma sibling_cmds_total n k e b :
  nk_ok k e →
  ∃ n' (cmds : list NodeCmd),
    when_cmds b (cmds ← lift_option (send_updates_to_sibling_section k);
                 _ ← retain_only_members; mret cmds) n = Some (n', Ok cmds) ∧ only_fault_cmds n n'.
Proof.
  intros (sib & Hsib)%sibling_update_total. apply when_cmds_total; [done|].
  eexists _, sib. unfold lift_option, mbind, node_bind. rewrite Hsib. by split.
Qed.

(** The duties of a node with the given shares, before and after the key generation. *)
Definition change_duties (is_elder new_key : bool) n : Node :=
  let n := if new_key then set_pending_split n ∅ else n in
  if is_elder then become_elder n else set_membership (set_handover n None) None.

Lemma change_duties_spec is_elder new_key n :
  let n' := change_duties is_elder new_key n in
  let key := nk_section_key (network_knowledge n) in
  network_knowledge n' = network_knowledge n ∧ dkg_sessions_info n' = dkg_sessions_info n ∧
  (new_key = true → pending_split_sections n' = ∅) ∧
  (if is_elder then holds_share n key → votes_for n' key else membership n' = None ∧ handover_voting n' = None).
Proof.
  unfold change_duties. set (n0 := if new_key then _ else _).
  assert (network_knowledge n0 = network_knowledge n ∧ dkg_sessions_info n0 = dkg_sessions_info n ∧
    (new_key = true → pending_split_sections n0 = ∅) ∧ section_keys_provider n0 = section_keys_provider n)
    as (H1' & H2' & H3' & H4') by (by destruct new_key).
  destruct is_elder; cbv zeta; [|done].
  destruct (become_elder_spec n0) as [[_ Hk Hs Hp] Hv]. rewrite Hk, Hs, Hp. split_and!; [done..|].
  rewrite !holds_share_spec in *. rewrite H1', H4' in Hv. exact Hv.
Qed.

(** C24: a node that has learnt a new authority of its section handles the change to the
    end.  If it is an elder of that authority and holds a share of the section key then
    it votes on members and handovers with that key; if it is not an elder then it does
    not vote, and a former elder holds no key shares.  Key generations from before the
    current section are gone, and so are split proposals for another section key. *)
Theorem section_change_updates_duties old n eo e entries :
  nk_ok (network_knowledge n) e → nk_ok (network_knowledge old) eo →
  entries ≡ₚ map_to_list (dkg_sessions_info n) →
  let key := nk_section_key (network_knowledge n) in
  ∃ n' (cmds : list NodeCmd) c, update_on_sap_change sha3 old entries n = Some (n', Ok cmds) ∧
    network_knowledge n' = network_knowledge n ∧
    (if node_is_elder n then holds_share n key → votes_for n' key
     else membership n' = None ∧ handover_voting n' = None ∧
          (node_is_elder old = true → section_keys_provider n' = [])) ∧
    section_chain_len (network_knowledge n) = Some c ∧
    (∀ h i, dkg_sessions_info n' !! h = Some i → c ≤ dkg_section_chain_len (info_session_id i)) ∧
    (key ≠ nk_section_key (network_knowledge old) → pending_split_sections n' = ∅).
Proof.
  intros Hok Hoko He key. unfold update_on_sap_change. rewrite gets_bind. cbv zeta. cbn [id].
  fold key.
  destruct (update_dkg_spec n e key entries Hok He) as (n1 & c & Hn1 & [Hkp Hkn Hsh] & Hc & Hold).
  rewrite (bind_Some _ _ n n1 ()) by (by rewrite Hn1). rewrite when_modify_bind, modify_bind.
  destruct (change_duties_spec (node_is_elder n) (bool_decide (key ≠ nk_section_key (network_knowledge old))) n1)
    as (Hkn2 & Hs2 & Hp2 & Hv2). set (n2 := change_duties _ _ n1) in *.
  change (if node_is_elder n then become_elder _ else set_membership (set_handover _ None) None) with n2. rewrite Hkn in Hkn2, Hv2. fold key in Hv2.
  destruct (ae_update_cmds_total n2 e) as (ae & Hae); [by rewrite Hkn2|].
  destruct (when_cmds_total (node_is_elder n || node_is_elder old) ae_update_cmds n2 (λ m, m = n2)) as (n3 & cmds & Hc3 & ->);
    [done|by eauto|]. rewrite (bind_Some _ _ _ _ _ Hc3), when_modify_bind.
  set (n4 := if node_is_elder old && negb (node_is_elder n) then _ else n2).
  destruct (sibling_cmds_total n4 _ _ (bool_decide (nk_prefix (network_knowledge n) ≠ nk_prefix (network_knowledge old))
    && node_is_elder n) Hoko) as (n5 & sib & Hc5 & H5).
  rewrite (bind_Some _ _ _ _ _ Hc5), when_modify_bind. set (n6 := if _ : bool then _ else n5).
  assert (only_fault_cmds n4 n6) as [F1 F2 F3 F4 F5 F6] by (by apply only_fault_until).
  eexists n6, _, c. split; [done|]. assert (network_knowledge n4 = network_knowledge n2 ∧ membership n4 = membership n2 ∧
    handover_voting n4 = handover_voting n2 ∧ dkg_sessions_info n4 = dkg_sessions_info n2 ∧
    pending_split_sections n4 = pending_split_sections n2) as (G1 & G2 & G3 & G4 & G5)
    by (unfold n4; destruct (node_is_elder old && negb (node_is_elder n)); by split_and!).
  unfold votes_for in *. rewrite F1, F2, F3, F4, F5, F6, G1, G2, G3, G4, G5, Hs2. split; [done|]. split.
  { unfold n4. destruct (node_is_elder n); [by auto|]. destruct Hv2 as [-> ->]. split_and!; [done..|].
    by intros ->. }
  split_and!; [done|done|]. intros Hne. apply Hp2. by apply bool_decide_eq_true.
Qed.
End change.

(** ** Telling about a split *)

Section split.
Context {B : Bls} {BSh : BlsShares} {X : Xor} {XL : XorLaws} {NH : NameHashing} {SD : Sdkg} {E : Ed25519}.
Context {BP : Bincode PublicKey} {M : Merkle SectionInfo}.
Context {Trigger : Type} `{Countable Trigger} {C : ConsensusDecision Trigger}.
Context {R : ConsensusRounds (NodeState Trigger) (Decision Trigger)}.
Context {D : Type} {RH : ConsensusRounds (SapCandidate Trigger) D} {Stream : Type}.
Context {OS : Ord (NodeState Trigger)} {BN : Bincode (NodeState Trigger)} {DS : DataStore}.
Implicit Types (prev : NetworkKnowledge Trigger).

Lemma flip_last_apart (l n : list bool) : l `prefix_of` n → flip_last l `prefix_of` n → l = [].
Proof.
  revert n. induction l as [|b l IH]; intros n Hl Hf; [done|]. exfalso.
  destruct n as [|x n]; [by apply prefix_nil_inv in Hl|]. apply prefix_cons_inv_1 in Hl as ?.
  apply prefix_cons_inv_2 in Hl. subst. destruct l as [|b' l].
  - apply prefix_cons_inv_1 in Hf. by destruct x.
  - apply prefix_cons_inv_2, (IH n Hl) in Hf. done.
Qed.

(** After a split the elders of the two new sections are never told: the update goes
    to elders of the sibling of the section before the split, whose names do not match
    the prefix that was split, and in the first section to nobody. *)
Theorem split_sibling_never_told prev (cmds : list (Cmd Trigger D Stream)) :
  get_signed (nk_section_tree prev) (nk_prefix prev) = Some (nk_signed_sap prev) →
  (∀ p s i, sections (nk_section_tree prev) !! p = Some s → i ∈ sap_elders (value s) →
     px_matches p (id_name i) = true) →
  send_updates_to_sibling_section prev = Some cmds →
  cmds = [] ∨ nk_prefix prev ≠ px_default ∧
    ∃ msg recipients, cmds = [SendNetworkMsg msg (Multiple recipients)] ∧
      ∀ i, i ∈ recipients → px_matches (nk_prefix prev) (id_name i) = false.
Proof.
  intros Hown Hel Hs. unfold send_updates_to_sibling_section in Hs.
  destruct (get_signed (nk_section_tree prev) (px_sibling (nk_prefix prev))) as [s|] eqn:Hsib;
    [|injection Hs as <-; by left].
  case_decide as Hne; [injection Hs as <-; by left|].
  destruct (send_ae_update_to_nodes _ _ _) as [cmd|] eqn:Hc; [|done]. injection Hs as <-. right.
  unfold send_ae_update_to_nodes in Hc. destruct (generate_ae_section_tree_update _ _) as [u|]; [|done].
  injection Hc as <-. split.
  - intros Hp. assert (px_sibling (nk_prefix prev) = nk_prefix prev) as Heq.
    { apply px_bits_inj. rewrite px_sibling_spec, Hp, px_default_spec. done. }
    rewrite Heq, Hown in Hsib. injection Hsib as <-. apply Hne. unfold nk_elders. set_solver.
  - eexists _, _. split; [done|]. intros i [_ Hi]%elem_of_filter.
    apply not_true_is_false. intros Hm. specialize (Hel _ _ _ Hsib Hi).
    rewrite px_matches_spec in Hm, Hel. rewrite px_sibling_spec in Hel.
    pose proof (flip_last_apart _ _ Hm Hel) as Hnil. apply Hne.
    assert (px_sibling (nk_prefix prev) = nk_prefix prev) as Heq.
    { apply px_bits_inj. by rewrite px_sibling_spec, Hnil. }
    rewrite Heq, Hown in Hsib. injection Hsib as <-. unfold nk_elders. set_solver.
Qed.
End split.

(** ** Replication *)

Section replication.
Context {B : Bls} {BSh : BlsShares} {X : Xor} {E : Ed25519} {NH : NameHashing} {DL : DistanceLaws}.
Context {EK : EdKeypairs} {SD : Sdkg} {DS : DataStore} {M : Merkle SectionInfo}.
Context {Trigger : Type} `{Countable Trigger} {C : ConsensusDecision Trigger}.
Context {R : ConsensusRounds (NodeState Trigger) (Decision Trigger)}.
Context {D : Type} {RH : ConsensusRounds (SapCandidate Trigger) D} {Digest : Type} `{Countable Digest}.
Context {Stream : Type} {ON : Ord NodeId} {OS : Ord (NodeState Trigger)} {BN : Bincode (NodeState Trigger)}.
Context {BP : Bincode PublicKey}.
Implicit Types (n : MyNode Trigger D Digest) (a : DataAddress).

Definition member_names n : list XorName := id_name <$> bset_iter (nk_members (network_knowledge n)).

Lemma holders_nearest n copies a x y :
  x ∈ holders n copies a → y ∈ member_names n → y ∉ holders n copies a →
  x ∈ member_names n ∧ nearer (data_address_name a) x y.
Proof.
  unfold holders. fold (member_names n). set (le := λ lhs rhs, _).
  assert (∀ x y, le x y = true ∨ le y x = true) as Htot.
  { intros u v. unfold le. rewrite !bool_decide_eq_true. unfold nearer. rewrite (xn_cmp_distance_flip _ u v).
    destruct (xn_cmp_distance _ u v); naive_solver. }
  assert (Transitive (λ x y, le x y = true)) as Htr.
  { intros u v w. unfold le. rewrite !bool_decide_eq_true. apply xn_cmp_distance_trans. }
  pose proof (stable_sort_Sorted le (member_names n) Htot) as Hs. apply Sorted_StronglySorted in Hs; [|exact Htr].
  pose proof (stable_sort_Permutation le (member_names n)) as Hp. rewrite !elem_of_list_to_set.
  set (l := stable_sort le (member_names n)) in *. rewrite <-(take_drop copies l) in Hs.
  intros Hx Hy Hny. rewrite <-Hp, <-(take_drop copies l) in Hy. apply elem_of_app in Hy as [?|Hy]; [done|].
  split; [rewrite <-Hp; by apply (subseteq_take copies)|].
  assert (le x y = true) as Hle; [|by apply bool_decide_eq_true in Hle].
  by apply (StronglySorted_app_1_elem_of _ _ _ _ _ Hs).
Qed.

(** What we have, the sender does not have, and the sender should hold. *)
Definition missing n copies (sender : NodeId) (has : list DataAddress) a : Prop :=
  a ∈ store_data_addrs (data_storage n) ∧ a ∉ has ∧ id_name sender ∈ holders n copies a.

Lemma missing_data_spec n copies sender has l room :
  let batch := missing_data n copies sender has l room in
  length batch ≤ room ∧
  (∀ a, a ∈ batch → a ∈ l ∧ a ∉ has ∧ id_name sender ∈ holders n copies a) ∧
  (length batch < room → ∀ a, a ∈ l → a ∉ has → id_name sender ∈ holders n copies a → a ∈ batch).
Proof.
  revert room. induction l as [|x l IH]; intros room; simpl; [split_and!; set_solver by lia|].
  destruct room as [|room]; [split_and!; set_solver by lia|].
  destruct (existsb _ has) eqn:Hhas.
  { apply existsb_exists in Hhas as (d & Hd%list_elem_of_In & ->%bool_decide_eq_true).
    destruct (IH (S room)) as (H1' & H2' & H3'). split_and!; [done|set_solver|]. intros Hlt a [->|Ha]%elem_of_cons; [done|].
    by apply H3'. }
  assert (x ∉ has) as Hx.
  { intros Hin. apply not_true_iff_false in Hhas. apply Hhas, existsb_exists. exists x.
    split; [by apply list_elem_of_In|by apply bool_decide_eq_true]. }
  case_decide as Hh.
  - destruct (IH room) as (H1' & H2' & H3'). simpl. split_and!; [lia|set_solver|].
    intros Hlt a [->|Ha]%elem_of_cons; [by left|]. right. apply H3'; [lia|done..].
  - destruct (IH (S room)) as (H1' & H2' & H3'). split_and!; [done|set_solver|].
    intros Hlt a [->|Ha]%elem_of_cons; [done|]. by apply H3'.
Qed.

(** C38: the batch that a node prepares for a member which asks for missing data goes to
    that member and is as complete as its size allows: it holds at most 25 addresses, each
    of data that we have, the member does not have and the member is a holder of; a batch
    with room left holds all of them, and no batch is prepared only if there are none.
    The holders of data are members, and no other member is nearer to the data. *)
Theorem replication_batch_exact n copies sender has (shuffle : list DataAddress → list DataAddress) :
  (∀ l, shuffle l ≡ₚ l) →
  (match get_missing_data_for_node (Stream := Stream) n copies sender has shuffle with
   | None => ∀ a, ¬ missing n copies sender has a
   | Some (EnqueueDataForReplication recipient batch) =>
       recipient = sender ∧ batch ≠ [] ∧ length batch ≤ 25 ∧ (∀ a, a ∈ batch → missing n copies sender has a) ∧
       (length batch < 25 → ∀ a, missing n copies sender has a → a ∈ batch)
   | Some _ => False
   end) ∧
  ∀ a x y, x ∈ holders n copies a → y ∈ member_names n → y ∉ holders n copies a →
    x ∈ member_names n ∧ nearer (data_address_name a) x y.
Proof.
  intros Hsh. split; [|apply holders_nearest]. unfold get_missing_data_for_node, missing.
  set (have := store_data_addrs (data_storage n)).
  case_decide as Hlen; [apply nil_length_inv in Hlen as ->; set_solver|].
  destruct (missing_data_spec n copies sender has (shuffle have) 25) as (H1' & H2' & H3').
  set (batch := missing_data _ _ _ _ _ 25) in *. setoid_rewrite (Hsh have) in H2'. setoid_rewrite (Hsh have) in H3'.
  fold MAX_REPLICATION_BATCH_SIZE. change MAX_REPLICATION_BATCH_SIZE with 25. fold batch.
  case_decide as Hb; [|split_and!; [done|by intros ->|done|done|naive_solver]].
  apply nil_length_inv in Hb. rewrite Hb in H3'. intros a (? & ? & ?).
  eapply not_elem_of_nil, (H3' ltac:(simpl; lia) a); done.
Qed.
End replication.

Module SectionDemo.
Import External.Concrete Xor.ConcreteXor DagDemo TreeDemo HistoryDemo KnowledgeDemo AggregatorDemo.
Import MembershipDemo NodeDemo.

#[export] Instance member_start_laws : ConsensusStartLaws (BSh := concrete_shares) NS (Decision (X := concrete_xor) unit).
Proof. done. Qed.
#[export] Instance handover_start_laws : ConsensusStartLaws (BSh := concrete_shares) Candidate (list Candidate).
Proof. done. Qed.

(** A section with one elder. *)
Definition elder_name : list bool := [false; false].
Definition elder_sap (prefix : list bool) (key : PK) : Sap := mkSap prefix key {[demo_id elder_name 1]} ∅ 0.
Definition elder_signed (prefix : list bool) (key : PK) : SectionSigned Sap :=
  mkSectionSigned (elder_sap prefix key)
    (mkSectionSig key (key, default [] (bincode_serialize (elder_sap prefix key)))).
Definition elder_knowledge (prefix : list bool) : NetworkKnowledge unit :=
  mkKnowledge (elder_signed prefix (pk 1)) history_default
    (mkSectionTree {[prefix := elder_signed prefix (pk 1)]} (new (pk 1))).

Lemma elder_knowledge_ok prefix : nk_ok (elder_knowledge prefix) [].
Proof.
  split; [split|left].
  - intros p q [s Hs] [s' Hs']. simpl in *. apply lookup_singleton_Some in Hs as [<- _], Hs' as [<- _].
    apply (px_not_self_extension (X := concrete_xor)).
  - intros p s Hs. simpl in Hs. apply lookup_singleton_Some in Hs as [<- <-]. reflexivity.
  - intros p s Hs. simpl in Hs. apply lookup_singleton_Some in Hs as [<- <-]. reflexivity.
  - apply repr_new.
Qed.

Definition new_elder := fresh_node elder_name [demo_key_share] (elder_knowledge []).

Lemma section_change_updates_duties_witness :
  ∃ n' cmds, update_on_sap_change (Stream := unit) concat_hash (fresh_node elder_name [] genesis_knowledge) [] new_elder
      = Some (n', Ok cmds) ∧ votes_for n' (pk 1).
Proof.
  destruct (section_change_updates_duties (Stream := unit) concat_hash
    (fresh_node elder_name [] genesis_knowledge) new_elder [] [] []) as (n' & cmds & c & Hu & _ & Hv & _).
  - apply elder_knowledge_ok.
  - apply genesis_knowledge_ok.
  - reflexivity.
  - exists n', cmds. split; [exact Hu|]. change (node_is_elder new_elder) with true in Hv. apply Hv.
    exists demo_key_share. vm_compute. reflexivity.
Defined.

(** Two sections before the first one splits. *)
Definition other_signed : SectionSigned Sap :=
  mkSectionSigned (mkSap [true] (pk 1) {[demo_id [true; true] 2]} ∅ 0) (mkSectionSig (pk 1) (pk 1, [])).
Definition two_sections : NetworkKnowledge unit :=
  mkKnowledge (elder_signed [false] (pk 1)) history_default
    (mkSectionTree {[[false] := elder_signed [false] (pk 1); [true] := other_signed]} (new (pk 1))).
Definition told : list (Cmd unit (list Candidate) unit) :=
  default [] (send_updates_to_sibling_section two_sections).

Lemma told_one :
  match send_updates_to_sibling_section (D := list Candidate) (Stream := unit) two_sections with
  | Some [_] => true
  | _ => false
  end = true.
Proof. vm_compute. reflexivity. Qed.

Lemma split_sibling_never_told_witness :
  ∃ msg recipients, told = [SendNetworkMsg msg (Multiple recipients)] ∧
    ∀ i, i ∈ recipients → px_matches (nk_prefix two_sections) (id_name i) = false.
Proof.
  pose proof told_one as Hone. unfold told.
  destruct (send_updates_to_sibling_section two_sections) as [[|cmd []]|] eqn:Hs; try discriminate Hone.
  destruct (split_sibling_never_told two_sections [cmd]) as [Hnil|(_ & msg & rs & Ht & Hi)].
  - vm_compute. reflexivity.
  - intros p s i Hp Hi. cbn [two_sections nk_section_tree sections] in Hp.
    apply lookup_insert_Some in Hp as [[<- <-]|[_ Hp]]; [|apply lookup_singleton_Some in Hp as [<- <-]];
      cbn in Hi; apply elem_of_singleton in Hi as ->; reflexivity.
  - exact Hs.
  - discriminate Hnil.
  - exists msg, rs. split; [exact Ht|exact Hi].
Defined.

(** A storage with two addresses, of which the asking member has one. *)
Definition address (name : list bool) : DataAddress (X := concrete_xor) := BytesAddr name.
#[local] Instance two_addresses : DataStore (X := concrete_xor) := {|
  Store := unit;
  store_data_addrs _ := [address [false]; address [true]];
  store_retain s _ := s;
  store_reached_min_capacity _ := false;
  store_below_half_limit _ := true;
|}.
Definition storing_node : MyNode unit (list Candidate) (list bytes) :=
  mkNode (elder_name : Keypair) [] (elder_knowledge []) ∅ ∅ dkg_voter_default ∅ ∅ NoRelocation None ∅ None false false ∅
    (() : Store) [] ∅.
Definition asked : option (Cmd unit (list Candidate) unit) :=
  get_missing_data_for_node storing_node 1 (demo_id elder_name 1) [address [true]] reverse.
Definition batch_of (c : option (Cmd unit (list Candidate) unit)) : option (list (DataAddress (X := concrete_xor))) :=
  match c with Some (EnqueueDataForReplication _ batch) => Some batch | _ => None end.
Lemma asked_batch : batch_of asked = Some [address [false]].
Proof. vm_compute. reflexivity. Qed.

Lemma replication_batch_exact_witness :
  ∃ batch, asked = Some (EnqueueDataForReplication (demo_id elder_name 1) batch) ∧
    address [false] ∈ batch ∧ address [true] ∉ batch.
Proof.
  destruct (replication_batch_exact (Stream := unit) storing_node 1 (demo_id elder_name 1) [address [true]] reverse)
    as [Hb _]; [exact (λ l, reverse_Permutation l)|].
  change (get_missing_data_for_node _ _ _ _ _) with asked in Hb. pose proof asked_batch as Ha.
  destruct asked as [[]|]; try discriminate Ha. injection Ha as ->. destruct Hb as (-> & _ & _ & Hb & _).
  exists [address [false]]. split; [reflexivity|]. split; [by left|].
  intros Hin. destruct (Hb _ Hin) as (_ & Hn & _). apply Hn. by left.
Defined.
End SectionDemo.
