(* ===== verification/MemberChange.v ===== *)
(** * Changes of the members

    What an elder does when its section has decided about members
    ([sn_node/src/node/messaging/membership.rs]) and the votes on nodes to be removed
    ([section_state.rs] of the same directory).  The feature [limit-network-size] of the
    build is an argument. *)

From S2P Require Import Prelude External Xor NodeState SectionsDag Sap SectionTree MemberHistory.
From S2P Require Import NetworkKnowledge Aggregator Keys Membership Handover Relocation Dkg FaultDetection MyNode.
From S2P Require Import HandoverMsgs JoinMsgs DkgMsgs SectionChange.

Section member_change.
Context {B : Bls} {BSh : BlsShares} {X : Xor} {Cfg : Settings} {E : Ed25519}.
Context {NH : NameHashing} {EK : EdKeypairs} {SD : Sdkg} {DS : DataStore}.
Context {Trigger : Type} `{Countable Trigger} {C : ConsensusDecision Trigger} {RT : RelocationTriggers Trigger}.
Context {R : ConsensusRounds (NodeState Trigger) (Decision Trigger)}.
Context {D : Type} {RH : ConsensusRounds (SapCandidate Trigger) D} {M : Merkle SectionInfo}.
Context {CM : ConsensusStart (NodeState Trigger) (Decision Trigger)} {CH : ConsensusStart (SapCandidate Trigger) D}.
Context {Digest : Type} `{Countable Digest} (sha3 : list bytes → Digest) {Stream : Type}.
Context {BP : Bincode PublicKey} {BS : Bincode (SectionAuthorityProvider Trigger)}.
Context {BD : Bincode (DkgSessionId Trigger)} {BN : Bincode (NodeState Trigger)}.
Context {ON : Ord NodeId} {OS : Ord (NodeState Trigger)} {OSh : Ord SectionSigShare}.

Abbreviation Node := (MyNode Trigger D Digest).
Abbreviation NodeCmd := (Cmd Trigger D Stream).
Abbreviation Handler := (NodeM Trigger D Digest).
Implicit Types (n : Node).

(** ** A decision about members *)

Definition TEMP_SECTION_LIMIT : nat := 20.

Definition is_startup_joining_allowed (limit_network_size : bool) n : bool :=
  let is_first_section := bool_decide (nk_prefix (network_knowledge n) = px_default) in
  let members_count := size (nk_members (network_knowledge n)) in
  if limit_network_size then is_first_section && bool_decide (members_count ≤ TEMP_SECTION_LIMIT)
  else is_first_section.

Definition add_new_adult_to_trackers (adult : XorName) n : Node := send_fault_cmd n (AddNode adult).

Definition handle_node_joined n (new_info : NodeState Trigger) : Node := add_new_adult_to_trackers (name new_info) n.

(** Joins are switched off after the first section has split. *)
Definition disable_joins (limit_network_size : bool) n : Node :=
  if is_startup_joining_allowed limit_network_size n then n else set_joins_allowed n false.

(** When the section has grown: data of other sections is dropped, by tasks that run on
    their own; if the storage is full then nodes may join until the section splits, and
    otherwise no more.  [seen] is the storage at the time of this check, which may be that
    before, during or after the cleanup. *)
Definition after_net_increase (limit_network_size : bool) (seen : Store) n : Node :=
  let n := set_data_storage n (store_retain (data_storage n) (nk_prefix (network_knowledge n))) in
  let n := if store_reached_min_capacity seen
           then set_joins_allowed_until_split (set_joins_allowed n true) true else n in
  if negb (is_startup_joining_allowed limit_network_size n) && negb (joins_allowed_until_split n)
  then set_joins_allowed n false else n.

Definition update_joins_and_storage (limit_network_size : bool) (seen : Store) (joining leaving : nat) n : Node :=
  let n := if decide (0 < leaving) then set_joins_allowed n true else n in
  if decide (leaving < joining) then after_net_increase limit_network_size seen n else n.

Definition relocation_cmds (decision : Decision Trigger) (joining : list (NodeState Trigger * Signature)) n
    : list NodeCmd :=
  match dec_proposals decision with
  | [] => []
  | _ => try_relocate_nodes n (trigger_new decision) (list_to_set (name <$> joining.*1))
  end.

Definition apply_membership_decision (limit_network_size : bool) (seen : Store) (decision : Decision Trigger)
    (new_keys : nat → SecretKey) : Handler (list NodeCmd) :=
  let joining := filter (λ p, is_joined p.1 = true) (dec_proposals decision) in
  let leaving := filter (λ p, is_joined p.1 = false) (dec_proposals decision) in
  _ ← modify (λ n, foldl handle_node_joined n joining.*1);
  left ← gets (λ n, omap (λ p, handle_node_left n p.1 p.2) leaving);
  let approvals := match joining with [] => [] | _ => [send_node_approvals decision] end in
  _ ← modify (disable_joins limit_network_size);
  relocations ← gets (relocation_cmds decision joining);
  dkg ← trigger_dkg sha3 new_keys;
  ae ← ae_update_cmds;
  _ ← retain_only_members;
  _ ← modify (update_joins_and_storage limit_network_size seen (length joining) (length leaving));
  _ ← modify update_comm_target_list;
  ask ← gets ask_for_any_new_data_from_whole_section;
  mret (left ++ approvals ++ relocations ++ dkg ++ ae ++ [ask]).

(** A decision that does not fit our history makes us ask for an update. *)
Definition handle_membership_decision (limit_network_size : bool) (seen : Store) (decision : Decision Trigger)
    (new_keys : nat → SecretKey) (shuffle_prefixes : list Prefix → list Prefix)
    (shuffle_elders : list NodeId → list NodeId) : Handler (list NodeCmd) := λ n,
  let '(k, r) := try_update_member (network_knowledge n) decision in
  let n := set_knowledge n k in
  match r with
  | Err _ => Some (n, (λ cmd, [cmd]) <$> generate_probe_msg n shuffle_prefixes shuffle_elders)
  | Ok _ => apply_membership_decision limit_network_size seen decision new_keys n
  end.

(** ** Votes on nodes to be removed *)

Definition handle_section_state_proposal n (proposal : NodeState Trigger) (sig_share : SectionSigShare)
    (sender : NodeId) : option (Node * result (NodeError Trigger D) (list NodeCmd)) :=
  if negb (px_matches (nk_prefix (network_knowledge n)) (id_name sender)) then Some (n, Ok [])
  else
    trusted ← has_chain_key (network_knowledge n) (pks_public_key (share_public_key_set sig_share));
    if negb trusted then Some (n, Ok [])
    else
      match bincode_serialize proposal with
      | None => Some (n, Err BincodeError)
      | Some serialized_proposal =>
          let '(a, r) := try_aggregate Digest sha3 (section_proposal_aggregator n) serialized_proposal sig_share in
          let n := set_proposal_aggregator n a in
          match r with
          | Ok (Some sig) => Some (n, Ok [HandleNodeOffAgreement proposal sig])
          | Ok None | Err _ => Some (n, Ok [])
          end
      end.

Definition send_node_off_proposal n (recipients : list NodeId) (proposal : NodeState Trigger)
    : option (Node * result (NodeError Trigger D) (list NodeCmd)) :=
  match bincode_serialize proposal with
  | None => Some (n, Err BincodeError)
  | Some serialized_proposal =>
      match sign_with_section_key_share n serialized_proposal with
      | Err e => Some (n, Err e)
      | Ok sig_share =>
          let '(other_nodes, myself) := split_nodes_and_self n recipients in
          let n := track_all n (id_name <$> bset_iter other_nodes) ElderVoting in
          let cmds := [SendMsg (ProposeNodeOff proposal sig_share) (Multiple other_nodes)] in
          match myself with
          | Some me => extend_cmds cmds (handle_section_state_proposal n proposal sig_share me)
          | None => Some (n, Ok cmds)
          end
      end
  end.

Definition handle_offline_agreement n (now : nat) (node_state : NodeState Trigger) : Node * option NodeCmd :=
  propose_membership_change n now node_state.

Definition handle_section_decision_agreement n (now : nat) (proposal : NodeState Trigger) (section_sig : SectionSig)
    : Node * result (NodeError Trigger D) (list NodeCmd) :=
  match bincode_serialize proposal with
  | None => (n, Err BincodeError)
  | Some serialized_proposal =>
      if negb (section_sig_verify section_sig serialized_proposal) then (n, Err NodeInvalidSignature)
      else
        let '(n, cmd) := handle_offline_agreement n now proposal in
        (n, Ok (match cmd with Some cmd => [cmd] | None => [] end))
  end.
End member_change.
