(* ===== verification/AeMsgs.v ===== *)
(** * Anti-entropy

    [sn_node/src/node/messaging/anti_entropy.rs]: how a node answers a message that was
    sent with outdated knowledge of its section, and how it learns from such answers.

    A message may have reached the wrong section ([Redirect]) or the right section under
    an old key ([Retry]); the answer carries an update of the section tree and the
    message, to be sent again.  [None] is spent fuel of a walk over the section DAG or a
    panic while parsing a header. *)

From S2P Require Import Prelude External Xor NodeState SectionsDag Sap SectionTree MemberHistory.
From S2P Require Import NetworkKnowledge Aggregator Keys Membership Handover Relocation Dkg FaultDetection MyNode.
From S2P Require Import HandoverMsgs JoinMsgs DkgMsgs SectionChange WireMsg.

Section anti_entropy.
Context {B : Bls} {BSh : BlsShares} {BPS : BlsPublicShares} {X : Xor} {Cfg : Settings} {E : Ed25519}.
Context {NH : NameHashing} {EK : EdKeypairs} {SD : Sdkg} {DS : DataStore}.
Context {Trigger : Type} `{Countable Trigger} {C : ConsensusDecision Trigger} {RT : RelocationTriggers Trigger}.
Context {R : ConsensusRounds (NodeState Trigger) (Decision Trigger)}.
Context {D : Type} {RH : ConsensusRounds (SapCandidate Trigger) D} {M : Merkle SectionInfo}.
Context {CM : ConsensusStart (NodeState Trigger) (Decision Trigger)} {CH : ConsensusStart (SapCandidate Trigger) D}.
Context {Digest : Type} `{Countable Digest} (sha3 : list bytes → Digest) {Stream : Type}.
Context {BP : Bincode PublicKey} {BS : Bincode (SectionAuthorityProvider Trigger)}.
Context {BD : Bincode (DkgSessionId Trigger)} {BN : Bincode (NodeState Trigger)}.
Context {ON : Ord NodeId} {OS : Ord (NodeState Trigger)} {OSh : Ord SectionSigShare}.
Context {MsgId Ae Client Response : Type} {RE : Rmp (MsgEnvelope MsgId)} {RD : Rmp Dst}.
Context {RA : Rmp Ae} {RC : Rmp Client} {RR : Rmp Response} {RN : Rmp (NodeMsg Trigger D)}.

Abbreviation Node := (MyNode Trigger D Digest).
Abbreviation NodeCmd := (Cmd Trigger D Stream).
Abbreviation Handler := (NodeM Trigger D Digest).
Abbreviation Knowledge := (NetworkKnowledge Trigger).
Abbreviation Wire := (WireMsg MsgId).
Implicit Types (n old : Node) (k : Knowledge).

(** ** The answer to an outdated message *)

Definition map_wire_err {A} (r : result WireError A) : result (NodeError Trigger D) A := map_err (λ _, MessagingErr) r.

Definition check_for_entropy (is_self_elder : bool) (wire_msg : Wire) k
    : option (result (NodeError Trigger D) (option (SectionTreeUpdate Trigger * AntiEntropyKind))) :=
  let dst := wm_dst wire_msg in
  if negb (px_matches (nk_prefix k) (dst_name dst)) then
    if negb is_self_elder then Some (Ok None)
    else
      closest_sap ← closest_signed_sap_with_chain k (dst_name dst);
      match closest_sap with
      | Some (signed_sap, proof_chain) =>
          Some (bounced_msg ← map_wire_err (wire_serialize wire_msg);
                Ok (Some (mkSectionTreeUpdate signed_sap proof_chain, Redirect bounced_msg)))
      | None => Some (Err NodeNoMatchingSection)
      end
  else if decide (dst_section_key dst = nk_section_key k) then Some (Ok None)
  else
    u ← generate_ae_section_tree_update k (Some (dst_section_key dst));
    Some (bounced_msg ← map_wire_err (wire_serialize wire_msg);
          Ok (Some (u, Retry bounced_msg))).

Definition generate_anti_entropy_cmds (wire_msg : Wire) (src : NodeId) (u : SectionTreeUpdate Trigger)
    (kind : AntiEntropyKind) (send_stream : option Stream) : list NodeCmd :=
  match wm_kind wire_msg with
  | KindAntiEntropy _ | KindDataResponse _ => []
  | KindClient _ _ _ =>
      match send_stream with
      | Some stream => [UpdateCallerOnStream src kind u stream]
      | None => []
      end
  | KindNode _ _ =>
      TrackNodeIssue (id_name src) NetworkKnowledgeIssue ::
      match send_stream with
      | Some stream => [UpdateCallerOnStream src kind u stream]
      | None => [UpdateCaller src kind u]
      end
  end.

(** ** Learning from an answer *)

Definition XOR_NAME_LEN : nat := 32.
Definition bls_key_name (key : PublicKey) : XorName := name_of_bytes (take XOR_NAME_LEN (pk_to_bytes key)).

(** [Iterator::max_by]: the last of the greatest elements. *)
Definition max_by {A} (cmp : A → A → comparison) (l : list A) : option A :=
  foldl (λ best x, match best with
                   | None => Some x
                   | Some y => if decide (cmp y x = Gt) then Some y else Some x
                   end) None l.

Definition redirect_target (sap : SectionAuthorityProvider Trigger) : option NodeId :=
  let target_name := bls_key_name (section_key sap) in
  max_by (λ lhs rhs, xn_cmp_distance target_name (id_name lhs) (id_name rhs)) (bset_iter (sap_elders sap)).

Definition update_member_knowledge (decisions : option (list (Decision Trigger))) : Handler bool := λ n,
  let '(k, r) := update_section_member_knowledge (network_knowledge n) decisions in
  Some (set_knowledge n k, map_err KnowledgeErr r).

Definition is_in_section k (nm : XorName) : bool := bool_decide (set_Exists (λ m, id_name m = nm) (nk_members k)).

(** Whether the node learnt something, and the commands of a new authority.  [iter] lists
    the entries of the hash map of sessions. *)
Definition learn (iter : gmap Digest (DkgSessionInfo Trigger) → list (Digest * DkgSessionInfo Trigger))
    old (u : SectionTreeUpdate Trigger) (decisions : option (list (Decision Trigger)))
    : Handler (bool * list NodeCmd) :=
  key ← gets (λ n, nk_section_key (network_knowledge n));
  let already_updated := bool_decide (key = section_key (value (signed_sap u))) in
  updated_knowledge ← update_knowledge u (node_name old);
  updated_members ← (if updated_knowledge || already_updated then update_member_knowledge decisions else mret false);
  _ ← when_m updated_members (modify (λ n, remove_dkg_sessions_with_missing_members n (iter (dkg_sessions_info n))));
  sessions ← gets (λ n, iter (dkg_sessions_info n));
  cmds ← when_cmds updated_knowledge (update_on_sap_change sha3 old sessions);
  mret (updated_knowledge || updated_members, cmds).

(** A node that was removed from its section must join again. *)
Definition ask_for_data_if_member old : Handler (list NodeCmd) :=
  _ ← modify update_comm_target_list;
  n ← gets id;
  if is_in_section (network_knowledge n) (node_name n)
  then mret [ask_for_any_new_data_from_whole_section n]
  else if is_in_section (network_knowledge old) (node_name n)
  then lift_result (Err (RejoinRequired RemovedFromSection))
  else mret [].

(** The bounced message is sent again unless it was sent under the same key. *)
Definition resend (cmds : list NodeCmd) (sap : SectionAuthorityProvider Trigger) (bounced_msg : bytes * bytes * bytes)
    (recipient : NodeId) : Handler (list NodeCmd) :=
  wire_msg ← lift_option (wire_from (MsgId := MsgId) bounced_msg);
  wire_msg ← lift_result (map_wire_err wire_msg);
  if decide (dst_section_key (wm_dst wire_msg) = section_key sap) then mret cmds
  else
    msg ← lift_result (map_wire_err (into_msg (Ae := Ae) (Client := Client) (Response := Response) wire_msg));
    match msg with
    | WireNode msg_to_resend => mret (cmds ++ [SendMsg msg_to_resend (Single recipient)])
    | _ => mret cmds
    end.

Definition handle_anti_entropy_msg
    (iter : gmap Digest (DkgSessionInfo Trigger) → list (Digest * DkgSessionInfo Trigger))
    (u : SectionTreeUpdate Trigger) (kind : AntiEntropyKind) (sender : NodeId) : Handler (list NodeCmd) :=
  old ← gets id;
  let sap := value (signed_sap u) in
  let section_decisions := match kind with Update ds => Some ds | _ => None end in
  learnt ← learn iter old u section_decisions;
  asks ← when_cmds learnt.1 (ask_for_data_if_member old);
  let cmds := learnt.2 ++ asks in
  match kind with
  | Update _ =>
      _ ← modify (λ n, if is_section_member (network_knowledge n) (id_name sender)
                       then untrack_node_issue n (id_name sender) AeProbeMsg else n);
      mret cmds
  | Retry bounced_msg => resend cmds sap bounced_msg sender
  | Redirect bounced_msg =>
      match redirect_target sap with
      | Some dst => resend cmds sap bounced_msg dst
      | None => mret cmds
      end
  end.
End anti_entropy.
