(* ===== verification/AeProps.v ===== *)
(** * Properties of anti-entropy

    An answer to a message with outdated knowledge makes the sender reach the section it
    meant; a node keeps the state of an elder exactly for the key of its section. *)

From S2P Require Import Prelude External Xor NodeState SectionsDag Sap SectionTree MemberHistory.
From S2P Require Import NetworkKnowledge Aggregator Keys Membership Handover Relocation Dkg FaultDetection MyNode.
From S2P Require Import SectionsDagSpec SectionsDagWalk SectionsDagChain SectionsDagProps SectionTreeProps.
From S2P Require Import MemberHistoryProps NetworkKnowledgeProps MembershipProps.
From S2P Require Import HandoverMsgs JoinMsgs DkgMsgs SectionChange WireMsg AeMsgs NodeDemo.

Section chains.
Context {B : Bls} {X : Xor} {XL : XorLaws} {BP : Bincode PublicKey}.
Context {M : Merkle SectionInfo} {ML : MerkleLaws SectionInfo}.
Context {Trigger : Type} `{Countable Trigger} {C : ConsensusDecision Trigger}.
Context {OS : Ord (NodeState Trigger)} {BN : Bincode (NodeState Trigger)}.
Context {BS : Bincode (SectionAuthorityProvider Trigger)}.
Implicit Types (k : NetworkKnowledge Trigger) (e : list entry).

(** The chain of an update is a branch of the sender's DAG. *)
Lemma proof_chain_branch k e from chain :
  nk_ok k e → get_proof_chain_to_current_section k from = Some (Ok chain) →
  ∃ b, b ⊆ e ∧ repr chain b ∧ genesis_key chain = from ∧ last_key chain = Ok (nk_section_key k).
Proof.
  intros [Ht Hk] Hc. unfold get_proof_chain_to_current_section in Hc.
  pose proof (partial_dag_repr _ _ from _ (ok_repr _ _ Ht) Hk) as Hp. rewrite Hc in Hp.
  destruct (tree_branch e from _) as [b|] eqn:Hb; [|done].
  destruct Hp as (d & Hd & Hg & Hch & R). injection Hd as <-. exists b. split_and!; [|done|done|].
  - intros x Hx. by apply (tree_branch_sub _ _ _ _ _ Hb).
  - by apply (chain_last_key _ _ _ _ R Hg).
Qed.

(** The key of a destination is the key of a section that the sender knows. *)
Lemma generate_dst_known k e nm dst :
  nk_ok k e → generate_dst k nm = Ok dst →
  dst_name dst = nm ∧ verify_section_key_is_known k (dst_section_key dst) = true ∧
  ∀ p s, sections (nk_section_tree k) !! p = Some s → px_matches p nm = true →
    dst_section_key dst = section_key (value s).
Proof.
  intros [Ht _] Hd. unfold generate_dst, section_auth_by_name in Hd.
  destruct (get_signed_by_name (nk_section_tree k) nm) as [s|] eqn:Hs; [|done].
  injection Hd as <-. split; [done|]. split.
  - unfold get_signed_by_name in Hs. destruct (max_by_key _ _) as [[p s']|] eqn:Hm; [|done].
    injection Hs as ->. apply max_by_key_Some in Hm as [Hin _]. apply elem_of_bmap_iter in Hin.
    apply (ok_keys _ _ Ht _ _ Hin).
  - intros p s' Hs' Hm.
    destruct (get_signed_by_name_covers _ _ _ _ (ok_antichain _ _ Ht) Hs' Hm) as [Hs2 _].
    rewrite Hs in Hs2. by injection Hs2 as ->.
Qed.

Lemma generate_dst_filed k e nm s :
  nk_ok k e → sections (nk_section_tree k) !! sap_prefix (value s) = Some s →
  px_matches (sap_prefix (value s)) nm = true →
  generate_dst k nm = Ok (mkDst _ _ nm (section_key (value s))).
Proof.
  intros [Ht _] Hs Hm. unfold generate_dst, section_auth_by_name.
  by destruct (get_signed_by_name_covers _ _ _ _ (ok_antichain _ _ Ht) Hs Hm) as [-> _].
Qed.

Lemma check_trust_known (d chain : SectionsDAG) e :
  repr d e → has_key d (genesis_key chain) = true → check_trust chain (SectionsDag.keys d) = true.
Proof.
  intros R Hk. apply existsb_exists. exists (genesis_key chain). split; [|by apply bool_decide_eq_true].
  apply list_elem_of_In. apply (repr_has_key _ _ R), tree_keys_cases in Hk as [->|(x & Hx & <-)]; [by left|right].
  apply list_elem_of_fmap. exists (node_of d x). split; [done|]. rewrite mr_all_nodes_spec.
  apply list_elem_of_fmap. exists (node_hash (node_of d x), node_of d x). split; [done|].
  by apply elem_of_map_to_list, (repr_node _ _ R).
Qed.

Lemma check_update_intro (t : SectionTree Trigger) (u : SectionTreeUpdate Trigger) :
  signed_self_verify (signed_sap u) = true →
  sig_public_key (sig (signed_sap u)) = section_key (value (signed_sap u)) →
  last_key (proof_chain u) = Ok (section_key (value (signed_sap u))) →
  match sections t !! sap_prefix (value (signed_sap u)) with
  | Some known => has_key (proof_chain u) (section_key (value known)) = true
  | None => check_trust (proof_chain u) (SectionsDag.keys (sections_dag t)) = true
  end → check_update t u = Ok ().
Proof.
  intros Hs Hpk Hl Ht. unfold check_update, get_signed. rewrite Hs, Hl.
  destruct (sections t !! _); rewrite Ht; cbn; rewrite decide_False by (by intros []); cbn; by rewrite decide_True.
Qed.

(** [theirs] and [ours] are the knowledge of two nodes of one network: the same genesis
    key, no two entries for a key, signed entries. *)
Record same_network (ours theirs : NetworkKnowledge Trigger) (eo et : list entry) : Prop := {
  sn_ours : nk_ok ours eo;
  sn_theirs : nk_ok theirs et;
  sn_genesis : nk_genesis_key ours = nk_genesis_key theirs;
  sn_compat : compat et eo;
  sn_signed : forallb e_signed eo = true;
}.

Lemma branch_admissible ours theirs eo et b :
  same_network ours theirs eo et → b ⊆ eo →
  forallb e_signed b = true ∧ compat et b ∧ nk_genesis_key theirs ∉ e_key <$> b.
Proof.
  intros [Ho Ht Hg Hc Hs] Hb. split_and!.
  - apply forallb_forall. intros x Hx. rewrite forallb_forall in Hs. apply Hs.
    by apply list_elem_of_In, Hb, list_elem_of_In.
  - intros x y Hx Hy. by apply Hc, Hb.
  - rewrite <-Hg. intros (x & Hx & Hin)%list_elem_of_fmap.
    apply (tree_wf_not_genesis _ _ x (repr_wf _ _ (ok_repr _ _ (nk_tree _ _ Ho)))); [by apply Hb|by symmetry].
Qed.

(** An update of our section from a key that the receiver holds for a name in it. *)
Lemma update_from_known_key ours theirs eo et nm dst chain our_name :
  same_network ours theirs eo et →
  signed_self_verify (nk_signed_sap ours) = true →
  sig_public_key (sig (nk_signed_sap ours)) = nk_section_key ours →
  generate_dst theirs nm = Ok dst → px_matches (nk_prefix ours) nm = true →
  verify_section_key_is_known theirs (nk_section_key ours) = false →
  (∀ q, is_Some (sections (nk_section_tree theirs) !! q) → px_is_extension_of q (nk_prefix ours) = false) →
  get_proof_chain_to_current_section ours (dst_section_key dst) = Some (Ok chain) →
  ∃ theirs', update_sap_knowledge_if_valid theirs (mkSectionTreeUpdate (nk_signed_sap ours) chain) our_name
      = Some (theirs', Ok true) ∧
    (∃ e', nk_ok theirs' e') ∧
    generate_dst theirs' nm = Ok (mkDst _ _ nm (nk_section_key ours)) ∧
    (px_matches (nk_prefix ours) our_name = true → nk_signed_sap theirs' = nk_signed_sap ours).
Proof.
  intros Hn Hsv Hpk Hd Hm Hnew Hext Hch.
  destruct (proof_chain_branch _ _ _ _ (sn_ours _ _ _ _ Hn) Hch) as (b & Hb & Rb & Hg & Hl).
  destruct (branch_admissible _ _ _ _ _ Hn Hb) as (Hs & Hc & Hgen).
  destruct (generate_dst_known _ _ _ _ (sn_theirs _ _ _ _ Hn) Hd) as (_ & Hkn & Hold).
  pose proof (nk_tree _ _ (sn_theirs _ _ _ _ Hn)) as Ht.
  set (u := mkSectionTreeUpdate (nk_signed_sap ours) chain).
  rewrite <-Hg in Hkn.
  assert (check_update (nk_section_tree theirs) u = Ok ()) as Hchk.
  { apply check_update_intro; [done..|]. cbn [signed_sap proof_chain u]. fold (nk_prefix ours).
    destruct (sections _ !! nk_prefix ours) as [s|] eqn:Hp.
    - rewrite <-(Hold _ _ Hp Hm), <-Hg. apply (repr_has_key _ _ Rb). by left.
    - apply (check_trust_known _ _ _ (ok_repr _ _ Ht) Hkn). }
  destruct (update_accepted_if _ u _ _ Ht Rb Hs Hc Hgen Hkn Hnew Hchk Hext) as (t' & Hu).
  destruct (sap_update_accepted _ _ u _ our_name _ (sn_theirs _ _ _ _ Hn) Rb Hs Hc Hgen Hkn Hu)
    as (k' & Hk' & Htree & _ & e' & Hok & Hour).
  exists k'. split; [done|]. split; [by exists e'|]. split.
  - rewrite (generate_dst_filed _ _ _ (nk_signed_sap ours) Hok); [done| |done].
    rewrite Htree. apply (update_files _ _ _ Hu).
  - intros Hm'. change (sap_prefix (value (signed_sap u))) with (nk_prefix ours) in Hour.
    rewrite Hm' in Hour. apply Hour.
Qed.
End chains.

Section retry.
Context {B : Bls} {BSh : BlsShares} {BPS : BlsPublicShares} {E : Ed25519} {X : Xor} {XL : XorLaws}.
Context {BP : Bincode PublicKey} {M : Merkle SectionInfo} {ML : MerkleLaws SectionInfo}.
Context {Trigger : Type} `{Countable Trigger} {C : ConsensusDecision Trigger}.
Context {R : ConsensusRounds (NodeState Trigger) (Decision Trigger)} {NH : NameHashing}.
Context {D : Type} {RH : ConsensusRounds (SapCandidate Trigger) D} {SD : Sdkg} {DS : DataStore}.
Context {OS : Ord (NodeState Trigger)} {BN : Bincode (NodeState Trigger)}.
Context {BS : Bincode (SectionAuthorityProvider Trigger)}.
Context {MsgId : Type} {RE : Rmp (MsgEnvelope MsgId)} {RD : Rmp Dst}.
Implicit Types (ours theirs : NetworkKnowledge Trigger) (m : WireMsg MsgId).

(** C22: a message sent with an outdated key for our section is answered with a [Retry]
    whose update the sender accepts; afterwards the sender addresses our section with our
    key, and a message with that destination passes our check.  The sender and we know
    the same network, our authority is signed with its own key, the sender has no section
    below ours and its key for the destination is above our key. *)
Theorem retry_reaches_section ours theirs eo et nm dst chain m bounced our_name elder :
  same_network ours theirs eo et →
  signed_self_verify (nk_signed_sap ours) = true →
  sig_public_key (sig (nk_signed_sap ours)) = nk_section_key ours →
  generate_dst theirs nm = Ok dst → px_matches (nk_prefix ours) nm = true →
  verify_section_key_is_known theirs (nk_section_key ours) = false →
  (∀ q, is_Some (sections (nk_section_tree theirs) !! q) → px_is_extension_of q (nk_prefix ours) = false) →
  get_proof_chain_to_current_section ours (dst_section_key dst) = Some (Ok chain) →
  wm_dst m = dst → wire_serialize m = Ok bounced →
  ∃ u theirs' dst',
    check_for_entropy (D := D) elder m ours = Some (Ok (Some (u, Retry bounced))) ∧
    update_sap_knowledge_if_valid theirs u our_name = Some (theirs', Ok true) ∧
    generate_dst theirs' nm = Ok dst' ∧ dst_section_key dst' = nk_section_key ours ∧
    ∀ m', wm_dst m' = dst' → check_for_entropy (D := D) elder m' ours = Some (Ok None).
Proof.
  intros Hn Hsv Hpk Hd Hm Hnew Hext Hch Hdst Hser.
  destruct (update_from_known_key _ _ _ _ _ _ _ our_name Hn Hsv Hpk Hd Hm Hnew Hext Hch)
    as (k' & Hk' & _ & Hd' & _).
  destruct (generate_dst_known _ _ _ _ (sn_theirs _ _ _ _ Hn) Hd) as (Hname & Hkn & _).
  eexists (mkSectionTreeUpdate (nk_signed_sap ours) chain), k', _. split_and!; [|done..|].
  - unfold check_for_entropy. rewrite Hdst, Hname, Hm. simpl.
    rewrite decide_False by (intros Heq; rewrite Heq in Hkn; congruence).
    unfold generate_ae_section_tree_update. rewrite Hch. cbn. by rewrite Hser.
  - intros m' Hm'. unfold check_for_entropy. rewrite Hm'. simpl. rewrite Hm. simpl. by rewrite decide_True.
Qed.
End retry.

Section redirect.
Context {B : Bls} {BSh : BlsShares} {X : Xor} {NH : NameHashing} {DL : DistanceLaws}.
Context {Trigger : Type} `{Countable Trigger} {ON : Ord NodeId}.

Lemma max_by_spec {A} (cmp : A → A → comparison) (l : list A) :
  (∀ x y, cmp y x = CompOpp (cmp x y)) → (∀ x y z, cmp x y ≠ Gt → cmp y z ≠ Gt → cmp x z ≠ Gt) →
  match max_by cmp l with
  | None => l = []
  | Some m => m ∈ l ∧ ∀ x, x ∈ l → cmp x m ≠ Gt
  end.
Proof.
  intros Hflip Htr. unfold max_by. induction l as [|x l IH] using rev_ind; [done|].
  rewrite foldl_app. cbn [foldl]. destruct (foldl _ None l) as [m|]; [|subst; split; [by left|]].
  - destruct IH as [Hm Hle]. case_decide as Hgt.
    + split; [set_solver|]. intros z [Hz| ->%list_elem_of_singleton]%elem_of_app; [by apply Hle|].
      rewrite Hflip, Hgt. done.
    + split; [set_solver|]. intros z [Hz| ->%list_elem_of_singleton]%elem_of_app; [by eapply Htr; [apply Hle|]|].
      intros Heq. pose proof (Hflip x x) as Hf. by rewrite Heq in Hf.
  - intros y ->%list_elem_of_singleton Heq. pose proof (Hflip x x) as Hf. by rewrite Heq in Hf.
Qed.

(** A redirected message goes to the elder of the suggested section whose name is
    farthest from the name of the section key, not to the closest one as documented. *)
Theorem redirect_picks_farthest_elder (sap : SectionAuthorityProvider Trigger) :
  match redirect_target sap with
  | None => sap_elders sap = ∅
  | Some elder =>
      elder ∈ sap_elders sap ∧
      ∀ other, other ∈ sap_elders sap →
        xn_cmp_distance (bls_key_name (section_key sap)) (id_name other) (id_name elder) ≠ Gt
  end.
Proof.
  unfold redirect_target.
  pose proof (max_by_spec (λ lhs rhs, xn_cmp_distance (bls_key_name (section_key sap)) (id_name lhs) (id_name rhs))
    (bset_iter (sap_elders sap))) as Hmax.
  destruct (max_by _ _) as [m|].
  - destruct Hmax as [Hin Hle]; [intros; apply xn_cmp_distance_flip|intros; by eapply xn_cmp_distance_trans|].
    split; [by apply elem_of_bset_iter|]. intros o Ho. apply Hle. by apply elem_of_bset_iter.
  - apply elem_of_equiv_empty_L. intros o Ho%elem_of_bset_iter. rewrite Hmax in Ho; [set_solver|..].
    + intros; apply xn_cmp_distance_flip.
    + intros; by eapply xn_cmp_distance_trans.
Qed.
End redirect.

Module AeDemo.
Import External.Concrete Xor.ConcreteXor DagDemo TreeDemo HistoryDemo KnowledgeDemo AggregatorDemo MembershipDemo NodeDemo WireDemo.

(** We have a newer key for our section than the sender of the message. *)
Definition next_knowledge : NetworkKnowledge unit :=
  mkKnowledge (demo_signed [] (pk 2)) history_default
    (mkSectionTree {[[] := demo_signed [] (pk 2)]} next_chain).
Definition stale_dst : Dst (B := concrete_bls) (X := concrete_xor) := mkDst concrete_bls concrete_xor [true] (pk 1).
Definition stale_msg := new_msg 7 [1; 2]%Z (node_kind [true; false] false) stale_dst.

Lemma next_knowledge_ok : nk_ok next_knowledge [demo_entry (pk 1) (pk 2)].
Proof.
  split; [split|right; left].
  - intros p q [s Hs] [s' Hs']. simpl in *. apply lookup_singleton_Some in Hs as [<- _], Hs' as [<- _].
    vm_compute. reflexivity.
  - intros p s Hs. simpl in Hs. apply lookup_singleton_Some in Hs as [<- <-]. reflexivity.
  - intros p s Hs. simpl in Hs. apply lookup_singleton_Some in Hs as [<- <-]. vm_compute. reflexivity.
  - apply next_chain_repr.
Qed.
Lemma demo_network : same_network next_knowledge genesis_knowledge [demo_entry (pk 1) (pk 2)] [].
Proof.
  split; [apply next_knowledge_ok|apply genesis_knowledge_ok|reflexivity|intros x y Hx; by apply elem_of_nil in Hx|].
  vm_compute. reflexivity.
Qed.

Lemma retry_reaches_section_witness :
  ∃ bounced u theirs' dst',
    check_for_entropy (D := list Candidate) true stale_msg next_knowledge = Some (Ok (Some (u, Retry bounced))) ∧
    update_sap_knowledge_if_valid genesis_knowledge u [false] = Some (theirs', Ok true) ∧
    generate_dst theirs' ([true] : @XorName concrete_xor) = Ok dst' ∧ dst_section_key dst' = pk 2.
Proof.
  eexists ([0; 8; 0; 1; 7; 0; 1; 0]%Z, [1; 1]%Z, [1; 2]%Z).
  destruct (nk_partial_dag _ _ (pk 2) next_knowledge_ok) as (chain & _ & Hc & _); [right; left|].
  destruct (retry_reaches_section (D := list Candidate) next_knowledge genesis_knowledge [demo_entry (pk 1) (pk 2)] [] ([true] : @XorName concrete_xor) stale_dst chain
    stale_msg ([0; 8; 0; 1; 7; 0; 1; 0]%Z, [1; 1]%Z, [1; 2]%Z) [false] true)
    as (u & k' & d' & H1 & H2 & H3 & H4 & _); [apply demo_network|vm_compute; reflexivity..| |exact Hc|reflexivity| |].
  - intros q [s Hs]. simpl in Hs. apply lookup_singleton_Some in Hs as [<- _]. vm_compute. reflexivity.
  - vm_compute. reflexivity.
  - exists u, k', d'. auto.
Defined.

(** The name of the key [pk 1] is [true]. *)
Definition redirect_sap : Sap := mkSap [] (pk 1) {[demo_id [true] 1; demo_id [false] 2]} ∅ 0.
Lemma redirect_picks_farthest_elder_witness :
  redirect_target redirect_sap = Some (demo_id [false] 2) ∧
  xn_cmp_distance (bls_key_name (section_key redirect_sap)) ([true] : @XorName concrete_xor) [false] ≠ Gt.
Proof.
  pose proof (redirect_picks_farthest_elder redirect_sap) as Hr.
  assert (redirect_target redirect_sap = Some (demo_id [false] 2)) as Ht by (vm_compute; reflexivity).
  rewrite Ht in Hr. split; [exact Ht|]. apply (proj2 Hr (demo_id [true] 1)). apply elem_of_union_l, elem_of_singleton.
  reflexivity.
Defined.
End AeDemo.
