(* ===== verification/Dispatch.v ===== *)
(** * Dispatch of commands and node messages

    [process_cmd] of [sn_node/src/node/flow_ctrl/dispatcher.rs], [handle_node_msg] of
    [messaging/node_msgs.rs] and the reports of lost nodes of [connectivity.rs]: the loop
    that runs one command after the other on the state of the node and returns new
    commands.

    What a handler takes from outside (time, randomness, orders of hash maps and the
    storage at a moment) is a [World].  The commands that are run on other tasks are no
    commands of this loop.  Of the messages of clients the loop gets those that come with
    news of the network, of which the node learns first; what then becomes of the message is
    [handle_client_msg_for_us] of [ClientMsgs], which has its own record of what a node
    knows.  Here that handler is a part of the [World]: a function of the context and the
    message that returns commands and the storage, the one part of a node that a context
    shares. *)

From S2P Require Import Prelude External Xor NodeState SectionsDag Sap SectionTree MemberHistory.
From S2P Require Import NetworkKnowledge Aggregator Keys Membership Handover Relocation Dkg FaultDetection MyNode.
From S2P Require Import HandoverMsgs JoinMsgs DkgMsgs SectionChange MemberChange WireMsg AeMsgs.

Section dispatch.
Context {B : Bls} {BSh : BlsShares} {BPS : BlsPublicShares} {X : Xor} {Cfg : Settings} {E : Ed25519}.
Context {NH : NameHashing} {EK : EdKeypairs} {SD : Sdkg} {DS : DataStore}.
Context {Trigger : Type} `{Countable Trigger} {C : ConsensusDecision Trigger} {RT : RelocationTriggers Trigger}.
Context {R : ConsensusRounds (NodeState Trigger) (Decision Trigger)}.
Context {D : Type} (proposals : D → list (SapCandidate Trigger)).
Context {RH : ConsensusRounds (SapCandidate Trigger) D} {M : Merkle SectionInfo}.
Context {CM : ConsensusStart (NodeState Trigger) (Decision Trigger)} {CH : ConsensusStart (SapCandidate Trigger) D}.
Context {Digest : Type} `{Countable Digest} (sha3 : list bytes → Digest) {Stream : Type}.
Context {BP : Bincode PublicKey} {BS : Bincode (SectionAuthorityProvider Trigger)}.
Context {BD : Bincode (DkgSessionId Trigger)} {BN : Bincode (NodeState Trigger)} {BI : Bincode (RelocationInfo Trigger)}.
Context {ON : Ord NodeId} {OS : Ord (NodeState Trigger)} {OSh : Ord SectionSigShare}.
Context {OSap : Ord (SectionSigned (SectionAuthorityProvider Trigger))}.
Context {MsgId Ae Client Response : Type} {RE : Rmp (MsgEnvelope MsgId)} {RD : Rmp Dst}.
Context {RA : Rmp Ae} {RC : Rmp Client} {RR : Rmp Response} {RN : Rmp (NodeMsg Trigger D)}.

Abbreviation Node := (MyNode Trigger D Digest).
Abbreviation NodeCmd := (Cmd Trigger D Stream).
Abbreviation Handler := (NodeM Trigger D Digest).
Implicit Types (n : Node).

Record World := mkWorld {
  w_now : nat;
  w_new_keys : nat → SecretKey;
  w_rng : nat → Rng;
  w_gen_keypair : Prefix → Z → Keypair;
  w_iter : gmap Digest (DkgSessionInfo Trigger) → list (Digest * DkgSessionInfo Trigger);
  w_shuffle_prefixes : list Prefix → list Prefix;
  w_shuffle_elders : list NodeId → list NodeId;
  w_seen : Store;
  w_limit_network_size : bool;
  w_handle_client_msg : Node → bytes → Stream → Store * result (NodeError Trigger D) (list NodeCmd);
}.
Implicit Types (w : World).

(** Handlers as functions, those that always return, and handlers with at most one command. *)
Definition handler {A} (f : Node → option (Node * result (NodeError Trigger D) A)) : Handler A := f.
Definition total {A} (f : Node → Node * result (NodeError Trigger D) A) : Handler A := λ n, Some (f n).
Definition option_cmd (cmd : option NodeCmd) : list NodeCmd := match cmd with Some cmd => [cmd] | None => [] end.

(** ** Reports of lost nodes *)

Definition handle_comms_error (participant : NodeId) n : Node :=
  if is_section_member (network_knowledge n) (id_name participant)
  then track_node_issue n (id_name participant) Communication else n.

(** A failed proposal is left out; the changes it made stay. *)
Fixpoint propose_offline (elders : list NodeId) (names : list XorName) : Handler (list NodeCmd) :=
  match names with
  | [] => mret []
  | nm :: names =>
      cmds ← handler (λ n,
        match get_section_member (network_knowledge n) nm with
        | None => Some (n, Ok [])
        | Some info =>
            info ← leave info;
            match send_node_off_proposal sha3 n elders info with
            | Some (n, Ok cmds) => Some (n, Ok cmds)
            | Some (n, Err _) => Some (n, Ok [])
            | None => None
            end
        end);
      rest ← propose_offline elders names;
      mret (cmds ++ rest)
  end.

Definition cast_offline_proposals (names : gset XorName) : Handler (list NodeCmd) :=
  elders ← gets (λ n, filter (λ i, id_name i ∉ names) (bset_iter (nk_elders (network_knowledge n))));
  propose_offline elders (bset_iter names).

(** ** Messages of nodes *)

Definition handle_join_response (response : JoinResponse) : Handler (list NodeCmd) :=
  n ← gets id;
  if is_section_member (network_knowledge n) (node_name n) then mret []
  else
    match response with
    | JoinsDisallowed => lift_result (Err (RejoinRequired RejoinJoinsDisallowed))
    | Approved decision =>
        if negb (dec_validate decision (nk_section_key (network_knowledge n))) then mret []
        else if forallb (λ s, bool_decide (name s ≠ node_name n))
                  (filter (λ s, is_joined s = true) (dec_proposals decision).*1) then mret []
        else
          _ ← when_m (bool_decide (is_Some (relocation_proof (relocation_state n))))
                (modify (λ n, finalise_relocation n decision));
          mret []
    | UnderConsideration => mret []
    end.

Definition handle_could_not_store (reporter : XorName) (full : bool) : Handler (list NodeCmd) :=
  n ← gets id;
  if negb (node_is_elder n) then mret []
  else
    let cmds := if context_joins_allowed n then [] else [SetJoinsAllowed true] in
    if full && store_below_half_limit (data_storage n)
    then mret (cmds ++ [ProposeVoteNodesOffline {[reporter]}])
    else _ ← modify (λ n, track_node_issue n reporter Communication); mret cmds.

(** An ephemeral key that comes before the session start is handled once more after the
    start, which the fuel allows for. *)
Definition EPHEMERAL_FUEL : nat := 2.

Definition handle_node_msg w (msg : NodeMsg Trigger D) (node_id : NodeId) (send_stream : option Stream)
    : Handler (list NodeCmd) :=
  match msg with
  | TryJoin relocation => total (λ n, handle_join n (w_now w) node_id relocation send_stream)
  | PrepareToRelocate trigger => total (λ n, let '(n, cmds) := prepare_to_relocate n trigger in (n, Ok cmds))
  | ProceedRelocation trigger => total (λ n, proceed_relocation n (w_now w) (id_name node_id) trigger)
  | CompleteRelocation signed_relocation =>
      cmd ← total (λ n, relocate_node n signed_relocation (w_gen_keypair w)); mret (option_cmd cmd)
  | JoinResponseMsg response => handle_join_response response
  | HandoverVotes votes => handler (λ n, handle_handover_msg proposals sha3 n node_id votes)
  | HandoverAE gen => cmd ← gets (λ n, handle_handover_anti_entropy n node_id gen); mret (option_cmd cmd)
  | MembershipVotes votes =>
      total (λ n, let '(n, cmds) := handle_membership_votes n (w_now w) node_id votes in (n, Ok cmds))
  | ProposeNodeOff proposal sig_share =>
      _ ← modify (λ n, untrack_node_issue n (id_name node_id) ElderVoting);
      handler (λ n, handle_section_state_proposal sha3 n proposal sig_share node_id)
  | DkgStart session_id elder_sig =>
      _ ← modify (λ n, untrack_node_issue n (id_name node_id) FaultDetection.Dkg);
      handler (λ n, handle_dkg_start sha3 n session_id elder_sig (w_new_keys w 0))
  | DkgEphemeralPubKey session_id section_auth pub_key key_sig =>
      handler (λ n, handle_dkg_ephemeral_pubkey sha3 EPHEMERAL_FUEL n (w_now w) session_id section_auth pub_key key_sig
        node_id (w_new_keys w 0) (w_rng w 0))
  | DkgVotes session_id pub_keys votes =>
      _ ← modify (λ n, untrack_node_issue n (id_name node_id) FaultDetection.Dkg);
      total (λ n, handle_dkg_votes sha3 n (w_now w) session_id pub_keys votes node_id (w_rng w))
  | CouldNotStoreData reporter _ full => handle_could_not_store reporter full
  | RequestHandover sap sig_share => handler (λ n, handle_handover_request proposals sha3 n sap sig_share node_id)
  | SectionHandoverPromotion sap sig_share => handler (λ n, handle_handover_promotion sha3 n sap sig_share node_id)
  | SectionSplitPromotion sap0 sig_share0 sap1 sig_share1 =>
      handler (λ n, handle_section_split_promotion sha3 n sap0 sig_share0 sap1 sig_share1 node_id)
  | MembershipAE _ | DkgAE _ | SendAnyMissingRelevantData _ => mret []
  end.

(** ** Commands *)

(** A message of a client that needs news of the network: the node learns them, and the message is
    handled on a context with them, or, when they are none, on the one from before. *)
Definition update_network_and_handle_client w (proof_chain : SectionsDAG)
    (signed_sap : SectionSigned (SectionAuthorityProvider Trigger)) (client_msg : bytes) (send_stream : Stream) : Handler (list NodeCmd) :=
  context ← gets id;
  updated ← update_knowledge (mkSectionTreeUpdate signed_sap proof_chain) (node_name context);
  context ← gets (λ n, if updated : bool then n else context);
  let '(storage, r) := w_handle_client_msg w context client_msg send_stream in
  _ ← modify (λ n, set_data_storage n storage);
  lift_result r.

Definition process_cmd w (cmd : NodeCmd) : Handler (list NodeCmd) :=
  match cmd with
  | TryJoinNetwork => cmd ← gets (λ n, try_join_section n None); mret (option_cmd cmd)
  | TrackNodeIssue nm issue => _ ← modify (λ n, track_node_issue n nm issue); mret []
  | ProcessNodeMsg msg node_id send_stream => handle_node_msg w msg node_id send_stream
  | ProcessAeMsg kind u sender =>
      handle_anti_entropy_msg (MsgId := MsgId) (Ae := Ae) (Client := Client) (Response := Response)
        sha3 (w_iter w) u kind sender
  | UpdateNetworkAndHandleValidClientMsg proof_chain signed_sap client_msg send_stream =>
      update_network_and_handle_client w proof_chain signed_sap client_msg send_stream
  | HandleNodeOffAgreement proposal section_sig =>
      total (λ n, handle_section_decision_agreement n (w_now w) proposal section_sig)
  | HandleMembershipDecision decision =>
      handle_membership_decision sha3 (w_limit_network_size w) (w_seen w) decision (w_new_keys w)
        (w_shuffle_prefixes w) (w_shuffle_elders w)
  | HandleNewEldersAgreement new_elders section_sig =>
      sessions ← gets (λ n, w_iter w (dkg_sessions_info n));
      handle_new_elders_agreement sha3 new_elders section_sig sessions
  | HandleNewSectionsAgreement sap1 sig1 sap2 sig2 =>
      sessions ← gets (λ n, w_iter w (dkg_sessions_info n));
      handle_new_sections_agreement sha3 sap1 sig1 sap2 sig2 sessions
  | HandleCommsError participant => _ ← modify (handle_comms_error participant); mret []
  | HandleDkgOutcome sap outcome => handler (λ n, handle_dkg_outcome proposals sha3 n sap outcome)
  | EnqueueDataForReplication _ _ => mret []
  | ProposeVoteNodesOffline names => cast_offline_proposals names
  | SetJoinsAllowed allowed => _ ← modify (λ n, set_joins_allowed n allowed); mret []
  | SetJoinsAllowedUntilSplit allowed =>
      _ ← modify (λ n, set_joins_allowed_until_split (set_joins_allowed n allowed) allowed); mret []
  | SendNetworkMsg _ _ | SendNodeMsgResponse _ _ _ | SendMsgEnqueueAnyResponse _ _
  | UpdateCaller _ _ _ | UpdateCallerOnStream _ _ _ _ => mret []
  end.
End dispatch.
