(* ===== verification/DispatchProps.v ===== *)
(** * Properties of the command loop

    The key generations of a node stay consistent whatever commands it runs. *)

From S2P Require Import Prelude External Xor NodeState SectionsDag Sap SectionTree MemberHistory.
From S2P Require Import NetworkKnowledge Aggregator Keys Membership Handover Relocation Dkg FaultDetection MyNode.
From S2P Require Import HandoverMsgs JoinMsgs DkgMsgs SectionChange MemberChange WireMsg AeMsgs Dispatch DkgProps.
From S2P Require Import SectionsDagProps SectionTreeProps MemberHistoryProps NetworkKnowledgeProps MembershipProps.
From S2P Require Import JoinProps NodeDemo.

Section keeps.
Context {B : Bls} {BSh : BlsShares} {BPS : BlsPublicShares} {X : Xor} {Cfg : Settings} {E : Ed25519}.
Context {NH : NameHashing} {EK : EdKeypairs} {EKL : EdKeypairLaws} {SD : Sdkg} {DS : DataStore}.
Context {Trigger : Type} `{Countable Trigger} {C : ConsensusDecision Trigger} {RT : RelocationTriggers Trigger}.
Context {R : ConsensusRounds (NodeState Trigger) (Decision Trigger)}.
Context {D : Type} (proposals : D → list (SapCandidate Trigger)).
Context {RH : ConsensusRounds (SapCandidate Trigger) D} {M : Merkle SectionInfo}.
Context {CM : ConsensusStart (NodeState Trigger) (Decision Trigger)} {CH : ConsensusStart (SapCandidate Trigger) D}.
Context {Digest : Type} `{Countable Digest} (sha3 : list bytes → Digest) {Stream : Type}.
Context {BP : Bincode PublicKey} {BS : Bincode (SectionAuthorityProvider Trigger)}.
Context {BD : Bincode (DkgSessionId Trigger)} {BN : Bincode (NodeState Trigger)} {BI : Bincode (RelocationInfo Trigger)}.
Context {ON : Ord NodeId} {OS : Ord (NodeState Trigger)} {OSh : Ord SectionSigShare}.
Context {OSap : Ord (SectionSigned (SectionAuthorityProvider Trigger))}.
Context {MsgId Ae Client Response : Type} {RE : Rmp (MsgEnvelope MsgId)} {RD : Rmp Dst}.
Context {RA : Rmp Ae} {RC : Rmp Client} {RR : Rmp Response} {RN : Rmp (NodeMsg Trigger D)}.

Abbreviation Node := (MyNode Trigger D Digest).
Abbreviation NodeCmd := (Cmd Trigger D Stream).
Abbreviation Handler := (NodeM Trigger D Digest).
Implicit Types (n : Node).

(** ** What a step keeps *)

Definition dkg_keeps n n' : Prop := dkg_ok sha3 n → dkg_ok sha3 n'.

#[export] Instance dkg_keeps_preorder : PreOrder dkg_keeps.
Proof. split; [by intros n Hn|]. intros n1 n2 n3 O1 O2 Hn. by apply O2, O1. Qed.

Lemma dkg_keeps_same n n' :
  keypair n' = keypair n → dkg_sessions_info n' = dkg_sessions_info n → dkg_voter n' = dkg_voter n → dkg_keeps n n'.
Proof. intros Hk Hi Hv. unfold dkg_keeps, dkg_ok, node_name. by rewrite Hk, Hi, Hv. Qed.

(** Whatever the handler returns. *)
Definition keeps {A} (m : Handler A) : Prop := ∀ n n' r, m n = Some (n', r) → dkg_keeps n n'.

Lemma keeps_ret {A} (a : A) : keeps (mret a).
Proof. by intros n n' r [= -> _]. Qed.
Lemma keeps_bind {A A'} (m : Handler A) (f : A → Handler A') : keeps m → (∀ a, keeps (f a)) → keeps (m ≫= f).
Proof.
  intros Hm Hf n n' r. unfold mbind, node_bind. destruct (m n) as [[n1 [a|e]]|] eqn:He; [|intros [= <- _]|done].
  - intros Hr. etrans; [by eapply Hm|by eapply Hf].
  - by eapply Hm.
Qed.
Lemma keeps_gets {A} (f : Node → A) : keeps (gets f).
Proof. by intros n n' r [= -> _]. Qed.
Lemma keeps_modify (f : Node → Node) : (∀ n, dkg_keeps n (f n)) → keeps (modify f).
Proof. intros Hf n n' r [= <- _]. apply Hf. Qed.
Lemma keeps_lift_option {A} (o : option A) : keeps (lift_option o).
Proof. intros n n' r. unfold lift_option. destruct o; [|done]. by intros [= -> _]. Qed.
Lemma keeps_lift_result {A} (x : result (NodeError Trigger D) A) : keeps (lift_result x).
Proof. by intros n n' r [= -> _]. Qed.
Lemma keeps_when_m (b : bool) (m : Handler unit) : keeps m → keeps (when_m b m).
Proof. intros Hm. destruct b; [done|apply keeps_ret]. Qed.
Lemma keeps_when_cmds (b : bool) (m : Handler (list NodeCmd)) : keeps m → keeps (when_cmds b m).
Proof. intros Hm. destruct b; [done|apply keeps_ret]. Qed.
Lemma keeps_total {A} (f : Node → Node * result (NodeError Trigger D) A) :
  (∀ n, dkg_keeps n (f n).1) → keeps (total f).
Proof. intros Hf n n' r [= Hr]. specialize (Hf n). by rewrite Hr in Hf. Qed.
Lemma keeps_handler {A} (f : Node → option (Node * result (NodeError Trigger D) A)) :
  (∀ n n' r, f n = Some (n', r) → dkg_keeps n n') → keeps (handler f).
Proof. done. Qed.

(** ** Handlers without key generation *)

Ltac no_dkg := repeat (case_match; simplify_eq/=); try done; by apply dkg_keeps_same.

Lemma promotion_keeps n sap share sender n' (r : result (NodeError Trigger D) (list NodeCmd)) :
  handle_handover_promotion sha3 n sap share sender = Some (n', r) → dkg_keeps n n'.
Proof.
  unfold handle_handover_promotion. destruct (has_chain_key _ _); intros Hr; simpl in Hr; no_dkg.
Qed.
Lemma split_promotion_keeps n sap1 share1 sap2 share2 sender n' (r : result (NodeError Trigger D) (list NodeCmd)) :
  handle_section_split_promotion sha3 n sap1 share1 sap2 share2 sender = Some (n', r) → dkg_keeps n n'.
Proof.
  unfold handle_section_split_promotion. destruct (has_chain_key _ _), (has_chain_key _ _);
    intros Hr; simpl in Hr; no_dkg.
Qed.
Lemma add_own_keeps n (cmds : list NodeCmd) (own : option (Node * result (NodeError Trigger D) (list NodeCmd))) n' r :
  (∀ n1 r1, own = Some (n1, r1) → dkg_keeps n n1) → add_own cmds own = Some (n', r) → dkg_keeps n n'.
Proof. intros Ho. unfold add_own. destruct own as [[n1 r1]|]; [|done]. intros [= <- _]. by eapply Ho. Qed.
Lemma broadcast_completed_keeps n c n' (r : result (NodeError Trigger D) (list NodeCmd)) :
  broadcast_handover_completed sha3 n c = Some (n', r) → dkg_keeps n n'.
Proof.
  unfold broadcast_handover_completed. destruct (split_nodes_and_self _ _) as [others [elder|]], c; repeat case_match;
    try (by intros [= <- _]); apply add_own_keeps; intros; by eauto using promotion_keeps, split_promotion_keeps.
Qed.
Lemma propose_handover_keeps n c n' (r : result (NodeError Trigger D) (list NodeCmd)) :
  propose_handover_consensus proposals sha3 n c = Some (n', r) → dkg_keeps n n'.
Proof.
  unfold propose_handover_consensus. destruct (handover_voting n) as [h|]; [|by intros [= <- _]].
  destruct (ho_propose h c) as [vs [v|e]]; [|by intros [= <- _]].
  destruct (consensus_value proposals vs); [|intros [= <- _]; by apply dkg_keeps_same].
  apply add_own_keeps. intros n1 r1 Hr%broadcast_completed_keeps. etrans; [|exact Hr]. by apply dkg_keeps_same.
Qed.
Lemma handover_request_keeps n sap share sender n' (r : result (NodeError Trigger D) (list NodeCmd)) :
  handle_handover_request proposals sha3 n sap share sender = Some (n', r) → dkg_keeps n n'.
Proof.
  unfold handle_handover_request. destruct (negb _); [by intros [= <- _]|].
  destruct (bincode_serialize sap); [|by intros [= <- _]].
  destruct (total_try_aggregate _ _ _ _ _ _) as [a [[s|]|]]; [|intros [= <- _]; by apply dkg_keeps_same..].
  unfold handle_request_handover_agreement. set (n1 := set_request_aggregator n a). intros Hr.
  transitivity n1; [by apply dkg_keeps_same|].
  destruct (negb _ && _); [by injection Hr as <- _|].
  destruct (bool_decide _); [by eapply propose_handover_keeps|].
  set (n2 := set_pending_split n1 _) in Hr. transitivity n2; [by apply dkg_keeps_same|].
  destruct (bset_iter _) as [|s1 [|s2 [|]]]; try (by injection Hr as <- _). by eapply propose_handover_keeps.
Qed.
Lemma handover_vote_keeps n v n' (r : result (NodeError Trigger D) (list NodeCmd)) :
  handle_handover_vote proposals sha3 n v = Some (n', r) → dkg_keeps n n'.
Proof.
  unfold handle_handover_vote. destruct (check_signed_vote_saps n v); [|by intros [= <- _]].
  destruct (handover_voting n) as [h|]; [|by intros [= <- _]].
  destruct (handle_vote n h v) as [st [cmds|]]; [|by intros [= <- _]]. intros Hr.
  apply bind_Some in Hr as ([n1 r1] & Hb & [= <- _]). transitivity n1; [|by apply dkg_keeps_same].
  destruct (consensus_value proposals _), (consensus_value proposals h); try (by injection Hb as <- _).
  eapply add_own_keeps; [|exact Hb]. intros. by eapply broadcast_completed_keeps.
Qed.
Lemma handover_msg_keeps votes n node_id n' (r : result (NodeError Trigger D) (list NodeCmd)) :
  handle_handover_msg proposals sha3 n node_id votes = Some (n', r) → dkg_keeps n n'.
Proof.
  revert n r. induction votes as [|v votes IH]; intros n r; simpl; [by intros [= <- _]|].
  intros ([n1 r1] & Hv%handover_vote_keeps & Hr)%bind_Some. transitivity n1; [done|].
  destruct r1 as [cmds|e]; [|destruct e; by injection Hr as <- _].
  destruct (handle_handover_msg _ _ n1 node_id votes) as [[n2 [c|e]]|] eqn:Hm; [..|done];
    injection Hr as <- _; by eapply IH.
Qed.

Lemma propose_membership_keeps n now s : dkg_keeps n (propose_membership_change (Stream := Stream) n now s).1.
Proof. unfold propose_membership_change. no_dkg. Qed.
Lemma consider_join_keeps n now id prev (stream : option Stream) : dkg_keeps n (consider_join n now id prev stream).1.
Proof.
  unfold consider_join. pose proof (propose_membership_keeps n now (joined id prev)) as Hp.
  by destruct (propose_membership_change _ _ _).
Qed.
Lemma join_keeps n now id relocation (stream : option Stream) : dkg_keeps n (handle_join n now id relocation stream).1.
Proof. unfold handle_join. repeat case_match; try done; apply consider_join_keeps. Qed.
Lemma membership_votes_keeps votes n now id : dkg_keeps n (handle_membership_votes (Stream := Stream) n now id votes).1.
Proof.
  revert n. induction votes as [|v votes IH]; intros n; [done|]. cbn [handle_membership_votes].
  destruct (membership n) as [m|]; [|apply IH].
  destruct (handle_signed_vote _ _ _ _) as [m' [[resp dec]|e]]; [|destruct e; by apply dkg_keeps_same].
  specialize (IH (set_membership n (Some m'))). destruct (handle_membership_votes _ _ _ votes) as [n1 cmds].
  etrans; [|exact IH]. by apply dkg_keeps_same.
Qed.
Lemma proceed_relocation_keeps n now nm trigger : dkg_keeps n (proceed_relocation (Stream := Stream) n now nm trigger).1.
Proof.
  unfold proceed_relocation. destruct (get_section_member _ _) as [s|]; [|done].
  pose proof (propose_membership_keeps n now (relocate s trigger)) as Hp. by destruct (propose_membership_change _ _ _).
Qed.
Lemma prepare_to_relocate_keeps n trigger : dkg_keeps n (prepare_to_relocate (Stream := Stream) n trigger).1.
Proof. unfold prepare_to_relocate. no_dkg. Qed.
Lemma decision_agreement_keeps n now s sig :
  dkg_keeps n (handle_section_decision_agreement (Stream := Stream) n now s sig).1.
Proof.
  unfold handle_section_decision_agreement, handle_offline_agreement.
  pose proof (propose_membership_keeps n now s) as Hp. destruct (propose_membership_change _ _ _). by repeat case_match.
Qed.
Lemma section_state_keeps n s share sender n' (r : result (NodeError Trigger D) (list NodeCmd)) :
  handle_section_state_proposal sha3 n s share sender = Some (n', r) → dkg_keeps n n'.
Proof.
  unfold handle_section_state_proposal. destruct (has_chain_key _ _); intros Hr; simpl in Hr; no_dkg.
Qed.
Lemma track_keeps n nm issue : dkg_keeps n (track_node_issue n nm issue).
Proof. unfold track_node_issue. case_decide; [done|by apply dkg_keeps_same]. Qed.
Lemma track_all_keeps l n issue : dkg_keeps n (track_all n l issue).
Proof.
  revert n. induction l as [|x l IH]; intros n; [done|]. etrans; [apply (track_keeps n x issue)|apply IH].
Qed.
Lemma node_off_keeps n recipients s n' (r : result (NodeError Trigger D) (list NodeCmd)) :
  send_node_off_proposal sha3 n recipients s = Some (n', r) → dkg_keeps n n'.
Proof.
  unfold send_node_off_proposal. destruct (bincode_serialize s); [|by intros [= <- _]].
  destruct (sign_with_section_key_share _ _); [|by intros [= <- _]].
  destruct (split_nodes_and_self _ _) as [others [me|]]; [|intros [= <- _]; apply track_all_keeps].
  intros Hr. unfold extend_cmds in Hr. etrans; [apply (track_all_keeps (id_name <$> bset_iter others) n ElderVoting)|].
  destruct (handle_section_state_proposal _ _ _ _ _) as [[n1 [c|e]]|] eqn:Hp; [..|done]; injection Hr as <- _;
    by eapply section_state_keeps.
Qed.
Lemma dkg_outcome_keeps n sap share n' (r : result (NodeError Trigger D) (list NodeCmd)) :
  handle_dkg_outcome proposals sha3 n sap share = Some (n', r) → dkg_keeps n n'.
Proof.
  unfold handle_dkg_outcome. set (n1 := set_section_keys n _). intros Hr.
  transitivity n1; [by apply dkg_keeps_same|]. apply bind_Some in Hr as (known & _ & Hr).
  destruct known; [by injection Hr as <- _|]. destruct (bincode_serialize sap); [|by injection Hr as <- _].
  destruct (split_nodes_and_self _ _) as [others [me|]]; [|by injection Hr as <- _].
  eapply add_own_keeps; [|exact Hr]. intros. by eapply handover_request_keeps.
Qed.

(** ** Handlers with key generation *)

Lemma send_dkg_starts_keeps l keys : keeps (send_dkg_starts (Stream := Stream) sha3 l keys).
Proof.
  revert keys. induction l as [|s l IH]; intros keys; simpl; [apply keeps_ret|].
  apply keeps_bind; [intros n n' r Hr Hok; by eapply send_dkg_start_ok|]. intros a.
  apply keeps_bind; [apply IH|]. intros. apply keeps_ret.
Qed.
Lemma track_session_keeps s : keeps (track_session s).
Proof. apply keeps_modify. intros n. apply track_all_keeps. Qed.
Lemma trigger_dkg_keeps keys : keeps (trigger_dkg (Stream := Stream) sha3 keys).
Proof.
  apply keeps_bind; [|intros; apply send_dkg_starts_keeps]. unfold best_elder_candidates, best_elder_candidates_at_gen.
  repeat (apply keeps_bind || intros || case_match || case_decide || apply keeps_gets || apply keeps_lift_option
          || apply track_session_keeps || apply keeps_ret).
Qed.

Ltac keeps_step :=
  first [apply trigger_dkg_keeps|apply keeps_ret|apply keeps_gets|apply keeps_lift_option|apply keeps_lift_result|apply keeps_bind
        |apply keeps_when_m|apply keeps_when_cmds|apply keeps_modify|by apply dkg_keeps_same].

Lemma become_elder_keeps n : dkg_keeps n (become_elder n).
Proof.
  unfold become_elder, initialize_elder_state, initialize_membership, initialize_handover.
  destruct (key_share _ _) as [k|]; [|done]. repeat case_match; simplify_eq/=; by apply dkg_keeps_same.
Qed.
Lemma retain_only_members_keeps : keeps (retain_only_members (Trigger := Trigger) (D := D)).
Proof. by repeat (intros || keeps_step). Qed.
Lemma ae_update_cmds_keeps : keeps (ae_update_cmds (Stream := Stream)).
Proof. repeat (intros || keeps_step). Qed.
Lemma update_on_sap_change_keeps old entries : keeps (update_on_sap_change (Stream := Stream) sha3 old entries).
Proof.
  unfold update_on_sap_change. apply keeps_bind; [apply keeps_gets|]. intros new. cbv zeta. apply keeps_bind.
  { intros n n' r Hr. apply bind_Some in Hr as (n1 & Hu & [= <- _]). intros Hok.
    eapply (dkg_step_ok sha3 (Stream := Stream)); [|exact Hok]. by eapply step_section_change. }
  intros _. apply keeps_bind; [by repeat (intros || keeps_step)|]. intros _.
  apply keeps_bind.
  { apply keeps_modify. intros n. case_match; [apply become_elder_keeps|by apply dkg_keeps_same]. }
  repeat (intros || apply ae_update_cmds_keeps || apply retain_only_members_keeps || keeps_step).
Qed.
Lemma update_knowledge_keeps u nm : keeps (update_knowledge u nm).
Proof.
  intros n n' r. unfold update_knowledge. destruct (update_sap_knowledge_if_valid _ _ _) as [[k x]|]; [|done].
  intros [= <- _]. by apply dkg_keeps_same.
Qed.
Lemma comm_targets_keep n : dkg_keeps n (update_comm_target_list n).
Proof. by apply dkg_keeps_same. Qed.
Lemma after_update_keeps old entries : keeps (after_knowledge_update (Stream := Stream) sha3 old entries).
Proof.
  intros n n' r. unfold after_knowledge_update. destruct (update_on_sap_change _ _ _ _) as [[n1 x]|] eqn:Hu; [|done].
  intros [= <- _]. etrans; [by eapply update_on_sap_change_keeps|apply comm_targets_keep].
Qed.
Lemma new_elders_keeps sap section_sig entries :
  keeps (handle_new_elders_agreement (Stream := Stream) sha3 sap section_sig entries).
Proof.
  unfold handle_new_elders_agreement.
  repeat (intros || apply update_knowledge_keeps || apply after_update_keeps || keeps_step || case_match).
Qed.
Lemma update_us_keeps sap1 sig1 sap2 sig2 entries : keeps (update_us (Stream := Stream) sha3 sap1 sig1 sap2 sig2 entries).
Proof.
  unfold update_us.
  repeat (intros || apply update_knowledge_keeps || apply new_elders_keeps || apply comm_targets_keep || keeps_step).
Qed.
Lemma new_sections_keeps sap1 sig1 sap2 sig2 entries :
  keeps (handle_new_sections_agreement (Stream := Stream) sha3 sap1 sig1 sap2 sig2 entries).
Proof.
  unfold handle_new_sections_agreement. repeat (intros || apply update_us_keeps || keeps_step || case_match).
Qed.
Lemma nodes_joined_keep l n : dkg_keeps n (foldl handle_node_joined n l).
Proof. revert n. induction l as [|x l IH]; intros n; [done|]. simpl. etrans; [|apply IH]. by apply dkg_keeps_same. Qed.
Lemma disable_joins_keeps limit n : dkg_keeps n (disable_joins limit n).
Proof. unfold disable_joins. no_dkg. Qed.
Lemma joins_and_storage_keep limit seen joining leaving n :
  dkg_keeps n (update_joins_and_storage limit seen joining leaving n).
Proof. unfold update_joins_and_storage, after_net_increase. repeat case_match; try done; by apply dkg_keeps_same. Qed.
Lemma decision_keeps limit seen d keys sp se :
  keeps (handle_membership_decision (Stream := Stream) sha3 limit seen d keys sp se).
Proof.
  intros n n' r. unfold handle_membership_decision. destruct (try_update_member _ _) as [k [b|e]];
    [|intros [= <- _]; by apply dkg_keeps_same].
  intros Hr. transitivity (set_knowledge n k); [by apply dkg_keeps_same|]. revert n' r Hr.
  generalize (set_knowledge n k). intros n1. revert n1. change (keeps (apply_membership_decision (Stream := Stream) sha3 limit seen d keys)).
  unfold apply_membership_decision.
  repeat (intros || apply nodes_joined_keep || apply disable_joins_keeps || apply joins_and_storage_keep || apply ae_update_cmds_keeps || apply retain_only_members_keeps || apply comm_targets_keep || keeps_step).
Qed.

Lemma member_knowledge_keeps ds : keeps (update_member_knowledge ds).
Proof.
  intros n n' r. unfold update_member_knowledge. destruct (update_section_member_knowledge _ _) as [k x].
  intros [= <- _]. by apply dkg_keeps_same.
Qed.
Lemma learn_keeps iter old u ds : keeps (learn (Stream := Stream) sha3 iter old u ds).
Proof.
  unfold learn. apply keeps_bind; [apply keeps_gets|]. intros key. cbv zeta.
  apply keeps_bind; [apply update_knowledge_keeps|]. intros updated.
  apply keeps_bind; [case_match; [apply member_knowledge_keeps|apply keeps_ret]|]. intros members.
  apply keeps_bind.
  { apply keeps_when_m, keeps_modify. intros n Hok. eapply (dkg_step_ok sha3 (Stream := Stream)); [|exact Hok].
    apply step_members. }
  repeat (intros || apply update_on_sap_change_keeps || keeps_step).
Qed.
Lemma anti_entropy_keeps iter u kind sender :
  keeps (handle_anti_entropy_msg (Stream := Stream) (MsgId := MsgId) (Ae := Ae) (Client := Client)
           (Response := Response) sha3 iter u kind sender).
Proof.
  unfold handle_anti_entropy_msg, ask_for_data_if_member, resend.
  repeat (intros || apply learn_keeps || apply comm_targets_keep || case_match || case_decide || keeps_step).
Qed.
Lemma propose_offline_keeps elders names : keeps (propose_offline (Stream := Stream) sha3 elders names).
Proof.
  induction names as [|nm names IH]; simpl; [apply keeps_ret|]. apply keeps_bind.
  - intros n n' r. unfold handler. destruct (get_section_member _ _) as [info|]; [|by intros [= <- _]].
    intros (left & _ & Hr)%bind_Some.
    destruct (send_node_off_proposal _ _ _ _) as [[n1 [c|e]]|] eqn:Hs; [..|done]; injection Hr as <- _;
      by eapply node_off_keeps.
  - intros a. apply keeps_bind; [apply IH|]. intros. apply keeps_ret.
Qed.
Lemma comms_error_keeps p n : dkg_keeps n (handle_comms_error p n).
Proof. unfold handle_comms_error. case_match; [apply track_keeps|done]. Qed.

Lemma client_msg_keeps w chain sap msg stream :
  keeps (update_network_and_handle_client (Stream := Stream) w chain sap msg stream).
Proof.
  unfold update_network_and_handle_client.
  repeat (intros || apply update_knowledge_keeps || case_match || keeps_step).
Qed.

(** ** The loop *)

(** All commands but the completion of our own relocation, which replaces our key pair. *)
Definition keeps_our_name (cmd : NodeCmd) : Prop :=
  match cmd with ProcessNodeMsg (CompleteRelocation _) _ _ => False | _ => True end.

Lemma node_msg_keeps w msg node_id stream :
  (∀ s, msg ≠ CompleteRelocation s) →
  keeps (handle_node_msg (Stream := Stream) proposals sha3 w msg node_id stream).
Proof.
  intros Hne. destruct msg; cbn [handle_node_msg].
  - apply keeps_total. intros n. pose proof (prepare_to_relocate_keeps n trigger) as Hp.
    by destruct (prepare_to_relocate n trigger).
  - apply keeps_total. intros n. apply proceed_relocation_keeps.
  - by destruct (Hne signed_relocation).
  - apply keeps_total. intros n. pose proof (membership_votes_keeps votes n (w_now w) node_id) as Hp.
    by destruct (handle_membership_votes n (w_now w) node_id votes).
  - apply keeps_ret.
  - apply keeps_total. intros n. apply join_keeps.
  - unfold handle_join_response. repeat (intros || case_match || keeps_step).
  - apply keeps_bind; [by repeat (intros || keeps_step)|]. intros _ n n' r Hr Hok.
    eapply (dkg_step_ok sha3 (Stream := Stream)); [|exact Hok]. by eapply step_handle_start.
  - intros n n' r Hr Hok. eapply (dkg_step_ok sha3 (Stream := Stream)); [|exact Hok]. by eapply step_handle_key.
  - apply keeps_bind; [by repeat (intros || keeps_step)|]. intros _. apply keeps_total. intros n Hok.
    eapply (dkg_step_ok sha3 (Stream := Stream)); [|exact Hok]. apply step_handle_votes.
  - apply keeps_ret.
  - intros n n' r. apply handover_request_keeps.
  - intros n n' r. apply handover_msg_keeps.
  - repeat (intros || keeps_step).
  - intros n n' r. apply promotion_keeps.
  - intros n n' r. apply split_promotion_keeps.
  - apply keeps_bind; [by repeat (intros || keeps_step)|]. intros _ n n' r. apply section_state_keeps.
  - unfold handle_could_not_store. repeat (intros || case_match || apply track_keeps || keeps_step).
  - apply keeps_ret.
Qed.

Abbreviation run := (process_cmd (Stream := Stream) (MsgId := MsgId) (Ae := Ae) (Client := Client)
  (Response := Response) proposals sha3).

Lemma process_cmd_keeps w cmd : keeps_our_name cmd → keeps (run w cmd).
Proof.
  intros Hname. destruct cmd; cbn [process_cmd].
  - repeat (intros || keeps_step).
  - apply node_msg_keeps. intros s ->. done.
  - apply anti_entropy_keeps.
  - by repeat (intros || keeps_step).
  - by repeat (intros || keeps_step).
  - repeat (intros || apply comms_error_keeps || keeps_step).
  - unfold cast_offline_proposals. repeat (intros || apply propose_offline_keeps || keeps_step).
  - apply keeps_ret.
  - apply keeps_ret.
  - apply keeps_ret.
  - repeat (intros || apply track_keeps || keeps_step).
  - apply client_msg_keeps.
  - apply keeps_total. intros n. apply decision_agreement_keeps.
  - apply decision_keeps.
  - apply keeps_bind; [apply keeps_gets|intros; apply new_elders_keeps].
  - apply keeps_bind; [apply keeps_gets|intros; apply new_sections_keeps].
  - intros n n' r. apply dkg_outcome_keeps.
  - apply keeps_ret.
  - apply keeps_ret.
  - apply keeps_ret.
Qed.

Inductive node_step n : Node → Prop :=
  | step_cmd w cmd n' r : keeps_our_name cmd → run w cmd n = Some (n', r) → node_step n n'.

(** C25: whatever commands the blocking loop of a node runs, messages of clients with news of the
    network included, starting without key generations and up to a relocation of its own, which
    replaces the key pair: every stored key is signed by its owner, our own key belongs
    to our secret key, a session that votes has its keys and every session with keys its
    authority.  So the gossip of a session in progress never misses anything: it sends
    one message, our votes or our key with the authority, to all other candidates. *)
Theorem dkg_consistent_in_loop n n' :
  dkg_ephemeral_keys (dkg_voter n) = ∅ → dkg_states (dkg_voter n) = ∅ → dkg_sessions_info n = ∅ →
  rtc node_step n n' →
  dkg_ok sha3 n' ∧
  ∀ h i c, dkg_sessions_info n' !! h = Some i →
    let s := info_session_id i in
    h ∈ dom (dkg_ephemeral_keys (dkg_voter n')) → is_Some (elder_index s (node_name n')) →
    reached_termination sha3 (dkg_voter n') s ≠ Ok true →
    gossips_to_all n' s (gossip_session (Stream := Stream) sha3 n' c i).
Proof.
  intros Hk Hs Hi Hr. assert (dkg_ok sha3 n) as Hstart by (by apply dkg_ok_empty).
  assert (dkg_ok sha3 n') as Hend.
  { clear Hk Hs Hi. induction Hr as [|n1 n2 n3 Hstep _ IH]; [done|].
    destruct Hstep as [w cmd n2 r Hname Hrun]. apply IH. by eapply (process_cmd_keeps w cmd Hname). }
  split; [done|]. intros h i c Hh s Hd Hidx Hrt.
  assert (session_hash sha3 s = h) as <- by (by apply Hend).
  exact (gossip_session_ok sha3 n' c i Hend Hh Hd Hidx Hrt).
Qed.
End keeps.

Create HintDb keeps discriminated.
#[export] Hint Resolve keeps_ret keeps_bind keeps_gets keeps_modify keeps_lift_option keeps_lift_result
  keeps_when_m keeps_when_cmds keeps_total keeps_handler : keeps.
#[export] Hint Extern 1 (dkg_keeps _ _ _) => (by apply dkg_keeps_same) : keeps.

Module DispatchDemo.
Import External.Concrete Xor.ConcreteXor DagDemo TreeDemo HistoryDemo KnowledgeDemo AggregatorDemo.
Import MembershipDemo NodeDemo WireDemo JoinDemo DkgDemo.

#[export] Instance no_triggers : RelocationTriggers (X := concrete_xor) unit := {|
  trigger_new _ := ();
  trigger_decision _ := demo_decision (demo_join [true] 1) 1 (pk 1);
|}.
#[export] Instance rmp_node_msg : Rmp (NodeMsg unit (list Candidate)) := {|
  rmp_encode _ := None;
  rmp_decode _ := None;
|}.

Definition demo_world : World (Trigger := unit) (D := list Candidate) (Digest := list bytes) (Stream := unit) :=
  mkWorld 1 (λ _, (7 : SecretKey)) (λ _, (() : Rng)) (λ _ _, ([false; false] : Keypair)) map_to_list id id
    (false : Store) false (λ n _ _, (data_storage n, Ok [])).
Abbreviation demo_run := (process_cmd (Stream := unit) (MsgId := nat) (Ae := bytes) (Client := bytes)
  (Response := bytes) (λ l : list Candidate, l) concat_hash demo_world).

(** The key of another candidate, then its votes. *)
Definition key_cmd : Cmd unit (list Candidate) unit :=
  ProcessNodeMsg (DkgEphemeralPubKey demo_session demo_auth (9 : PublicKey) (demo_key [true; true] 9).2.2)
    (demo_id [true; true] 3) None.
Definition votes_cmd : Cmd unit (list Candidate) unit :=
  ProcessNodeMsg (DkgVotes demo_session demo_keys [(1 : DkgSignedVote)]) demo_sender None.
Definition after (cmd : Cmd unit (list Candidate) unit) (n : DemoNode) : DemoNode :=
  default n (fst <$> demo_run cmd n).
Definition runs (cmd : Cmd unit (list Candidate) unit) (n : DemoNode) : bool := bool_decide (is_Some (demo_run cmd n)).
Lemma runs_after cmd n : runs cmd n = true → ∃ r, demo_run cmd n = Some (after cmd n, r).
Proof.
  unfold runs, after. intros Hs%bool_decide_eq_true.
  destruct (demo_run cmd n) as [[n' r]|]; [by exists r|]. by apply is_Some_None in Hs.
Qed.

Definition node_in_loop : DemoNode := after votes_cmd (after key_cmd node_before).
Lemma dkg_consistent_in_loop_witness :
  dkg_ok concat_hash node_in_loop ∧ size (dkg_sessions_info node_in_loop) = 1.
Proof.
  assert (runs key_cmd node_before = true) as (r1 & H1)%runs_after by (vm_compute; reflexivity).
  assert (runs votes_cmd (after key_cmd node_before) = true) as (r2 & H2)%runs_after by (vm_compute; reflexivity).
  split; [|vm_compute; reflexivity].
  refine (proj1 (dkg_consistent_in_loop (Stream := unit) (MsgId := nat) (Ae := bytes) (Client := bytes)
    (Response := bytes) (λ l : list Candidate, l) concat_hash node_before node_in_loop eq_refl eq_refl eq_refl _)).
  eapply rtc_l; [|apply rtc_once].
  - exact (step_cmd _ _ _ demo_world key_cmd _ r1 I H1).
  - exact (step_cmd _ _ _ demo_world votes_cmd _ r2 I H2).
Defined.
End DispatchDemo.
