(* ===== verification/FlowCtrl.v ===== *)
(** * Flow control of a node

    [sn_node/src/node/flow_ctrl]: [mod.rs], [cmd_ctrl.rs] and [periodic_checks.rs].  One task
    runs the commands that change the node, one after the other; every other command is
    handled by a task of its own on a copy of the node, its context; a third loop does the
    checks that are due after some time.  The tasks talk over channels of bounded size.

    The state has the channels and the tasks; an event is one atomic step of one of them, so a
    list of events is an interleaving.  A context is the node at the time it was taken.  What
    is sent to others, to the fault detection and to the tasks that replicate data leaves the
    model; what comes from them enters it as commands. *)

From S2P Require Import Prelude External Xor NodeState SectionsDag Sap SectionTree MemberHistory.
From S2P Require Import NetworkKnowledge Aggregator Keys Membership Handover Relocation Dkg FaultDetection MyNode.
From S2P Require Import HandoverMsgs JoinMsgs DkgMsgs SectionChange MemberChange WireMsg AeMsgs Dispatch.
From S2P Require Import SectionsDagProps SectionTreeProps MemberHistoryProps NetworkKnowledgeProps MembershipProps.
From S2P Require Import JoinProps NodeDemo DkgProps SectionChangeProps DispatchProps.

Section flow.
Context {B : Bls} {BSh : BlsShares} {BPS : BlsPublicShares} {X : Xor} {Cfg : Settings} {E : Ed25519}.
Context {NH : NameHashing} {EK : EdKeypairs} {SD : Sdkg} {DS : DataStore}.
Context {Trigger : Type} `{Countable Trigger} {C : ConsensusDecision Trigger} {RT : RelocationTriggers Trigger}.
Context {R : ConsensusRounds (NodeState Trigger) (Decision Trigger)}.
Context {D : Type} (proposals : D → list (SapCandidate Trigger)).
Context {RH : ConsensusRounds (SapCandidate Trigger) D} {M : Merkle SectionInfo}.
Context {CM : ConsensusStart (NodeState Trigger) (Decision Trigger)} {CH : ConsensusStart (SapCandidate Trigger) D}.
Context {Digest : Type} `{Countable Digest} (sha3 : list bytes → Digest) {Stream : Type}.
Context {BP : Bincode PublicKey} {BS : Bincode (SectionAuthorityProvider Trigger)}.
Context {BD : Bincode (DkgSessionId Trigger)} {BN : Bincode (NodeState Trigger)} {BI : Bincode (RelocationInfo Trigger)}.
Context {ON : Ord NodeId} {OS : Ord (NodeState Trigger)} {OSh : Ord SectionSigShare}.
Context {OSap : Ord (SectionSigned (SectionAuthorityProvider Trigger))}.
Context {MsgId Ae Client Response : Type} {RE : Rmp (MsgEnvelope MsgId)} {RD : Rmp Dst}.
Context {RA : Rmp Ae} {RC : Rmp Client} {RR : Rmp Response} {RN : Rmp (NodeMsg Trigger D)}.

Abbreviation Node := (MyNode Trigger D Digest).
Abbreviation NodeCmd := (Cmd Trigger D Stream).
Abbreviation World := (Dispatch.World (Trigger := Trigger) (D := D) (Digest := Digest) (Stream := Stream)).
Implicit Types (n c : Node) (w : World).

(** ** Periodic checks

    [second] is the number of units of the clock in a second. *)

Context (second : nat).

Definition PROBE_INTERVAL : nat := 300 * second.
Definition REQUEST_TO_RELOCATE_TIMEOUT_SEC : nat := 7 * second.
Definition JOIN_AS_RELOCATED_TIMEOUT_SEC : nat := 5 * second.
Definition MISSING_VOTE_INTERVAL : nat := 5 * second.
Definition MISSING_DKG_MSG_INTERVAL : nat := 5 * second.
Definition FAULT_CHECK_INTERVAL : nat := 5 * second.
Definition ELDER_PROBE_INTERVAL : nat := 10 * second.

Record PeriodicChecksTimestamps := mkTimestamps {
  last_probe : nat;
  last_elder_health_check : nat;
  last_vote_check : nat;
  last_dkg_msg_check : nat;
  last_fault_check : nat;
  request_to_relocate_check : nat;
  join_as_relocated_check : nat;
}.
Implicit Types (t : PeriodicChecksTimestamps).

Definition timestamps_now (now : nat) : PeriodicChecksTimestamps := mkTimestamps now now now now now now now.

(** [Instant::elapsed] is zero for an instant to come. *)
Definition elapsed_over (now last interval : nat) : bool := bool_decide (interval < now - last).

Definition something_expired t (now : nat) : bool :=
  elapsed_over now (last_vote_check t) MISSING_VOTE_INTERVAL
  || elapsed_over now (last_probe t) PROBE_INTERVAL
  || elapsed_over now (last_dkg_msg_check t) MISSING_DKG_MSG_INTERVAL
  || elapsed_over now (last_fault_check t) FAULT_CHECK_INTERVAL
  || elapsed_over now (request_to_relocate_check t) REQUEST_TO_RELOCATE_TIMEOUT_SEC
  || elapsed_over now (join_as_relocated_check t) JOIN_AS_RELOCATED_TIMEOUT_SEC.

Definition ae_probe_to_elders_in_section c : list NodeCmd :=
  ((λ elder, TrackNodeIssue (id_name elder) AeProbeMsg) <$> bset_iter (nk_elders (network_knowledge c)))
  ++ [generate_section_probe_msg c].

Definition request_relocation t (now : nat) c : PeriodicChecksTimestamps * list NodeCmd :=
  match relocation_state c with
  | PreparingToRelocate trigger =>
      if elapsed_over now (request_to_relocate_check t) REQUEST_TO_RELOCATE_TIMEOUT_SEC then
        (mkTimestamps (last_probe t) (last_elder_health_check t) (last_vote_check t) (last_dkg_msg_check t)
           (last_fault_check t) now (join_as_relocated_check t),
         [send_to_elders c (ProceedRelocation trigger)])
      else (t, [])
  | _ => (t, [])
  end.
Definition join_relocated t (now : nat) c : PeriodicChecksTimestamps * list NodeCmd :=
  match relocation_state c with
  | ReadyToJoinNewSection proof =>
      if elapsed_over now (join_as_relocated_check t) JOIN_AS_RELOCATED_TIMEOUT_SEC then
        (mkTimestamps (last_probe t) (last_elder_health_check t) (last_vote_check t) (last_dkg_msg_check t)
           (last_fault_check t) (request_to_relocate_check t) now,
         if is_section_member (network_knowledge c) (relocation_new_name proof) then []
         else [SendMsgEnqueueAnyResponse (TryJoin (Some proof)) (nk_elders (network_knowledge c))])
      else (t, [])
  | _ => (t, [])
  end.
Definition enqueue_cmds_for_node_periodic_checks t (now : nat) c : PeriodicChecksTimestamps * list NodeCmd :=
  let '(t, health) :=
    if elapsed_over now (last_elder_health_check t) ELDER_PROBE_INTERVAL then
      (mkTimestamps (last_probe t) now (last_vote_check t) (last_dkg_msg_check t) (last_fault_check t)
         (request_to_relocate_check t) (join_as_relocated_check t), ae_probe_to_elders_in_section c)
    else (t, []) in
  let '(t, request) := request_relocation t now c in
  let '(t, join) := join_relocated t now c in
  (t, health ++ request ++ join).

(** The first section does not probe the network; a probe that cannot be made is left out. *)
Definition probe_the_network w c : list NodeCmd :=
  if px_is_empty (nk_prefix (network_knowledge c)) then []
  else match generate_probe_msg c (w_shuffle_prefixes w) (w_shuffle_elders w) with
       | Ok cmd => [cmd]
       | Err _ => []
       end.
Definition check_for_missed_votes (now : nat) c : list NodeCmd :=
  match membership c with
  | None => []
  | Some m =>
      match last_received_vote_time m with
      | Some time =>
          if bool_decide (MISSING_VOTE_INTERVAL ≤ now - time) then
            option_cmd (membership_gossip_votes c) ++ [send_to_elders c (MembershipAE (gen m))]
          else []
      | None => []
      end
  end.
(** [None] is a panic. *)
Definition check_for_missed_dkg_messages w c : option (list NodeCmd) :=
  match last_received_dkg_msg_time (dkg_voter c) with
  | Some time =>
      if bool_decide (MISSING_DKG_MSG_INTERVAL ≤ w_now w - time)
      then dkg_gossip_msgs sha3 c (w_iter w (dkg_sessions_info c)).*2 else Some []
  | None => Some []
  end.
(** [faulty] is what the fault detection answers. *)
Definition vote_out_faulty_nodes (faulty : list XorName) : list NodeCmd :=
  if decide (faulty = []) then [] else [ProposeVoteNodesOffline (list_to_set faulty)].

(** The commands of the checks, and those of the gossip of key generation, which a task of
    its own sends. *)
Definition enqueue_cmds_for_elder_periodic_checks t w (faulty : list XorName) c
    : option (PeriodicChecksTimestamps * list NodeCmd * list NodeCmd) :=
  let now := w_now w in
  let probe := elapsed_over now (last_probe t) PROBE_INTERVAL in
  let votes := elapsed_over now (last_vote_check t) MISSING_VOTE_INTERVAL in
  let dkg := elapsed_over now (last_dkg_msg_check t) MISSING_DKG_MSG_INTERVAL in
  let faults := elapsed_over now (last_fault_check t) FAULT_CHECK_INTERVAL in
  gossip ← if dkg then check_for_missed_dkg_messages w c else Some [];
  Some (mkTimestamps (if probe then now else last_probe t) (last_elder_health_check t)
          (if votes then now else last_vote_check t) (if dkg then now else last_dkg_msg_check t)
          (if faults then now else last_fault_check t) (request_to_relocate_check t) (join_as_relocated_check t),
        (if probe then probe_the_network w c else []) ++ (if votes then check_for_missed_votes now c else [])
        ++ (if faults then vote_out_faulty_nodes faulty else []),
        gossip).

(** The batches of commands, each sent by a task of its own. *)
Definition perform_periodic_checks t w (faulty : list XorName) c
    : option (PeriodicChecksTimestamps * list (list NodeCmd)) :=
  if negb (something_expired t (w_now w)) then Some (t, []) else
  let '(t, cmds) := enqueue_cmds_for_node_periodic_checks t (w_now w) c in
  if node_is_elder c then
    '(t, elder_cmds, gossip) ← enqueue_cmds_for_elder_periodic_checks t w faulty c;
    Some (t, [gossip; cmds ++ elder_cmds])
  else Some (t, [cmds]).

(** ** Commands *)

(** The new commands of a command, or a reason to join anew; other errors are logged. *)
Definition process_blocking_cmd_job w (cmd : NodeCmd) n : option (Node * list NodeCmd * option RejoinReason) :=
  match process_cmd (MsgId := MsgId) (Ae := Ae) (Client := Client) (Response := Response) proposals sha3 w cmd n with
  | None => None
  | Some (n, Ok cmds) => Some (n, cmds, None)
  | Some (n, Err (RejoinRequired reason)) => Some (n, [], Some reason)
  | Some (n, Err _) => Some (n, [], None)
  end.

(** A node that is a member under its new name has no relocation any more. *)
Definition end_relocation n : Node :=
  match relocation_state n with
  | ReadyToJoinNewSection proof =>
      if is_section_member (network_knowledge n) (relocation_new_name proof)
      then set_relocation_state n NoRelocation else n
  | _ => n
  end.

(** What becomes of a command off the loop: it goes to the blocking loop, gives new commands, or
    is done (a message is sent, an issue is tracked). *)
Inductive Handled :=
  | ToBlocking (cmd : NodeCmd)
  | NewCmds (cmds : list NodeCmd)
  | SentOut (cmd : NodeCmd)
  | Tracked (name : XorName) (issue : IssueType)
  | HandleFailed.

Context (copies : nat) (shuffle_data : list DataAddress → list DataAddress).

(** The storage is shared: [w_seen] is what it holds at the time. *)
Definition process_cmd_non_blocking w c (cmd : NodeCmd) : Handled :=
  match cmd with
  | SendNetworkMsg _ _ | SendMsgEnqueueAnyResponse _ _ | SendNodeMsgResponse _ _ _ | UpdateCallerOnStream _ _ _ _ =>
      SentOut cmd
  | TrackNodeIssue nm issue => Tracked nm issue
  | UpdateCaller caller kind u => NewCmds [SendNetworkMsg (AeMsg (AntiEntropy kind u)) (Single caller)]
  | ProcessNodeMsg (SendAnyMissingRelevantData known) node_id _ =>
      NewCmds (option_cmd (get_missing_data_for_node (set_data_storage c (w_seen w)) copies node_id known shuffle_data))
  | ProcessNodeMsg (DkgAE session_id) node_id _ =>
      match handle_dkg_anti_entropy_request (D := D) sha3 (dkg_voter c) session_id node_id with
      | Ok cmds => NewCmds cmds
      | Err _ => HandleFailed
      end
  | ProcessNodeMsg (MembershipAE gen) node_id _ =>
      NewCmds (option_cmd (handle_membership_anti_entropy_request (membership c) node_id gen))
  | _ => ToBlocking cmd
  end.

(** ** The loops

    [cap] is the capacity of a channel. *)

Context (cap : nat).

Inductive FlowCtrlCmd :=
  | Handle (cmd : NodeCmd)
  | UpdateContext (context : Node).

(** What the loop that changes the node is about to do: take a command, or send the new context
    to the one and then to the other loop. *)
Inductive Phase :=
  | Receiving
  | UpdatingFlow (context : Node)
  | UpdatingPeriodics (context : Node).

(** Where the node stands with joining: not known to be a member, seen to be one, or joined;
    only then the loop of the periodic checks starts. *)
Inductive Joining := NotMember | IsMember | Joined.

Record Flow := mkFlow {
  node : Node;
  phase : Phase;
  joining : Joining;
  context : Node;
  periodic_context : Node;
  timestamps : PeriodicChecksTimestamps;
  flow_channel : list FlowCtrlCmd;
  context_channel : list Node;
  blocking_channel : list NodeCmd;
  (** Tasks with commands to send, and tasks with a command to handle. *)
  senders : list (list NodeCmd);
  handlers : list (Node * NodeCmd);
}.
Implicit Types (f : Flow).

(** The command to join is sent before the loops run. *)
Definition start (now : nat) n : Flow :=
  mkFlow n Receiving NotMember n n (timestamps_now now) [Handle TryJoinNetwork] [] [] [] [].

(** The steps of the tasks.  [Take]: the blocking loop takes a command; [Publish]: it sends a
    context; [CheckJoined]: the turn of the join loop, which may also try again; [Dispatch]: the
    loop of all commands takes one; [HandleTask i] and [SendTask i]: a task goes on; [Tick]: a
    turn of the periodic checks; [Arrive]: a command for an event of the network; [Call]: a
    command of the interface of the node. *)
Inductive Event :=
  | Take w
  | Publish
  | CheckJoined (retry : bool)
  | Dispatch_
  | HandleTask (i : nat) w
  | SendTask (i : nat)
  | Tick w (faulty : list XorName)
  | Arrive (cmd : NodeCmd)
  | Call (cmd : NodeCmd).

Definition has_space {A} (l : list A) : bool := bool_decide (length l < cap).

Definition with_node f n phase cmds : Flow :=
  mkFlow n phase (joining f) (context f) (periodic_context f) (timestamps f) (flow_channel f) (context_channel f)
    (tail (blocking_channel f)) (senders f ++ [cmds]) (handlers f).
Definition with_phase f phase : Flow :=
  mkFlow (node f) phase (joining f) (context f) (periodic_context f) (timestamps f) (flow_channel f)
    (context_channel f) (blocking_channel f) (senders f) (handlers f).
Definition with_joining f j c senders : Flow :=
  mkFlow (node f) (phase f) j (context f) c (timestamps f) (flow_channel f) (context_channel f)
    (blocking_channel f) senders (handlers f).
Definition push_flow f (x : FlowCtrlCmd) : Flow :=
  mkFlow (node f) (phase f) (joining f) (context f) (periodic_context f) (timestamps f) (flow_channel f ++ [x])
    (context_channel f) (blocking_channel f) (senders f) (handlers f).
Definition push_context f c : Flow :=
  mkFlow (node f) (phase f) (joining f) (context f) (periodic_context f) (timestamps f) (flow_channel f)
    (context_channel f ++ [c]) (blocking_channel f) (senders f) (handlers f).
Definition push_blocking f (cmd : NodeCmd) : Flow :=
  mkFlow (node f) (phase f) (joining f) (context f) (periodic_context f) (timestamps f) (flow_channel f)
    (context_channel f) (blocking_channel f ++ [cmd]) (senders f) (handlers f).
Definition with_tasks f senders handlers : Flow :=
  mkFlow (node f) (phase f) (joining f) (context f) (periodic_context f) (timestamps f) (flow_channel f)
    (context_channel f) (blocking_channel f) senders handlers.
Definition dispatched f c channel handlers : Flow :=
  mkFlow (node f) (phase f) (joining f) c (periodic_context f) (timestamps f) channel (context_channel f)
    (blocking_channel f) (senders f) handlers.
(** The checks see the newest context. *)
Definition newest_context f : Node := default (periodic_context f) (last (context_channel f)).
Definition checked_periodically f t batches : Flow :=
  mkFlow (node f) (phase f) (joining f) (context f) (newest_context f) t (flow_channel f) []
    (blocking_channel f) (senders f ++ batches) (handlers f).

Definition has_joined f : bool := match joining f with Joined => true | _ => false end.

(** The blocking loop.  The end of a relocation is only looked for after the join. *)
Definition take_cmd w f : option Flow :=
  match phase f, blocking_channel f with
  | Receiving, cmd :: _ =>
      '(n, cmds, _) ← process_blocking_cmd_job w cmd (node f);
      let n := if has_joined f then end_relocation n else n in
      Some (with_node f n (UpdatingFlow n) cmds)
  | _, _ => None
  end.
Definition publish f : option Flow :=
  match phase f with
  | Receiving => None
  | UpdatingFlow c => if has_space (flow_channel f) then Some (push_flow (with_phase f (UpdatingPeriodics c)) (UpdateContext c)) else None
  | UpdatingPeriodics c => if has_space (context_channel f) then Some (push_context (with_phase f Receiving) c) else None
  end.
(** A turn of the join loop when no command is pending.  The command to join again is sent by the
    loop itself. *)
Definition check_joined (retry : bool) f : option Flow :=
  match phase f, blocking_channel f, joining f with
  | Receiving, [], IsMember => Some (with_joining f Joined (node f) (senders f))
  | Receiving, [], NotMember =>
      if retry && negb (has_space (flow_channel f)) then None else
      let f := if retry then push_flow f (Handle TryJoinNetwork) else f in
      Some (with_joining f (if is_section_member (network_knowledge (node f)) (node_name (node f)) then IsMember else NotMember)
              (periodic_context f) (senders f))
  | _, _, _ => None
  end.

(** The loop of all commands spawns a task for each. *)
Definition dispatch f : option Flow :=
  match flow_channel f with
  | [] => None
  | UpdateContext c :: channel => Some (dispatched f c channel (handlers f))
  | Handle cmd :: channel => Some (dispatched f (context f) channel (handlers f ++ [(context f, cmd)]))
  end.
Definition handle_task (i : nat) w f : option Flow :=
  '(c, cmd) ← handlers f !! i;
  let rest := delete i (handlers f) in
  match process_cmd_non_blocking w c cmd with
  | ToBlocking cmd =>
      if has_space (blocking_channel f) then Some (with_tasks (push_blocking f cmd) (senders f) rest) else None
  | NewCmds cmds => Some (with_tasks f (senders f ++ [cmds]) rest)
  | SentOut _ | Tracked _ _ | HandleFailed => Some (with_tasks f (senders f) rest)
  end.
Definition send_task (i : nat) f : option Flow :=
  cmds ← senders f !! i;
  match cmds with
  | [] => Some (with_tasks f (delete i (senders f)) (handlers f))
  | cmd :: cmds =>
      if has_space (flow_channel f) then
        Some (push_flow (with_tasks f (<[i := cmds]> (senders f)) (handlers f)) (Handle cmd))
      else None
  end.

Definition tick w (faulty : list XorName) f : option Flow :=
  if has_joined f then
    '(t, batches) ← perform_periodic_checks (timestamps f) w faulty (newest_context f);
    Some (checked_periodically f t batches)
  else None.

Definition flow_step f (e : Event) : option Flow :=
  match e with
  | Take w => take_cmd w f
  | Publish => publish f
  | CheckJoined retry => check_joined retry f
  | Dispatch_ => dispatch f
  | HandleTask i w => handle_task i w f
  | SendTask i => send_task i f
  | Tick w faulty => tick w faulty f
  | Arrive cmd => if has_space (flow_channel f) then Some (push_flow f (Handle cmd)) else None
  | Call cmd => if has_space (blocking_channel f) then Some (push_blocking f cmd) else None
  end.
(** A run is a list of events that can happen one after the other. *)
Fixpoint flow_run f (es : list Event) : option Flow :=
  match es with
  | [] => Some f
  | e :: es => f ← flow_step f e; flow_run f es
  end.

(** ** The contexts follow the node *)

Definition update_of (x : FlowCtrlCmd) : option Node := match x with UpdateContext c => Some c | Handle _ => None end.
(** The contexts that the loop of all commands has and will have. *)
Definition flow_view f : list Node :=
  context f :: omap update_of (flow_channel f) ++ match phase f with UpdatingFlow c => [c] | _ => [] end.
(** Those that the periodic checks see. *)
Definition periodic_view f : list Node :=
  newest_context f :: match phase f with UpdatingFlow c | UpdatingPeriodics c => [c] | Receiving => [] end.
(** The states that the commands of a run give. *)
Fixpoint node_history f (es : list Event) : list Node :=
  match es with
  | [] => []
  | e :: es =>
      match flow_step f e with
      | None => []
      | Some f' => match e with Take _ => [node f'] | _ => [] end ++ node_history f' es
      end
  end.

(** The newest context on its way is the node. *)
Record up_to_date f : Prop := {
  flow_newest : last (flow_view f) = Some (node f);
  periodic_newest : last (periodic_view f) = Some (node f);
}.

Lemma start_up_to_date now n : up_to_date (start now n).
Proof. by split. Qed.

Lemma newest_push f c : newest_context (push_context f c) = c.
Proof. unfold newest_context. simpl. by rewrite last_snoc. Qed.

(** What a step does to the views: [new] is the state that it gave. *)
Definition follows f f' (new : list Node) : Prop :=
  flow_view f' `suffix_of` flow_view f ++ new ∧ periodic_view f' `suffix_of` periodic_view f ++ new ∧ up_to_date f'.

Lemma follows_same f f' : flow_view f' = flow_view f → periodic_view f' = periodic_view f → node f' = node f →
  up_to_date f → follows f f' [].
Proof.
  intros Hv Hp Hn [Hf Hg]. unfold follows. rewrite !app_nil_r, Hv, Hp. split_and!; [done..|]. split; by rewrite ?Hv, ?Hp, Hn.
Qed.

Lemma push_handle_view f cmd : flow_view (push_flow f (Handle cmd)) = flow_view f.
Proof. unfold flow_view. simpl. by rewrite omap_app, app_nil_r. Qed.

Lemma take_follows w f f' : up_to_date f → take_cmd w f = Some f' → follows f f' [node f'].
Proof.
  intros _. unfold take_cmd. destruct (phase f) eqn:Hp; [|done..]. destruct (blocking_channel f) as [|cmd cmds]; [done|].
  intros ([[n1 cs] r] & _ & [= <-])%stdpp.option.bind_Some. set (n' := if has_joined f then _ else _).
  assert (Hf : flow_view (with_node f n' (UpdatingFlow n') cs) = flow_view f ++ [n']).
  { unfold flow_view. simpl. by rewrite Hp, app_nil_r. }
  assert (Hg : periodic_view (with_node f n' (UpdatingFlow n') cs) = periodic_view f ++ [n']).
  { unfold periodic_view. simpl. by rewrite Hp. }
  unfold follows. rewrite Hf, Hg. split_and!; [done..|]. split; rewrite ?Hf, ?Hg; by rewrite last_snoc.
Qed.
Lemma publish_follows f f' : up_to_date f → publish f = Some f' → follows f f' [].
Proof.
  intros Hu. unfold publish. destruct (phase f) as [|c|c] eqn:Hp; [done|..].
  - destruct (has_space _); [|done]. intros [= <-]. apply follows_same; [..|done].
    + unfold flow_view. simpl. rewrite Hp, omap_app. simpl. by rewrite app_nil_r.
    + unfold periodic_view. simpl. by rewrite Hp.
    + done.
  - destruct (has_space _); [|done]. intros [= <-]. destruct Hu as [Hf Hg].
    assert (Hf' : flow_view (push_context (with_phase f Receiving) c) = flow_view f) by (unfold flow_view; simpl; by rewrite Hp).
    assert (Hg' : periodic_view (push_context (with_phase f Receiving) c) = [c]).
    { unfold periodic_view. by rewrite newest_push. }
    assert (periodic_view f = [newest_context f; c]) as Hv by (unfold periodic_view; by rewrite Hp).
    rewrite Hv in Hg. unfold follows. rewrite !app_nil_r, Hf', Hg', Hv. split_and!; [done|by exists [newest_context f]|].
    split; by rewrite ?Hf', ?Hg'.
Qed.
Lemma check_joined_follows retry f f' : up_to_date f → check_joined retry f = Some f' → follows f f' [].
Proof.
  intros Hu. unfold check_joined. destruct (phase f) eqn:Hp; [|done..]. destruct (blocking_channel f); [|done].
  destruct (joining f); [|..|done].
  - destruct (retry && negb _); [done|]. intros [= <-]. destruct retry; apply follows_same; try done.
    + apply push_handle_view.
  - intros [= <-]. apply follows_same; [done| |done|done]. destruct Hu as [_ Hg]. unfold periodic_view in *. rewrite Hp in Hg.
    injection Hg as Hg. simpl. rewrite Hp. unfold newest_context in *. simpl. destruct (last (context_channel f)); [done|].
    simpl in *. by rewrite Hg.
Qed.
Lemma dispatch_follows f f' : up_to_date f → dispatch f = Some f' → follows f f' [].
Proof.
  intros Hu. unfold dispatch. destruct (flow_channel f) as [|[cmd|c] channel] eqn:Hc; [done|..]; intros [= <-].
  - apply follows_same; [..|done]; [|done..]. unfold flow_view. by rewrite Hc.
  - destruct Hu as [Hf Hg].
    assert (Hv : flow_view f = context f :: flow_view (dispatched f c channel (handlers f))).
    { unfold flow_view. by rewrite Hc. }
    rewrite Hv in Hf. unfold follows. rewrite !app_nil_r, Hv. split_and!; [by exists [context f]|done|].
    split; [exact Hf|done].
Qed.
Lemma task_follows i w f f' : up_to_date f → handle_task i w f = Some f' → follows f f' [].
Proof.
  intros Hu. unfold handle_task. intros ([c cmd] & _ & Hs)%stdpp.option.bind_Some.
  destruct (process_cmd_non_blocking w c cmd); [destruct (has_space _); [|done]|..]; injection Hs as <-; by apply follows_same.
Qed.
Lemma send_follows i f f' : up_to_date f → send_task i f = Some f' → follows f f' [].
Proof.
  intros Hu. unfold send_task. intros ([|cmd cmds] & _ & Hs)%stdpp.option.bind_Some; [injection Hs as <-; by apply follows_same|].
  destruct (has_space _); [|done]. injection Hs as <-. apply follows_same; [|done..]. by rewrite push_handle_view.
Qed.
Lemma tick_follows w faulty f f' : up_to_date f → tick w faulty f = Some f' → follows f f' [].
Proof. intros Hu. unfold tick. destruct (has_joined f); [|done]. intros ([t b] & _ & [= <-])%stdpp.option.bind_Some. by apply follows_same. Qed.

Lemma step_follows f e f' : up_to_date f → flow_step f e = Some f' →
  follows f f' (match e with Take _ => [node f'] | _ => [] end).
Proof.
  intros Hu. destruct e; simpl.
  - by apply take_follows.
  - by apply publish_follows.
  - by apply check_joined_follows.
  - by apply dispatch_follows.
  - by apply task_follows.
  - by apply send_follows.
  - by apply tick_follows.
  - destruct (has_space _); [|done]. intros [= <-]. apply follows_same; [|done..]. apply push_handle_view.
  - destruct (has_space _); [|done]. intros [= <-]. by apply follows_same.
Qed.

Lemma suffix_trans_app {A} (l1 l2 l3 k k' : list A) :
  l2 `suffix_of` l1 ++ k → l3 `suffix_of` l2 ++ k' → l3 `suffix_of` l1 ++ (k ++ k').
Proof. intros [x Hx] [y Hy]. exists (x ++ y). by rewrite app_assoc, Hx, <-!app_assoc, <-Hy. Qed.

Lemma run_follows f es f' : up_to_date f → flow_run f es = Some f' → follows f f' (node_history f es).
Proof.
  revert f. induction es as [|e es IH]; intros f Hu; simpl.
  - intros [= <-]. by apply follows_same.
  - destruct (flow_step f e) as [f1|] eqn:He; [|done]. simpl. intros Hr.
    apply step_follows in He as (Hv & Hg & Hu1); [|done]. apply IH in Hr as (Hv' & Hg' & Hu'); [|done].
    split_and!; [by eapply suffix_trans_app..|done].
Qed.

(** The tasks that are started work on a context that the loop of all commands has or will have. *)
Lemma step_handlers f e f' c cmd : up_to_date f → flow_step f e = Some f' → (c, cmd) ∈ handlers f' →
  (c, cmd) ∈ handlers f ∨ c ∈ flow_view f.
Proof.
  intros _. destruct e; simpl.
  - unfold take_cmd. destruct (phase f); [|done..]. destruct (blocking_channel f); [done|].
    intros ([[n1 cs] r] & _ & [= <-])%stdpp.option.bind_Some. by left.
  - unfold publish. destruct (phase f); [done|..]; (destruct (has_space _); [|done]); intros [= <-]; by left.
  - unfold check_joined. destruct (phase f); [|done..]. destruct (blocking_channel f); [|done]. destruct (joining f); [|..|done].
    + destruct (retry && _); [done|]. intros [= <-]. destruct retry; by left.
    + intros [= <-]. by left.
  - unfold dispatch. destruct (flow_channel f) as [|[cmd'|c'] channel]; [done|..]; intros [= <-]; [|by left].
    simpl. intros [Hin|Heq%list_elem_of_singleton]%elem_of_app; [by left|right]. injection Heq as -> ->. by left.
  - unfold handle_task. intros ([c' cmd'] & _ & Hs)%stdpp.option.bind_Some Hin. left.
    destruct (process_cmd_non_blocking w c' cmd'); [destruct (has_space _); [|done]|..]; injection Hs as <-;
      exact (list_elem_of_delete_inv _ _ _ Hin).
  - unfold send_task. intros ([|cmd' cmds] & _ & Hs)%stdpp.option.bind_Some; [injection Hs as <-; by left|].
    destruct (has_space _); [|done]. injection Hs as <-. by left.
  - unfold tick. destruct (has_joined f); [|done]. intros ([t b] & _ & [= <-])%stdpp.option.bind_Some. by left.
  - destruct (has_space _); [|done]. intros [= <-]. by left.
  - destruct (has_space _); [|done]. intros [= <-]. by left.
Qed.
Lemma run_handlers f es f' c cmd : up_to_date f → flow_run f es = Some f' → (c, cmd) ∈ handlers f' →
  (c, cmd) ∈ handlers f ∨ c ∈ flow_view f ++ node_history f es.
Proof.
  revert f. induction es as [|e es IH]; intros f Hu; cbn [flow_run node_history]; [intros [= <-]; by left|].
  destruct (flow_step f e) as [f1|] eqn:He; [|done]. cbn [mbind option_bind]. intros Hr Hin.
  pose proof (step_follows _ _ _ Hu He) as ([x Hx] & _ & Hu1).
  destruct (IH f1 Hu1 Hr Hin) as [Hin1|Hin1].
  - destruct (step_handlers _ _ _ _ _ Hu He Hin1) as [?|?]; [by left|right; rewrite elem_of_app; by left].
  - right. rewrite app_assoc, Hx, <-app_assoc, elem_of_app. by right.
Qed.

(** What a step works on: the dispatch of a command starts its task with the context that the
    loop has, the task works on the context that it was started with, and the periodic checks on
    the newest context that was sent to their loop. *)
Definition works_on f (e : Event) f' (c : Node) : Prop :=
  match e with
  | Dispatch_ => head (flow_view f) = Some c ∧
      handlers f' = handlers f ++ (match flow_channel f with Handle cmd :: _ => [(c, cmd)] | _ => [] end)
  | HandleTask i w => ∃ cmd, handlers f !! i = Some (c, cmd) ∧
      blocking_channel f' = blocking_channel f ++ (match process_cmd_non_blocking w c cmd with ToBlocking cmd => [cmd] | _ => [] end) ∧
      senders f' = senders f ++ (match process_cmd_non_blocking w c cmd with NewCmds cmds => [cmds] | _ => [] end)
  | Tick w faulty => head (periodic_view f) = Some c ∧
      ∃ batches, perform_periodic_checks (timestamps f) w faulty c = Some (timestamps f', batches) ∧
        senders f' = senders f ++ batches
  | _ => False
  end.
Lemma step_works f e f' : flow_step f e = Some f' →
  match e with Dispatch_ | HandleTask _ _ | Tick _ _ => ∃ c, works_on f e f' c | _ => True end.
Proof.
  destruct e; simpl; try done.
  - unfold dispatch. intros Hd. exists (context f). split; [done|].
    destruct (flow_channel f) as [|[]]; [done|..]; injection Hd as <-; by rewrite ?app_nil_r.
  - unfold handle_task. intros ([c cmd] & Hi & Hs)%stdpp.option.bind_Some. exists c, cmd. split; [done|].
    destruct (process_cmd_non_blocking w c cmd); [destruct (has_space _); [|done]|..]; injection Hs as <-; simpl;
      by rewrite ?app_nil_r.
  - unfold tick. destruct (has_joined f); [|done]. intros ([t b] & Hp & [= <-])%stdpp.option.bind_Some.
    exists (newest_context f). split; [done|]. by exists b.
Qed.

(** C15: however the tasks of a node interleave, the contexts of its loops are states that the
    node had, each never older than the ones before it, and once what is on its way has arrived
    the state that the node has.  The task of a command is started with the context that
    the loop has, so one that is not older than any the loop had before, and works on it; a task
    that was started earlier may still run later.  The periodic checks work on the newest context sent
    to them. *)
Theorem contexts_follow_node now n es1 es2 f1 f2 :
  flow_run (start now n) es1 = Some f1 → flow_run f1 es2 = Some f2 →
  flow_view f2 `suffix_of` flow_view f1 ++ node_history f1 es2 ∧
  periodic_view f2 `suffix_of` periodic_view f1 ++ node_history f1 es2 ∧
  flow_view f1 `suffix_of` n :: node_history (start now n) es1 ∧
  periodic_view f1 `suffix_of` n :: node_history (start now n) es1 ∧
  last (flow_view f2) = Some (node f2) ∧ last (periodic_view f2) = Some (node f2) ∧
  (∀ c cmd, (c, cmd) ∈ handlers f2 → (c, cmd) ∈ handlers f1 ∨ c ∈ flow_view f1 ++ node_history f1 es2) ∧
  (∀ c cmd, (c, cmd) ∈ handlers f1 → c ∈ n :: node_history (start now n) es1) ∧
  ∀ e f3, flow_step f2 e = Some f3 →
    match e with Dispatch_ | HandleTask _ _ | Tick _ _ => ∃ c, works_on f2 e f3 c | _ => True end.
Proof.
  intros H1 H2. pose proof (start_up_to_date now n) as Hu. pose proof H1 as H1'. pose proof H2 as H2'.
  apply run_follows in H1 as (Hv1 & Hg1 & Hu1); [|done].
  apply run_follows in H2 as (Hv2 & Hg2 & []); [|done]. split_and!; try done.
  - intros c cmd. by apply run_handlers.
  - intros c cmd Hin. destruct (run_handlers _ _ _ _ _ Hu H1' Hin) as [?%elem_of_nil|Hc]; [done|exact Hc].
  - intros e f3. apply step_works.
Qed.

(** ** Before the node has joined *)

Fixpoint takes (es : list Event) : nat :=
  match es with
  | [] => 0
  | Take _ :: es => S (takes es)
  | _ :: es => takes es
  end.

(** Nobody receives the contexts of the periodic checks before the join: they pile up. *)
Definition piled_up f (k : nat) : Prop :=
  joining f ≠ Joined → length (context_channel f) ≤ cap ∧
    length (context_channel f) + match phase f with Receiving => 0 | _ => 1 end = k.

Lemma step_piles_up f e f' k : piled_up f k → flow_step f e = Some f' →
  piled_up f' (k + match e with Take _ => 1 | _ => 0 end).
Proof.
  intros Hp Hs Hj.
  assert (Hsame : joining f' = joining f → phase f' = phase f → context_channel f' = context_channel f →
    length (context_channel f') ≤ cap ∧ length (context_channel f') + match phase f' with Receiving => 0 | _ => 1 end = k + 0).
  { intros Hj' -> ->. rewrite Hj' in Hj. destruct (Hp Hj). lia. }
  destruct e; simpl in Hs.
  - unfold take_cmd in Hs. destruct (phase f) eqn:Hph; [|done..]. destruct (blocking_channel f); [done|].
    apply stdpp.option.bind_Some in Hs as ([[n1 cs] r] & _ & [= <-]). destruct (Hp Hj) as [Hl Hk]. rewrite Hph in Hk. simpl. lia.
  - unfold publish in Hs. destruct (phase f) eqn:Hph; [done|..].
    + destruct (has_space _); [|done]. injection Hs as <-. destruct (Hp Hj) as [Hl Hk]. rewrite Hph in Hk. simpl. lia.
    + destruct (has_space _) eqn:Hc; [|done]. injection Hs as <-. apply bool_decide_eq_true in Hc.
      destruct (Hp Hj) as [Hl Hk]. rewrite Hph in Hk. simpl. rewrite length_app. simpl. lia.
  - unfold check_joined in Hs. destruct (phase f) eqn:Hph; [|done..]. destruct (blocking_channel f); [|done].
    destruct (joining f) eqn:Hjf; [|injection Hs as <-; done|done].
    destruct (retry && _); [done|]. injection Hs as <-. destruct Hp as [Hl Hk]; [congruence|]. rewrite Hph in Hk.
    destruct retry; simpl; rewrite Hph; lia.
  - unfold dispatch in Hs. destruct (flow_channel f) as [|[]]; [done|..]; injection Hs as <-; by apply Hsame.
  - unfold handle_task in Hs. apply stdpp.option.bind_Some in Hs as ([c cmd] & _ & Hs).
    destruct (process_cmd_non_blocking w c cmd); [destruct (has_space _); [|done]|..]; injection Hs as <-; by apply Hsame.
  - unfold send_task in Hs. apply stdpp.option.bind_Some in Hs as ([|cmd cmds] & _ & Hs); [injection Hs as <-; by apply Hsame|].
    destruct (has_space _); [|done]. injection Hs as <-. by apply Hsame.
  - unfold tick in Hs. destruct (has_joined f) eqn:Hjf; [|done]. apply stdpp.option.bind_Some in Hs as ([t b] & _ & [= <-]).
    unfold has_joined in Hjf. simpl in Hj. by destruct (joining f).
  - destruct (has_space _); [|done]. injection Hs as <-. by apply Hsame.
  - destruct (has_space _); [|done]. injection Hs as <-. by apply Hsame.
Qed.

(** A node that has joined stays so. *)
Lemma step_joined f e f' : joining f = Joined → flow_step f e = Some f' → joining f' = Joined.
Proof.
  intros Hj. destruct e; simpl; unfold take_cmd, publish, check_joined, dispatch, handle_task, send_task, tick; intros Hs;
    repeat (case_match || (apply stdpp.option.bind_Some in Hs as (? & _ & Hs))); simplify_eq/=; done.
Qed.
Lemma run_joined f es f' : joining f = Joined → flow_run f es = Some f' → joining f' = Joined.
Proof.
  revert f. induction es as [|e es IH]; intros f Hj; simpl; [by intros [= <-]|].
  intros (f1 & Hs & Hr)%stdpp.option.bind_Some. eapply IH; [|exact Hr]. by eapply step_joined.
Qed.

Lemma run_piles_up f es f' k : piled_up f k → flow_run f es = Some f' → piled_up f' (k + takes es).
Proof.
  revert f k. induction es as [|e es IH]; intros f k Hp; simpl.
  - intros [= <-]. by rewrite Nat.add_0_r.
  - intros (f1 & Hs & Hr)%stdpp.option.bind_Some. pose proof (step_piles_up _ _ _ _ Hp Hs) as Hp1. specialize (IH _ _ Hp1 Hr).
    destruct e; simpl in *; try (by rewrite Nat.add_0_r in IH). by replace (k + S (takes es)) with (k + 1 + takes es) by lia.
Qed.

(** The loop waits for space that nobody makes. *)
Definition stuck f : Prop :=
  joining f ≠ Joined ∧ phase f ≠ Receiving ∧ ¬ length (context_channel f) < cap.
Lemma step_stuck f e f' : stuck f → flow_step f e = Some f' → stuck f' ∧ node f' = node f.
Proof.
  intros (Hj & Hp & Hc) Hs. unfold stuck. destruct e; simpl in Hs.
  - unfold take_cmd in Hs. by destruct (phase f).
  - unfold publish in Hs. destruct (phase f) as [|c|c]; [done|..].
    + destruct (has_space _); [|done]. by injection Hs as <-.
    + destruct (has_space _) eqn:Hsp; [|done]. by apply bool_decide_eq_true in Hsp.
  - unfold check_joined in Hs. by destruct (phase f).
  - unfold dispatch in Hs. destruct (flow_channel f) as [|[]]; [done|..]; by injection Hs as <-.
  - unfold handle_task in Hs. apply stdpp.option.bind_Some in Hs as ([c cmd] & _ & Hs).
    destruct (process_cmd_non_blocking w c cmd); [destruct (has_space _); [|done]|..]; by injection Hs as <-.
  - unfold send_task in Hs. apply stdpp.option.bind_Some in Hs as ([|cmd cmds] & _ & Hs); [by injection Hs as <-|].
    destruct (has_space _); [|done]. by injection Hs as <-.
  - unfold tick, has_joined in Hs. by destruct (joining f).
  - destruct (has_space _); [|done]. by injection Hs as <-.
  - destruct (has_space _); [|done]. by injection Hs as <-.
Qed.
Lemma run_stuck f es f' : stuck f → flow_run f es = Some f' → stuck f' ∧ node f' = node f.
Proof.
  revert f. induction es as [|e es IH]; intros f Hf; simpl; [by intros [= <-]|].
  intros (f1 & Hs & Hr)%stdpp.option.bind_Some. destruct (step_stuck _ _ _ Hf Hs) as [Hf1 Hn].
  destruct (IH _ Hf1 Hr) as [Hf' Hn']. split; [done|]. by rewrite Hn'.
Qed.

(** C16: a node runs at most one more command before it joins than the channel of contexts
    has places, since nobody receives them before; if it runs that many, it neither runs a
    command nor joins ever again, whatever happens. *)
Theorem join_ends_or_hangs now n es f :
  flow_run (start now n) es = Some f → joining f ≠ Joined →
  takes es ≤ S cap ∧
  (takes es = S cap → ∀ es' f', flow_run f es' = Some f' → joining f' ≠ Joined ∧ node f' = node f ∧ phase f' ≠ Receiving).
Proof.
  intros Hr Hj. assert (piled_up (start now n) 0) as Hp by (intros _; simpl; lia).
  pose proof (run_piles_up _ _ _ _ Hp Hr Hj) as [Hl Hk]. simpl in Hk.
  split; [destruct (phase f); lia|]. intros Ht es' f' Hr'.
  assert (stuck f) as Hs. { split; [done|]. destruct (phase f); [lia|..]; (split; [done|lia]). }
  destruct (run_stuck _ _ _ Hs Hr') as [(? & ? & _) ?]. done.
Qed.

(** ** After the join *)

Lemma drain_flow f : ∃ k f', flow_run f (replicate k Dispatch_) = Some f' ∧ flow_channel f' = [] ∧ joining f' = joining f ∧
  phase f' = phase f ∧ node f' = node f ∧ newest_context f' = newest_context f.
Proof.
  remember (flow_channel f) as ch eqn:Hch. revert f Hch. induction ch as [|x ch IH]; intros f Hch.
  - exists 0, f. done.
  - destruct (dispatch f) as [f1|] eqn:Hd; [|unfold dispatch in Hd; rewrite <-Hch in Hd; by destruct x].
    unfold dispatch in Hd. rewrite <-Hch in Hd.
    assert (flow_channel f1 = ch ∧ joining f1 = joining f ∧ phase f1 = phase f ∧ node f1 = node f ∧
      newest_context f1 = newest_context f) as (H1 & H2 & H3 & H4 & H5).
    { destruct x; by injection Hd as <-. }
    destruct (IH f1) as (k & f' & Hr & Hc & Hj & Hp & Hn & Hx); [done|].
    exists (S k), f'. split; [|by rewrite Hj, Hp, Hn, Hx].
    simpl. unfold dispatch. rewrite <-Hch. destruct x; injection Hd as <-; exact Hr.
Qed.

Lemma check_chain_returns w c : is_Some (section_chain_len (network_knowledge c)) →
  is_Some (check_for_missed_dkg_messages w c).
Proof.
  intros [l Hl]. unfold check_for_missed_dkg_messages, dkg_gossip_msgs. rewrite Hl. simpl. repeat case_match; by eexists.
Qed.
Lemma checks_return t w faulty c : is_Some (section_chain_len (network_knowledge c)) →
  is_Some (perform_periodic_checks t w faulty c).
Proof.
  intros Hc. unfold perform_periodic_checks. destruct (negb _); [by eexists|].
  destruct (enqueue_cmds_for_node_periodic_checks _ _ _) as [t1 cmds]. destruct (node_is_elder c); [|by eexists].
  unfold enqueue_cmds_for_elder_periodic_checks. destruct (elapsed_over _ (last_dkg_msg_check t1) _); [|by eexists].
  destruct (check_chain_returns w _ Hc) as [g ->]. by eexists.
Qed.


Lemma flow_run_app f es1 es2 : flow_run f (es1 ++ es2) = f1 ← flow_run f es1; flow_run f1 es2.
Proof. revert f. induction es1 as [|e es1 IH]; intros f; simpl; [done|]. by destruct (flow_step f e); simpl. Qed.

Lemma tick_publish w faulty f c : 0 < cap → joining f = Joined → phase f = UpdatingPeriodics c →
  is_Some (section_chain_len (network_knowledge (newest_context f))) →
  ∃ f', flow_run f [Tick w faulty; Publish] = Some f' ∧ phase f' = Receiving ∧ node f' = node f.
Proof.
  intros Hcap Hj Hp Hc. destruct (checks_return (timestamps f) w faulty _ Hc) as [[t b] Ht].
  simpl. unfold tick, has_joined. rewrite Hj, Ht. simpl. unfold publish. simpl. rewrite Hp. unfold has_space. simpl.
  rewrite bool_decide_eq_true_2 by done. by eexists.
Qed.

(** After the join the loop never waits for good: in every state it can go on to the next
    command, with the other loops taking turns at any time. *)
Lemma joined_goes_on w faulty f :
  0 < cap → joining f = Joined → is_Some (section_chain_len (network_knowledge (newest_context f))) →
  ∃ es f', flow_run f es = Some f' ∧ phase f' = Receiving ∧ node f' = node f ∧
    ∀ e, e ∈ es → e = Dispatch_ ∨ e = Publish ∨ e = Tick w faulty.
Proof.
  intros Hcap Hj Hc. destruct (phase f) as [|c|c] eqn:Hp.
  - exists [], f. split_and!; [done..|]. by intros e ?%elem_of_nil.
  - destruct (drain_flow f) as (k & f1 & Hr & Hch & Hj1 & Hp1 & Hn1 & Hx1).
    assert (∃ f2, flow_run f1 [Publish] = Some f2 ∧ phase f2 = UpdatingPeriodics c ∧ joining f2 = Joined ∧ node f2 = node f1 ∧
      newest_context f2 = newest_context f1) as (f2 & Hr2 & Hp2 & Hj2 & Hn2 & Hx2).
    { simpl. unfold publish. rewrite Hp1, Hp. unfold has_space. rewrite Hch, bool_decide_eq_true_2 by done.
      eexists. split; [done|]. simpl. by rewrite Hj1. }
    destruct (tick_publish w faulty f2 c Hcap Hj2 Hp2) as (f3 & Hr3 & Hp3 & Hn3); [by rewrite Hx2, Hx1|].
    exists (replicate k Dispatch_ ++ [Publish] ++ [Tick w faulty; Publish]), f3. rewrite flow_run_app, Hr. simpl.
    simpl in Hr2. apply stdpp.option.bind_Some in Hr2 as (f2' & Hs & [= ->]). rewrite Hs. simpl.
    split; [exact Hr3|]. split; [done|]. split; [by rewrite Hn3, Hn2, Hn1|].
    intros e [He|He]%elem_of_app; [apply elem_of_replicate in He as [-> _]; auto|set_solver].
  - destruct (tick_publish w faulty f c Hcap Hj Hp Hc) as (f' & Hr & Hp' & Hn'). exists [Tick w faulty; Publish], f'.
    split_and!; [done..|]. set_solver.
Qed.

(** ** Periodic checks *)

Definition overdue (now last interval : nat) : Prop := interval < now - last.
Lemma elapsed_over_true now last interval : elapsed_over now last interval = true ↔ overdue now last interval.
Proof. apply bool_decide_eq_true. Qed.

(** What only the node's own checks change. *)
Lemma node_checks_spec t now c t' cmds :
  enqueue_cmds_for_node_periodic_checks t now c = (t', cmds) →
  last_probe t' = last_probe t ∧ last_vote_check t' = last_vote_check t ∧ last_dkg_msg_check t' = last_dkg_msg_check t ∧
  last_fault_check t' = last_fault_check t ∧ ¬ overdue now (last_elder_health_check t') ELDER_PROBE_INTERVAL ∧
  (request_to_relocate_check t' = request_to_relocate_check t ∨ ∃ trigger, relocation_state c = PreparingToRelocate trigger) ∧
  (join_as_relocated_check t' = join_as_relocated_check t ∨ ∃ proof, relocation_state c = ReadyToJoinNewSection proof).
Proof.
  unfold enqueue_cmds_for_node_periodic_checks, request_relocation, join_relocated, overdue.
  destruct (elapsed_over now (last_elder_health_check t) _) eqn:Hh;
    [|apply bool_decide_eq_false in Hh]; destruct (relocation_state c); simpl;
    repeat case_match; intros [= <- <-]; simplify_eq/=; split_and!; eauto; unfold ELDER_PROBE_INTERVAL in *; lia.
Qed.

(** The timestamp of the votes is set exactly when a check of an elder finds it due. *)
Lemma vote_check_spec t w faulty c t' batches : node_is_elder c = true →
  perform_periodic_checks t w faulty c = Some (t', batches) →
  (¬ overdue (w_now w) (last_vote_check t) MISSING_VOTE_INTERVAL ∧ last_vote_check t' = last_vote_check t) ∨
  (overdue (w_now w) (last_vote_check t) MISSING_VOTE_INTERVAL ∧ last_vote_check t' = w_now w ∧
   check_for_missed_votes (w_now w) c ⊆ concat batches).
Proof.
  intros He Hp. unfold perform_periodic_checks in Hp.
  destruct (elapsed_over (w_now w) (last_vote_check t) MISSING_VOTE_INTERVAL) eqn:Hv.
  - pose proof (proj1 (elapsed_over_true _ _ _) Hv) as Ho. right. split; [done|].
    unfold something_expired in *. rewrite Hv in *. simpl in *.
    destruct (enqueue_cmds_for_node_periodic_checks t (w_now w) c) as [t1 cmds] eqn:Hn.
    apply node_checks_spec in Hn as (_ & Hl & _). rewrite He in *.
    unfold enqueue_cmds_for_elder_periodic_checks in *. rewrite Hl, Hv in *.
    apply stdpp.option.bind_Some in Hp as ([[t2 ec] g] & Hg & [= <- <-]). apply stdpp.option.bind_Some in Hg as (g' & _ & [= <- <- <-]).
    simpl. split; [done|]. intros x Hx. rewrite app_nil_r, !elem_of_app. auto.
  - left. assert (¬ overdue (w_now w) (last_vote_check t) MISSING_VOTE_INTERVAL) as Ho.
    { intros Ho%elapsed_over_true. congruence. }
    split; [done|]. destruct (negb _); [by injection Hp as <- _|].
    destruct (enqueue_cmds_for_node_periodic_checks t (w_now w) c) as [t1 cmds] eqn:Hn.
    apply node_checks_spec in Hn as (_ & Hl & _). rewrite He in Hp.
    unfold enqueue_cmds_for_elder_periodic_checks in Hp. rewrite Hl, Hv in Hp.
    apply stdpp.option.bind_Some in Hp as ([[t2 ec] g] & Hg & [= <- _]). by apply stdpp.option.bind_Some in Hg as (g' & _ & [= <- _ _]).
Qed.

(** Turns of the loop, with the commands of each. *)
Fixpoint checks t (turns : list (World * list XorName * Node)) : option (PeriodicChecksTimestamps * list (list NodeCmd)) :=
  match turns with
  | [] => Some (t, [])
  | (w, faulty, c) :: turns =>
      '(t, batches) ← perform_periodic_checks t w faulty c;
      '(t, cmds) ← checks t turns;
      Some (t, concat batches :: cmds)
  end.

(** An elder that waits for votes since longer than the interval. *)
Definition stalled (turn : World * list XorName * Node) : Prop :=
  let '(w, _, c) := turn in node_is_elder c = true ∧
  ∃ m time, membership c = Some m ∧ last_received_vote_time m = Some time ∧ MISSING_VOTE_INTERVAL ≤ w_now w - time.
(** The elder sends its votes to the other elders and asks for theirs. *)
Definition asks_for_votes (turn : World * list XorName * Node) (cmds : list NodeCmd) : Prop :=
  ∀ m, membership turn.2 = Some m → send_to_elders turn.2 (MembershipAE (gen m)) ∈ cmds ∧
  ∀ cmd, membership_gossip_votes turn.2 = Some cmd → cmd ∈ cmds.

Lemma stalled_asks w faulty c cmds : stalled (w, faulty, c) → check_for_missed_votes (w_now w) c ⊆ cmds →
  asks_for_votes (w, faulty, c) cmds.
Proof.
  intros (_ & m & time & Hm & Ht & Hi) Hc m' Hm'. simpl in Hm'. assert (m' = m) as -> by congruence.
  unfold check_for_missed_votes in Hc. rewrite Hm, Ht, bool_decide_eq_true_2 in Hc by done.
  split; [apply Hc|intros cmd Hcmd; apply Hc]; apply elem_of_app; [right; by left|left].
  unfold option_cmd. simpl in Hcmd. rewrite Hcmd. by left.
Qed.

(** C17: an elder whose votes stall sends them again and asks for those it misses: whatever the
    turns of the loop, at the latest in the first one that comes more than five seconds after
    the last check of the votes. *)
Theorem stalled_votes_are_gossiped t turns w faulty c t' cmds :
  checks t (turns ++ [(w, faulty, c)]) = Some (t', cmds) → Forall stalled (turns ++ [(w, faulty, c)]) →
  overdue (w_now w) (last_vote_check t) MISSING_VOTE_INTERVAL →
  ∃ i turn sent, (turns ++ [(w, faulty, c)]) !! i = Some turn ∧ cmds !! i = Some sent ∧ asks_for_votes turn sent.
Proof.
  revert t t' cmds. induction turns as [|[[w1 f1] c1] turns IH]; intros t t' cmds Hc Hs Ho; cbn [checks app] in Hc;
    apply stdpp.option.bind_Some in Hc as ([t1 b] & Hp & Hc); apply stdpp.option.bind_Some in Hc as ([t2 cs] & Hc & [= <- <-]);
    apply Forall_cons in Hs as [Hs1 Hs]; destruct (vote_check_spec _ _ _ _ _ _ (proj1 Hs1) Hp) as [[Hn Hl]|(_ & _ & Hsub)];
    try by (eexists 0, _, _; split_and!; [done..|]; apply stalled_asks).
  destruct (IH t1 t2 cs Hc Hs) as (i & turn & sent & Hi & Hse & Ha); [by rewrite Hl|]. by exists (S i), turn, sent.
Qed.

(** The gate in front of the checks: the time of requests to relocate only starts anew for a
    node that makes them, so that for any other node it is open for good after seven seconds. *)
Lemma gate_stays_open t turns t' cmds now :
  checks t turns = Some (t', cmds) →
  Forall (λ turn, ∀ trigger, relocation_state turn.2 ≠ PreparingToRelocate trigger) turns →
  overdue now (request_to_relocate_check t) REQUEST_TO_RELOCATE_TIMEOUT_SEC → something_expired t' now = true.
Proof.
  revert t cmds. induction turns as [|[[w f] c] turns IH]; intros t cmds Hc Hr Ho; simpl in Hc.
  - injection Hc as <- _. unfold something_expired. rewrite (proj2 (elapsed_over_true _ _ _) Ho). by rewrite !orb_true_r.
  - apply stdpp.option.bind_Some in Hc as ([t1 b] & Hp & Hc). apply stdpp.option.bind_Some in Hc as ([t2 cs] & Hc & [= <- _]).
    apply Forall_cons in Hr as [Hr1 Hr]. apply (IH t1 cs Hc Hr).
    assert (request_to_relocate_check t1 = request_to_relocate_check t) as ->; [|done].
    unfold perform_periodic_checks in Hp. destruct (negb _); [by injection Hp as <- _|].
    destruct (enqueue_cmds_for_node_periodic_checks t (w_now w) c) as [t3 cmds3] eqn:Hn.
    apply node_checks_spec in Hn as (_ & _ & _ & _ & _ & [Hq|[trigger Ht]] & _); [|by destruct (Hr1 trigger)].
    destruct (node_is_elder c); [|by injection Hp as <- _]. unfold enqueue_cmds_for_elder_periodic_checks in Hp.
    apply stdpp.option.bind_Some in Hp as ([[t4 ec] g] & Hg & [= <- _]). by apply stdpp.option.bind_Some in Hg as (g' & _ & [= <- _ _]).
Qed.

(** The gate does not look at the health checks of elders: they can be overdue behind it. *)
Lemma gate_ignores_health t now :
  (∀ x, something_expired (mkTimestamps (last_probe t) x (last_vote_check t) (last_dkg_msg_check t) (last_fault_check t)
    (request_to_relocate_check t) (join_as_relocated_check t)) now = something_expired t now).
Proof. done. Qed.
End flow.

(** ** A node with its loops *)

Module FlowDemo.
Import External.Concrete Xor.ConcreteXor DagDemo TreeDemo HistoryDemo KnowledgeDemo AggregatorDemo.
Import MembershipDemo NodeDemo WireDemo JoinDemo DkgDemo SectionDemo DispatchDemo.

(** Channels with one place, and seconds of one unit. *)
Abbreviation demo_start_flow := (start (Stream := unit) (Trigger := unit) 0 node_before).
Abbreviation run_demo := (flow_run (Stream := unit) (MsgId := nat) (Ae := bytes) (Client := bytes) (Response := bytes)
  (λ l : list Candidate, l) concat_hash 1 4 (λ l, l) 1).
Abbreviation DemoEvent := (Event (Stream := unit) (Trigger := unit) (D := list Candidate) (Digest := list bytes)).

Definition one_command : list DemoEvent := [Dispatch_; Call (SetJoinsAllowed true); Take demo_world; Publish].
Definition published : list DemoEvent := [Dispatch_; Publish].
Definition two_commands : list DemoEvent := one_command ++ published ++ [Call (SetJoinsAllowed false); Take demo_world].

Abbreviation DemoFlow := (Flow (Trigger := unit) (D := list Candidate) (Digest := list bytes) (Stream := unit)).

Definition is_joined_flow (f : DemoFlow) : bool := match joining f with Joined => true | _ => false end.
Definition flow_or_start (f : option DemoFlow) : DemoFlow := default demo_start_flow f.
Lemma runs_ready :
  bool_decide (is_Some (run_demo demo_start_flow one_command)) = true ∧
  bool_decide (is_Some (run_demo (flow_or_start (run_demo demo_start_flow one_command)) published)) = true ∧
  bool_decide (is_Some (run_demo demo_start_flow two_commands)) = true ∧
  is_joined_flow (flow_or_start (run_demo demo_start_flow two_commands)) = false.
Proof. split_and!; vm_compute; reflexivity. Qed.

Lemma some_or_start (o : option DemoFlow) : bool_decide (is_Some o) = true → o = Some (flow_or_start o).
Proof. rewrite bool_decide_eq_true. by intros [f ->]. Qed.
Lemma not_joined_flow (f : DemoFlow) : is_joined_flow f = false → joining f ≠ Joined.
Proof. unfold is_joined_flow. by destruct (joining f). Qed.

Lemma contexts_follow_node_witness :
  ∃ f1 f2, run_demo demo_start_flow one_command = Some f1 ∧ run_demo f1 published = Some f2 ∧
    last (flow_view f2) = Some (node f2).
Proof.
  destruct runs_ready as (H1%some_or_start & H2%some_or_start & _).
  eexists _, _. split; [exact H1|]. split; [exact H2|].
  exact (proj1 (proj2 (proj2 (proj2 (proj2 (contexts_follow_node (Stream := unit) (MsgId := nat) (Ae := bytes)
    (Client := bytes) (Response := bytes) (λ l : list Candidate, l) concat_hash 1 4 (λ l, l) 1 0 node_before
    one_command published _ _ H1 H2)))))).
Defined.

(** With one place, the third command of a node that has not joined is never run. *)
Lemma join_ends_or_hangs_witness :
  ∃ f, run_demo demo_start_flow two_commands = Some f ∧
    ∀ es f', run_demo f es = Some f' → joining f' ≠ Joined ∧ node f' = node f.
Proof.
  destruct runs_ready as (_ & _ & H3%some_or_start & H4%not_joined_flow).
  eexists. split; [exact H3|]. intros es f' Hr.
  destruct (proj2 (join_ends_or_hangs (Stream := unit) (MsgId := nat) (Ae := bytes) (Client := bytes) (Response := bytes)
    (λ l : list Candidate, l) concat_hash 1 4 (λ l, l) 1 0 node_before two_commands _ H3 H4) eq_refl es f' Hr) as (Hj & Hn & _).
  split; [exact Hj|exact Hn].
Defined.

(** An elder that got its last vote at the start. *)
Definition waiting : Membership unit := mkMembership (7, [demo_leave_vote]) demo_initial 0 ∅ (Some 0).
Definition waiting_elder : DemoNode :=
  set_membership (fresh_node elder_name [demo_key_share] (elder_knowledge [])) (Some waiting).
Definition later : World (Trigger := unit) (D := list Candidate) (Digest := list bytes) (Stream := unit) :=
  mkWorld 6 (λ _, (7 : SecretKey)) (λ _, (() : Rng)) (λ _ _, ([false; false] : Keypair)) map_to_list id id
    (false : Store) false (λ n _ _, (data_storage n, Ok [])).
Abbreviation run_checks := (checks (Stream := unit) (D := list Candidate) concat_hash 1 (timestamps_now 0)
  [(later, [], waiting_elder)]).
Lemma checks_ready : bool_decide (is_Some run_checks) = true ∧ node_is_elder waiting_elder = true.
Proof. split; vm_compute; reflexivity. Qed.

Lemma stalled_votes_are_gossiped_witness :
  ∃ t cmds, run_checks = Some (t, [cmds]) ∧
    (send_to_elders waiting_elder (MembershipAE 0) : Cmd unit (list Candidate) unit) ∈ cmds.
Proof.
  destruct checks_ready as [Hc He]. rewrite bool_decide_eq_true in Hc. destruct Hc as [[t cmds] Hc].
  destruct (stalled_votes_are_gossiped (Stream := unit) concat_hash 1 (timestamps_now 0) [] later [] waiting_elder t cmds Hc)
    as (i & turn & sent & Hi & Hs & Ha).
  - apply Forall_cons. split; [|by apply Forall_nil]. split; [exact He|].
    exists waiting, 0. split; [reflexivity|]. split; [reflexivity|]. simpl. unfold MISSING_VOTE_INTERVAL. lia.
  - unfold overdue, MISSING_VOTE_INTERVAL. simpl. lia.
  - destruct i as [|i]; [|discriminate Hi]. injection Hi as <-.
    exists t, sent. destruct (Ha waiting eq_refl) as [Hin _]. split; [|exact Hin].
    rewrite Hc. f_equal. f_equal. cbn [checks] in Hc. apply stdpp.option.bind_Some in Hc as ([t1 b] & _ & Hc).
    injection Hc as _ <-. by injection Hs as ->.
Defined.
End FlowDemo.
