(* ===== verification/Comms.v ===== *)
(** * Communication of a node

    [sn_comms/src]: [lib.rs], [node_link.rs] and [listener.rs].  The loop of commands keeps a
    link for every target; a link caches connections.  Messages are sent by tasks that retry,
    and what fails is reported as an event.  The transport [qp2p] is a class of operations on
    the state of the network, which may answer in any way; its connections are their ids.

    Clones of a link share their connections, so a link is the place of its connections in a
    store.  [None] of an operation with fuel means that it has not returned yet. *)

From S2P Require Import Prelude External Xor NodeState Aggregator SectionTree NetworkKnowledge Keys MyNode NodeDemo WireMsg.

(** ** The transport *)

Abbreviation UsrMsgBytes := (bytes * bytes * bytes)%type.

Class Qp2p := {
  QNet : Type;
  ConnId : Type;
  conn_eq_dec :: EqDecision ConnId;
  conn_countable :: Countable ConnId;
  ConnectionError : Type;
  SendError : Type;
  RecvError : Type;
  connect_to : SocketAddr → QNet → QNet * result ConnectionError ConnId;
  open_bi : ConnId → QNet → QNet * result ConnectionError unit;
  send_user_msg : ConnId → UsrMsgBytes → QNet → QNet * result SendError unit;
  read_response : ConnId → QNet → QNet * result RecvError UsrMsgBytes;
  send_with : ConnId → UsrMsgBytes → QNet → QNet * result SendError unit;
  (** The connection was closed by ourselves. *)
  is_local_close : SendError → bool;
  (** An entry of the map of connections, in its order. *)
  next_entry : gset ConnId → option ConnId;
}.
Class Qp2pLaws `{!Qp2p} : Prop := {
  next_entry_in s c : next_entry s = Some c → c ∈ s;
  next_entry_empty s : next_entry s = None ↔ s = ∅;
}.

Section comms.
Context {B : Bls} {BSh : BlsShares} {BPS : BlsPublicShares} {E : Ed25519} {X : Xor} {ON : Ord NodeId}.
Context {MsgId : Type} {RE : Rmp (MsgEnvelope MsgId)} {RD : Rmp Dst}.
Context {Q : Qp2p}.

Abbreviation Wire := (WireMsg MsgId).

(** The errors of events; the other two variants only come from the start of an endpoint. *)
Inductive CommError :=
  | ConnectingToUnknownNode (msg_id : MsgId)
  | InvalidMsgReceived (msg_id : MsgId)
  | FailedSend (msg_id : MsgId).

Inductive CommEvent :=
  | EvMsg (sender : XorName * SocketAddr) (wire_msg : Wire) (send_stream : bool)
  | EvError (node_id : NodeId) (error : CommError).

(** ** Links *)

Inductive NodeLinkError :=
  | LinkConnection (e : ConnectionError)
  | LinkSend (e : SendError)
  | LinkRecv (e : RecvError)
  | MaxRetriesReached (retries : nat).

Definition MAX_SENDJOB_RETRIES : nat := 3.

(** The connections of one link and the network. *)
Abbreviation Shared := (gset ConnId * QNet)%type.

Definition create_connection (addr : SocketAddr) (s : Shared) : Shared * result NodeLinkError ConnId :=
  match connect_to addr s.2 with
  | (net, Ok conn) => (({[conn]} ∪ s.1, net), Ok conn)
  | (net, Err e) => ((s.1, net), Err (LinkConnection e))
  end.
Definition get_or_connect (addr : SocketAddr) (s : Shared) : Shared * result NodeLinkError ConnId :=
  match next_entry s.1 with
  | Some conn => (s, Ok conn)
  | None => create_connection addr s
  end.
(** A connection that fails is removed at once. *)
Definition send_with_connection (conn : ConnId) (bs : UsrMsgBytes) (s : Shared) : Shared * result SendError unit :=
  match send_with conn bs s.2 with
  | (net, Ok _) => ((s.1, net), Ok ())
  | (net, Err e) => ((s.1 ∖ {[conn]}, net), Err e)
  end.

(** One round of [NodeLink::send]: the retries so far, or its result. *)
Definition send_round (addr : SocketAddr) (bs : UsrMsgBytes) (connection_retries : nat) (s : Shared)
    : Shared * (nat + result NodeLinkError unit) :=
  if decide (MAX_SENDJOB_RETRIES < connection_retries) then (s, inr (Err (MaxRetriesReached MAX_SENDJOB_RETRIES))) else
  match get_or_connect addr s with
  | (s, Err _) => (s, inl (if decide (s.1 = ∅) then S connection_retries else connection_retries))
  | (s, Ok conn) =>
      match send_with_connection conn bs s with
      | (s, Ok _) => (s, inr (Ok ()))
      | (s, Err e) => (s, inl (if is_local_close e && bool_decide (size s.1 ≤ 1) then S connection_retries else connection_retries))
      end
  end.
(** [others k] is what other tasks do with the connections before the round [k]. *)
Fixpoint link_send (fuel k : nat) (others : nat → gset ConnId → gset ConnId) (addr : SocketAddr) (bs : UsrMsgBytes)
    (connection_retries : nat) (s : Shared) : option (Shared * result NodeLinkError unit) :=
  match fuel with
  | 0 => None
  | S fuel =>
      match send_round addr bs connection_retries (others k s.1, s.2) with
      | (s, inr r) => Some (s, r)
      | (s, inl retries) => link_send fuel (S k) others addr bs retries s
      end
  end.

(** A failure of a round: the connection is removed, and the last attempt fails with it. *)
Definition attempt_failed (conn : ConnId) (is_last_attempt : bool) (e : NodeLinkError) (s : Shared)
    : Shared * option (result NodeLinkError UsrMsgBytes) :=
  ((s.1 ∖ {[conn]}, s.2), if is_last_attempt then Some (Err e) else None).
Definition bi_round (addr : SocketAddr) (bs : UsrMsgBytes) (s : Shared)
    : Shared * option (result NodeLinkError UsrMsgBytes) :=
  let '(s, conn, is_last_attempt) :=
    match next_entry s.1 with
    | Some conn => (s, Ok conn, false)
    | None => let '(s, conn) := create_connection addr s in (s, conn, true)
    end in
  match conn with
  | Err e => (s, Some (Err e))
  | Ok conn =>
      match open_bi conn s.2 with
      | (net, Err e) => attempt_failed conn is_last_attempt (LinkConnection e) (s.1, net)
      | (net, Ok _) =>
          match send_user_msg conn bs net with
          | (net, Err e) => attempt_failed conn is_last_attempt (LinkSend e) (s.1, net)
          | (net, Ok _) =>
              match read_response conn net with
              | (net, Err e) => attempt_failed conn is_last_attempt (LinkRecv e) (s.1, net)
              | (net, Ok response) => ((s.1, net), Some (Ok response))
              end
          end
      end
  end.
Fixpoint send_with_bi_return_response (fuel k : nat) (others : nat → gset ConnId → gset ConnId) (addr : SocketAddr)
    (bs : UsrMsgBytes) (s : Shared) : option (Shared * result NodeLinkError UsrMsgBytes) :=
  match fuel with
  | 0 => None
  | S fuel =>
      match bi_round addr bs (others k s.1, s.2) with
      | (s, Some r) => Some (s, r)
      | (s, None) => send_with_bi_return_response fuel (S k) others addr bs s
      end
  end.

(** ** Tasks that send

    The tasks of a command take the store of all links.  The futures of [join_all] are run in
    their order: they use different links, and the network may answer in any way. *)

Record Comm := mkComm {
  links : gmap NodeId nat;
  stores : gmap nat (gset ConnId);
  next_link : nat;
  qnet : QNet;
}.
Implicit Types (c : Comm).

Definition store_of c (link : nat) : gset ConnId := default ∅ (stores c !! link).
Definition put_shared c (link : nat) (s : Shared) : Comm :=
  mkComm (links c) (<[link := s.1]> (stores c)) (next_link c) s.2.

Context (fuel : nat) (others : nat → gset ConnId → gset ConnId).

Definition send (msg_id : MsgId) (node_id : NodeId) (link : nat) (bs : UsrMsgBytes) c : option (Comm * list CommEvent) :=
  match link_send fuel 0 others (id_addr node_id) bs 0 (store_of c link, qnet c) with
  | None => None
  | Some (s, Ok _) => Some (put_shared c link s, [])
  | Some (s, Err _) => Some (put_shared c link s, [EvError node_id (FailedSend msg_id)])
  end.

(** The parser of the header may panic ([None] of [wire_from]); the task ends then. *)
Definition send_and_return_response (msg_id : MsgId) (node_id : NodeId) (link : nat) (bs : UsrMsgBytes) c
    : option (Comm * list CommEvent) :=
  match send_with_bi_return_response fuel 0 others (id_addr node_id) bs (store_of c link, qnet c) with
  | None => None
  | Some (s, Err _) => Some (put_shared c link s, [EvError node_id (FailedSend msg_id)])
  | Some (s, Ok node_response_bytes) =>
      Some (put_shared c link s,
        match wire_from node_response_bytes with
        | Some (Ok wire_msg) => [EvMsg (id_name node_id, id_addr node_id) wire_msg false]
        | Some (Err _) => [EvError node_id (InvalidMsgReceived msg_id)]
        | None => []
        end)
  end.

(** One future of [join_all]: the result for one node and the event it sends itself. *)
Definition forward_one (msg_id : MsgId) (node_id : NodeId) (link : option nat) (bs : UsrMsgBytes) c
    : option (Comm * result CommError UsrMsgBytes * list CommEvent) :=
  match link with
  | None => Some (c, Err (ConnectingToUnknownNode msg_id), [])
  | Some link =>
      match send_with_bi_return_response fuel 0 others (id_addr node_id) bs (store_of c link, qnet c) with
      | None => None
      | Some (s, Ok response) => Some (put_shared c link s, Ok response, [])
      | Some (s, Err _) => Some (put_shared c link s, Err (FailedSend msg_id), [EvError node_id (FailedSend msg_id)])
      end
  end.
Fixpoint forward_all (msg_id : MsgId) (nodes : list (NodeId * (option nat * UsrMsgBytes))) c
    : option (Comm * list (NodeId * result CommError UsrMsgBytes) * list CommEvent) :=
  match nodes with
  | [] => Some (c, [], [])
  | (node_id, (link, bs)) :: nodes =>
      '(c, r, evs) ← forward_one msg_id node_id link bs c;
      '(c, rs, evs') ← forward_all msg_id nodes c;
      Some (c, (node_id, r) :: rs, evs ++ evs')
  end.

(** Each result that is an error is reported. *)
Definition succeeded (results : list (NodeId * result CommError UsrMsgBytes)) : list UsrMsgBytes :=
  omap (λ r, match r.2 with Ok bs => Some bs | Err _ => None end) results.
Definition failures (msg_id : MsgId) (results : list (NodeId * result CommError UsrMsgBytes)) : list CommEvent :=
  omap (λ r, match r.2 with Ok _ => None | Err _ => Some (EvError r.1 (FailedSend msg_id)) end) results.

Definition are_equal (a b : UsrMsgBytes) : bool := bool_decide (a.2 = b.2).
(** [windows(2).all(..)]. *)
Fixpoint all_ok_equal (succeeded : list UsrMsgBytes) : bool :=
  match succeeded with
  | a :: (b :: _) as rest => are_equal a b && all_ok_equal rest
  | _ => true
  end.

(** The payload of [NetworkIssue(InconsistentStorageNodeResponses)], and a fresh id. *)
Context (inconsistent_payload : option bytes) (new_msg_id : MsgId).

Definition error_response (dst : Dst) : option UsrMsgBytes :=
  payload ← inconsistent_payload;
  match wire_serialize (new_msg new_msg_id payload (KindDataResponse (dst_name dst)) dst) with
  | Ok bs => Some bs
  | Err _ => None
  end.

(** What is sent to the client on its stream, if anything. *)
Definition client_response (expected_targets : nat) (dst : Dst) (succeeded : list UsrMsgBytes) : option UsrMsgBytes :=
  let some_failed := bool_decide (length succeeded < expected_targets) in
  if some_failed || negb (all_ok_equal succeeded) then error_response dst else last succeeded.

Definition send_and_respond_on_stream (msg_id : MsgId) (nodes : list (NodeId * (option nat * UsrMsgBytes)))
    (expected_targets : nat) (dst : Dst) c : option (Comm * list CommEvent * option UsrMsgBytes) :=
  '(c, node_results, evs) ← forward_all msg_id nodes c;
  Some (c, evs ++ failures msg_id node_results, client_response expected_targets dst (succeeded node_results)).

(** ** The loop of commands *)

Inductive CommCmd :=
  | Send (msg_id : MsgId) (node_id : NodeId) (bs : UsrMsgBytes)
  | SetTargets (targets : gset NodeId)
  | SendAndReturnResponse (msg_id : MsgId) (node_id : NodeId) (bs : UsrMsgBytes)
  | SendAndRespondOnStream (msg_id : MsgId) (node_bytes : gmap NodeId UsrMsgBytes) (expected_targets : nat) (dst : Dst).

(** Links to nodes that are no targets are dropped; each new target gets a fresh one. *)
Definition add_link c (node_id : NodeId) : Comm :=
  match links c !! node_id with
  | Some _ => c
  | None => mkComm (<[node_id := next_link c]> (links c)) (<[next_link c := ∅]> (stores c)) (S (next_link c)) (qnet c)
  end.
Definition set_targets c (targets : gset NodeId) : Comm :=
  foldl add_link (mkComm (filter (λ x, x.1 ∈ targets) (links c)) (stores c) (next_link c) (qnet c)) (bset_iter targets).

Definition get_link (msg_id : MsgId) (node_id : NodeId) c : option nat * list CommEvent :=
  match links c !! node_id with
  | Some link => (Some link, [])
  | None => (None, [EvError node_id (ConnectingToUnknownNode msg_id)])
  end.

(** One command with the task that it spawns: the events and, for a client, the response. *)
Definition process_comm_cmd c (cmd : CommCmd) : option (Comm * list CommEvent * option UsrMsgBytes) :=
  match cmd with
  | SetTargets targets => Some (set_targets c targets, [], None)
  | Send msg_id node_id bs =>
      match get_link msg_id node_id c with
      | (None, evs) => Some (c, evs, None)
      | (Some link, evs) => '(c, evs') ← send msg_id node_id link bs c; Some (c, evs ++ evs', None)
      end
  | SendAndReturnResponse msg_id node_id bs =>
      match get_link msg_id node_id c with
      | (None, evs) => Some (c, evs, None)
      | (Some link, evs) => '(c, evs') ← send_and_return_response msg_id node_id link bs c; Some (c, evs ++ evs', None)
      end
  | SendAndRespondOnStream msg_id node_bytes expected_targets dst =>
      let unknown := mjoin ((λ x, (get_link msg_id x.1 c).2) <$> bmap_iter node_bytes) in
      let nodes := (λ x, (x.1, ((get_link msg_id x.1 c).1, x.2))) <$> bmap_iter node_bytes in
      '(c, evs, response) ← send_and_respond_on_stream msg_id nodes expected_targets dst c;
      Some (c, unknown ++ evs, response)
  end.

(** ** What arrives *)

(** [listen_for_msgs]: the sender has the name that the message claims. *)
Definition claimed_name (name_of_key : ClientAuth → XorName) (k : MsgKind) : XorName :=
  match k with
  | KindClient auth _ _ => name_of_key auth
  | KindNode name _ | KindAntiEntropy name | KindDataResponse name => name
  end.
Definition msg_arrives (name_of_key : ClientAuth → XorName) (remote_address : SocketAddr) (msg_bytes : UsrMsgBytes)
    (has_stream : bool) : option (list CommEvent) :=
  match wire_from msg_bytes with
  | None => None
  | Some (Err _) => Some []
  | Some (Ok wire_msg) => Some [EvMsg (claimed_name name_of_key (wm_kind wire_msg), remote_address) wire_msg has_stream]
  end.

(** ** Sending *)

Lemma get_or_connect_conn addr s s' conn : Qp2pLaws → get_or_connect addr s = (s', Ok conn) → conn ∈ s'.1.
Proof.
  intros HL. unfold get_or_connect, create_connection. destruct (next_entry s.1) as [x|] eqn:Hn.
  - intros [= <- <-]. by apply next_entry_in.
  - destruct (connect_to addr s.2) as [net [x|e]]; [|done]. intros [= <- <-]. simpl. set_solver.
Qed.

(** The network takes connections but loses what is sent, with an error that is not our own. *)
Definition loses_messages (addr : SocketAddr) (bs : UsrMsgBytes) : Prop :=
  (∀ net, is_ok (connect_to addr net).2 = true) ∧
  ∀ conn net, match (send_with conn bs net).2 with Ok _ => False | Err e => is_local_close e = false end.

(** A message to a node that can be connected to but that loses every message, for example
    since the connections time out, is sent again for ever: the limit on retries only counts
    failed connections and connections that we closed ourselves. *)
Lemma lossy_send_never_ends addr bs retries s k n :
  loses_messages addr bs → retries ≤ MAX_SENDJOB_RETRIES → link_send n k others addr bs retries s = None.
Proof.
  intros [Hconn Hsend] Hr. revert k s. induction n as [|n IH]; intros k s; [done|]. cbn [link_send]. unfold send_round.
  rewrite decide_False by lia. set (s0 := (others k s.1, s.2)).
  destruct (get_or_connect addr s0) as [s1 [conn|e]] eqn:Hc.
  - unfold send_with_connection. specialize (Hsend conn s1.2). destruct (send_with conn bs s1.2) as [net [u|e]]; [done|].
    simpl in Hsend. rewrite Hsend. simpl. apply IH.
  - exfalso. unfold get_or_connect in Hc. destruct (next_entry s0.1); [done|]. unfold create_connection in Hc.
    specialize (Hconn s0.2). destruct (connect_to addr s0.2) as [net [x|e']]; simpl in *; [done|done].
Qed.

(** If no connection can be made, the error comes after four attempts. *)
Lemma unreachable_send_ends addr bs net :
  (∀ k, others k ∅ = ∅) → Qp2pLaws → (∀ net, is_ok (connect_to addr net).2 = false) →
  ∃ s, link_send 5 0 others addr bs 0 (∅, net) = Some (s, Err (MaxRetriesReached 3)).
Proof.
  intros Ho HL Hc.
  assert (∀ retries net, retries ≤ MAX_SENDJOB_RETRIES → ∃ net', send_round addr bs retries (∅, net) = ((∅, net'), inl (S retries)))
    as Hround.
  { intros retries net0 Hr. unfold send_round. rewrite decide_False by lia. unfold get_or_connect. simpl.
    rewrite (proj2 (next_entry_empty ∅) eq_refl). unfold create_connection. simpl. specialize (Hc net0).
    destruct (connect_to addr net0) as [net1 [x|e]]; [done|]. exists net1. by rewrite decide_True. }
  unfold MAX_SENDJOB_RETRIES in Hround. cbn [link_send fst snd]. rewrite Ho.
  destruct (Hround 0 net) as [n1 ->]; [lia|]. cbn [fst snd]. rewrite Ho.
  destruct (Hround 1 n1) as [n2 ->]; [lia|]. cbn [fst snd]. rewrite Ho.
  destruct (Hround 2 n2) as [n3 ->]; [lia|]. cbn [fst snd]. rewrite Ho.
  destruct (Hround 3 n3) as [n4 ->]; [lia|]. cbn [fst snd]. rewrite Ho.
  unfold send_round. rewrite decide_True by (unfold MAX_SENDJOB_RETRIES; lia). by eexists.
Qed.

(** Every round of a request ends it or loses a connection. *)
Lemma bi_round_shrinks addr bs s s' : Qp2pLaws → bi_round addr bs s = (s', None) → size s'.1 < size s.1.
Proof.
  intros HL. unfold bi_round. destruct (next_entry s.1) as [conn|] eqn:Hn.
  - apply next_entry_in in Hn. assert (size (s.1 ∖ {[conn]}) < size s.1) as Hlt by (apply subset_size; set_solver).
    destruct (open_bi conn s.2) as [n1 [u|e]]; [|by intros [= <-]].
    destruct (send_user_msg conn bs n1) as [n2 [u'|e]]; [|by intros [= <-]].
    destruct (read_response conn n2) as [n3 [u''|e]]; [done|by intros [= <-]].
  - unfold create_connection. destruct (connect_to addr s.2) as [n0 [conn|e]]; [|done]. simpl.
    destruct (open_bi conn n0) as [n1 [u|e]]; [|done].
    destruct (send_user_msg conn bs n1) as [n2 [u'|e]]; [|done].
    by destruct (read_response conn n2) as [n3 [u''|e]].
Qed.
(** Unless other tasks open connections, a request returns after at most one attempt more than
    there are connections. *)
Lemma request_ends addr bs s k n : Qp2pLaws → (∀ k cs, others k cs ⊆ cs) → size s.1 < n →
  is_Some (send_with_bi_return_response n k others addr bs s).
Proof.
  intros HL Ho. revert k s. induction n as [|n IH]; intros k s Hn; [lia|]. cbn [send_with_bi_return_response].
  destruct (bi_round addr bs (others k s.1, s.2)) as [s' [r|]] eqn:Hb; [by eexists|].
  apply IH. apply bi_round_shrinks in Hb; [|done]. simpl in Hb.
  pose proof (subseteq_size _ _ (Ho k s.1)). lia.
Qed.

(** ** Responses to clients *)

Lemma all_ok_equal_spec l : all_ok_equal l = true ↔ ∀ a b, a ∈ l → b ∈ l → a.2 = b.2.
Proof.
  induction l as [|a [|b l] IH]; cbn [all_ok_equal].
  - split; [|done]. intros _ x y ?%elem_of_nil. done.
  - split; [|done]. intros _ x y ->%list_elem_of_singleton ->%list_elem_of_singleton. done.
  - unfold are_equal. rewrite andb_true_iff, bool_decide_eq_true, IH. split.
    + intros [Hab Hl] x y Hx Hy.
      assert (∀ z, z ∈ a :: b :: l → z.2 = b.2) as Hz.
      { intros z [->|Hz]%elem_of_cons; [done|]. apply Hl; [done|by left]. }
      by rewrite (Hz x), (Hz y).
    + intros Hl. split; [apply Hl; set_solver|]. intros x y Hx Hy. apply Hl; by right.
Qed.

Lemma elem_of_succeeded rs bs : bs ∈ succeeded rs ↔ ∃ i, (i, Ok bs) ∈ rs.
Proof.
  unfold succeeded. rewrite list_elem_of_omap. split.
  - intros ([i [b|e]] & Hin & Hs); [|done]. simpl in Hs. injection Hs as ->. by exists i.
  - intros [i Hi]. by exists (i, Ok bs).
Qed.

Lemma forward_all_nodes msg_id nodes c c' rs evs :
  forward_all msg_id nodes c = Some (c', rs, evs) → rs.*1 = nodes.*1.
Proof.
  revert c c' rs evs. induction nodes as [|[i [link bs]] nodes IH]; intros c c' rs evs; simpl; [by intros [= _ <- _]|].
  intros ([[c1 r] e1] & _ & Hr)%stdpp.option.bind_Some. apply stdpp.option.bind_Some in Hr as ([[c2 rs'] e2] & Hr & [= _ <- _]).
  rewrite !fmap_cons. simpl. f_equal. exact (IH _ _ _ _ Hr).
Qed.

(** Events about a node. *)
Definition about (i : NodeId) (ev : CommEvent) : Prop := match ev with EvError j _ => j = i | EvMsg _ _ _ => False end.
#[export] Instance about_dec i ev : Decision (about i ev).
Proof. destruct ev; simpl; apply _. Defined.
Definition reports (i : NodeId) (evs : list CommEvent) : nat := length (filter (about i) evs).

Lemma reports_app i l k : reports i (l ++ k) = reports i l + reports i k.
Proof. unfold reports. by rewrite filter_app, length_app. Qed.
Lemma reported i e evs : EvError i e ∈ evs → 1 ≤ reports i evs.
Proof.
  intros Hin. assert (EvError i e ∈ filter (about i) evs) as Hf by (by apply list_elem_of_filter).
  unfold reports. destruct (filter (about i) evs); [by apply elem_of_nil in Hf|simpl; lia].
Qed.

(** What a failed future sends itself, or the look-up of its link before. *)
Lemma forward_all_reports msg_id nodes c c' rs evs i e :
  forward_all msg_id nodes c = Some (c', rs, evs) → (i, Err e) ∈ rs →
  (∃ bs, (i, (None, bs)) ∈ nodes) ∨ EvError i (FailedSend msg_id) ∈ evs.
Proof.
  revert c c' rs evs. induction nodes as [|[j [link bs]] nodes IH]; intros c c' rs evs; simpl.
  - intros [= _ <- _] ?%elem_of_nil. done.
  - intros ([[c1 r] e1] & Ho & Hr)%stdpp.option.bind_Some Hin.
    apply stdpp.option.bind_Some in Hr as ([[c2 rs'] e2] & Hr & [= _ <- <-]).
    apply elem_of_cons in Hin as [[= -> <-]|Hin].
    + unfold forward_one in Ho. destruct link as [l|]; [|left; exists bs; by left]. right.
      destruct (send_with_bi_return_response _ _ _ _ _ _) as [[s [b|x]]|]; [..|done]; injection Ho as _ Hx Hl; [done|].
      rewrite <-Hl. set_solver.
    + destruct (IH _ _ _ _ Hr Hin) as [[b Hb]|Hev]; [left; exists b; by right|]. right. apply elem_of_app. by right.
Qed.
Lemma failures_report msg_id rs i e : (i, Err e) ∈ rs → EvError i (FailedSend msg_id) ∈ failures msg_id rs.
Proof. intros Hin. unfold failures. apply list_elem_of_omap. by exists (i, Err e). Qed.

(** C18: a client gets an answer of the holders of data only if as many as expected answered and
    all their payloads agree, and an error otherwise; and each node that failed is
    reported twice. *)
Theorem client_answer_agrees c c' msg_id node_bytes expected dst evs response :
  process_comm_cmd c (SendAndRespondOnStream msg_id node_bytes expected dst) = Some (c', evs, response) →
  let nodes := (λ x, (x.1, ((get_link msg_id x.1 c).1, x.2))) <$> bmap_iter node_bytes in
  ∃ rs sent, forward_all msg_id nodes c = Some (c', rs, sent) ∧ rs.*1 = (bmap_iter node_bytes).*1 ∧
    let agree := expected ≤ length (succeeded rs) ∧ ∀ i j a b, (i, Ok a) ∈ rs → (j, Ok b) ∈ rs → a.2 = b.2 in
    (agree → response = last (succeeded rs)) ∧ (¬ agree → response = error_response dst) ∧
    ∀ i e, (i, Err e) ∈ rs → 2 ≤ reports i evs.
Proof.
  cbn [process_comm_cmd]. set (nodes := (λ x, (x.1, ((get_link msg_id x.1 c).1, x.2))) <$> bmap_iter node_bytes).
  intros ([[c1 e1] r1] & Hs & [= <- <- <-])%stdpp.option.bind_Some.
  unfold send_and_respond_on_stream in Hs. apply stdpp.option.bind_Some in Hs as ([[c2 rs] sent] & Hf & [= <- <- <-]).
  exists rs, sent. split; [exact Hf|]. split.
  { rewrite (forward_all_nodes _ _ _ _ _ _ Hf). unfold nodes. by rewrite <-list_fmap_compose. }
  assert (Hagree : (∀ i j a b, (i, Ok a) ∈ rs → (j, Ok b) ∈ rs → a.2 = b.2) ↔ all_ok_equal (succeeded rs) = true).
  { rewrite all_ok_equal_spec. split.
    - intros Ha a b [i Hi]%elem_of_succeeded [j Hj]%elem_of_succeeded. by eapply Ha.
    - intros Ha i j a b Hi Hj. apply Ha; apply elem_of_succeeded; eauto. }
  unfold client_response. split; [|split].
  - intros [Hn Ha%Hagree]. rewrite Ha, (bool_decide_eq_false_2 (length (succeeded rs) < expected)); [done|lia].
  - intros Hno. case_bool_decide as Hlt; [done|]. simpl. destruct (all_ok_equal (succeeded rs)) eqn:Ha; [|done].
    destruct Hno. split; [lia|]. by apply Hagree.
  - intros i e Hin. rewrite !reports_app.
    pose proof (reported _ _ _ (failures_report msg_id _ _ _ Hin)) as H2.
    destruct (forward_all_reports _ _ _ _ _ _ _ _ Hf Hin) as [[bs Hb]|Hev%reported]; [|lia].
    assert (1 ≤ reports i (mjoin ((λ x, (get_link msg_id x.1 c).2) <$> bmap_iter node_bytes))) as H1; [|lia].
    unfold nodes in Hb. apply list_elem_of_fmap in Hb as ([j b] & [= -> Hl ->] & Hb).
    apply (reported _ (ConnectingToUnknownNode msg_id)), list_elem_of_join.
    exists (get_link msg_id j c).2. split; [|apply list_elem_of_fmap; by exists (j, b)].
    unfold get_link in *. destruct (links c !! j); [done|]. by left.
Qed.

(** ** Targets *)

Lemma add_link_lookup c i j : links (add_link c i) !! j =
  if decide (j = i) then Some (default (next_link c) (links c !! i)) else links c !! j.
Proof.
  unfold add_link. destruct (links c !! i) as [l|] eqn:Hi; simpl.
  - case_decide as Hj; [by subst|done].
  - case_decide as Hj; [subst; by rewrite lookup_insert_eq|by rewrite lookup_insert_ne].
Qed.
Lemma add_links_lookup l c j : j ∈ l → links (foldl add_link c l) !! j ≠ None.
Proof.
  revert c. induction l as [|i l IH]; intros c; [by intros ?%elem_of_nil|]. simpl.
  destruct (decide (j ∈ l)) as [Hj|Hj]; [intros _; by apply IH|]. intros [->|?]%elem_of_cons; [|done].
  assert (∀ c, links c !! i ≠ None → links (foldl add_link c l) !! i ≠ None) as Hkeep.
  { clear. intros c. revert c. induction l as [|k l IH]; intros c Hc; [done|]. simpl. apply IH. rewrite add_link_lookup. by case_decide. }
  apply Hkeep. rewrite add_link_lookup. by rewrite decide_True.
Qed.
Lemma add_links_old l c j : j ∉ l → links (foldl add_link c l) !! j = links c !! j.
Proof.
  revert c. induction l as [|i l IH]; intros c Hj; [done|]. simpl. rewrite IH by set_solver.
  rewrite add_link_lookup. by rewrite decide_False by set_solver.
Qed.
Lemma add_links_keep l c j link : links c !! j = Some link → links (foldl add_link c l) !! j = Some link.
Proof.
  revert c. induction l as [|i l IH]; intros c Hj; [done|]. simpl. apply IH. rewrite add_link_lookup.
  case_decide as Hi; [subst; by rewrite Hj|done].
Qed.

(** There are links to the targets and to no others, and a node that stays a target keeps its
    link with its connections. *)
Lemma set_targets_exact c targets :
  dom (links (set_targets c targets)) = targets ∧
  ∀ i link, i ∈ targets → links c !! i = Some link → links (set_targets c targets) !! i = Some link.
Proof.
  unfold set_targets. split.
  - apply set_eq. intros i. rewrite elem_of_dom, <-not_eq_None_Some. destruct (decide (i ∈ targets)) as [Hi|Hi].
    + split; [done|]. intros _. apply add_links_lookup. by apply elem_of_bset_iter.
    + split; [|done]. rewrite add_links_old by (by rewrite elem_of_bset_iter). simpl. intros Hn. exfalso. apply Hn.
      apply map_lookup_filter_None. right. by intros x _ Hx.
  - intros i link Hi Hl. apply add_links_keep. simpl. by apply map_lookup_filter_Some.
Qed.

(** A message that overtakes the command that makes its node a target, as it can since each
    command is sent by a task of its own, fails. *)
Lemma overtaken_send_fails c msg_id i bs : links c !! i = None →
  process_comm_cmd c (Send msg_id i bs) = Some (c, [EvError i (ConnectingToUnknownNode msg_id)], None).
Proof. intros Hl. cbn [process_comm_cmd]. unfold get_link. by rewrite Hl. Qed.


(** ** Links are not shared

    A node has a link of its own, and a link that is made is not in use. *)
Record comm_wf c : Prop := {
  wf_own i j link : links c !! i = Some link → links c !! j = Some link → i = j;
  wf_used i link : links c !! i = Some link → link < next_link c;
}.

Lemma add_link_wf c i : comm_wf c → comm_wf (add_link c i).
Proof.
  intros [Hown Hused]. unfold add_link. destruct (links c !! i) as [l|] eqn:Hi; [by split|]. split; simpl.
  - intros j k link. rewrite !lookup_insert. repeat case_decide; subst; try done.
    + intros [= <-] Hk%Hused. lia.
    + intros Hj%Hused [= <-]. lia.
    + apply Hown.
  - intros j link. rewrite lookup_insert. case_decide; [intros [= <-]; lia|]. intros Hj%Hused. lia.
Qed.
Lemma set_targets_wf c targets : comm_wf c → comm_wf (set_targets c targets).
Proof.
  intros [Hown Hused]. unfold set_targets. set (c0 := mkComm _ _ _ _).
  assert (comm_wf c0) as Hc0.
  { split; simpl; intros *; rewrite !map_lookup_filter_Some; [intros [Hi _] [Hj _]; by eapply Hown|intros [Hi _]; by eapply Hused]. }
  revert Hc0. generalize c0. induction (bset_iter targets) as [|i l IH]; intros c1 Hc1; [done|]. simpl. by apply IH, add_link_wf.
Qed.

(** A task changes the connections of links and the network, and no link. *)
Definition same_links c c' : Prop := links c' = links c ∧ next_link c' = next_link c.
Lemma same_links_wf c c' : same_links c c' → comm_wf c → comm_wf c'.
Proof. intros [Hl Hn] [Hown Hused]. split; rewrite Hl, ?Hn; done. Qed.

Lemma forward_all_links msg_id nodes c c' rs evs : forward_all msg_id nodes c = Some (c', rs, evs) → same_links c c'.
Proof.
  revert c c' rs evs. induction nodes as [|[i [link bs]] nodes IH]; intros c c' rs evs; simpl; [by intros [= <- _ _]|].
  intros ([[c1 r] e1] & Ho & Hr)%stdpp.option.bind_Some.
  apply stdpp.option.bind_Some in Hr as ([[c2 rs'] e2] & [Hl Hn]%IH & [= <- _ _]).
  unfold forward_one in Ho. destruct link as [l|]; [|injection Ho as <- _ _; by split].
  destruct (send_with_bi_return_response _ _ _ _ _ _) as [[s [b|x]]|]; [..|done]; injection Ho as <- _ _; by split.
Qed.

Lemma process_comm_cmd_wf c cmd c' evs response :
  comm_wf c → process_comm_cmd c cmd = Some (c', evs, response) → comm_wf c'.
Proof.
  intros Hwf. destruct cmd as [m i bs|targets|m i bs|m node_bytes n dst]; cbn [process_comm_cmd].
  - destruct (get_link m i c) as [[l|] ev]; [|by intros [= <- _ _]].
    intros ([c1 e1] & Hs & [= <- _ _])%stdpp.option.bind_Some. revert Hwf. apply same_links_wf. unfold send in Hs.
    destruct (link_send _ _ _ _ _ _ _) as [[s [u|x]]|]; [..|done]; injection Hs as <- _; by split.
  - intros [= <- _ _]. by apply set_targets_wf.
  - destruct (get_link m i c) as [[l|] ev]; [|by intros [= <- _ _]].
    intros ([c1 e1] & Hs & [= <- _ _])%stdpp.option.bind_Some. revert Hwf. apply same_links_wf. unfold send_and_return_response in Hs.
    destruct (send_with_bi_return_response _ _ _ _ _ _) as [[s [u|x]]|]; [..|done]; injection Hs as <- _; by split.
  - intros ([[c1 e1] r1] & Hs & [= <- _ _])%stdpp.option.bind_Some. unfold send_and_respond_on_stream in Hs.
    apply stdpp.option.bind_Some in Hs as ([[c2 rs] sent] & Hf%forward_all_links & [= <- _ _]). by eapply same_links_wf.
Qed.
End comms.

Module CommsDemo.
Import External.Concrete Xor.ConcreteXor AggregatorDemo NodeDemo WireDemo.

(** A network that takes every connection and answers with a digit of its port. *)
Definition port_of (addr : SocketAddr) : Z := match addr with AddrV4 _ port | AddrV6 _ port _ _ => port end.
#[export] Instance demo_qp2p : Qp2p := {|
  QNet := nat; ConnId := Z * nat; ConnectionError := unit; SendError := unit; RecvError := unit;
  connect_to addr n := (S n, Ok (port_of addr, n));
  open_bi _ n := (n, Ok ());
  send_user_msg _ _ n := (n, Ok ());
  read_response conn n := (n, Ok ([], [Z.of_nat conn.2], [conn.1 / 10])%Z);
  send_with _ _ n := (n, Ok ());
  is_local_close _ := false;
  next_entry s := head (elements s);
|}.
#[export] Instance demo_qp2p_laws : Qp2pLaws.
Proof.
  split.
  - intros s c Hc. apply elem_of_elements, head_Some_elem_of. exact Hc.
  - intros s. simpl. rewrite head_None, elements_empty_iff. by rewrite leibniz_equiv_iff.
Qed.

#[local] Instance demo_order : Ord (NodeId (X := concrete_xor)) := countable_ord.

Definition holder1 : NodeId (X := concrete_xor) := mkNodeId [true] (AddrV4 0 31).
Definition holder2 : NodeId (X := concrete_xor) := mkNodeId [false] (AddrV4 0 32).
Definition gone : NodeId (X := concrete_xor) := mkNodeId [false; true] (AddrV4 0 40).

(** Two of three nodes are targets, and two answers are enough. *)
Definition demo_comm : Comm := set_targets (mkComm ∅ ∅ 0 0) {[holder1; holder2]}.
Definition demo_query : gmap (NodeId (X := concrete_xor)) UsrMsgBytes :=
  {[holder1 := ([], [], [1%Z]); holder2 := ([], [], [1%Z]); gone := ([], [], [1%Z])]}.
Definition demo_forward (expected : nat) :=
  process_comm_cmd (BSh := concrete_shares) (BPS := node_public_shares) (E := node_ed) (MsgId := nat) 3 (λ _ cs, cs) (Some [0%Z]) 5 demo_comm
    (SendAndRespondOnStream 7 demo_query expected demo_dst).

Definition demo_forwarded := forward_all (BSh := concrete_shares) (BPS := node_public_shares) (E := node_ed) (MsgId := nat) 3 (λ _ cs, cs) 7
  ((λ x, (x.1, ((get_link (BSh := concrete_shares) (BPS := node_public_shares) (E := node_ed) 7 x.1 demo_comm).1, x.2))) <$> bmap_iter demo_query)
  demo_comm.
Definition answers : list (NodeId (X := concrete_xor) * result (CommError (MsgId := nat)) UsrMsgBytes) :=
  [(holder1, Ok ([], [0%Z], [3%Z])); (holder2, Ok ([], [1%Z], [3%Z])); (gone, Err (ConnectingToUnknownNode 7))].
Lemma demo_answers : (λ x, x.1.2) <$> demo_forwarded = Some answers.
Proof. vm_compute. reflexivity. Qed.

Lemma demo_forwards : (match demo_forward 2 with Some _ => true | None => false end) = true.
Proof. vm_compute. reflexivity. Qed.

Lemma answers_agree i j a b : (i, Ok a) ∈ answers → (j, Ok b) ∈ answers → a.2 = b.2.
Proof.
  assert (Forall (λ x, match x.2 with Ok a => a.2 = [3%Z] | Err _ => True end) answers) as Hsame by (by repeat constructor).
  rewrite Forall_forall in Hsame. intros Ha%Hsame Hb%Hsame. simpl in *; congruence.
Qed.
Lemma gone_answers : (gone, Err (ConnectingToUnknownNode 7)) ∈ answers.
Proof. unfold answers. by right; right; left. Qed.

Lemma client_answer_agrees_witness :
  ∃ c' evs response, demo_forward 2 = Some (c', evs, Some response) ∧ response.2 = [3%Z] ∧ 2 ≤ reports gone evs.
Proof.
  destruct (demo_forward 2) as [[[c' evs] response]|] eqn:Hd; [|pose proof demo_forwards as Hf; rewrite Hd in Hf; discriminate].
  destruct (client_answer_agrees 3 (λ _ cs, cs) (Some [0%Z]) 5 demo_comm c' 7 demo_query 2 demo_dst evs response Hd)
    as (rs & sent & Hf & _ & Hagree & _ & Hrep).
  assert (Hrs : rs = answers).
  { pose proof demo_answers as Ha. unfold demo_forwarded in Ha. rewrite Hf in Ha. by injection Ha. }
  subst rs. exists c', evs, ([], [1%Z], [3%Z]). split; [|split; [done|]].
  - rewrite (Hagree (conj (le_n 2) answers_agree)). reflexivity.
  - apply (Hrep gone (ConnectingToUnknownNode 7)). exact gone_answers.
Defined.
End CommsDemo.
