(* ===== verification/Fees.v ===== *)
(** * Fees and DBCs

    [sn_interface/src/types/fees], [op_cost/mod.rs] and [dbcs/reasons.rs]: the fee that an elder
    asks for a spend, the ciphers that show him that it is paid, and how much it is.  The crate
    [sn_dbc] and the ciphers and secret keys of [blsttc] are classes of operations.  A token is
    its number of nanos; [None] is a panic. *)

From Stdlib Require Import SpecFloat.
From S2P Require Import Prelude External Xor NodeState UsedSpace.

(** ** Crates *)

(** [bls::SecretKey] and [bls::Ciphertext]; encrypting takes randomness. *)
Class BlsCiphers {B : Bls} := {
  SecretKey : Type;
  Ciphertext : Type;
  Seed : Type;
  sk_public_key : SecretKey → PublicKey;
  sk_sign : SecretKey → bytes → Signature;
  pk_encrypt : Seed → PublicKey → bytes → Ciphertext;
  sk_decrypt : SecretKey → Ciphertext → option bytes;
  ciphertext_bytes : Ciphertext → bytes;
  bls_key_bytes : PublicKey → bytes;
  bls_sig_bytes : Signature → bytes;
}.
Class BlsCiphersLaws {B : Bls} {BCi : BlsCiphers} : Prop := {
  sk_decrypt_encrypt seed sk m : sk_decrypt sk (pk_encrypt seed (sk_public_key sk) m) = Some m;
  sk_sign_verify sk m : pk_verify (sk_public_key sk) (sk_sign sk m) m = true;
}.

(** [sn_dbc]: amounts with their blinding, transactions with their outputs, the keys that
    owners derive, and the hashes of a transaction and of what a spent proof signs. *)
Class Dbcs {B : Bls} {BCi : BlsCiphers} := {
  BlindedAmount : Type;
  blinded_eq_dec :: EqDecision BlindedAmount;
  RevealedAmount : Type;
  revealed_value : RevealedAmount → Z;
  blind : RevealedAmount → BlindedAmount;
  (** [RevealedAmount::try_from((&secret_key, &cipher))]. *)
  reveal : SecretKey → Ciphertext → option RevealedAmount;
  (** [Owner::from(secret).derive(index).secret_key()]. *)
  derive_key : SecretKey → bytes → SecretKey;
  DbcTransaction : Type;
  (** The outputs: their keys and amounts. *)
  tx_outputs : DbcTransaction → list (PublicKey * BlindedAmount);
  tx_hash : DbcTransaction → bytes;
  tx_verify : DbcTransaction → list BlindedAmount → bool;
  hash_content : PublicKey → bytes → bytes → BlindedAmount → bytes;
}.

(** ** Reasons *)

(** [DbcReason] is the hash of the data paid for; the default is all zeros. *)
Definition DbcReason : Type := bytes.
Definition reason_none : DbcReason := replicate 32 0%Z.
Definition reason_is_empty (r : DbcReason) : bool := bool_decide (r = reason_none).
Definition reason_of_name {X : Xor} (n : XorName) : DbcReason := xn_bytes n.

(** ** The required fee *)

Section fees.
Context {B : Bls} {BCi : BlsCiphers} {DB : Dbcs}.

Inductive FeesError :=
  | RequiredFeeSignatureInvalid
  | AmountDecryptionFailed
  | FeesDbc.

Definition AMOUNT_SIZE : nat := 8.

Record RequiredFeeContent := mkFeeContent { amount_cipher : Ciphertext; elder_reward_key : PublicKey }.

Definition fee_content_new (seed : Seed) (amount : Z) (dbc_id : PublicKey) (reward_key : PublicKey) : RequiredFeeContent :=
  mkFeeContent (pk_encrypt seed dbc_id (to_le_bytes AMOUNT_SIZE amount)) reward_key.

Definition fee_content_bytes (c : RequiredFeeContent) : bytes :=
  ciphertext_bytes (amount_cipher c) ++ bls_key_bytes (elder_reward_key c).

(** Slicing the decrypted bytes panics if there are fewer than eight. *)
Definition decrypt_amount (c : RequiredFeeContent) (dbc_secret_key : SecretKey) : option (result FeesError Z) :=
  match sk_decrypt dbc_secret_key (amount_cipher c) with
  | None => Some (Err AmountDecryptionFailed)
  | Some bs =>
      if decide (length bs < AMOUNT_SIZE) then None
      else Some (Ok (from_le_bytes (take AMOUNT_SIZE bs)))
  end.

Record RequiredFee := mkRequiredFee { fee_content : RequiredFeeContent; elder_reward_key_sig : Signature }.

Definition required_fee_new (seed : Seed) (amount : Z) (dbc_id : PublicKey) (reward_secret : SecretKey) : RequiredFee :=
  let content := fee_content_new seed amount dbc_id (sk_public_key reward_secret) in
  mkRequiredFee content (sk_sign reward_secret (fee_content_bytes content)).

Definition required_fee_verify (f : RequiredFee) : result FeesError unit :=
  if pk_verify (elder_reward_key (fee_content f)) (elder_reward_key_sig f) (fee_content_bytes (fee_content f)) then Ok ()
  else Err RequiredFeeSignatureInvalid.

Definition required_fee_bytes (f : RequiredFee) : bytes :=
  fee_content_bytes (fee_content f) ++ bls_sig_bytes (elder_reward_key_sig f).

(** ** The ciphers of a paid fee *)

Record FeeCiphers := mkFeeCiphers { fc_amount : Ciphertext; fc_derivation_index : Ciphertext }.

(** The decrypted index is cut to 32 bytes, which panics if it is shorter. *)
Definition decrypt_derivation_index (f : FeeCiphers) (reward_secret : SecretKey) : option (result FeesError bytes) :=
  match sk_decrypt reward_secret (fc_derivation_index f) with
  | None => Some (Err FeesDbc)
  | Some bs => if decide (length bs < 32) then None else Some (Ok (take 32 bs))
  end.

Definition fee_decrypt (f : FeeCiphers) (reward_secret : SecretKey)
    : option (result FeesError (PublicKey * RevealedAmount)) :=
  match decrypt_derivation_index f reward_secret with
  | None => None
  | Some (Err e) => Some (Err e)
  | Some (Ok index) =>
      let derived_sk := derive_key reward_secret index in
      match reveal derived_sk (fc_amount f) with
      | None => Some (Err FeesDbc)
      | Some amount => Some (Ok (sk_public_key derived_sk, amount))
      end
  end.
End fees.

(** ** The cost of a write *)

(** [f64::powf] of the platform. *)
Class Powf := powf : f64 → f64 → f64.

Section cost.
Context {PW : Powf}.

Definition f64_add : f64 → f64 → f64 := SFadd 53 1024.
(** A decimal literal: the nearest double of the quotient. *)
Definition f64_lit (num den : Z) : f64 := f64_div (f64_of_Z num) (f64_of_Z den).

(** [round] (half away from zero) followed by [as u64]; what is not positive gives 0. *)
Definition f64_round_u64 (x : f64) : Z :=
  match x with
  | S754_finite false m e =>
      Z.min (2 ^ 64 - 1) (if (0 <=? e)%Z then Z.pos m * 2 ^ e else (Z.pos m + 2 ^ (- e - 1)) / 2 ^ (- e))
  | _ => f64_to_usize x
  end.

Definition TOKEN_TO_RAW_CONVERSION : Z := 1000000000.
Definition MAX_SUPPLY : Z := (2 ^ 32 - 1 + 1) * TOKEN_TO_RAW_CONVERSION.
Definition max_supply_share_per_section (prefix_len : Z) : Z :=
  f64_to_usize (f64_div (f64_of_Z MAX_SUPPLY) (powf (f64_of_Z 2) (f64_of_Z prefix_len))).

(** [max_chunk_size] is that of the crate [self_encryption]. *)
Definition required_tokens (max_chunk_size bytes prefix_len num_nodes : Z) (percent_filled : f64) : Z :=
  let available_nodes := f64_of_Z num_nodes in
  let supply_demand_factor :=
    f64_add (f64_add (f64_lit 1 1000)
               (powf (f64_div (f64_of_Z 1) (f64_mul (f64_of_Z 20) available_nodes)) (f64_of_Z 8)))
      (powf percent_filled (f64_of_Z 3)) in
  let byte_size_share := f64_div (f64_of_Z bytes) (f64_of_Z max_chunk_size) in
  let data_size_factor := f64_add byte_size_share (powf byte_size_share (f64_of_Z 2)) in
  let steepness_reductor := f64_add (f64_of_Z prefix_len) (f64_of_Z 1) in
  let supply_share := f64_of_Z (max_supply_share_per_section prefix_len) in
  let token_source := f64_mul steepness_reductor (powf supply_share (f64_div (f64_of_Z 1) (f64_of_Z 2))) in
  let required := f64_round_u64 (f64_mul (f64_mul token_source data_size_factor) supply_demand_factor) in
  Z.max 1 required.
End cost.

(** * Properties of fees

    A client reads the fee that an elder asks for, and the elder signed it; which ciphers
    make the elder panic; the cost is never zero. *)

Section fees.
Context {B : Bls} {BCi : BlsCiphers} {BCL : BlsCiphersLaws} {DB : Dbcs}.

(** The fee that an elder states is signed by his reward key, and the holder of the
    DBC that is to be spent reads the amount from it. *)
Theorem required_fee_roundtrip seed amount dbc_secret reward_secret :
  (0 ≤ amount < 2 ^ 64)%Z →
  let f := required_fee_new seed amount (sk_public_key dbc_secret) reward_secret in
  required_fee_verify f = Ok () ∧ elder_reward_key (fee_content f) = sk_public_key reward_secret ∧
  decrypt_amount (fee_content f) dbc_secret = Some (Ok amount).
Proof.
  intros Ha f. split; [|split; [done|]].
  - unfold required_fee_verify, f, required_fee_new. cbn. by rewrite sk_sign_verify.
  - unfold decrypt_amount, f, required_fee_new, fee_content_new. cbn [fee_content amount_cipher].
    rewrite sk_decrypt_encrypt.
    rewrite decide_False by (rewrite length_to_le_bytes; lia).
    rewrite take_ge by (rewrite length_to_le_bytes; done). by rewrite from_to_le_bytes.
Qed.

(** Decrypting the ciphers of a fee panics exactly for an index of fewer than 32 bytes. *)
Lemma fee_decrypt_panics f reward_secret :
  fee_decrypt f reward_secret = None ↔
  ∃ bs, sk_decrypt reward_secret (fc_derivation_index f) = Some bs ∧ length bs < 32.
Proof.
  unfold fee_decrypt, decrypt_derivation_index. destruct (sk_decrypt _ _) as [bs|].
  - case_decide; [naive_solver|]. destruct (reveal _ _); split; (done || naive_solver).
  - split; [done|naive_solver].
Qed.
End fees.

Section cost.
Context {PW : Powf}.

(** The required tokens are a positive number of 64 bits, whatever the powers are. *)
Lemma required_tokens_range max_chunk_size bytes prefix_len num_nodes filled :
  (1 ≤ required_tokens max_chunk_size bytes prefix_len num_nodes filled < 2 ^ 64)%Z.
Proof.
  unfold required_tokens. set (x := f64_mul _ _). cut (f64_round_u64 x ≤ 2 ^ 64 - 1)%Z; [lia|].
  unfold f64_round_u64, f64_to_usize. destruct x as [|[]| |[] m e]; lia.
Qed.
End cost.
