(* ===== verification/ClientMsgs.v ===== *)
(** * Messages of clients

    [sn_node/src/node/messaging/client_msgs.rs] and [data.rs], [store_data_and_respond] of
    [node_msgs.rs], the fee of [node/context.rs], [build_spent_proof_share] of
    [network_knowledge/section_keys.rs] and the messages of [messaging/data]: storing data,
    answering queries, signing spends and forwarding to the holders of data.

    A handler takes the snapshot of the node with its storage, which the snapshot shares with
    the node, and returns it with the storage changed.  [None] is a panic.  Of the commands of
    the node those that these handlers return are kept. *)

From Stdlib Require Import SpecFloat.
From S2P Require Import Prelude External Xor NodeState SectionsDag Sap SectionTree MemberHistory.
From S2P Require Import NetworkKnowledge Aggregator Keys Register UsedSpace Storage Membership Handover Relocation.
From S2P Require Import Dkg FaultDetection MyNode WireMsg Fees.

Section client_msgs.
Context {B : Bls} {BSh : BlsShares} {BPS : BlsPublicShares} {E : Ed25519} {EK : EdKeypairs} {X : Xor} {Cfg : Settings}.
Context {NH : NameHashing} {BP : Bincode PublicKey} {MS : Merkle SectionInfo} {M : Merkle bytes}.
Context {Trigger : Type} `{Countable Trigger} {C : ConsensusDecision Trigger}.
Context {OS : Ord (NodeState Trigger)} {BN : Bincode (NodeState Trigger)} {ON : Ord NodeId}.
Context {BSap : Bincode (SectionAuthorityProvider Trigger)}.
Context {BA : Bincode RegisterAddress} {BC : Bincode CreateRegister} {BE : Bincode EditRegister}.
Context (CmdId : Type) `{Countable CmdId} (register_operation_id : RegisterCmd → option CmdId).
Context (cmd_size : Z) (list_files : gmap CmdId RegisterCmd → list RegisterCmd).
Context {OE : Ord (Hash bytes * bytes)}.
Context {BCi : BlsCiphers} {DB : Dbcs} {PW : Powf}.
Context {MsgId Stream ClientId : Type}.
(** [data_copy_count()], the size of a [DataCmd] in memory and the largest size of a chunk. *)
Context (copies : nat) (data_cmd_size max_chunk_size : Z).
(** The section signature over a fixed text with which a holder creates spentbooks. *)
Context (todo_sig : SectionSig).

Abbreviation Storage := (DataStorage CmdId).
Abbreviation Knowledge := (NetworkKnowledge Trigger).
Abbreviation SignedSap := (SectionSigned (SectionAuthorityProvider Trigger)).
Abbreviation Wire := (@WireMsg B BSh BPS E X MsgId).

(** ** Spent proofs

    The structures of [sn_dbc]. *)

Record SpentProofContent := mkProofContent {
  spc_public_key : PublicKey;
  spc_transaction_hash : bytes;
  spc_reason : DbcReason;
  spc_blinded_amount : BlindedAmount;
}.
Definition content_hash (c : SpentProofContent) : bytes :=
  hash_content (spc_public_key c) (spc_transaction_hash c) (spc_reason c) (spc_blinded_amount c).

Record SpentProof := mkSpentProof {
  sp_content : SpentProofContent;
  sp_spentbook_pub_key : PublicKey;
  sp_spentbook_sig : Signature;
}.
Record SpentProofShare := mkProofShare {
  sps_content : SpentProofContent;
  sps_spentbook_pks : PublicKeySet;
  sps_index : nat;
  sps_sig_share : SignatureShare;
}.

(** [get_blinded_amounts_from_transaction] of [sn_dbc], and the encodings of a share. *)
Context (get_blinded_amounts : DbcTransaction → list SpentProof → list DbcTransaction →
  option (list (PublicKey * BlindedAmount))).
Context {RS : Rmp SpentProofShare}.

(** ** Messages *)

Record SpentbookCmd := mkSpend {
  spend_public_key : PublicKey;
  spend_tx : DbcTransaction;
  spend_reason : DbcReason;
  (** The sets of proofs and transactions, in their order. *)
  spend_spent_proofs : list SpentProof;
  spend_spent_transactions : list DbcTransaction;
  spend_network_knowledge : option (SectionsDAG * SignedSap);
  spend_fee_ciphers : gmap XorName FeeCiphers;
}.
Definition spentbook_name (c : SpentbookCmd) : XorName := from_content (pk_to_bytes (spend_public_key c)).

Inductive DataCmd :=
  | StoreChunk (chunk : Chunk)
  | StoreRegister (cmd : RegisterCmd)
  | Spentbook (cmd : SpentbookCmd).

(** The queries of clients; fees are asked for with the id of a DBC. *)
Inductive ClientQuery :=
  | GetFees (dbc_id : PublicKey)
  | Stored (q : DataQuery).

Inductive ClientMsg := ClientCmdMsg (cmd : DataCmd) | ClientQueryMsg (q : ClientQuery).

Definition cmd_dst_name (c : DataCmd) : XorName :=
  match c with
  | StoreChunk chunk => ch_address chunk
  | StoreRegister cmd => ra_name (dst_address cmd)
  | Spentbook cmd => spentbook_name cmd
  end.

Inductive CmdResponse :=
  | RespStoreChunk (r : result ErrorMsg unit)
  | RespCreateRegister (r : result ErrorMsg unit)
  | RespEditRegister (r : result ErrorMsg unit)
  | RespSpendKey (r : result ErrorMsg unit).

Definition cmd_result (r : CmdResponse) : result ErrorMsg unit :=
  match r with RespStoreChunk r | RespCreateRegister r | RespEditRegister r | RespSpendKey r => r end.

(** [CmdResponse::ok] and [CmdResponse::err]. *)
Definition respond (data : ReplicatedData) (r : result ErrorMsg unit) : result ErrorMsg CmdResponse :=
  match data with
  | ReplChunk _ => Ok (RespStoreChunk r)
  | ReplRegisterWrite (CmdCreate _ _ _) => Ok (RespCreateRegister r)
  | ReplRegisterWrite (CmdEdit _ _) => Ok (RespEditRegister r)
  | ReplSpentbookWrite _ => Ok (RespSpendKey r)
  | ReplRegisterLog _ | ReplSpentbookLog _ => Err MsgNoCorrespondingCmdError
  end.
Definition response_ok (data : ReplicatedData) : result ErrorMsg CmdResponse := respond data (Ok ()).
Definition response_err (data : ReplicatedData) (e : ErrorMsg) : result ErrorMsg CmdResponse := respond data (Err e).

Definition register_error_response (c : RegisterCmd) (e : ErrorMsg) : CmdResponse :=
  match c with CmdCreate _ _ _ => RespCreateRegister (Err e) | CmdEdit _ _ => RespEditRegister (Err e) end.
Definition to_error_response (c : DataCmd) (e : ErrorMsg) : CmdResponse :=
  match c with
  | StoreChunk _ => RespStoreChunk (Err e)
  | StoreRegister c => register_error_response c e
  | Spentbook _ => RespSpendKey (Err e)
  end.

Inductive QueryResponse :=
  | RespFees (r : result ErrorMsg RequiredFee)
  | RespStored (r : NodeQueryResponse SpentProofShare).

(** Whether a response says that the data is not there. *)
Definition is_data_not_found (r : QueryResponse) : bool :=
  let missing {A} (r : result ErrorMsg A) := match r with Err (MsgDataNotFound _) => true | _ => false end in
  let missing_user {A} (r : result ErrorMsg A) := match r with Err (MsgNoSuchUser _) => true | _ => missing r end in
  match r with
  | RespFees _ => false
  | RespStored r =>
      match r with
      | RespGetChunk _ r => missing r
      | RespGetRegister _ r => missing r
      | RespGetRegisterEntry _ r => match r with Err (MsgNoSuchEntry _) => true | _ => missing r end
      | RespGetRegisterOwner _ r => missing_user r
      | RespReadRegister _ r => missing r
      | RespGetRegisterPolicy _ r => missing_user r
      | RespGetRegisterUserPermissions _ r => missing_user r
      | RespGetSpentProofShares _ r => missing r
      | RespGetFees _ _ => false
      end
  end.

Inductive DataResponse :=
  | NetworkIssue (e : ErrorMsg)
  | QueryResponseMsg (response : QueryResponse) (correlation_id : MsgId)
  | CmdResponseMsg (response : CmdResponse) (correlation_id : MsgId).

(** The messages to nodes that these handlers send. *)
Inductive DataNodeMsg :=
  | StoreData (data : ReplicatedData)
  | CouldNotStore (node_id : ClientKey) (data_address : DataAddress) (full : bool)
  | SendAnyMissing (data_i_have : list DataAddress).
Context {RN : Rmp DataNodeMsg}.

(** The commands that these handlers return. *)
Inductive ClientCmd :=
  | SendDataResponse (msg : DataResponse) (correlation_id : MsgId) (client : ClientId) (stream : Stream)
  | SendAndForwardResponseToClient (wire_msg : Wire) (targets : gset NodeId) (stream : Stream) (client : ClientId)
  | UpdateNetworkAndHandleValidClientMsg (proof_chain : SectionsDAG) (signed_sap : SignedSap) (msg_id : MsgId)
      (msg : ClientMsg) (client : ClientId) (stream : Stream) (auth : ClientAuth)
  | AllowJoins (allowed : bool)
  | AllowJoinsUntilSplit (allowed : bool)
  | SendDataMsg (msg : DataNodeMsg) (recipients : Recipients).

(** The errors of a node that these handlers give. *)
Inductive ClientMsgError :=
  | MissingFee
  | InvalidFeeBlindedAmount
  | FeeTooLow (paid required : Z)
  | FeeError (e : FeesError)
  | SpentbookError
  | DbcError
  | SpentProofUnknownSectionKey (key : PublicKey)
  | NetworkDataError (e : RegError)
  | NetworkKnowledgeError (e : External.Error)
  | ClientMsgErr (e : ErrorMsg)
  | BincodeFailed
  | MessagingFailed (e : WireError).

Definition client_error_msg (e : ClientMsgError) : ErrorMsg :=
  match e with
  | SpentProofUnknownSectionKey key => MsgSpentProofUnknownSectionKey key
  | NetworkDataError e => reg_error_msg e
  | _ => MsgInvalidOperation
  end.

(** ** The snapshot of a node *)

Record NodeContext := mkContext {
  ctx_is_elder : bool;
  ctx_data_storage : Storage;
  ctx_name : XorName;
  ctx_keypair : Keypair;
  ctx_reward_secret_key : SecretKey;
  ctx_network_knowledge : Knowledge;
  ctx_section_keys_provider : list SectionKeyShare;
  ctx_joins_allowed : bool;
  ctx_joins_allowed_until_split : bool;
}.
Definition with_storage (c : NodeContext) (s : Storage) : NodeContext :=
  mkContext (ctx_is_elder c) s (ctx_name c) (ctx_keypair c) (ctx_reward_secret_key c) (ctx_network_knowledge c)
    (ctx_section_keys_provider c) (ctx_joins_allowed c) (ctx_joins_allowed_until_split c).
Definition with_knowledge (c : NodeContext) (k : Knowledge) : NodeContext :=
  mkContext (ctx_is_elder c) (ctx_data_storage c) (ctx_name c) (ctx_keypair c) (ctx_reward_secret_key c) k
    (ctx_section_keys_provider c) (ctx_joins_allowed c) (ctx_joins_allowed_until_split c).

(** [as u8] of a count. *)
Definition count_u8 (n : nat) : Z := (Z.of_nat n mod 2 ^ 8)%Z.

Definition current_fee (c : NodeContext) : Z :=
  let prefix_len := Z.of_nat (px_bit_count (nk_prefix (ctx_network_knowledge c))) in
  let num_storage_nodes := count_u8 (size (nk_members (ctx_network_knowledge c))) in
  required_tokens max_chunk_size data_cmd_size prefix_len num_storage_nodes (ratio (used _ (ctx_data_storage c))).

(** The node's own key, as a client key, and its signatures. *)
Definition own_key (c : NodeContext) : ClientKey := KeyEd25519 (kp_public (ctx_keypair c)).
Definition own_sign (c : NodeContext) (bs : bytes) : ClientSignature := SigEd25519 (ed_sign bs (ctx_keypair c)).

(** A computation that may panic or fail. *)
Definition Checked (A : Type) : Type := option (result ClientMsgError A).
#[export] Instance checked_ret : MRet Checked := λ A a, Some (Ok a).
#[export] Instance checked_bind : MBind Checked := λ A A' f m,
  match m with None => None | Some (Err e) => Some (Err e) | Some (Ok a) => f a end.
Definition checked {A} (r : result ClientMsgError A) : Checked A := Some r.
Definition refuse {A} (e : ClientMsgError) : Checked A := Some (Err e).

(** ** Spends *)

(** The fee must be paid to a key derived from ours, with the amount that the ciphers reveal,
    and at least nine tenths of the current fee. *)
Definition verify_fee (store_cost : Z) (reward_secret_key : SecretKey) (tx : DbcTransaction) (our_name : XorName)
    (fee_ciphers : gmap XorName FeeCiphers) : Checked unit :=
  ciphers ← checked (ok_or (fee_ciphers !! our_name) MissingFee);
  '(derived_key, revealed_amount) ← map_err FeeError <$> fee_decrypt ciphers reward_secret_key;
  '(_, output_amount) ← checked (ok_or (snd <$> list_find (λ o, o.1 = derived_key) (tx_outputs tx)) MissingFee);
  if decide (blind revealed_amount ≠ output_amount) then refuse InvalidFeeBlindedAmount else
  let paid := revealed_value revealed_amount in
  let required := f64_to_usize (f64_mul (f64_of_Z store_cost) (f64_lit 9 10)) in
  if decide (paid < required)%Z then refuse (FeeTooLow paid required) else mret ().

Definition proof_valid (p : SpentProof) : bool :=
  pk_verify (sp_spentbook_pub_key p) (sp_spentbook_sig p) (content_hash (sp_content p)).

(** All signatures first, then the keys, in their order. *)
Definition verify_spent_proofs (proofs : list SpentProof) (k : Knowledge) : result ClientMsgError unit :=
  if negb (forallb proof_valid proofs) then Err SpentbookError
  else
    let keys := bset_iter (list_to_set (sp_spentbook_pub_key <$> proofs) : gset PublicKey) in
    match list_find (λ key, verify_section_key_is_known k key = false) keys with
    | Some (_, key) => Err (SpentProofUnknownSectionKey key)
    | None => Ok ()
    end.

Definition sign_with (skp : list SectionKeyShare) (data : bytes) (public_key : PublicKey)
    : result Error (nat * SignatureShare) :=
  share ← ok_or (snd <$> list_find (λ s, public_key = pks_public_key (ks_public_key_set s)) skp)
    (MissingSecretKeyShare public_key);
  Ok (ks_index share, sk_share_sign (ks_secret_key_share share) data).

Definition build_spent_proof_share (public_key : PublicKey) (tx : DbcTransaction) (reason : DbcReason)
    (sap : SectionAuthorityProvider Trigger) (skp : list SectionKeyShare) (blinded_amount : BlindedAmount)
    : result Error SpentProofShare :=
  let content := mkProofContent public_key (tx_hash tx) reason blinded_amount in
  '(index, sig_share) ← sign_with skp (content_hash content) (section_key sap);
  Ok (mkProofShare content (sap_public_key_set sap) index sig_share).

Definition gen_spent_proof_share (c : NodeContext) (cmd : SpentbookCmd) : Checked SpentProofShare :=
  let tx := spend_tx cmd in
  let k := ctx_network_knowledge c in
  _ ← verify_fee (current_fee c) (ctx_reward_secret_key c) tx (ctx_name c) (spend_fee_ciphers cmd);
  _ ← checked (verify_spent_proofs (spend_spent_proofs cmd) k);
  blinded_amounts_info ← checked
    (ok_or (get_blinded_amounts tx (spend_spent_proofs cmd) (spend_spent_transactions cmd)) DbcError);
  if negb (tx_verify tx (snd <$> blinded_amounts_info)) then refuse SpentbookError else
  blinded_amount ← checked
    (ok_or (snd ∘ snd <$> list_find (λ e, e.1 = spend_public_key cmd) blinded_amounts_info) SpentbookError);
  checked (map_err NetworkKnowledgeError
    (build_spent_proof_share (spend_public_key cmd) tx (spend_reason cmd) (value (nk_signed_sap k))
       (ctx_section_keys_provider c) blinded_amount)).

(** ** Holders of data *)

(** Members by their distance to the target. *)
Definition closer_member (target : XorName) (lhs rhs : NodeId) : bool :=
  bool_decide (xn_cmp_distance target (id_name lhs) (id_name rhs) ≠ Gt).
Definition sorted_members (k : Knowledge) (target : XorName) : list NodeId :=
  stable_sort (closer_member target) (bset_iter (nk_members k)).

Definition target_data_holders (k : Knowledge) (target : XorName) (query_index : option nat) : gset NodeId :=
  let candidates := take copies (sorted_members k target) in
  list_to_set (match query_index with
               | Some index => option_list (candidates !! index)
               | None => candidates
               end).

(** [index as u8 + 1] panics on overflow in a debug build; it wraps around otherwise. *)
Definition forward_data_and_respond_to_client (c : NodeContext) (wire_msg : Wire) (client : ClientId) (stream : Stream)
    : ClientCmd :=
  let msg_id := wm_msg_id wire_msg in
  let k := ctx_network_knowledge c in
  let query_index := query_index (wm_kind wire_msg) in
  let targets := target_data_holders k (dst_name (wm_dst wire_msg)) query_index in
  let issue expected found :=
    SendDataResponse (NetworkIssue (MsgInsufficientNodeCount (nk_prefix k) expected found)) msg_id client stream in
  match query_index with
  | None =>
      if decide (size targets < copies) then issue (count_u8 copies) (count_u8 (size targets))
      else SendAndForwardResponseToClient wire_msg targets stream client
  | Some index =>
      if decide (targets = ∅) then issue ((count_u8 index + 1) mod 2 ^ 8)%Z (count_u8 (size (nk_members k)))
      else SendAndForwardResponseToClient wire_msg targets stream client
  end.

(** The command that writes a share into the spentbook of its key. *)
Definition gen_register_cmd (share : SpentProofShare) (public_key : PublicKey) (c : NodeContext)
    : result ClientMsgError RegisterCmd :=
  let owner := Key (own_key c) in
  let p := mkPolicy owner {[Anyone := mkPermissions (Some true)]} in
  let register := Register.new owner (from_content (pk_to_bytes public_key)) SPENTBOOK_TYPE_TAG p in
  entry ← ok_or (rmp_encode share) SpentbookError;
  '(_, op) ← map_err NetworkDataError (Register.write register entry ∅).2;
  let op := mkEdit (Register.address register) op in
  bs ← ok_or (bincode_serialize op) BincodeFailed;
  Ok (CmdEdit op (mkClientAuth (own_key c) (own_sign c bs))).

Definition serialize_node_msg (our_name : XorName) (msg : DataNodeMsg) : result ClientMsgError (@MsgKind B BSh BPS E X * bytes) :=
  payload ← map_err MessagingFailed (serialize_msg_payload msg);
  Ok (KindNode our_name false, payload).

(** The number of holders is not checked here. *)
Definition forward_spent_share (c : NodeContext) (msg_id : MsgId) (share : SpentProofShare) (public_key : PublicKey)
    (client : ClientId) (stream : Stream) : result ClientMsgError (list ClientCmd) :=
  reg_cmd ← gen_register_cmd share public_key c;
  let name := ra_name (dst_address reg_cmd) in
  sap ← map_err NetworkKnowledgeError (section_auth_by_name (ctx_network_knowledge c) name);
  '(kind, payload) ← serialize_node_msg (ctx_name c) (StoreData (ReplSpentbookWrite reg_cmd));
  let wire_msg := new_msg msg_id payload kind (mkDst _ _ name (section_key sap)) in
  let targets := target_data_holders (ctx_network_knowledge c) name None in
  Ok [SendAndForwardResponseToClient wire_msg targets stream client].

(** ** Storing *)

Definition repl_address (d : ReplicatedData) : DataAddress :=
  match d with
  | ReplChunk c => BytesAddr (ch_address c)
  | ReplRegisterLog l => RegisterAddr (log_address l)
  | ReplRegisterWrite c => RegisterAddr (dst_address c)
  | ReplSpentbookLog l => SpentbookAddr (ra_name (log_address l))
  | ReplSpentbookWrite c => SpentbookAddr (ra_name (dst_address c))
  end.

Definition store_data (c : NodeContext) (data : ReplicatedData) : NodeContext * result StError StorageLevel :=
  let section_pk := KeyBls (nk_section_key (ctx_network_knowledge c)) in
  let '(s, r) := store from_content CmdId register_operation_id cmd_size list_files (ctx_data_storage c) data section_pk
                   (own_key c) (own_sign c) todo_sig in
  (with_storage c s, r).

Definition could_not_store (c : NodeContext) (data : ReplicatedData) : ClientCmd :=
  SendDataMsg (CouldNotStore (own_key c) (repl_address data) true) (Multiple (nk_elders (ctx_network_knowledge c))).

Definition store_data_and_respond (c : NodeContext) (data : ReplicatedData) (stream : Stream) (client : ClientId)
    (correlation_id : MsgId) : NodeContext * result ClientMsgError (list ClientCmd) :=
  let '(c, stored) := store_data c data in
  let '(cmds, response) :=
    match stored with
    | Ok (Updated _) => ([AllowJoins true], response_ok data)
    | Ok NoChange =>
        (if has_reached_min_capacity (used _ (ctx_data_storage c)) && negb (ctx_joins_allowed_until_split c)
         then [AllowJoinsUntilSplit true] else [], response_ok data)
    | Err NotEnoughSpace =>
        ((if ctx_is_elder c && negb (ctx_joins_allowed c) then [AllowJoinsUntilSplit true] else []) ++
           [could_not_store c data],
         response_err data (st_error_msg NotEnoughSpace))
    | Err _ => ([], response_ok data)
    end in
  (c, response ← map_err ClientMsgErr response;
      Ok (cmds ++ [SendDataResponse (CmdResponseMsg response correlation_id) correlation_id client stream])).

(** The batch is stored item by item; [full] tells whether the space was not enough for one,
    [passed] whether joins were already allowed for it. *)
Fixpoint store_batch (c : NodeContext) (batch : list ReplicatedData) (full passed : bool) : NodeContext * list ClientCmd * bool :=
  match batch with
  | [] => (c, [], full)
  | data :: batch =>
      let '(c, stored) := store_data c data in
      match stored with
      | Ok (Updated _) =>
          if negb passed && negb (ctx_joins_allowed c) then
            let '(c, cmds, full) := store_batch c batch full true in (c, AllowJoins true :: cmds, full)
          else store_batch c batch full passed
      | Err NotEnoughSpace =>
          let '(c', cmds, full) := store_batch c batch true passed in (c', could_not_store c data :: cmds, full)
      | Ok NoChange | Err _ => store_batch c batch full passed
      end
  end.

Definition replicate_data_batch (c : NodeContext) (sender : NodeId) (batch : list ReplicatedData) : NodeContext * list ClientCmd :=
  let '(c, cmds, is_full) := store_batch c batch false false in
  if negb is_full && negb (bool_decide (batch = [])) then
    (c, cmds ++ [SendDataMsg (SendAnyMissing (data_addrs CmdId list_files (ctx_data_storage c))) (Single sender)])
  else (c, cmds).

(** ** Handling messages *)

Definition send_error (msg_id : MsgId) (cmd : DataCmd) (e : ClientMsgError) (client : ClientId) (stream : Stream)
    : list ClientCmd :=
  [SendDataResponse (CmdResponseMsg (to_error_response cmd (client_error_msg e)) msg_id) msg_id client stream].

(** The spend without the knowledge it carries. *)
Definition without_knowledge (cmd : SpentbookCmd) : SpentbookCmd :=
  mkSpend (spend_public_key cmd) (spend_tx cmd) (spend_reason cmd) (spend_spent_proofs cmd) (spend_spent_transactions cmd)
    None (spend_fee_ciphers cmd).

Definition handle_spend (c : NodeContext) (cmd : SpentbookCmd) (msg_id : MsgId) (client : ClientId) (stream : Stream)
    : Checked (list ClientCmd) :=
  match gen_spent_proof_share c cmd with
  | None => None
  | Some (Err e) => Some (Ok (send_error msg_id (Spentbook cmd) e client stream))
  | Some (Ok share) => checked (forward_spent_share c msg_id share (spend_public_key cmd) client stream)
  end.

(** The knowledge of the snapshot, not of the node, is updated first; the node's is updated by
    the returned command. *)
Definition handle_spentbook_cmd (c : NodeContext) (cmd : SpentbookCmd) (msg_id : MsgId) (client : ClientId)
    (auth : ClientAuth) (stream : Stream) : Checked (list ClientCmd) :=
  match spend_network_knowledge cmd with
  | Some (proof_chain, sap) =>
      match update_sap_knowledge_if_valid (ctx_network_knowledge c) (mkSectionTreeUpdate sap proof_chain) (ctx_name c) with
      | None => None
      | Some (_, Err e) => refuse (NetworkKnowledgeError e)
      | Some (_, Ok true) =>
          mret [UpdateNetworkAndHandleValidClientMsg proof_chain sap msg_id
                  (ClientCmdMsg (Spentbook (without_knowledge cmd))) client stream auth]
      | Some (k, Ok false) => handle_spend (with_knowledge c k) cmd msg_id client stream
      end
  | None => handle_spend c cmd msg_id client stream
  end.

Definition handle_data_cmd (c : NodeContext) (cmd : DataCmd) (msg_id : MsgId) (client : ClientId) (auth : ClientAuth)
    (stream : Stream) : NodeContext * Checked (list ClientCmd) :=
  match cmd with
  | StoreChunk chunk =>
      let '(c, r) := store_data_and_respond c (ReplChunk chunk) stream client msg_id in (c, checked r)
  | StoreRegister cmd =>
      let '(c, r) := store_data_and_respond c (ReplRegisterWrite cmd) stream client msg_id in (c, checked r)
  | Spentbook cmd => (c, handle_spentbook_cmd c cmd msg_id client auth stream)
  end.

(** The fee asked for is a tenth above the current one. *)
Definition asked_fee (c : NodeContext) : Z := f64_to_usize (f64_mul (f64_of_Z (current_fee c)) (f64_lit 11 10)).

Definition handle_data_query_where_stored (c : NodeContext) (seed : Seed) (msg_id : MsgId) (q : ClientQuery)
    (auth : ClientAuth) (client : ClientId) (stream : Stream) : list ClientCmd :=
  let response :=
    match q with
    | GetFees dbc_id => RespFees (Ok (required_fee_new seed (asked_fee c) dbc_id (ctx_reward_secret_key c)))
    | Stored q =>
        RespStored (query from_content CmdId list_files SpentProofShare rmp_decode (ctx_data_storage c) q
          (Key (auth_public_key auth)))
    end in
  [SendDataResponse (QueryResponseMsg response msg_id) msg_id client stream].

Definition handle_client_msg_for_us (c : NodeContext) (seed : Seed) (msg_id : MsgId) (msg : ClientMsg) (auth : ClientAuth)
    (client : ClientId) (stream : Stream) : NodeContext * Checked (list ClientCmd) :=
  match msg with
  | ClientCmdMsg cmd => handle_data_cmd c cmd msg_id client auth stream
  | ClientQueryMsg q => (c, Some (Ok (handle_data_query_where_stored c seed msg_id q auth client stream)))
  end.
End client_msgs.
