(* ===== verification/ClientMsgsProps.v ===== *)
(** * Properties of the messages of clients

    Where data is sent, what is signed, what is answered, and that a share of a spent proof
    that an elder forwards is found at the nodes that stored it. *)

From Stdlib Require Import SpecFloat.
From S2P Require Import Prelude External Xor NodeState SectionsDag Sap SectionTree MemberHistory.
From S2P Require Import NetworkKnowledge Aggregator Keys Register RegisterProps UsedSpace Storage StorageProps.
From S2P Require Import Membership Handover Relocation Dkg FaultDetection MyNode WireMsg Fees ClientMsgs.

Section props.
Context {B : Bls} {BSh : BlsShares} {BPS : BlsPublicShares} {E : Ed25519} {EK : EdKeypairs} {X : Xor} {Cfg : Settings}.
Context {NH : NameHashing} {BP : Bincode PublicKey} {MS : Merkle SectionInfo} {M : Merkle bytes}.
Context {Trigger : Type} `{Countable Trigger} {C : ConsensusDecision Trigger}.
Context {OS : Ord (NodeState Trigger)} {BN : Bincode (NodeState Trigger)} {ON : Ord NodeId}.
Context {BSap : Bincode (SectionAuthorityProvider Trigger)}.
Context {BA : Bincode RegisterAddress} {BC : Bincode CreateRegister} {BE : Bincode EditRegister}.
Context (CmdId : Type) `{Countable CmdId} (register_operation_id : RegisterCmd → option CmdId).
Context (cmd_size : Z) (list_files : gmap CmdId RegisterCmd → list RegisterCmd).
Context {OE : Ord (Hash bytes * bytes)}.
Context {BCi : BlsCiphers} {DB : Dbcs} {PW : Powf}.
Context {MsgId Stream ClientId : Type}.
Context (copies : nat) (data_cmd_size max_chunk_size : Z) (todo_sig : SectionSig).
Context (get_blinded_amounts : DbcTransaction → list SpentProof → list DbcTransaction →
  option (list (PublicKey * BlindedAmount))).
Context {RS : Rmp SpentProofShare} {RN : Rmp DataNodeMsg}.

Abbreviation Context_ := (NodeContext (Trigger := Trigger) CmdId).
Abbreviation Spend := (SpentbookCmd (Trigger := Trigger)).
Abbreviation holders k := (target_data_holders copies k).

(** ** Holders of data *)

Section holders.
Context {DL : DistanceLaws}.
Implicit Types (k : NetworkKnowledge Trigger) (target : XorName).

Lemma sorted_members_Permutation k target : sorted_members k target ≡ₚ elements (nk_members k).
Proof. unfold sorted_members. by rewrite stable_sort_Permutation, bset_iter_Permutation. Qed.
Lemma sorted_members_NoDup k target : NoDup (sorted_members k target).
Proof. rewrite sorted_members_Permutation. apply NoDup_elements. Qed.

Lemma sorted_members_sorted k target :
  StronglySorted (λ x y, closer_member target x y = true) (sorted_members k target).
Proof.
  apply Sorted_StronglySorted.
  - intros x y z. unfold closer_member. rewrite !bool_decide_eq_true. apply xn_cmp_distance_trans.
  - apply stable_sort_Sorted. intros x y. unfold closer_member.
    rewrite !bool_decide_eq_true, (xn_cmp_distance_flip _ (id_name x) (id_name y)).
    destruct (xn_cmp_distance _ _ _); naive_solver.
Qed.

Lemma elem_of_holders k target x :
  x ∈ holders k target None ↔ ∃ i, i < copies ∧ sorted_members k target !! i = Some x.
Proof.
  unfold target_data_holders. rewrite elem_of_list_to_set, list_elem_of_lookup. split.
  - intros [i Hi]. apply lookup_take_Some in Hi as [? ?]. eauto.
  - intros (i & Hlt & Hi). exists i. by rewrite lookup_take_lt.
Qed.

(** Data goes to the members of the section nearest to its name, as many as there are
    to be copies of it: no other member is nearer than a holder, and there are fewer holders
    only if there are fewer members.  A query with an index goes to the one holder of that
    rank, and without that rank it goes nowhere. *)
Theorem holders_are_nearest k target :
  holders k target None ⊆ nk_members k ∧
  size (holders k target None) = copies `min` size (nk_members k) ∧
  (∀ x y, x ∈ holders k target None → y ∈ nk_members k → y ∉ holders k target None →
     xn_cmp_distance target (id_name x) (id_name y) ≠ Gt) ∧
  ∀ i, (i < copies `min` size (nk_members k) →
          ∃ x, holders k target (Some i) = {[x]} ∧ x ∈ holders k target None ∧ sorted_members k target !! i = Some x) ∧
       (copies `min` size (nk_members k) ≤ i → holders k target (Some i) = ∅).
Proof.
  pose proof (sorted_members_Permutation k target) as Hp. pose proof (sorted_members_NoDup k target) as Hnd.
  assert (length (sorted_members k target) = size (nk_members k)) as Hlen by (by rewrite Hp).
  assert (∀ x, x ∈ nk_members k ↔ ∃ i, sorted_members k target !! i = Some x) as Hmem.
  { intros x. by rewrite <-list_elem_of_lookup, Hp, elem_of_elements. }
  split_and!.
  - intros x (i & _ & Hi)%elem_of_holders. apply Hmem. eauto.
  - rewrite <-(take_drop copies (sorted_members k target)) in Hnd. apply NoDup_app in Hnd as [Hnd _].
    unfold target_data_holders. rewrite size_list_to_set, length_take by done. by rewrite Hlen.
  - intros x y Hx Hy Hny. pose proof (sorted_members_sorted k target) as Hs.
    rewrite <-(take_drop copies (sorted_members k target)) in Hs.
    rewrite <-elem_of_elements, <-Hp, <-(take_drop copies (sorted_members k target)), elem_of_app in Hy.
    unfold target_data_holders in Hx, Hny. rewrite elem_of_list_to_set in Hx, Hny. destruct Hy as [?|Hy]; [done|].
    eapply bool_decide_eq_true, (StronglySorted_app_1_elem_of _ _ _ x y Hs); done.
  - intros i. split.
    + intros Hi. destruct (lookup_lt_is_Some_2 (sorted_members k target) i) as [x Hx]; [lia|]. exists x.
      split; [|split; [apply elem_of_holders; exists i; split; [lia|done]|done]].
      unfold target_data_holders. rewrite lookup_take_lt, Hx by lia. cbn. set_solver.
    + intros Hi. unfold target_data_holders. enough (take copies (sorted_members k target) !! i = None) as -> by done.
      apply lookup_ge_None. rewrite length_take. lia.
Qed.
End holders.

(** ** Spends *)

(** What an elder checks before he signs a spend, and what he signs. *)
Record spend_ok (c : Context_) (cmd : Spend) (share : SpentProofShare) : Prop := {
  (** The fee is paid to a key derived from ours, in an output with the revealed amount. *)
  so_fee : ∃ ciphers key amount i,
    spend_fee_ciphers cmd !! ctx_name _ c = Some ciphers ∧
    fee_decrypt ciphers (ctx_reward_secret_key _ c) = Some (Ok (key, amount)) ∧
    list_find (λ o, o.1 = key) (tx_outputs (spend_tx cmd)) = Some (i, (key, blind amount)) ∧
    (f64_to_usize (f64_mul (f64_of_Z (current_fee CmdId data_cmd_size max_chunk_size c)) (f64_lit 9 10))
       ≤ revealed_value amount)%Z;
  (** The proofs are signed, each by a section key that we know. *)
  so_proofs : ∀ p, p ∈ spend_spent_proofs cmd →
    pk_verify (sp_spentbook_pub_key p) (sp_spentbook_sig p) (content_hash (sp_content p)) = true ∧
    verify_section_key_is_known (ctx_network_knowledge _ c) (sp_spentbook_pub_key p) = true;
  (** The transaction is valid for the amounts that are spent, ours among them; we sign it
      with a share of the section key. *)
  so_share : ∃ amounts i amount j key_share,
    get_blinded_amounts (spend_tx cmd) (spend_spent_proofs cmd) (spend_spent_transactions cmd) = Some amounts ∧
    tx_verify (spend_tx cmd) amounts.*2 = true ∧
    list_find (λ e, e.1 = spend_public_key cmd) amounts = Some (i, (spend_public_key cmd, amount)) ∧
    list_find (λ s, nk_section_key (ctx_network_knowledge _ c) = pks_public_key (ks_public_key_set s))
      (ctx_section_keys_provider _ c) = Some (j, key_share) ∧
    let content := mkProofContent (spend_public_key cmd) (tx_hash (spend_tx cmd)) (spend_reason cmd) amount in
    share = mkProofShare content (sap_public_key_set (value (nk_signed_sap (ctx_network_knowledge _ c))))
      (ks_index key_share) (sk_share_sign (ks_secret_key_share key_share) (content_hash content));
}.

Lemma verify_spent_proofs_Ok proofs (k : NetworkKnowledge Trigger) :
  verify_spent_proofs proofs k = Ok () ↔
  ∀ p, p ∈ proofs → proof_valid p = true ∧ verify_section_key_is_known k (sp_spentbook_pub_key p) = true.
Proof.
  unfold verify_spent_proofs. destruct (forallb proof_valid proofs) eqn:Hf; cbn [negb].
  - rewrite forallb_forall in Hf. setoid_rewrite <-list_elem_of_In in Hf.
    destruct (list_find _ _) as [[i key]|] eqn:Hl.
    + split; [done|]. intros Hall. apply list_find_Some in Hl as (Hi & Hk & _).
      apply list_elem_of_lookup_2, elem_of_bset_iter, elem_of_list_to_set, list_elem_of_fmap in Hi as (p & -> & Hp).
      destruct (Hall p Hp). congruence.
    + split; [|done]. intros _ p Hp. split; [by apply Hf|]. apply list_find_None in Hl. rewrite Forall_forall in Hl.
      destruct (verify_section_key_is_known k _) eqn:Hk; [done|]. exfalso.
      apply (Hl (sp_spentbook_pub_key p)); [|done].
      apply elem_of_bset_iter, elem_of_list_to_set, list_elem_of_fmap. eauto.
  - split; [done|]. intros Hall. exfalso. apply not_true_iff_false in Hf. apply Hf, forallb_forall.
    intros p Hp%list_elem_of_In. by apply Hall.
Qed.

Lemma checked_bind_Ok {A A'} (m : Checked A) (f : A → Checked A') b :
  m ≫= f = Some (Ok b) ↔ ∃ a, m = Some (Ok a) ∧ f a = Some (Ok b).
Proof. destruct m as [[a|e]|]; cbn; naive_solver. Qed.

Lemma verify_fee_Ok cost secret tx our_name fee_ciphers :
  verify_fee cost secret tx our_name fee_ciphers = Some (Ok ()) ↔
  ∃ ciphers key amount i,
    fee_ciphers !! our_name = Some ciphers ∧ fee_decrypt ciphers secret = Some (Ok (key, amount)) ∧
    list_find (λ o, o.1 = key) (tx_outputs tx) = Some (i, (key, blind amount)) ∧
    (f64_to_usize (f64_mul (f64_of_Z cost) (f64_lit 9 10)) ≤ revealed_value amount)%Z.
Proof.
  unfold verify_fee. rewrite checked_bind_Ok. unfold checked. split.
  - intros (ciphers & [= Hc%ok_or_Ok] & Hf). rewrite checked_bind_Ok in Hf. destruct Hf as ([key amount] & Hd & Hf).
    rewrite checked_bind_Ok in Hf. destruct Hf as ([key' out] & [= Ho] & Hf). apply ok_or_Ok, fmap_Some in Ho as ([i o] & Hl & Ho).
    cbn in Ho. subst o. case_decide as Hb; [done|]. case_decide as Hp; [done|].
    apply list_find_Some in Hl as Hl'. destruct Hl' as (_ & Hk & _). cbn in Hk. subst key'.
    destruct (decide (blind amount = out)) as [<-|]; [|done].
    exists ciphers, key, amount, i. split_and!; [done| |done|lia].
    destruct (fee_decrypt ciphers secret) as [[?|?]|]; cbn in Hd; by simplify_eq.
  - intros (ciphers & key & amount & i & Hc & Hd & Hl & Hp). exists ciphers. rewrite Hc. split; [done|].
    rewrite checked_bind_Ok. exists (key, amount). rewrite Hd. split; [done|]. rewrite checked_bind_Ok.
    exists (key, blind amount). rewrite Hl. split; [done|]. rewrite decide_False by naive_solver.
    by rewrite decide_False by lia.
Qed.

(** C7: an elder signs a spend exactly if its fee is paid to him, its proofs are signed by
    sections he knows and the transaction is valid for the amounts they prove; what he then
    signs is the content of this spend, with his share of the section key. *)
Theorem spend_signed_exact (c : Context_) (cmd : Spend) share :
  gen_spent_proof_share CmdId data_cmd_size max_chunk_size get_blinded_amounts c cmd = Some (Ok share) ↔ spend_ok c cmd share.
Proof.
  unfold gen_spent_proof_share. cbv zeta. rewrite checked_bind_Ok. unfold checked. split.
  - intros ([] & Hfee%verify_fee_Ok & Hs). rewrite checked_bind_Ok in Hs.
    destruct Hs as ([] & [= Hp] & Hs). rewrite verify_spent_proofs_Ok in Hp. rewrite checked_bind_Ok in Hs.
    destruct Hs as (amounts & [= Ha%ok_or_Ok] & Hs). destruct (tx_verify _ _) eqn:Htx; cbn [negb] in Hs; [|done].
    rewrite checked_bind_Ok in Hs. destruct Hs as (amount & [= Ho] & Hs). apply ok_or_Ok, fmap_Some in Ho as ([i o] & Hl & Ho).
    cbn in Ho. subst amount. apply list_find_Some in Hl as Hl'. destruct Hl' as (_ & Hk & _). destruct o as [k amount].
    cbn in Hk, Hs. subst k. injection Hs as Hs. apply map_err_Ok in Hs. unfold build_spent_proof_share, sign_with in Hs.
    apply result_bind_Ok in Hs as ([index sig] & Hsig & [= <-]). apply result_bind_Ok in Hsig as (ks & Hks & [= <- <-]).
    apply ok_or_Ok, fmap_Some in Hks as ([j ks'] & Hj & ->).
    split; [done|done|]. exists amounts, i, amount, j, ks'. by split_and!.
  - intros [Hfee Hp (amounts & i & amount & j & ks & Ha & Htx & Hl & Hj & ->)]. exists ().
    split; [by apply verify_fee_Ok|]. rewrite checked_bind_Ok. exists (). split; [f_equal; by apply verify_spent_proofs_Ok|].
    rewrite checked_bind_Ok. exists amounts. rewrite Ha. split; [done|]. rewrite Htx. cbn [negb].
    rewrite checked_bind_Ok. exists amount. rewrite Hl. split; [done|].
    unfold build_spent_proof_share, sign_with. unfold nk_section_key in Hj. by rewrite Hj.
Qed.

Abbreviation handle := (handle_client_msg_for_us CmdId register_operation_id cmd_size list_files copies data_cmd_size
  max_chunk_size todo_sig get_blinded_amounts (MsgId := MsgId) (Stream := Stream) (ClientId := ClientId)).
Abbreviation store_at := (store_data CmdId register_operation_id cmd_size list_files todo_sig).

Lemma checked_bind_None {A A'} (m : Checked A) (f : A → Checked A') :
  m ≫= f = None ↔ m = None ∨ ∃ a, m = Some (Ok a) ∧ f a = None.
Proof. destruct m as [[a|e]|]; cbn; naive_solver. Qed.

Lemma verify_fee_panics cost secret tx our_name fee_ciphers :
  verify_fee cost secret tx our_name fee_ciphers = None ↔
  ∃ f bs, fee_ciphers !! our_name = Some f ∧ sk_decrypt secret (fc_derivation_index f) = Some bs ∧ length bs < 32.
Proof.
  unfold verify_fee. rewrite checked_bind_None. split.
  - intros [?|(f & [= Hf%ok_or_Ok] & Hn)]; [done|]. rewrite checked_bind_None in Hn.
    destruct Hn as [Hn|([key amount] & _ & Hn)].
    + exists f. assert (fee_decrypt f secret = None) as (bs & ?)%fee_decrypt_panics; [|naive_solver].
      by destruct (fee_decrypt f secret) as [[]|].
    + rewrite checked_bind_None in Hn. destruct Hn as [?|([] & _ & Hn)]; [done|]. by repeat case_decide.
  - intros (f & bs & Hf & Hbs). right. exists f. rewrite Hf. split; [done|]. rewrite checked_bind_None. left.
    assert (fee_decrypt f secret = None) as -> by (apply fee_decrypt_panics; eauto). done.
Qed.

(** Nothing else in the checks of a spend panics. *)
Lemma gen_share_panics (c : Context_) (cmd : Spend) :
  gen_spent_proof_share CmdId data_cmd_size max_chunk_size get_blinded_amounts c cmd = None ↔
  verify_fee (current_fee CmdId data_cmd_size max_chunk_size c) (ctx_reward_secret_key _ c) (spend_tx cmd) (ctx_name _ c)
    (spend_fee_ciphers cmd) = None.
Proof.
  unfold gen_spent_proof_share. cbv zeta. rewrite checked_bind_None. split; [|by left]. intros [?|([] & _ & Hn)]; [done|].
  rewrite checked_bind_None in Hn. destruct Hn as [?|([] & _ & Hn)]; [done|].
  rewrite checked_bind_None in Hn. destruct Hn as [?|(amounts & _ & Hn)]; [done|].
  destruct (tx_verify _ _); cbn [negb] in Hn; [|done].
  rewrite checked_bind_None in Hn. by destruct Hn as [?|(amount & _ & Hn)].
Qed.

(** A spend that brings no knowledge makes the elder panic exactly if the ciphers for him
    hide a derivation index of fewer than 32 bytes, which any client can encrypt to his key. *)
Theorem short_index_panics (c : Context_) seed msg_id (cmd : Spend) auth client stream :
  spend_network_knowledge cmd = None →
  (handle c seed msg_id (ClientCmdMsg (Spentbook cmd)) auth client stream).2 = None ↔
  ∃ f bs, spend_fee_ciphers cmd !! ctx_name _ c = Some f ∧
    sk_decrypt (ctx_reward_secret_key _ c) (fc_derivation_index f) = Some bs ∧ length bs < 32.
Proof.
  intros Hnone. cbn. unfold handle_spentbook_cmd. rewrite Hnone. unfold handle_spend.
  rewrite <-verify_fee_panics, <-gen_share_panics.
  by destruct (gen_spent_proof_share _ _ _ _ _ _) as [[share|e]|].
Qed.

(** ** Storing *)

(** The data of a command that is stored where it arrives. *)
Definition stored_data (cmd : DataCmd (Trigger := Trigger)) : option ReplicatedData :=
  match cmd with
  | StoreChunk chunk => Some (ReplChunk chunk)
  | StoreRegister cmd => Some (ReplRegisterWrite cmd)
  | Spentbook _ => None
  end.

(** C40: a command that stores data is answered with exactly one response, the last command.
    It reports an error exactly if there was not enough space: every other refusal of the
    storage, also of a write that is not authorised, is acknowledged as a success. *)
Theorem write_response_exact (c : Context_) seed msg_id cmd auth client stream data :
  stored_data cmd = Some data →
  ∃ cmds response,
    handle c seed msg_id (ClientCmdMsg cmd) auth client stream =
      ((store_at c data).1,
       Some (Ok (cmds ++ [SendDataResponse (CmdResponseMsg response msg_id) msg_id client stream]))) ∧
    (∀ msg id cl st, SendDataResponse msg id cl st ∉ cmds) ∧
    cmd_result response = match (store_at c data).2 with
                          | Err NotEnoughSpace => Err MsgFailedToWriteFile
                          | _ => Ok ()
                          end.
Proof.
  intros Hd. assert (∀ r, ∃ resp, respond data r = Ok resp ∧ cmd_result resp = r) as Hresp.
  { intros r. destruct cmd as [chunk|[]|]; simplify_eq/=; by eexists. }
  assert (handle c seed msg_id (ClientCmdMsg cmd) auth client stream =
    let '(c', r) := store_data_and_respond CmdId register_operation_id cmd_size list_files todo_sig c data stream client msg_id
    in (c', Some r)) as ->.
  { destruct cmd as [chunk|cmd|]; simplify_eq/=; by destruct (store_data_and_respond _ _ _ _ _ _ _ _ _ _). }
  unfold store_data_and_respond. destruct (store_at c data) as [c' stored]. cbn [fst snd].
  unfold response_ok, response_err. destruct (Hresp (Ok ())) as (ok & -> & Hok).
  destruct (Hresp (Err (st_error_msg NotEnoughSpace))) as (err & -> & Herr). cbn in Herr.
  destruct stored as [[level|]|[]]; eexists _, _; (split; [done|]); (split; [|done]);
    intros msg id cl st; repeat case_match; set_solver.
Qed.

(** ** Replication *)

(** Storing a batch, with the results. *)
Fixpoint store_all (c : Context_) (batch : list ReplicatedData) : Context_ * list (result StError StorageLevel) :=
  match batch with
  | [] => (c, [])
  | data :: batch =>
      let '(c, r) := store_at c data in let '(c, rs) := store_all c batch in (c, r :: rs)
  end.

Abbreviation store_some := (store_batch CmdId register_operation_id cmd_size list_files todo_sig
  (MsgId := MsgId) (Stream := Stream) (ClientId := ClientId)).
Abbreviation replicate_batch := (replicate_data_batch CmdId register_operation_id cmd_size list_files todo_sig
  (MsgId := MsgId) (Stream := Stream) (ClientId := ClientId)).

Lemma store_batch_spec (c : Context_) batch full passed :
  (store_some c batch full passed).1.1 = (store_all c batch).1 ∧
  ((store_some c batch full passed).2 = true ↔ full = true ∨ Err NotEnoughSpace ∈ (store_all c batch).2) ∧
  ∀ addrs recipients, SendDataMsg (SendAnyMissing addrs) recipients ∉ (store_some c batch full passed).1.2.
Proof.
  revert c full passed. induction batch as [|data batch IH]; intros c full passed; simpl.
  { split_and!; [done| |by intros ? ? ?%not_elem_of_nil]. split; [by left|]. intros [?|?%not_elem_of_nil]; done. }
  destruct (store_at c data) as [c1 r]. specialize (IH c1).
  destruct r as [[level|]|e]; [destruct (negb passed && negb (ctx_joins_allowed CmdId c1))| |destruct e];
    match goal with |- context [store_batch _ _ _ _ _ c1 batch ?f ?p] =>
      destruct (IH f p) as (H1 & H2 & H3); destruct (store_batch _ _ _ _ _ c1 batch f p) as [[c2 cmds] full'] end;
    destruct (store_all c1 batch) as [c3 rs]; simpl in *; subst c3; (split_and!; [done| |set_solver]);
    rewrite H2, ?elem_of_cons; naive_solver.
Qed.

(** Replicating a batch stores its items one after the other, and asks the sender for what it
    still has exactly if there were items and space for all of them. *)
Lemma replication_continues (c : Context_) sender batch :
  (replicate_batch c sender batch).1 = (store_all c batch).1 ∧
  ((∃ addrs, SendDataMsg (SendAnyMissing addrs) (Single sender) ∈ (replicate_batch c sender batch).2) ↔
   batch ≠ [] ∧ Err NotEnoughSpace ∉ (store_all c batch).2).
Proof.
  unfold replicate_data_batch. destruct (store_batch_spec c batch false false) as (H1 & H2 & H3).
  destruct (store_some c batch false false) as [[c1 cmds] full]. simpl in *. subst c1.
  assert (full = true ↔ Err NotEnoughSpace ∈ (store_all c batch).2) as Hfull by naive_solver.
  destruct full; cbn [negb andb].
  - split; [done|]. split; [|naive_solver]. intros [addrs Hin]. by destruct (H3 addrs (Single sender)).
  - destruct (decide (batch = [])) as [->|Hne].
    + rewrite bool_decide_true by done. cbn. split; [done|]. split; [|naive_solver]. intros [addrs Hin].
      by destruct (H3 addrs (Single sender)).
    + rewrite bool_decide_false by done. cbn [negb]. split; [done|]. split; [intros _; split; [done|naive_solver]|].
      intros _. eexists. simpl. apply elem_of_app. right. by left.
Qed.

(** ** Spentbooks *)

Context {NL : EdKeypairLaws} {ML : MerkleLaws bytes} {SL : StorageLaws from_content CmdId register_operation_id list_files}.
Context {RSL : RmpLaws SpentProofShare}.

Lemma own_signs (c : Context_) bs : key_verify (own_key _ c) (own_sign _ c bs) bs = Ok ().
Proof. cbn. by rewrite ed_sign_verifies. Qed.

(** The command of an elder is an entry for the spentbook, signed by the elder. *)
Lemma gen_register_cmd_Ok (c : Context_) share public_key cmd :
  gen_register_cmd CmdId share public_key c = Ok cmd →
  let a := mkRegisterAddress (from_content (pk_to_bytes public_key)) SPENTBOOK_TYPE_TAG in
  ∃ op auth, cmd = CmdEdit op auth ∧ spent_cmd a cmd ∧ verify_cmd_auth auth (bincode_serialize op) = Ok () ∧
    rmp_encode share = Some (node_value (crdt_op (ed_edit op))).
Proof.
  unfold gen_register_cmd. cbv zeta. intros (entry & He%ok_or_Ok & Hw)%result_bind_Ok.
  apply result_bind_Ok in Hw as ([h op] & Hop & Hb). apply map_err_Ok in Hop.
  apply result_bind_Ok in Hb as (bs & Hbs%ok_or_Ok & [= <-]).
  unfold Register.write in Hop. set (r0 := Register.new _ _ _ _) in *.
  destruct (check_entry_and_reg_sizes r0 entry) as [[]|] eqn:Hc; [|done]. apply check_sizes_Ok in Hc as [Hlen _].
  unfold crdt_write in Hop. rewrite mr_write_spec in Hop. injection Hop as <- <-.
  eexists _, _. split; [done|]. split; [by repeat split|]. split; [|done].
  unfold verify_cmd_auth, verify_authority. rewrite Hbs. cbn. by rewrite ed_sign_verifies.
Qed.

Abbreviation spentbook c a path := (spentbook_ok from_content CmdId register_operation_id (ctx_data_storage _ c) a path).
Abbreviation entries c path := (reg_files CmdId (ctx_data_storage _ c) path).
Abbreviation shares_at c name u :=
  (query from_content CmdId list_files SpentProofShare rmp_decode (ctx_data_storage _ c) (GetSpentProofSharesQuery name) u).

(** C8: at a node whose spentbook register is well formed and has room for two more entries below
    the limit, the share of a spent proof that an elder forwards and the node stores is found by
    every query, with all shares that were found there before; the spentbook stays well formed.
    A register at its limit discards the edit, though the node reports that it was stored. *)
Theorem spent_share_is_found (elder holder holder' : Context_) share public_key cmd path level u :
  let name := from_content (pk_to_bytes public_key) in
  let a := mkRegisterAddress name SPENTBOOK_TYPE_TAG in
  gen_register_cmd CmdId share public_key elder = Ok cmd →
  spentbook holder a path → size (entries holder path) + 2 ≤ MAX_REG_NUM_ENTRIES →
  store_at holder (ReplSpentbookWrite cmd) = (holder', Ok level) →
  spentbook holder' a path ∧ size (entries holder' path) ≤ size (entries holder path) + 2 ∧
  ∃ shares, shares_at holder' name u = RespGetSpentProofShares _ (Ok shares) ∧ share ∈ shares ∧
    ∀ old, shares_at holder name u = RespGetSpentProofShares _ (Ok old) → ∀ x, x ∈ old → x ∈ shares.
Proof.
  intros name a Hgen Hsb Hsz Hst. destruct (gen_register_cmd_Ok _ _ _ _ Hgen) as (op & auth & -> & Hcmd & Hv & Henc).
  unfold store_data in Hst. cbn [store] in Hst.
  destruct (write_spentbook_register _ _ _ _ _ _ _ _ _ _ _) as [s' r] eqn:Hw. injection Hst as <- ->.
  destruct (spentbook_write from_content CmdId register_operation_id cmd_size list_files _ _ _ _ (own_signs holder)
    _ a path _ _ _ _ Hsb Hsz Hcmd eq_refl Hv Hw) as (Hsb' & Hsz' & [id Hid] & Hkeep).
  split; [done|]. split; [done|]. cbn [ctx_data_storage with_storage] in *.
  destruct (spentbook_query (Share := SpentProofShare) from_content CmdId register_operation_id list_files rmp_decode s' a path u Hsb')
    as (shares & Hq & Hshares); [lia|done|].
  exists shares. split; [exact Hq|]. split.
  - apply Hshares. exists id, op, auth. split; [done|]. by apply rmp_decode_encode.
  - intros old Hold x Hx.
    destruct (spentbook_query (Share := SpentProofShare) from_content CmdId register_operation_id list_files rmp_decode
      (ctx_data_storage CmdId holder) a path u Hsb) as (old' & Hq' & Hold'); [lia|done|].
    pose proof (eq_trans (eq_sym Hq') Hold) as He. injection He as ->.
    apply Hold' in Hx as (id' & op' & auth' & Hid' & Hx).
    apply Hshares. exists id', op', auth'. split; [by apply Hkeep|done].
Qed.
End props.
