(* ===== verification/ClientSession.v ===== *)
(** * Sessions of clients

    [sn_client/src/sessions] (messaging.rs, listeners.rs, mod.rs) with the sending of commands
    and queries of [sn_client/src/api] (cmds.rs, queries.rs, spend_queries.rs,
    spentbook_apis.rs): a message goes to elders in one task per elder, the tasks follow the
    anti-entropy answers with the network knowledge they share, and the session collects the
    responses in the order in which the tasks end.

    A task is a state machine that the runtime and the network drive by events; taking the
    lock of the network knowledge is an event of its own, since tasks interleave there.  The
    response [None] is that of a task that panicked.  The features of the crate are off, as by
    default, except where a definition says so. *)

From Stdlib Require Import SpecFloat.
From S2P Require Import Prelude External Xor NodeState SectionsDag Sap SectionTree MemberHistory.
From S2P Require Import NetworkKnowledge Aggregator Keys Register UsedSpace Storage Membership Handover Relocation.
From S2P Require Import Dkg FaultDetection MyNode WireMsg Fees ClientMsgs.

Section session.
Context {B : Bls} {BSh : BlsShares} {BPS : BlsPublicShares} {E : Ed25519} {X : Xor}.
Context {NH : NameHashing} {BP : Bincode PublicKey} {MS : Merkle SectionInfo} {M : Merkle bytes}.
Context {Trigger : Type} `{Countable Trigger} {C : ConsensusDecision Trigger}.
Context {BSap : Bincode (SectionAuthorityProvider Trigger)} {ON : Ord NodeId}.
Context {BCi : BlsCiphers} {DB : Dbcs}.
Context {MsgId NodeMsgs : Type}.
Context {RE : Rmp (MsgEnvelope MsgId)} {RD : Rmp Dst} {RA : Rmp (AntiEntropyMsg (Trigger := Trigger))}.
Context {RC : Rmp (ClientMsg (Trigger := Trigger))} {RR : Rmp (DataResponse (MsgId := MsgId))} {RN : Rmp NodeMsgs}.

Abbreviation Tree := (SectionTree Trigger).
Abbreviation Wire := (WireMsg MsgId).
Abbreviation WireBytes := (bytes * bytes * bytes)%type.
Abbreviation Content := (WireContent (Ae := AntiEntropyMsg (Trigger := Trigger)) (Client := ClientMsg (Trigger := Trigger))
  (Response := DataResponse (MsgId := MsgId)) (Node := NodeMsgs)).

(** ** Errors and responses *)

Inductive SessionError :=
  | NoCloseSapFound (name : XorName)
  | AntiEntropyNoSapElders
  | AntiEntropyMaxRetries (msg_id : MsgId) (retries : nat)
  | InsufficientAcksReceived (msg_id : MsgId) (expected received : nat)
  | NoNetworkKnowledge (name : XorName)
  | InsufficientElderConnections (connections required : nat)
  | InsufficientElderKnowledge (connections : nat) (required : Z) (section_pk : PublicKey)
  | NoResponse (msg_id : MsgId) (nodes : list NodeId)
  | UnexpectedQueryResponse (query : ClientQuery) (response : QueryResponse)
  | UnexpectedNetworkMsg (correlation_id : MsgId) (node_id : NodeId) (msg : Content)
  | NetworkErrorMsg (source : ErrorMsg)
  | CmdError (source : ErrorMsg) (msg_id : MsgId)
  | MessagingProtocol (e : WireError)
  | QuicP2p
  | FailedToInitateBiDiStream (msg_id : MsgId)
  | DbcSpendRetryAttemptsExceeded (attempts : nat) (public_key : PublicKey)
  | SectionsDagKeyNotFound (key : PublicKey)
  | SignedSapNotFound (key : PublicKey).

Inductive MsgResponse :=
  | CmdResponseFrom (src : SocketAddr) (response : CmdResponse)
  | QueryResponseFrom (src : SocketAddr) (response : QueryResponse)
  | Failure (src : SocketAddr) (error : SessionError).

Abbreviation Joined := (option MsgResponse).

(** [DataQuery::dst_name] and [QueryResponse::is_error]. *)
Definition register_query_address (q : RegisterQuery) : RegisterAddress :=
  match q with
  | QGet a | QRead a | QGetEntry a _ | QGetPolicy a | QGetUserPermissions a _ | QGetOwner a => a
  end.
Definition query_dst_name (q : ClientQuery) : XorName :=
  match q with
  | GetFees dbc_id => from_content (pk_to_bytes dbc_id)
  | Stored (GetChunkQuery n) | Stored (GetSpentProofSharesQuery n) | Stored (GetFeesQuery n) => n
  | Stored (RegQuery q) => ra_name (register_query_address q)
  end.
Definition is_error (r : QueryResponse) : bool :=
  match r with
  | RespFees r => negb (is_ok r)
  | RespStored r =>
      match r with
      | RespGetChunk _ r => negb (is_ok r)
      | RespGetRegister _ r => negb (is_ok r)
      | RespGetRegisterEntry _ r => negb (is_ok r)
      | RespGetRegisterOwner _ r => negb (is_ok r)
      | RespReadRegister _ r => negb (is_ok r)
      | RespGetRegisterPolicy _ r => negb (is_ok r)
      | RespGetRegisterUserPermissions _ r => negb (is_ok r)
      | RespGetSpentProofShares _ r => negb (is_ok r)
      | RespGetFees _ r => negb (is_ok r)
      end
  end.

(** ** Elders *)

Definition elders_vec (sap : SectionAuthorityProvider Trigger) : list NodeId := bset_iter (sap_elders sap).

Definition get_all_elders_of_dst (t : Tree) (dst : XorName) : result SessionError (PublicKey * list NodeId) :=
  match closest t dst None with
  | Some sap => Ok (section_key (value sap), elders_vec (value sap))
  | None => Err (NoNetworkKnowledge dst)
  end.

Definition NUM_OF_ELDERS_SUBSET_FOR_QUERIES : nat := 3.

(** [shuffle] is the random order of this call. *)
Definition get_data_query_elders (shuffle : list NodeId → list NodeId) (t : Tree) (dst : XorName)
    : result SessionError (PublicKey * list NodeId) :=
  '(section_pk, elders) ← get_all_elders_of_dst t dst;
  let elders := take NUM_OF_ELDERS_SUBSET_FOR_QUERIES (shuffle elders) in
  let elders_len := length elders in
  if (elders_len <? NUM_OF_ELDERS_SUBSET_FOR_QUERIES) && (1 <? elders_len) then
    Err (InsufficientElderConnections elders_len NUM_OF_ELDERS_SUBSET_FOR_QUERIES)
  else Ok (section_pk, elders).

Definition get_cmd_elders (t : Tree) (dst_address : XorName) : result SessionError (PublicKey * list NodeId) :=
  match closest t dst_address None with
  | Some sap =>
      let sap_elders := elders_vec (value sap) in
      let section_pk := section_key (value sap) in
      let targets_count := supermajority (Z.of_nat (length sap_elders)) in
      if decide (Z.of_nat (length sap_elders) < targets_count)%Z then
        Err (InsufficientElderKnowledge (length sap_elders) targets_count section_pk)
      else Ok (section_pk, sap_elders)
  | None => Err (NoNetworkKnowledge dst_address)
  end.

(** ** The task of one elder *)

Definition MAX_AE_RETRIES_TO_ATTEMPT : nat := 5.

Inductive TaskState :=
  (** Opening a stream to the elder, the second time on a new connection. *)
  | Sending (connect_now : bool)
  (** Reading from the stream. *)
  | Receiving (node_id : NodeId) (attempt : nat)
  (** Waiting for the lock to update the network knowledge. *)
  | Learning (node_id : NodeId) (attempt : nat) (u : SectionTreeUpdate Trigger) (bounced_msg : WireBytes)
  (** Waiting for the lock to choose the next elder. *)
  | Retargeting (node_id : NodeId) (attempt : nat) (bounced_msg : WireBytes)
  (** Opening a stream to that elder. *)
  | Resending (elder : NodeId) (attempt : nat) (wire_msg : Wire)
  | Ended (r : Joined).

Inductive TaskEvent :=
  | LinkSent
  | LinkFailed
  | Received (bs : WireBytes)
  | ReceiveFailed
  | Locked.

Record Task := mkTask { task_node : NodeId; task_index : nat; task_state : TaskState }.

Definition fail (task : Task) (e : SessionError) : TaskState := Ended (Some (Failure (id_addr (task_node task)) e)).

(** The loop of [receive_with_ae] checks the number of attempts before it reads. *)
Definition receive_next (task : Task) (msg_id : MsgId) (node_id : NodeId) (attempt : nat) : TaskState :=
  if decide (MAX_AE_RETRIES_TO_ATTEMPT < attempt) then fail task (AntiEntropyMaxRetries msg_id (attempt - 1))
  else Receiving node_id attempt.

(** [recv_stream_listener] on a response, which it attributes to the first elder. *)
Definition listener_response (task : Task) (response_id : MsgId) (msg : DataResponse (MsgId := MsgId)) : TaskState :=
  let addr := id_addr (task_node task) in
  match msg with
  | QueryResponseMsg response _ => Ended (Some (QueryResponseFrom addr response))
  | CmdResponseMsg response _ => Ended (Some (CmdResponseFrom addr response))
  | NetworkIssue error => fail task (CmdError error response_id)
  end.

(** The rest of the loop of [receive_with_ae], up to the handling of anti-entropy. *)
Definition receive (task : Task) (msg_id : MsgId) (node_id : NodeId) (attempt : nat) (bs : WireBytes) : TaskState :=
  match deserialize_wire (Node := NodeMsgs) bs : option (result WireError (MsgId * Content)) with
  | None => Ended None
  | Some (Err e) => fail task (MessagingProtocol e)
  | Some (Ok (response_id, WireDataResponse msg)) => listener_response task response_id msg
  | Some (Ok (_, WireAntiEntropy (AntiEntropy (Retry bounced_msg) u)))
  | Some (Ok (_, WireAntiEntropy (AntiEntropy (Redirect bounced_msg) u))) => Learning node_id attempt u bounced_msg
  | Some (Ok (_, msg)) => fail task (UnexpectedNetworkMsg msg_id node_id msg)
  end.

(** The result of the update is only logged. [None]: the update does not return. *)
Definition update_network_knowledge (t : Tree) (u : SectionTreeUpdate Trigger) : option Tree :=
  fst <$> update_the_section_tree t u.

(** The message to resend with the elders of the closest section; [None] is a panic. *)
Definition new_target_elders (t : Tree) (src_node : NodeId) (bounced_msg : WireBytes) (correlation_id : MsgId)
    : option (result SessionError (MsgId * list NodeId * option nat * bytes * Dst * ClientAuth)) :=
  match wire_from bounced_msg : option (result WireError Wire) with
  | None => None
  | Some (Err e) => Some (Err (MessagingProtocol e))
  | Some (Ok wire_msg) =>
      match into_msg wire_msg : result WireError Content with
      | Err e => Some (Err (MessagingProtocol e))
      | Ok (WireClient auth _) =>
          let name := dst_name (wm_dst wire_msg) in
          match closest t name None with
          | None => Some (Err (NoCloseSapFound name))
          | Some best_sap =>
              let target_elders := elders_vec (value best_sap) in
              if decide (target_elders = []) then Some (Err AntiEntropyNoSapElders)
              else Some (Ok (wm_msg_id wire_msg, target_elders, query_index (wm_kind wire_msg), wm_payload wire_msg,
                             mkDst _ _ name (section_key (value best_sap)), auth))
          end
      | Ok msg => Some (Err (UnexpectedNetworkMsg correlation_id src_node msg))
      end
  end.

Definition closer_elder (target : XorName) (lhs rhs : NodeId) : bool :=
  bool_decide (xn_cmp_distance target (id_name lhs) (id_name rhs) ≠ Gt).

(** The rest of [handle_ae_msg] up to sending: the elder with the index of the first one is
    asked, and the message is not marked as a spend. *)
Definition retarget (t : Tree) (task : Task) (msg_id : MsgId) (node_id : NodeId) (attempt : nat) (bounced_msg : WireBytes)
    : TaskState :=
  match new_target_elders t node_id bounced_msg msg_id with
  | None => Ended None
  | Some (Err e) => fail task e
  | Some (Ok (bounced_id, elders, query_index, payload, dst, auth)) =>
      let ordered_elders := stable_sort (closer_elder (dst_name dst)) elders in
      match ordered_elders !! task_index task with
      | None => fail task AntiEntropyNoSapElders
      | Some elder =>
          let wire_msg := new_msg bounced_id payload (KindClient auth false query_index) dst in
          match wire_serialize wire_msg with
          | Err e => fail task (MessagingProtocol e)
          | Ok _ => Resending elder attempt wire_msg
          end
      end
  end.

(** One event of a task: the new knowledge and state, and the message sent. *)
Definition task_step (wire_msg : Wire) (t : Tree) (task : Task) (ev : TaskEvent)
    : option (Tree * TaskState * list (NodeId * Wire)) :=
  let msg_id := wm_msg_id wire_msg in
  match task_state task, ev with
  | Sending _, LinkSent => Some (t, receive_next task msg_id (task_node task) 0, [(task_node task, wire_msg)])
  | Sending false, LinkFailed => Some (t, Sending true, [])
  | Sending true, LinkFailed => Some (t, fail task (FailedToInitateBiDiStream msg_id), [])
  | Receiving node_id attempt, Received bs => Some (t, receive task msg_id node_id attempt bs, [])
  | Receiving _ _, ReceiveFailed => Some (t, fail task QuicP2p, [])
  | Learning node_id attempt u bounced_msg, Locked =>
      match update_network_knowledge t u with
      | Some t => Some (t, Retargeting node_id attempt bounced_msg, [])
      | None => None
      end
  | Retargeting node_id attempt bounced_msg, Locked =>
      Some (t, retarget t task msg_id node_id attempt bounced_msg, [])
  | Resending elder attempt resent, LinkSent =>
      Some (t, receive_next task msg_id elder (S attempt), [(elder, resent)])
  | Resending _ _ resent, LinkFailed => Some (t, fail task (FailedToInitateBiDiStream (wm_msg_id resent)), [])
  | _, _ => None
  end.

(** ** The tasks of a message

    [w_results] holds the responses in the order in which the tasks end, which is the order
    in which the session takes them from the [JoinSet]; [w_sent] the messages sent. *)

Record World := mkWorld {
  w_network : Tree;
  w_tasks : list Task;
  w_results : list Joined;
  w_sent : list (NodeId * Wire);
}.

Definition send_msg (t : Tree) (nodes : list NodeId) (wire_msg : Wire) : result SessionError World :=
  _ ← map_err MessagingProtocol (wire_serialize wire_msg);
  Ok (mkWorld t (imap (λ node_index node_id, mkTask node_id node_index (Sending false)) nodes) [] []).

Definition task_result (st : TaskState) : list Joined := match st with Ended r => [r] | _ => [] end.

Definition world_step (wire_msg : Wire) (w : World) (ev : nat * TaskEvent) : option World :=
  match w_tasks w !! ev.1 with
  | None => None
  | Some task =>
      match task_step wire_msg (w_network w) task ev.2 with
      | None => None
      | Some (t, st, sent) =>
          Some (mkWorld t (<[ev.1 := mkTask (task_node task) (task_index task) st]> (w_tasks w))
                  (w_results w ++ task_result st) (w_sent w ++ sent))
      end
  end.

Fixpoint run (wire_msg : Wire) (w : World) (evs : list (nat * TaskEvent)) : option World :=
  match evs with
  | [] => Some w
  | ev :: evs => match world_step wire_msg w ev with Some w => run wire_msg w evs | None => None end
  end.

Definition is_ended (task : Task) : bool := match task_state task with Ended _ => true | _ => false end.
Definition finished (w : World) : bool := forallb is_ended (w_tasks w).

(** ** Commands *)

Record Acks := mkAcks { received_acks : gset SocketAddr; received_errors : gset SocketAddr; failures : gset SocketAddr }.

(** One round of the loop of [we_have_sufficient_acks_for_cmd]: the sets, or its result. *)
Definition ack_step (msg_id : MsgId) (expected_acks : nat) (a : Acks) (r : Joined) : Acks + result SessionError unit :=
  match r with
  | None => inl a
  | Some (QueryResponseFrom src _) => inl (mkAcks (received_acks a) ({[src]} ∪ received_errors a) (failures a))
  | Some (Failure src _) => inl (mkAcks (received_acks a) (received_errors a) ({[src]} ∪ failures a))
  | Some (CmdResponseFrom src response) =>
      match cmd_result response with
      | Ok () =>
          let a := mkAcks ({[src]} ∪ received_acks a) (received_errors a) (failures a) in
          if expected_acks <=? size (received_acks a) then inr (Ok ()) else inl a
      | Err error =>
          let a := mkAcks (received_acks a) ({[src]} ∪ received_errors a) (failures a) in
          if expected_acks <=? size (failures a) + size (received_errors a) then inr (Err (CmdError error msg_id)) else inl a
      end
  end.

Fixpoint ack_scan (msg_id : MsgId) (expected_acks : nat) (a : Acks) (rs : list Joined) : Acks + result SessionError unit :=
  match rs with
  | [] => inl a
  | r :: rs =>
      match ack_step msg_id expected_acks a r with
      | inl a => ack_scan msg_id expected_acks a rs
      | inr res => inr res
      end
  end.

(** The result so far; [None] while the session waits for a task. *)
Definition we_have_sufficient_acks_for_cmd (msg_id : MsgId) (expected_acks : nat) (finished : bool) (rs : list Joined)
    : option (result SessionError unit) :=
  match ack_scan msg_id expected_acks (mkAcks ∅ ∅ ∅) rs with
  | inr res => Some res
  | inl a => if finished then Some (Err (InsufficientAcksReceived msg_id expected_acks (size (received_acks a)))) else None
  end.

Definition cmd_wire_msg (dst_address : XorName) (section_pk : PublicKey) (auth : ClientAuth) (payload : bytes)
    (is_spend : bool) (msg_id : MsgId) : Wire :=
  new_msg msg_id payload (KindClient auth is_spend None) (mkDst _ _ dst_address section_pk).

(** [Session::send_cmd] up to the tasks, and its result when they have done [evs]. *)
Definition send_cmd (t : Tree) (dst_address : XorName) (auth : ClientAuth) (payload : bytes) (is_spend : bool) (msg_id : MsgId)
    : result SessionError (list NodeId * Wire * World) :=
  '(section_pk, elders) ← get_cmd_elders t dst_address;
  let wire_msg := cmd_wire_msg dst_address section_pk auth payload is_spend msg_id in
  w ← send_msg t elders wire_msg;
  Ok (elders, wire_msg, w).
Definition send_msg_and_check_acks (msg_id : MsgId) (elders : list NodeId) (w : World) : option (result SessionError unit) :=
  we_have_sufficient_acks_for_cmd msg_id (length elders) (finished w) (w_results w).

(** [Client::send_cmd]: only a spend is marked as one. *)
Definition is_spend_cmd (cmd : DataCmd (Trigger := Trigger)) : bool := match cmd with Spentbook _ => true | _ => false end.
Definition client_send_cmd (t : Tree) (client_pk : ClientKey) (sign : bytes → ClientSignature) (cmd : DataCmd (Trigger := Trigger))
    (msg_id : MsgId) : result SessionError (list NodeId * Wire * World) :=
  serialised_cmd ← map_err MessagingProtocol (serialize_msg_payload (ClientCmdMsg cmd));
  send_cmd t (cmd_dst_name cmd) (mkClientAuth client_pk (sign serialised_cmd)) serialised_cmd (is_spend_cmd cmd) msg_id.

(** *** The feature [cmd-happy-path] *)

Definition pick_elders (target : XorName) (elders : list NodeId) (skip take_ : nat) : list NodeId :=
  take take_ (drop skip (stable_sort (closer_elder target) elders)).

(** The elders of each attempt of [send_to_one_or_more]: [skip] goes over [0..3]. *)
Definition happy_path_attempts (target : XorName) (all_elders : list NodeId) : list (list NodeId) :=
  (λ skip, pick_elders target all_elders skip (if decide (skip = 0) then 1 else if decide (skip = 3) then 4 else skip)) <$>
    seq 0 3.

(** ** Queries *)

Record Answers := mkAnswers {
  discarded_responses : nat;
  error_response : option QueryResponse;
  last_error_response : option SessionError;
  valid_response : option QueryResponse;
}.
Definition discard (a : Answers) : Answers :=
  mkAnswers (S (discarded_responses a)) (error_response a) (last_error_response a) (valid_response a).
Definition set_error (a : Answers) (r : QueryResponse) : Answers :=
  mkAnswers (S (discarded_responses a)) (Some r) (last_error_response a) (valid_response a).
Definition set_valid (a : Answers) (r : QueryResponse) : Answers :=
  mkAnswers (discarded_responses a) (error_response a) (last_error_response a) (Some r).

(** One response of the loop of [check_query_responses]; the boolean is [break]. *)
Definition answer_step (chunk_addr : option XorName) (a : Answers) (response : QueryResponse) : Answers * bool :=
  match response with
  | RespStored (RespGetChunk _ (Ok chunk)) =>
      match chunk_addr with
      | Some addr => if decide (addr = ch_address chunk) then (set_valid a response, true) else (discard a, false)
      | None => (a, false)
      end
  | RespStored (RespGetRegister _ (Err _)) | RespStored (RespReadRegister _ (Err _))
  | RespStored (RespGetRegisterPolicy _ (Err _)) | RespStored (RespGetRegisterOwner _ (Err _))
  | RespStored (RespGetRegisterUserPermissions _ (Err _)) | RespStored (RespGetChunk _ (Err _)) => (set_error a response, false)
  | RespStored (RespGetRegister _ (Ok register)) =>
      match valid_response a with
      | Some (RespStored (RespGetRegister _ (Ok prior))) =>
          (if reg_size prior <? reg_size register then set_valid a response else a, false)
      | _ => (set_valid a response, false)
      end
  | RespStored (RespReadRegister _ (Ok _)) =>
      (match valid_response a with None => set_valid a response | Some _ => a end, false)
  | RespStored (RespGetSpentProofShares _ (Ok shares)) =>
      match valid_response a with
      | Some (RespStored (RespGetSpentProofShares _ (Ok prior))) =>
          (if length prior <? length shares then set_valid a response else a, false)
      | _ => (set_valid a response, false)
      end
  | _ => (set_valid a response, false)
  end.

Fixpoint answer_scan (chunk_addr : option XorName) (a : Answers) (rs : list Joined) : Answers :=
  match rs with
  | [] => a
  | r :: rs =>
      match r with
      | None => answer_scan chunk_addr a rs
      | Some (CmdResponseFrom _ _) => answer_scan chunk_addr (discard a) rs
      | Some (Failure _ error) =>
          answer_scan chunk_addr
            (mkAnswers (S (discarded_responses a)) (error_response a) (Some error) (valid_response a)) rs
      | Some (QueryResponseFrom _ response) =>
          match answer_step chunk_addr a response with
          | (a, true) => a
          | (a, false) => answer_scan chunk_addr a rs
          end
      end
  end.

(** The result for the responses in the order in which they are taken. *)
Definition check_query_responses (msg_id : MsgId) (elders : list NodeId) (chunk_addr : option XorName) (rs : list Joined)
    : result SessionError QueryResponse :=
  let a := answer_scan chunk_addr (mkAnswers 0 None None None) rs in
  let otherwise :=
    match last_error_response a with Some error => Err error | None => Err (NoResponse msg_id elders) end in
  match valid_response a, error_response a with
  | Some response, _ => Ok response
  | None, Some response => if length elders / 2 <? discarded_responses a then Ok response else otherwise
  | None, None => otherwise
  end.

Definition chunk_of_query (q : ClientQuery) : option XorName :=
  match q with Stored (GetChunkQuery n) => Some n | _ => None end.
Definition is_fee_query (q : ClientQuery) : bool := match q with GetFees _ => true | _ => false end.

Definition query_wire_msg (q : ClientQuery) (query_index : option nat) (auth : ClientAuth) (payload : bytes)
    (section_pk : PublicKey) (msg_id : MsgId) : Wire :=
  new_msg msg_id payload (KindClient auth (is_fee_query q) query_index) (mkDst _ _ (query_dst_name q) section_pk).

(** [Session::send_query] up to the tasks. *)
Definition send_query (shuffle : list NodeId → list NodeId) (t : Tree) (q : ClientQuery) (query_node_index : nat)
    (auth : ClientAuth) (payload : bytes) (dst_section_info : option (PublicKey * list NodeId)) (msg_id : MsgId)
    : result SessionError (list NodeId * Wire * World) :=
  '(section_pk, elders) ←
    match dst_section_info with
    | Some section_info => Ok section_info
    | None => get_data_query_elders shuffle t (query_dst_name q)
    end;
  let wire_msg := query_wire_msg q (Some query_node_index) auth payload section_pk msg_id in
  w ← send_msg t elders wire_msg;
  Ok (elders, wire_msg, w).

Definition send_single_query (t : Tree) (q : ClientQuery) (auth : ClientAuth) (payload : bytes) (dst_section : PublicKey)
    (recipient : NodeId) (msg_id : MsgId) : result SessionError (Wire * World) :=
  let wire_msg := query_wire_msg q None auth payload dst_section msg_id in
  w ← send_msg t [recipient] wire_msg;
  Ok (wire_msg, w).

(** ** Queries and spends that are repeated

    [S] is the state of the client and the network; what is sent and answered in one attempt
    changes it.  [delays] are the delays that the back-off still gives before its time is up. *)

Section client.
Context {S : Type} (network : S → Tree) (shuffle : S → list NodeId → list NodeId).

(** *** Queries *)

(** [send_signed_query_to_section] with an index and a section. *)
Context (ask : S → nat → PublicKey * list NodeId → S * result SessionError QueryResponse).

Fixpoint query_loop (copies : nat) (dst : XorName) (retry : bool) (fuel node_index : nat) (delays : list nat) (s : S)
    : option (S * result SessionError QueryResponse) :=
  match fuel with
  | O => None
  | Datatypes.S fuel =>
      match get_data_query_elders (shuffle s) (network s) dst with
      | Err e => Some (s, Err e)
      | Ok section =>
          let '(s, res) := ask s node_index section in
          if negb retry || (copies - 1 <=? node_index) then Some (s, res)
          else
            match delays with
            | [] => Some (s, res)
            | _ :: delays =>
                match res with
                | Ok response =>
                    if is_data_not_found response then query_loop copies dst retry fuel (Datatypes.S node_index) delays s
                    else Some (s, Ok response)
                | Err _ => query_loop copies dst retry fuel (Datatypes.S node_index) delays s
                end
            end
      end
  end.

(** With no copies at all the subtraction in [data_copy_count() - 1] overflows. *)
Definition send_query_with_retry (copies : nat) (q : ClientQuery) (retry : bool) (delays : list nat) (s : S)
    : option (S * result SessionError QueryResponse) :=
  match serialize_msg_payload (ClientQueryMsg q : ClientMsg (Trigger := Trigger)) with
  | Err e => Some (s, Err (MessagingProtocol e))
  | Ok _ =>
      if decide (copies = 0) then None
      else query_loop copies (query_dst_name q) retry copies 0 delays s
  end.

(** [Client::spent_proof_shares]. *)
Definition spent_proof_shares (copies : nat) (public_key : PublicKey) (delays : list nat) (s : S)
    : option (S * result SessionError (list SpentProofShare)) :=
  let q := Stored (GetSpentProofSharesQuery (from_content (pk_to_bytes public_key))) in
  match send_query_with_retry copies q true delays s with
  | None => None
  | Some (s, Err e) => Some (s, Err e)
  | Some (s, Ok (RespStored (RespGetSpentProofShares _ res))) => Some (s, map_err NetworkErrorMsg res)
  | Some (s, Ok other) => Some (s, Err (UnexpectedQueryResponse q other))
  end.

(** *** Replicas, with the feature [check-replicas] *)

Inductive ReplicasCheck :=
  | ReplicasAgree (response : QueryResponse)
  | ReceivedErrors (errors : list (SessionError * nat))
  | DifferentResponses (responses : list (QueryResponse * nat))
  | NoReplicaResponse.

Definition replica_errors (results : list (nat * result SessionError QueryResponse)) : list (SessionError * nat) :=
  omap (λ r, match r.2 with Err e => Some (e, r.1) | Ok _ => None end) results.
Definition replica_responses (results : list (nat * result SessionError QueryResponse)) : list (QueryResponse * nat) :=
  omap (λ r, match r.2 with Ok a => Some (a, r.1) | Err _ => None end) results.

(** [responses.pop()] takes the last one, with which all others are compared. *)
Definition query_all_data_replicas (eqb : QueryResponse → QueryResponse → bool)
    (results : list (nat * result SessionError QueryResponse)) : ReplicasCheck :=
  let errors := replica_errors results in
  let responses := replica_responses results in
  match errors with
  | _ :: _ => ReceivedErrors errors
  | [] =>
      match last responses with
      | Some (resp, _) =>
          if forallb (λ r, eqb r.1 resp) (take (length responses - 1) responses) then ReplicasAgree resp
          else DifferentResponses responses
      | None => NoReplicaResponse
      end
  end.

(** *** Fees *)

(** [Session::send_single_query] to an elder. *)
Context (ask_elder : S → PublicKey → NodeId → S * result SessionError (NodeId * QueryResponse)).

Fixpoint fee_loop (dst : XorName) (elder_index : nat) (delays : list nat)
    (res : result SessionError (NodeId * QueryResponse)) (s : S) : S * result SessionError (NodeId * QueryResponse) :=
  match delays with
  | [] => (s, res)
  | _ :: delays =>
      match get_all_elders_of_dst (network s) dst with
      | Err e => (s, Err e)
      | Ok (section_pk, elders) =>
          match elders !! elder_index with
          | None => (s, Err (InsufficientElderConnections (length elders) (elder_index + 1)))
          | Some elder =>
              let '(s, res) := ask_elder s section_pk elder in
              match res with
              | Ok (elder, response) =>
                  if is_error response then fee_loop dst elder_index delays res s else (s, Ok (elder, response))
              | Err _ => fee_loop dst elder_index delays res s
              end
          end
      end
  end.

Definition send_fee_query (q : ClientQuery) (elder_index : nat) (delays : list nat) (s : S)
    : S * result SessionError (NodeId * QueryResponse) :=
  match serialize_msg_payload (ClientQueryMsg q : ClientMsg (Trigger := Trigger)) with
  | Err e => (s, Err (MessagingProtocol e))
  | Ok _ => fee_loop (query_dst_name q) elder_index delays (Err (NetworkErrorMsg MsgInconsistentStorageNodeResponses)) s
  end.

(** [get_section_fees] collects what its tasks return, in their order; a later fee of the
    same elder replaces an earlier one. [None] is a task that panicked. *)
Definition collect_fees (results : list (option (result SessionError (NodeId * QueryResponse)))) : gmap NodeId RequiredFee :=
  foldl (λ fees r,
    match r with
    | Some (Ok (elder, RespFees (Ok fee))) => <[elder := fee]> fees
    | _ => fees
    end) ∅ results.

(** *** Spends *)

Context (send : S → SpentbookCmd (Trigger := Trigger) → S * result SessionError unit).

Definition MAX_SPEND_DBC_ATTEMPS : nat := 5.

Definition with_spend_knowledge (cmd : SpentbookCmd (Trigger := Trigger))
    (k : option (SectionsDAG * SectionSigned (SectionAuthorityProvider Trigger))) : SpentbookCmd :=
  mkSpend (spend_public_key cmd) (spend_tx cmd) (spend_reason cmd) (spend_spent_proofs cmd) (spend_spent_transactions cmd) k
    (spend_fee_ciphers cmd).

(** The chain to a key that a section does not know, with the authority that has it; [None]:
    the walk does not return. *)
Definition knowledge_for_key (t : Tree) (key : PublicKey)
    : option (result SessionError (SectionsDAG * SectionSigned (SectionAuthorityProvider Trigger))) :=
  match single_branch_dag_for_key (sections_dag t) key with
  | None => None
  | Some (Err _) => Some (Err (SectionsDagKeyNotFound key))
  | Some (Ok (proof_chain, _)) =>
      Some (signed_sap ← ok_or (get_signed_by_key t key) (SignedSapNotFound key); Ok (proof_chain, signed_sap))
  end.

Fixpoint spend_loop (cmd : SpentbookCmd (Trigger := Trigger)) (fuel attempts : nat)
    (k : option (SectionsDAG * SectionSigned (SectionAuthorityProvider Trigger))) (s : S)
    : option (S * result SessionError unit) :=
  match fuel with
  | O => None
  | Datatypes.S fuel =>
      let '(s, res) := send s (with_spend_knowledge cmd k) in
      match res with
      | Err (CmdError (MsgSpentProofUnknownSectionKey unknown_section_key) _) =>
          if decide (MAX_SPEND_DBC_ATTEMPS ≤ attempts) then
            Some (s, Err (DbcSpendRetryAttemptsExceeded attempts (spend_public_key cmd)))
          else
            match knowledge_for_key (network s) unknown_section_key with
            | None => None
            | Some (Err e) => Some (s, Err e)
            | Some (Ok k) => spend_loop cmd fuel (attempts + 1) (Some k) s
            end
      | _ => Some (s, res)
      end
  end.

Definition spend_dbc (cmd : SpentbookCmd (Trigger := Trigger)) (s : S) : option (S * result SessionError unit) :=
  spend_loop cmd MAX_SPEND_DBC_ATTEMPS 1 None s.
End client.
End session.
