(* ===== verification/ClientSessionProps.v ===== *)
(** * Properties of the sessions of clients

    What acknowledgements and answers mean for every interleaving of the tasks and whatever
    the asked nodes send; how many messages a task sends; what becomes of the network
    knowledge. *)

From Stdlib Require Import SpecFloat.
From S2P Require Import Prelude External Xor NodeState SectionsDag SectionsDagSpec SectionsDagWalk.
From S2P Require Import SectionsDagProps Sap SectionTree SectionTreeProps MemberHistory NetworkKnowledge.
From S2P Require Import Aggregator Keys Register UsedSpace Storage Membership Handover Relocation Dkg.
From S2P Require Import FaultDetection MyNode WireMsg Fees ClientMsgs ClientSession.

Section props.
Context {B : Bls} {BSh : BlsShares} {BPS : BlsPublicShares} {E : Ed25519} {X : Xor}.
Context {NH : NameHashing} {BP : Bincode PublicKey} {MS : Merkle SectionInfo} {M : Merkle bytes}.
Context {Trigger : Type} `{Countable Trigger} {C : ConsensusDecision Trigger}.
Context {BSap : Bincode (SectionAuthorityProvider Trigger)} {ON : Ord NodeId}.
Context {BCi : BlsCiphers} {DB : Dbcs}.
Context {MsgId NodeMsgs : Type}.
Context {RE : Rmp (MsgEnvelope MsgId)} {RD : Rmp Dst} {RA : Rmp (AntiEntropyMsg (Trigger := Trigger))}.
Context {RC : Rmp (ClientMsg (Trigger := Trigger))} {RR : Rmp (DataResponse (MsgId := MsgId))} {RN : Rmp NodeMsgs}.

Abbreviation Tree := (SectionTree Trigger).
Abbreviation Wire := (WireMsg MsgId).
Abbreviation SErr := (SessionError (Trigger := Trigger) (MsgId := MsgId) (NodeMsgs := NodeMsgs)).
Abbreviation Resp := (MsgResponse (Trigger := Trigger) (MsgId := MsgId) (NodeMsgs := NodeMsgs)).
Implicit Types (rs : list (option Resp)) (msg_id : MsgId) (a : Acks).

(** ** Answers to queries *)

Abbreviation check := (check_query_responses (Trigger := Trigger) (NodeMsgs := NodeMsgs)).
Abbreviation Ans := (Answers (Trigger := Trigger) (MsgId := MsgId) (NodeMsgs := NodeMsgs)).
Abbreviation ChunkAnswer c := (RespStored (RespGetChunk _ (Ok c))).

(** A response with a chunk of the given name. *)
Definition chunk_answer (addr : XorName) (c : Chunk) (r : option Resp) : Prop :=
  (∃ src, r = Some (QueryResponseFrom src (ChunkAnswer c))) ∧ ch_address c = addr.

Definition no_chunk (an : Ans) : Prop :=
  ∀ c, valid_response an ≠ Some (ChunkAnswer c) ∧ error_response an ≠ Some (ChunkAnswer c).

Lemma answer_step_no_chunk addr an response an' b :
  answer_step (Some addr) an response = (an', b) → no_chunk an →
  (b = true ∧ ∃ c, response = ChunkAnswer c ∧ ch_address c = addr ∧ valid_response an' = Some (ChunkAnswer c)) ∨
  (b = false ∧ no_chunk an' ∧ ∀ c, response = ChunkAnswer c → ch_address c ≠ addr).
Proof.
  unfold answer_step, no_chunk. intros Hs Hn.
  destruct response as [|[[c|e]|[]|[]| | | | |[]|]]; repeat case_match; simplify_eq/=;
    first [left; split; [done|]; eexists; by split_and!|right; split_and!; naive_solver].
Qed.

Lemma answer_scan_chunk addr rs an :
  no_chunk an →
  (∃ c, valid_response (answer_scan (Some addr) an rs) = Some (ChunkAnswer c) ∧ ch_address c = addr ∧
        ∃ r, r ∈ rs ∧ chunk_answer addr c r) ∨
  (no_chunk (answer_scan (Some addr) an rs) ∧ ∀ r c, r ∈ rs → ¬ chunk_answer addr c r).
Proof.
  revert an. induction rs as [|r rs IH]; intros an Hn; simpl.
  { right. split; [done|]. by intros ? ? ?%not_elem_of_nil. }
  assert (∀ an', no_chunk an' → (∀ c, ¬ chunk_answer addr c r) → answer_scan (Some addr) an (r :: rs) = answer_scan (Some addr) an' rs →
    (∃ c, valid_response (answer_scan (Some addr) an (r :: rs)) = Some (ChunkAnswer c) ∧ ch_address c = addr ∧
          ∃ r', r' ∈ r :: rs ∧ chunk_answer addr c r') ∨
    (no_chunk (answer_scan (Some addr) an (r :: rs)) ∧ ∀ r' c, r' ∈ r :: rs → ¬ chunk_answer addr c r')) as Hskip.
  { intros an' Hn' Hr ->. destruct (IH an' Hn') as [(c & ? & ? & r' & ? & ?)|[? Hno]].
    - left. exists c. split_and!; [done..|]. exists r'. split; [by right|done].
    - right. split; [done|]. intros r' c [->|?]%elem_of_cons; [apply Hr|by apply Hno]. }
  simpl in Hskip. unfold chunk_answer in *. destruct r as [[src resp|src resp|src e]|].
  - apply (Hskip (discard an)); [done|naive_solver|done].
  - destruct (answer_step (Some addr) an resp) as [an' b] eqn:Hs.
    destruct (answer_step_no_chunk _ _ _ _ _ Hs Hn) as [(-> & c & -> & Hc & Hv)|(-> & Hn' & Hc)].
    + left. exists c. split_and!; [done..|]. eexists. split; [by left|]. eauto.
    + apply (Hskip an'); [done|naive_solver|done].
  - apply (Hskip (mkAnswers (S (discarded_responses an)) (error_response an) (Some e) (valid_response an)));
      [done|naive_solver|done].
  - apply (Hskip an); [done|naive_solver|done].
Qed.

(** C10: a chunk that a query returns has the name that was asked for, whatever the asked
    nodes answer; and one is returned exactly if one of them answers with it: the answers of
    the others, before and after it, do not matter. *)
Theorem chunk_answer_exact msg_id elders addr rs :
  (∀ c, check msg_id elders (Some addr) rs = Ok (ChunkAnswer c) → ch_address c = addr) ∧
  ((∃ c, check msg_id elders (Some addr) rs = Ok (ChunkAnswer c)) ↔ ∃ r c, r ∈ rs ∧ chunk_answer addr c r).
Proof.
  unfold check_query_responses.
  destruct (answer_scan_chunk addr rs (mkAnswers 0 None None None)) as [(c & -> & Hc & Hr)|[Hno Hr]]; [done| |].
  - split; [intros c' [= <-]; done|]. naive_solver.
  - enough (∀ c, check msg_id elders (Some addr) rs ≠ Ok (ChunkAnswer c)) as Hne
      by (unfold check_query_responses in Hne; naive_solver).
    intros c. unfold check_query_responses. destruct (Hno c). repeat case_match; naive_solver.
Qed.

(** ** Acknowledgements *)

Definition response_src (r : option Resp) : option SocketAddr :=
  match r with
  | Some (CmdResponseFrom src _) | Some (QueryResponseFrom src _) | Some (Failure src _) => Some src
  | None => None
  end.
Definition is_ack (r : option Resp) : bool :=
  match r with Some (CmdResponseFrom _ resp) => is_ok (cmd_result resp) | _ => false end.
Definition is_refused (r : option Resp) : bool := match r with None => false | _ => negb (is_ack r) end.
(** A response that reports the error. *)
Definition reports (e : ErrorMsg) (r : option Resp) : Prop :=
  ∃ src resp, r = Some (CmdResponseFrom src resp) ∧ cmd_result resp = Err e.

Abbreviation scan := (ack_scan (Trigger := Trigger) (NodeMsgs := NodeMsgs)).
Definition refusals a : nat := size (failures a) + size (received_errors a).
Definition seen a : gset SocketAddr := received_acks a ∪ received_errors a ∪ failures a.

(** The three ends of the scan when every node answers at most once. *)
Definition all_acked n a rs : Prop := rs ≠ [] ∧ Forall is_ack rs ∧ size (received_acks a) + length rs = n.
Definition all_refused n a rs (e : ErrorMsg) : Prop :=
  (∃ r, last rs = Some r ∧ reports e r) ∧ Forall is_refused rs ∧ refusals a + length rs = n.

Lemma size_insert_new (x : SocketAddr) (s : gset SocketAddr) : x ∉ s → size ({[x]} ∪ s) = S (size s).
Proof. intros Hx. rewrite size_union by set_solver. by rewrite size_singleton. Qed.

(** What the scan gives for the rest tells what it gives with an acknowledgement, a refusal or
    a panic in front. *)
Definition scan_post msg_id n a rs (out : Acks + result SErr unit) : Prop :=
  match out with
  | inr (Ok _) => all_acked n a rs
  | inr (Err err) => ∃ e, err = CmdError e msg_id ∧ all_refused n a rs e
  | inl a' => size (received_acks a') = size (received_acks a) + length (filter is_ack rs) ∧
              ¬ all_acked n a rs ∧ ∀ e, ¬ all_refused n a rs e
  end.

Lemma scan_post_panic msg_id n a rs out :
  size (received_acks a) + refusals a + length rs < n → scan_post msg_id n a rs out → scan_post msg_id n a (None :: rs) out.
Proof.
  intros Hlen. destruct out as [a'|[[]|err]]; simpl.
  - intros (Hs & _ & _). split_and!; [done| |].
    + intros (_ & Hf & _). by inversion Hf.
    + intros e (_ & Hf & _). by inversion Hf.
  - intros (_ & _ & ?). lia.
  - intros (e & -> & _ & _ & ?). lia.
Qed.

Lemma scan_post_ack msg_id n a a' r rs out :
  is_ack r = true → size (received_acks a') = S (size (received_acks a)) → refusals a' = refusals a →
  S (size (received_acks a) + refusals a + length rs) ≤ n → size (received_acks a') < n →
  scan_post msg_id n a' rs out → scan_post msg_id n a (r :: rs) out.
Proof.
  intros Hr Ha Hf Hlen Hlt. destruct out as [a''|[[]|err]]; simpl.
  - intros (Hs & Hno & _). rewrite filter_cons, decide_True by (by rewrite Hr). split_and!; [simpl; lia| |].
    + intros (_ & [_ Hall]%Forall_cons & Hn). apply Hno. split_and!; [|done|simpl in *; lia].
      intros ->. simpl in *. lia.
    + intros e (_ & [Hc _]%Forall_cons & _). destruct r as [[]|]; [|done..]. simpl in *. by rewrite Hr in Hc.
  - intros (_ & Hall & Hn). split_and!; [done|constructor; [by rewrite Hr|done]|simpl; lia].
  - intros (e & -> & _ & _ & ?). lia.
Qed.

Lemma scan_post_refused msg_id n a a' r rs out :
  is_refused r = true → size (received_acks a') = size (received_acks a) → refusals a' = S (refusals a) →
  S (size (received_acks a) + refusals a + length rs) ≤ n → (rs = [] → n ≤ refusals a' → ∀ e, ¬ reports e r) →
  scan_post msg_id n a' rs out → scan_post msg_id n a (r :: rs) out.
Proof.
  intros Hr Ha Hf Hlen Hend. assert (is_ack r = false) as Hack by (destruct r; [by apply negb_true_iff|done]).
  destruct out as [a''|[[]|err]]; simpl.
  - intros (Hs & _ & Hno). rewrite filter_cons, decide_False by (rewrite Hack; by intros []). split_and!; [lia| |].
    + intros (_ & [Hc _]%Forall_cons & _). by rewrite Hack in Hc.
    + intros e ((r' & Hl & Hrep) & [_ Hall]%Forall_cons & Hn). simpl in Hn.
      destruct rs as [|r1 rs]; [simpl in *; simplify_eq; apply (Hend eq_refl ltac:(lia) e Hrep)|].
      apply (Hno e). split; [by exists r'|]. split; [done|simpl in *; lia].
  - intros (_ & _ & ?). lia.
  - intros (e & -> & (r' & Hl & Hrep) & Hall & Hn). exists e. split; [done|]. split.
    + exists r'. split; [|done]. by destruct rs.
    + split; [constructor; [by rewrite Hr|done]|simpl; lia].
Qed.

Lemma ack_scan_spec msg_id n a rs :
  NoDup (omap response_src rs) → (∀ x, x ∈ omap response_src rs → x ∉ seen a) →
  size (received_acks a) + refusals a + length rs ≤ n → scan_post msg_id n a rs (scan msg_id n a rs).
Proof.
  unfold seen. revert a. induction rs as [|r rs IH]; intros a Hnd Hnew Hlen.
  { simpl. split_and!; [lia|by intros [? _]|]. intros e [(r & Hr & _) _]. done. }
  destruct r as [[src resp|src resp|src e]|]; simpl in *.
  4: { apply scan_post_panic; [lia|]. apply IH; [done|done|lia]. }
  all: apply NoDup_cons in Hnd as [Hni Hnd].
  all: assert (src ∉ received_acks a ∧ src ∉ received_errors a ∧ src ∉ failures a) as (Hs1 & Hs2 & Hs3)
    by (specialize (Hnew src); set_solver).
  - destruct (cmd_result resp) as [[]|e] eqn:Hres; simpl.
    + pose proof (size_insert_new src _ Hs1) as Hsz. destruct (n <=? _) eqn:Hn.
      * apply Nat.leb_le in Hn. destruct rs; [|simpl in *; lia]. split_and!; [done| |simpl in *; lia].
        repeat constructor. simpl. by rewrite Hres.
      * apply Nat.leb_gt in Hn. eapply (scan_post_ack _ _ _ (mkAcks ({[src]} ∪ received_acks a) (received_errors a) (failures a)));
          [by simpl; rewrite Hres|done|done|unfold refusals in *; simpl in *; lia|done|].
        apply IH; [done|set_solver|unfold refusals in *; simpl in *; lia].
    + pose proof (size_insert_new src _ Hs2) as Hsz. destruct (n <=? _) eqn:Hn.
      * apply Nat.leb_le in Hn. unfold refusals in *. destruct rs; [|simpl in *; lia]. exists e. split; [done|].
        split; [eexists; split; [done|]; eexists _, _; by split|]. split; [|unfold refusals; simpl in *; lia].
        repeat constructor. simpl. by rewrite Hres.
      * apply Nat.leb_gt in Hn. eapply (scan_post_refused _ _ _ (mkAcks (received_acks a) ({[src]} ∪ received_errors a) (failures a))); [by simpl; rewrite Hres|done| |lia| |].
        { unfold refusals. cbn [failures received_errors]. rewrite Hsz. lia. }
        { unfold refusals. simpl. intros _ ?. lia. }
        apply IH; [done|set_solver|unfold refusals in *; simpl in *; lia].
  - pose proof (size_insert_new src _ Hs2) as Hsz.
    eapply (scan_post_refused _ _ _ (mkAcks (received_acks a) ({[src]} ∪ received_errors a) (failures a))); [done|done| |lia|by intros _ _ e (? & ? & ? & _)|].
    { unfold refusals. cbn [failures received_errors]. rewrite Hsz. lia. }
    apply IH; [done|set_solver|unfold refusals in *; simpl in *; lia].
  - pose proof (size_insert_new src _ Hs3) as Hsz.
    eapply (scan_post_refused _ _ _ (mkAcks (received_acks a) (received_errors a) ({[src]} ∪ failures a))); [done|done| |lia|by intros _ _ ? (? & ? & ? & _)|].
    { unfold refusals. cbn [failures received_errors]. rewrite Hsz. lia. }
    apply IH; [done|set_solver|unfold refusals in *; simpl in *; lia].
Qed.

(** ** Runs of the tasks *)

Abbreviation World_ := (World (Trigger := Trigger) (MsgId := MsgId) (NodeMsgs := NodeMsgs)).
Abbreviation Task_ := (Task (Trigger := Trigger) (MsgId := MsgId) (NodeMsgs := NodeMsgs)).
Abbreviation State_ := (TaskState (Trigger := Trigger) (MsgId := MsgId) (NodeMsgs := NodeMsgs)).
Implicit Types (w : World_) (task : Task_) (st : State_) (t : Tree) (msg : Wire).

(** A property of the network knowledge and one of each task hold in every run if every event
    of a task keeps them. *)
Lemma run_invariant (I : Tree → Prop) (J : Task_ → Prop) msg :
  (∀ t task ev t' st sent, I t → J task → task_step msg t task ev = Some (t', st, sent) →
     I t' ∧ J (mkTask (task_node task) (task_index task) st)) →
  ∀ w evs w', I (w_network w) → Forall J (w_tasks w) → run msg w evs = Some w' →
    I (w_network w') ∧ Forall J (w_tasks w').
Proof.
  intros Hstep w evs. revert w. induction evs as [|[i ev] evs IH]; intros w w' HI HJ Hr; simpl in Hr; [by simplify_eq|].
  unfold world_step in Hr. cbn [fst snd] in Hr. destruct (w_tasks w !! i) as [task|] eqn:Hi; [|done].
  destruct (task_step msg (w_network w) task ev) as [[[t st] sent]|] eqn:Hs; [|done].
  destruct (Hstep _ _ _ _ _ _ HI (Forall_lookup_1 _ _ _ _ HJ Hi) Hs) as [HI' HJ'].
  apply IH in Hr; [done|done|]. simpl. by apply Forall_insert.
Qed.

(** An ended task takes no event, and a task answers for the node it was started for. *)
Definition answers_for task : Prop :=
  match task_state task with Ended (Some r) => response_src (Some r) = Some (id_addr (task_node task)) | _ => True end.

Lemma task_step_active msg t task ev out : task_step msg t task ev = Some out → task_result (task_state task) = [].
Proof. unfold task_step. by destruct (task_state task). Qed.

Lemma receive_answers_for task msg_id node attempt bs :
  answers_for (mkTask (task_node task) (task_index task) (receive (NodeMsgs := NodeMsgs) task msg_id node attempt bs)).
Proof. unfold receive, listener_response, fail, answers_for. by repeat case_match; simplify_eq/=. Qed.
Lemma retarget_answers_for t task msg_id node attempt bounced :
  answers_for (mkTask (task_node task) (task_index task) (retarget t task msg_id node attempt bounced)).
Proof. unfold retarget, fail, answers_for. by repeat case_match; simplify_eq/=. Qed.

Lemma task_step_answers msg t task ev t' st sent :
  task_step msg t task ev = Some (t', st, sent) → answers_for (mkTask (task_node task) (task_index task) st).
Proof.
  unfold task_step. intros Hs. destruct (task_state task) as [[]| | | | |], ev; simplify_eq/=; try done;
    try (apply receive_answers_for || apply retarget_answers_for); unfold receive_next;
    repeat case_match; by simplify_eq/=.
Qed.

Abbreviation ended_results l := (l ≫= λ task : Task_, task_result (task_state task)).
Definition world_ok (nodes : list NodeId) w : Prop :=
  (task_node <$> w_tasks w = nodes ∧ Forall answers_for (w_tasks w)) ∧ w_results w ≡ₚ ended_results (w_tasks w).

Lemma send_msg_ok t nodes msg w : send_msg t nodes msg = Ok w →
  world_ok nodes w ∧ w_network w = t ∧ w_sent w = [] ∧ Forall (λ task, task_state task = Sending false) (w_tasks w).
Proof.
  unfold send_msg. intros (? & _ & [= <-])%result_bind_Ok. unfold world_ok. cbn [w_tasks w_network w_results w_sent].
  set (l := imap _ nodes).
  assert (Forall (λ task, task_state task = Sending false) l) as Hs.
  { apply Forall_lookup. unfold l. intros i task. rewrite list_lookup_imap, fmap_Some. by intros (n & _ & ->). }
  split_and!; [|by eapply Forall_impl; [done|]; intros task Ht; unfold answers_for; rewrite Ht| |done..].
  - unfold l. apply list_eq. intros i. rewrite list_lookup_fmap, list_lookup_imap. by destruct (nodes !! i).
  - clearbody l. induction Hs as [|task l Ht _ IH]; simpl; [done|]. by rewrite Ht.
Qed.

Lemma world_step_ok nodes msg w ev w' : world_ok nodes w → world_step msg w ev = Some w' → world_ok nodes w'.
Proof.
  destruct ev as [i ev]. unfold world_ok, world_step. cbn [fst snd]. intros [[Hn Ha] Hp] Hs.
  destruct (w_tasks w !! i) as [task|] eqn:Hi; [|done].
  destruct (task_step msg (w_network w) task ev) as [[[t st] sent]|] eqn:Hst; [|done]. injection Hs as <-.
  cbn [w_tasks w_results]. split_and!.
  - rewrite list_fmap_insert. cbn. rewrite list_insert_id; [done|]. by rewrite list_lookup_fmap, Hi.
  - apply Forall_insert; [done|]. by eapply task_step_answers.
  - rewrite Hp. rewrite insert_take_drop by by eapply lookup_lt_Some. rewrite <-(take_drop_middle _ _ _ Hi) at 1.
    rewrite !bind_app, !bind_cons. cbn [task_state]. rewrite (task_step_active _ _ _ _ _ Hst). simpl.
    rewrite <-(assoc_L (++)). f_equiv. apply Permutation_app_comm.
Qed.

Lemma run_ok nodes msg w evs w' : world_ok nodes w → run msg w evs = Some w' → world_ok nodes w'.
Proof.
  revert w. induction evs as [|ev evs IH]; intros w Hw Hr; simpl in Hr; [by simplify_eq|].
  destruct (world_step msg w ev) as [w1|] eqn:Hs; [|done]. eauto using world_step_ok.
Qed.

(** *** Acknowledgements in a run *)

Lemma ended_results_src l r : Forall answers_for l → r ∈ ended_results l →
  ∀ x, response_src r = Some x → x ∈ (id_addr ∘ task_node) <$> l.
Proof.
  intros Ha (task & Hr & Hin)%list_elem_of_bind x Hx. rewrite Forall_forall in Ha. specialize (Ha task Hin).
  unfold answers_for in Ha. destruct (task_state task) as [| | | | |r']; try by apply not_elem_of_nil in Hr.
  apply list_elem_of_singleton in Hr as ->. destruct r' as [r'|]; [|done]. apply list_elem_of_fmap. exists task. naive_solver.
Qed.

Lemma ended_results_bounds (l : list Task_) : length (ended_results l) ≤ length l ∧
  (forallb is_ended l = true ↔ length (ended_results l) = length l).
Proof.
  induction l as [|task l [IH1 IH2]]; [done|]. rewrite bind_cons, length_app. cbn [forallb length].
  rewrite andb_true_iff, IH2. unfold is_ended. destruct (task_state task); cbn [task_result length]; (split; [lia|]); split;
    first [lia|intros [? ?]; done || lia|intros; split; done || lia].
Qed.

Lemma ended_results_NoDup l : Forall answers_for l → NoDup ((id_addr ∘ task_node) <$> l) →
  NoDup (omap response_src (ended_results l)).
Proof.
  induction l as [|task l IH]; [constructor|]. intros [Ha Hl]%Forall_cons [Hn Hnd]%NoDup_cons. rewrite bind_cons.
  rewrite omap_app. apply NoDup_app. split_and!; [| |by apply IH].
  - destruct (task_state task) as [| | | | |[[]|]]; simpl; first [apply NoDup_singleton|constructor].
  - intros x Hx (r & Hr & Hsrc)%list_elem_of_omap. apply Hn.
    assert (x = id_addr (task_node task)) as ->.
    { unfold answers_for in Ha. destruct (task_state task) as [| | | | |[r'|]]; simpl in Hx; try by apply not_elem_of_nil in Hx.
      destruct r'; apply list_elem_of_singleton in Hx; naive_solver. }
    by eapply ended_results_src.
Qed.

Abbreviation outcome := (send_msg_and_check_acks (Trigger := Trigger) (NodeMsgs := NodeMsgs)).

Lemma ack_outcome nodes msg_id w :
  world_ok nodes w → NoDup (id_addr <$> nodes) →
  match outcome msg_id nodes w with
  | Some (Ok _) => nodes ≠ [] ∧ length (w_results w) = length nodes ∧ Forall is_ack (w_results w)
  | Some (Err (CmdError e id)) => id = msg_id ∧ nodes ≠ [] ∧ length (w_results w) = length nodes ∧
      Forall is_refused (w_results w) ∧ ∃ r, last (w_results w) = Some r ∧ reports e r
  | Some (Err err) => finished w = true ∧
      err = InsufficientAcksReceived msg_id (length nodes) (length (filter is_ack (w_results w))) ∧
      ¬ (nodes ≠ [] ∧ Forall is_ack (w_results w))
  | None => finished w = false ∧ ¬ (length (w_results w) = length nodes)
  end.
Proof.
  intros [[Hn Ha] Hp] Hnd. unfold send_msg_and_check_acks, we_have_sufficient_acks_for_cmd.
  assert (length nodes = length (w_tasks w)) as Hlen by (by rewrite <-Hn, length_fmap).
  destruct (ended_results_bounds (w_tasks w)) as [Hle Hfin]. pose proof (Permutation_length Hp) as Hpl.
  assert (NoDup (omap response_src (w_results w))) as Hsrc.
  { rewrite Hp. apply ended_results_NoDup; [done|]. by rewrite list_fmap_compose, Hn. }
  pose proof (ack_scan_spec msg_id (length nodes) (mkAcks ∅ ∅ ∅) (w_results w) Hsrc ltac:(set_solver)) as Hs.
  unfold scan_post, all_acked, all_refused, refusals, finished in *. cbn [received_acks failures received_errors] in Hs.
  rewrite !size_empty in Hs. specialize (Hs ltac:(lia)).
  assert (nodes ≠ [] ↔ 0 < length nodes) as Hne by (destruct nodes; simpl; split; intros; done || lia).
  assert (w_results w ≠ [] ↔ 0 < length (w_results w)) as Hne' by (destruct (w_results w); simpl; split; intros; done || lia).
  destruct (ack_scan _ _ _ _) as [a'|[[]|err]].
  - destruct Hs as (Hsz & Hno & _). destruct (forallb is_ended (w_tasks w)).
    + assert (length (w_results w) = length nodes) by (rewrite Hpl, Hlen; by apply Hfin).
      split_and!; [done|by rewrite Hsz|]. intros [Hn1 Hall]. apply Hno. split_and!; [apply Hne'|done|]; rewrite Hne in Hn1; lia.
    + split; [done|]. intros Hc. by assert (false = true) by (apply Hfin; lia).
  - destruct Hs as (Hn1 & Hall & Hl). split_and!; [apply Hne; apply Hne' in Hn1; lia|lia|done].
  - destruct Hs as (e & -> & (r & Hl & Hr) & Hall & Hsum). split_and!; [done| |lia|done|by exists r].
    apply Hne. destruct (w_results w); [done|]. simpl in *. lia.
Qed.

Lemma omap_NoDup_inj {A A'} (f : A → option A') (l : list A) x y z :
  NoDup (omap f l) → x ∈ l → y ∈ l → f x = Some z → f y = Some z → x = y.
Proof.
  induction l as [|u l IH]; [by intros _ ?%not_elem_of_nil|]. simpl.
  intros Hnd [->|Hx]%elem_of_cons [->|Hy]%elem_of_cons Hfx Hfy; [done| | |].
  - rewrite Hfx in Hnd. apply NoDup_cons in Hnd as [Hni _]. destruct Hni. apply list_elem_of_omap. eauto.
  - rewrite Hfy in Hnd. apply NoDup_cons in Hnd as [Hni _]. destruct Hni. apply list_elem_of_omap. eauto.
  - apply IH; try done. destruct (f u); [|done]. by apply NoDup_cons in Hnd as [_ ?].
Qed.
Lemma omap_length_full {A A'} (f : A → option A') (l : list A) :
  length (omap f l) ≤ length l ∧ (length (omap f l) = length l → ∀ x, x ∈ l → is_Some (f x)).
Proof.
  induction l as [|u l [IH1 IH2]]; csimpl; [split; [done|]; by intros _ ? ?%not_elem_of_nil|].
  destruct (f u) eqn:Hu; csimpl; (split; [lia|]); [|lia].
  intros Hl x [->|Hx]%elem_of_cons; [done|]. apply IH2; [lia|done].
Qed.

Definition acked w (node : NodeId) : Prop :=
  ∃ resp, Some (CmdResponseFrom (id_addr node) resp) ∈ w_results w ∧ cmd_result resp = Ok ().

(** Every node acknowledged exactly if there are that many responses and all acknowledge. *)
Lemma all_acked_iff nodes w :
  world_ok nodes w → NoDup (id_addr <$> nodes) →
  (∀ node, node ∈ nodes → acked w node) ↔ length (w_results w) = length nodes ∧ Forall is_ack (w_results w).
Proof.
  intros [[Hn Ha] Hp] Hnd. assert (length nodes = length (w_tasks w)) as Hlen by (by rewrite <-Hn, length_fmap).
  destruct (ended_results_bounds (w_tasks w)) as [Hle Hfin]. pose proof (Permutation_length Hp) as Hpl.
  assert (NoDup (omap response_src (w_results w))) as Hsrc.
  { rewrite Hp. apply ended_results_NoDup; [done|]. by rewrite list_fmap_compose, Hn. }
  split.
  - intros Hall. destruct (omap_length_full response_src (w_results w)) as [Hol Hfull].
    assert (length (id_addr <$> nodes) ≤ length (omap response_src (w_results w))) as Hsub.
    { apply submseteq_length, NoDup_submseteq; [done|]. intros x (node & -> & Hin)%list_elem_of_fmap.
      destruct (Hall node Hin) as (resp & Hr & _). apply list_elem_of_omap. eauto. }
    rewrite length_fmap in Hsub. split; [lia|]. rewrite Forall_forall. intros r Hr.
    destruct (Hfull ltac:(lia) r Hr) as [x Hx]. pose proof Hr as Hr'. rewrite Hp in Hr'.
    pose proof (ended_results_src _ _ Ha Hr' _ Hx) as Hin. rewrite list_fmap_compose, Hn in Hin.
    apply list_elem_of_fmap in Hin as (node & -> & Hin). destruct (Hall node Hin) as (resp & Hack & Hres).
    rewrite (omap_NoDup_inj _ _ _ _ _ Hsrc Hr Hack Hx eq_refl). simpl. by rewrite Hres.
  - intros [Hl Hack] node Hin. rewrite <-Hn in Hin. apply list_elem_of_fmap in Hin as (task & -> & Hin).
    assert (forallb is_ended (w_tasks w) = true) as Hend by (apply Hfin; lia).
    rewrite forallb_forall in Hend. specialize (Hend task (proj1 (list_elem_of_In _ _) Hin)).
    rewrite Forall_forall in Ha. rewrite Forall_forall in Hack. specialize (Ha task Hin). unfold is_ended, answers_for in *.
    destruct (task_state task) as [| | | | |r] eqn:Hst; [done..|].
    assert (r ∈ w_results w) as Hr.
    { rewrite Hp. apply list_elem_of_bind. exists task. split; [rewrite Hst; by left|done]. }
    specialize (Hack r Hr). destruct r as [[src resp| |]|]; simpl in *; try done. exists resp.
    injection Ha as ->. split; [done|]. by destruct (cmd_result resp) as [[]|].
Qed.

(** C9: whatever the nodes send and however the tasks interleave, a command to elders with
    distinct addresses (those of the section closest to its address, as the client knew it)
    succeeds exactly if for each elder it was first sent to the answer counted for that elder is
    an acknowledgement.  After a [Retry] or [Redirect] another elder may give that answer: it
    counts for the first one. *)
Theorem cmd_succeeds_exactly t dst auth payload is_spend msg_id nodes msg w0 evs w :
  send_cmd t dst auth payload is_spend msg_id = Ok (nodes, msg, w0) → NoDup (id_addr <$> nodes) →
  run (NodeMsgs := NodeMsgs) msg w0 evs = Some w →
  (∃ sap, closest t dst None = Some sap ∧ ∀ elder, elder ∈ nodes ↔ elder ∈ sap_elders (value sap)) ∧
  (outcome msg_id nodes w = Some (Ok ()) ↔
   ∀ elder, elder ∈ nodes →
     ∃ resp, Some (CmdResponseFrom (id_addr elder) resp) ∈ w_results w ∧ cmd_result resp = Ok ()).
Proof.
  intros ([section_pk elders] & He & Hs)%result_bind_Ok Hnd Hr. apply result_bind_Ok in Hs as (w0' & Hs & [= <- <- <-]).
  split.
  { unfold get_cmd_elders in He. destruct (closest t dst None) as [sap|]; [|done]. exists sap. split; [done|].
    case_decide; [done|]. injection He as <- <-. intros elder. apply elem_of_bset_iter. }
  destruct (send_msg_ok _ _ _ _ Hs) as (Hw0 & _). pose proof (run_ok _ _ _ _ _ Hw0 Hr) as Hw.
  assert (elders ≠ []) as Hne.
  { unfold get_cmd_elders in He. destruct (closest t dst None) as [sap|]; [|done].
    case_decide as Hc; [done|]. injection He as _ <-. intros Hnil. rewrite Hnil in Hc. by apply Hc. }
  pose proof (ack_outcome _ msg_id w Hw Hnd) as Ho. pose proof (all_acked_iff _ _ Hw Hnd) as Hiff.
  unfold acked in Hiff. rewrite Hiff. split.
  - intros Hok. rewrite Hok in Ho. naive_solver.
  - intros [Hl Hall]. destruct (outcome msg_id elders w) as [[[]|err]|]; [done| |naive_solver].
    destruct err; try naive_solver. exfalso. destruct Ho as (_ & _ & _ & Href & r & Hlast & _).
    apply last_Some_elem_of in Hlast. rewrite Forall_forall in Href. rewrite Forall_forall in Hall.
    specialize (Href r Hlast). specialize (Hall r Hlast). destruct r as [[src resp| |]|]; simpl in *; try done.
    by destruct (cmd_result resp).
Qed.

(** *** How long the tasks run *)

(** Each state has a number of attempts within the limit. *)
Definition attempts_ok st : Prop :=
  match st with
  | Receiving _ k | Learning _ k _ _ | Retargeting _ k _ | Resending _ k _ => k ≤ MAX_AE_RETRIES_TO_ATTEMPT
  | _ => True
  end.
(** The events and the messages that a task in this state can still have. *)
Definition events_left st : nat :=
  match st with
  | Sending connect_now => if connect_now then 25 else 26
  | Receiving _ k => 4 * (5 - k) + 4
  | Learning _ k _ _ => 4 * (5 - k) + 3
  | Retargeting _ k _ => 4 * (5 - k) + 2
  | Resending _ k _ => 4 * (5 - k) + 1
  | Ended _ => 0
  end.
Definition messages_left st : nat :=
  match st with
  | Sending _ => 7
  | Receiving _ k | Learning _ k _ _ | Retargeting _ k _ | Resending _ k _ => 6 - k
  | Ended _ => 0
  end.

Lemma receive_next_left task msg_id node k :
  let st := receive_next (NodeMsgs := NodeMsgs) task msg_id node k in
  attempts_ok st ∧ (events_left st ≤ 4 * (6 - k)) ∧ messages_left st ≤ 6 - k.
Proof. unfold receive_next, MAX_AE_RETRIES_TO_ATTEMPT. case_decide; simpl; unfold MAX_AE_RETRIES_TO_ATTEMPT; lia. Qed.
Lemma receive_left task msg_id node k bs :
  k ≤ 5 → let st := receive (NodeMsgs := NodeMsgs) task msg_id node k bs in
  attempts_ok st ∧ events_left st < 4 * (5 - k) + 4 ∧ messages_left st ≤ 6 - k.
Proof.
  intros Hk. unfold receive, listener_response, fail.
  repeat case_match; simplify_eq/=; unfold MAX_AE_RETRIES_TO_ATTEMPT; lia.
Qed.
Lemma retarget_left t task msg_id node k bounced :
  k ≤ 5 → let st := retarget t task msg_id node k bounced in
  attempts_ok st ∧ events_left st < 4 * (5 - k) + 2 ∧ messages_left st ≤ 6 - k.
Proof.
  intros Hk. unfold retarget, fail. repeat case_match; simplify_eq/=; unfold MAX_AE_RETRIES_TO_ATTEMPT; lia.
Qed.

Lemma task_step_left msg t task ev t' st sent :
  attempts_ok (task_state task) → task_step msg t task ev = Some (t', st, sent) →
  attempts_ok st ∧ events_left st < events_left (task_state task) ∧
  messages_left st + length sent ≤ messages_left (task_state task).
Proof.
  unfold task_step. intros Hk Hs.
  destruct (task_state task) as [cn|n k|n k u b|n k b|n k m|], ev as [| |bs| |]; cbn in Hk; unfold MAX_AE_RETRIES_TO_ATTEMPT in Hk;
    try done; try (destruct cn); try (destruct (update_network_knowledge t u)); simplify_eq; cbn [events_left messages_left length];
    first
      [ pose proof (receive_left task (wm_msg_id msg) n k bs Hk) as (? & ? & ?)
      | pose proof (retarget_left t' task (wm_msg_id msg) n k b Hk) as (? & ? & ?)
      | pose proof (receive_next_left task (wm_msg_id msg) n (S k)) as (? & ? & ?)
      | pose proof (receive_next_left task (wm_msg_id msg) (task_node task) 0) as (? & ? & ?) ];
    split_and!; done || (cbn; lia).
Qed.

Definition total (f : State_ → nat) w : nat := sum_list (f ∘ task_state <$> w_tasks w).

Lemma total_insert (f : State_ → nat) (l : list Task_) i task task' :
  l !! i = Some task →
  sum_list (f ∘ task_state <$> <[i := task']> l) + f (task_state task) = sum_list (f ∘ task_state <$> l) + f (task_state task').
Proof.
  revert i. induction l as [|x l IH]; intros [|i] Hi; simplify_eq/=; [lia|]. specialize (IH _ Hi). lia.
Qed.

Lemma run_bounds msg w evs w' :
  Forall (λ task, attempts_ok (task_state task)) (w_tasks w) → run msg w evs = Some w' →
  total events_left w' + length evs ≤ total events_left w ∧
  total messages_left w' + length (w_sent w') ≤ total messages_left w + length (w_sent w).
Proof.
  revert w. induction evs as [|[i ev] evs IH]; intros w Hok Hr; simpl in Hr; [simplify_eq/=; lia|].
  unfold world_step in Hr. cbn [fst snd] in Hr. destruct (w_tasks w !! i) as [task|] eqn:Hi; [|done].
  destruct (task_step msg (w_network w) task ev) as [[[t st] sent]|] eqn:Hs; [|done].
  destruct (task_step_left _ _ _ _ _ _ _ (Forall_lookup_1 _ _ _ _ Hok Hi) Hs) as (H1 & H2 & H3).
  apply IH in Hr as [He Hm]; [|cbn [w_tasks]; by apply Forall_insert]. unfold total in *. cbn [w_tasks w_sent] in *.
  pose proof (total_insert events_left _ _ _ (mkTask (task_node task) (task_index task) st) Hi) as Ht1.
  pose proof (total_insert messages_left _ _ _ (mkTask (task_node task) (task_index task) st) Hi) as Ht2.
  cbn [task_state length] in *. rewrite length_app in Hm. lia.
Qed.

(** A task that has not ended can have an event, unless the update it waits for does not return. *)
Lemma task_progress msg t task :
  is_ended task = false →
  (∃ ev, is_Some (task_step msg t task ev)) ∨
  ∃ node k u b, task_state task = Learning node k u b ∧ update_the_section_tree t u = None.
Proof.
  unfold is_ended, task_step. destruct (task_state task) as [[]| |n k u b|n k b|n k m|] eqn:Hst; intros He; try done;
    try (left; by exists LinkSent); try (left; by exists ReceiveFailed); try (left; by exists Locked).
  destruct (update_the_section_tree t u) as [[t' r]|] eqn:Hu; [|right; by eexists _, _, _, _].
  left. exists Locked. unfold update_network_knowledge. by rewrite Hu.
Qed.

(** The events of one task, and the messages that it sends. *)
Definition events_of (i : nat) (evs : list (nat * TaskEvent)) : nat := length (filter (λ ev, ev.1 = i) evs).
Fixpoint messages_of msg w (i : nat) (evs : list (nat * TaskEvent)) : nat :=
  match evs with
  | [] => 0
  | ev :: evs =>
      match world_step msg w ev with
      | Some w' => (if decide (ev.1 = i) then length (w_sent w') - length (w_sent w) else 0) + messages_of msg w' i evs
      | None => 0
      end
  end.

Lemma task_bounds msg w evs w' i :
  Forall (λ task, attempts_ok (task_state task)) (w_tasks w) → run msg w evs = Some w' →
  (events_of i evs ≤ from_option (events_left ∘ task_state) 0 (w_tasks w !! i)) ∧
  (messages_of msg w i evs ≤ from_option (messages_left ∘ task_state) 0 (w_tasks w !! i)).
Proof.
  revert w. induction evs as [|[j ev] evs IH]; intros w Hok Hr; [split; apply Nat.le_0_l|]. cbn [run messages_of] in *.
  destruct (world_step msg w (j, ev)) as [w1|] eqn:Hw1; [|done]. unfold world_step in Hw1. cbn [fst snd] in *.
  destruct (w_tasks w !! j) as [task|] eqn:Hj; [|done].
  destruct (task_step msg (w_network w) task ev) as [[[t st] sent]|] eqn:Hs; [|done]. injection Hw1 as <-.
  destruct (task_step_left _ _ _ _ _ _ _ (Forall_lookup_1 _ _ _ _ Hok Hj) Hs) as (H1 & H2 & H3).
  apply IH in Hr as [He Hm]; [|cbn [w_tasks]; by apply Forall_insert]. cbn [w_tasks w_sent] in *.
  unfold events_of in *. rewrite filter_cons. cbn [fst]. rewrite length_app. destruct (decide (j = i)) as [->|Hne].
  - rewrite list_lookup_insert_eq in He, Hm by (by eapply lookup_lt_Some). rewrite Hj. simpl in *. lia.
  - rewrite list_lookup_insert_ne in He, Hm by done. lia.
Qed.

(** C34: the tasks of a message end: in every interleaving each of them has at most 26 events
    and sends at most 7 messages, one and six more for anti-entropy answers; and until they all
    have ended one of them can go on, unless one waits for an update of the section tree that
    does not return. *)
Theorem tasks_end t nodes msg w0 evs w :
  send_msg (NodeMsgs := NodeMsgs) t nodes msg = Ok w0 → run msg w0 evs = Some w →
  (∀ i, events_of i evs ≤ 26 ∧ messages_of msg w0 i evs ≤ 7) ∧
  length evs ≤ 26 * length nodes ∧ length (w_sent w) ≤ 7 * length nodes ∧
  (finished w = true ∨ (∃ ev, is_Some (world_step msg w ev)) ∨
   ∃ task node k u b, task ∈ w_tasks w ∧ task_state task = Learning node k u b ∧
     update_the_section_tree (w_network w) u = None).
Proof.
  intros Hs Hr. destruct (send_msg_ok _ _ _ _ Hs) as (Hw & _ & Hsent & Hst).
  assert (length (w_tasks w0) = length nodes) as Hlen by (destruct Hw as [[<- _] _]; by rewrite length_fmap).
  assert (∀ f c, f (Sending false) = c → total f w0 = c * length nodes) as Htot.
  { intros f c Hf. rewrite <-Hlen. unfold total. clear -Hst Hf. induction Hst as [|task l Ht _ IH]; simpl; [lia|].
    rewrite Ht, Hf, Nat.mul_succ_r, <-IH. apply Nat.add_comm. }
  assert (Forall (λ task, attempts_ok (task_state task)) (w_tasks w0)) as Hok
    by (eapply Forall_impl; [exact Hst|]; intros task Ht; by rewrite Ht).
  split.
  { intros i. destruct (task_bounds msg w0 evs w i Hok Hr) as [He Hm]. destruct (w_tasks w0 !! i) as [task|] eqn:Hi; simpl in *; [|lia].
    rewrite (Forall_lookup_1 _ _ _ _ Hst Hi) in He, Hm. simpl in *. lia. }
  destruct (run_bounds _ _ _ _ Hok Hr) as [He Hm].
  pose proof (Htot events_left 26 eq_refl). pose proof (Htot messages_left 7 eq_refl).
  rewrite Hsent in Hm. cbn [length] in Hm. split_and!; [lia..|].
  destruct (finished w) eqn:Hf; [by left|right]. unfold finished in Hf.
  assert (∃ i task, w_tasks w !! i = Some task ∧ is_ended task = false) as (i & task & Hi & Htask).
  { clear -Hf. induction (w_tasks w) as [|x l IH]; [done|]. simpl in Hf. destruct (is_ended x) eqn:Hx; [|by exists 0, x].
    destruct (IH Hf) as (i & task & ? & ?). by exists (S i), task. }
  destruct (task_progress msg (w_network w) task Htask) as [(ev & [[[t' st] sent] Hev])|(node & k & u & b & Hl & Hu)].
  - left. exists (i, ev). unfold world_step. simpl. rewrite Hi, Hev. eauto.
  - right. exists task, node, k, u, b. split; [by eapply list_elem_of_lookup_2|done].
Qed.

(** *** The messages of a run *)

(** What a task sends: the message of the session to its own node, or a message that is not
    marked as a spend. *)
Definition sent_ok (msg : Wire) (nodes : list NodeId) (m : NodeId * Wire) : Prop :=
  (m.2 = msg ∧ m.1 ∈ nodes) ∨ ∃ auth q, wm_kind m.2 = KindClient auth false q.

Definition resends_no_spend st : Prop :=
  match st with Resending _ _ m => ∃ auth q, wm_kind m = KindClient auth false q | _ => True end.

Lemma retarget_no_spend t task msg_id node k bounced :
  resends_no_spend (retarget t task msg_id node k bounced).
Proof. unfold retarget, fail. repeat case_match; simplify_eq/=; try done. cbn. eauto. Qed.

Lemma task_step_sent msg t task ev t' st sent nodes :
  task_node task ∈ nodes → resends_no_spend (task_state task) → task_step msg t task ev = Some (t', st, sent) →
  resends_no_spend st ∧ Forall (sent_ok msg nodes) sent.
Proof.
  unfold task_step. intros Hin Hr Hs.
  assert (∀ id node k, resends_no_spend (receive_next (NodeMsgs := NodeMsgs) task id node k)) as Hnext.
  { intros. unfold receive_next, fail. by case_decide. }
  destruct (task_state task) as [cn|n k|n k u b|n k b|n k m|], ev as [| |bs| |]; try done; try (destruct cn);
    try (destruct (update_network_knowledge t u)); simplify_eq;
    (split; [first [done|apply Hnext|apply retarget_no_spend|idtac]|]); try (apply Forall_nil_2).
  - apply Forall_singleton. by left.
  - apply Forall_singleton. by left.
  - unfold receive, listener_response, fail. by repeat case_match.
  - apply Forall_singleton. by right.
Qed.

Lemma run_sent msg nodes w evs w' :
  Forall (λ task, task_node task ∈ nodes ∧ resends_no_spend (task_state task)) (w_tasks w) →
  Forall (sent_ok msg nodes) (w_sent w) → run msg w evs = Some w' → Forall (sent_ok msg nodes) (w_sent w').
Proof.
  revert w. induction evs as [|[i ev] evs IH]; intros w Ht Hs Hr; simpl in Hr; [by simplify_eq|].
  unfold world_step in Hr. cbn [fst snd] in Hr. destruct (w_tasks w !! i) as [task|] eqn:Hi; [|done].
  destruct (task_step msg (w_network w) task ev) as [[[t st] sent]|] eqn:Hst; [|done].
  destruct (Forall_lookup_1 _ _ _ _ Ht Hi) as [Hin Hn].
  destruct (task_step_sent _ _ _ _ _ _ _ nodes Hin Hn Hst) as [Hn' Hs'].
  apply IH in Hr; [done|cbn [w_tasks]; by apply Forall_insert|cbn [w_sent]; by apply Forall_app].
Qed.

(** A spend that is bounced is sent again as a message that is no spend: of what the
    tasks of a spend send, only the first message to the elders is marked as one. *)
Theorem bounced_spend_is_no_spend t nodes msg w0 evs w :
  send_msg (NodeMsgs := NodeMsgs) t nodes msg = Ok w0 → run msg w0 evs = Some w →
  ∀ node m, (node, m) ∈ w_sent w → (m = msg ∧ node ∈ nodes) ∨ is_client_spend (wm_kind m) = false.
Proof.
  intros Hs Hr node m Hin. destruct (send_msg_ok _ _ _ _ Hs) as ([[Hn _] _] & _ & Hsent & Hst).
  assert (Forall (sent_ok msg nodes) (w_sent w)) as Hall.
  { eapply run_sent; [|by rewrite Hsent|exact Hr]. rewrite Forall_forall in Hst |- *. intros task Ht. rewrite (Hst task Ht).
    split; [|done]. rewrite <-Hn. by apply list_elem_of_fmap_2. }
  rewrite Forall_forall in Hall. destruct (Hall _ Hin) as [[? ?]|(auth & q & Hk)]; [by left|right].
  cbn in Hk. by rewrite Hk.
Qed.

(** *** The network knowledge of a run *)

Context {XL : XorLaws}.

(** Every authority in the tree is filed under its prefix and signed with its own key. *)
Definition tree_signed t : Prop :=
  ∀ p s, sections t !! p = Some s →
    sap_prefix (value s) = p ∧ signed_self_verify s = true ∧ sig_public_key (sig s) = section_key (value s).

Lemma update_signed t u t' : tree_signed t → update_network_knowledge t u = Some t' → tree_signed t'.
Proof.
  unfold update_network_knowledge, update_the_section_tree. intros Ht Hu.
  destruct (has_key _ _); [by simplify_eq/=|].
  destruct (check_update t u) as [[]|] eqn:Hc; [|by simplify_eq/=].
  apply check_update_Ok in Hc as (Hv & Hk & _).
  destruct (tree_insert_spec (sections t) (signed_sap u)) as [[_ Hi]|(_ & m & Hi & Hl)]; rewrite Hi in Hu; [by simplify_eq/=|].
  assert (tree_signed (mkSectionTree m (sections_dag t))) as Hm.
  { intros p s. simpl. rewrite Hl. case_decide as Hp; [intros [= <-]; by split_and!|].
    intros Hs. apply Ht. by destruct (px_is_extension_of _ p). }
  destruct (merge _ _) as [[d [[]|e]]|]; simplify_eq/=; exact Hm.
Qed.

(** The client never takes an authority from an anti-entropy answer that is not signed by
    its own section key, whatever the nodes send and however the tasks interleave. *)
Theorem knowledge_stays_signed t nodes msg w0 evs w :
  tree_signed t → send_msg (NodeMsgs := NodeMsgs) t nodes msg = Ok w0 → run msg w0 evs = Some w →
  tree_signed (w_network w).
Proof.
  intros Ht Hs Hr. destruct (send_msg_ok _ _ _ _ Hs) as (_ & <- & _).
  refine (proj1 (run_invariant tree_signed (λ _, True) msg _ w0 evs w Ht _ Hr)); [|by apply Forall_true].
  clear -XL. intros t task ev t' st sent Ht _ Hst. split; [|done]. unfold task_step in Hst.
  destruct (task_state task) as [[]|n k|n k u b|n k b|n k m|], ev; simplify_eq; try done.
  destruct (update_network_knowledge t u) eqn:Hu; simplify_eq. by eapply update_signed.
Qed.
End props.

(** * Properties of repeated queries and spends

    Which answer a repeated query returns, when replicas agree, what a repeated spend brings
    along, and which elders the happy path of a command reaches. *)

Section props.
Context {B : Bls} {BSh : BlsShares} {BPS : BlsPublicShares} {E : Ed25519} {X : Xor}.
Context {NH : NameHashing} {BP : Bincode PublicKey} {MS : Merkle SectionInfo} {M : Merkle bytes}.
Context {Trigger : Type} `{Countable Trigger} {C : ConsensusDecision Trigger}.
Context {BSap : Bincode (SectionAuthorityProvider Trigger)} {ON : Ord NodeId}.
Context {BCi : BlsCiphers} {DB : Dbcs}.
Context {MsgId NodeMsgs : Type}.
Context {RC : Rmp (ClientMsg (Trigger := Trigger))}.

Abbreviation Tree := (SectionTree Trigger).
Abbreviation SErr := (SessionError (Trigger := Trigger) (MsgId := MsgId) (NodeMsgs := NodeMsgs)).

(** ** Repeated queries *)

Section query.
Context {S : Type} (network : S → Tree) (shuffle : S → list NodeId → list NodeId).
Context (ask : S → nat → PublicKey * list NodeId → S * result SErr QueryResponse).
Context (dst : XorName).
Implicit Types (s : S) (r : result SErr QueryResponse).

Definition elders_known s : bool :=
  is_ok (get_data_query_elders (MsgId := MsgId) (NodeMsgs := NodeMsgs) (shuffle s) (network s) dst).

(** The attempt with the given index. *)
Definition attempt (i : nat) s : S * result SErr QueryResponse :=
  match get_data_query_elders (shuffle s) (network s) dst with
  | Err e => (s, Err e)
  | Ok section => ask s i section
  end.
(** The state before an attempt, when all earlier ones were made. *)
Fixpoint state_at (i : nat) s : S :=
  match i with O => s | Datatypes.S i => (attempt i (state_at i s)).1 end.
Definition answer_at (i : nat) s : result SErr QueryResponse := (attempt i (state_at i s)).2.

Definition acceptable r : bool := match r with Ok response => negb (is_data_not_found response) | Err _ => false end.

(** How the loop ends, from an attempt on. *)
Definition ends_at (copies : nat) (retry : bool) (i : nat) (delays : list nat) s (k : nat) : Prop :=
  i ≤ k < copies ∧ k ≤ i + length delays ∧ (retry = false → k = i) ∧
  (∀ j, i ≤ j < k → acceptable (answer_at j s) = false ∧ elders_known (state_at j s) = true) ∧
  (acceptable (answer_at k s) = true ∨ k = copies - 1 ∨ k = i + length delays ∨ retry = false ∨
   elders_known (state_at k s) = false).

Lemma query_loop_spec copies retry fuel i delays s :
  copies = fuel + i → 0 < fuel →
  ∃ k, query_loop network shuffle ask copies dst retry fuel i delays (state_at i s) = Some (state_at (Datatypes.S k) s, answer_at k s) ∧
    ends_at copies retry i delays s k.
Proof.
  revert i delays. induction fuel as [|fuel IH]; intros i delays Hc Hf; [lia|]. cbn [query_loop].
  destruct (get_data_query_elders (shuffle (state_at i s)) (network (state_at i s)) dst) as [section|e] eqn:He; cycle 1.
  { exists i. unfold ends_at, elders_known. cbn [state_at]. unfold answer_at, attempt. rewrite He. cbn.
    split; [done|]. split_and!; [lia|lia|lia|done|intros; lia|by do 4 right]. }
  destruct (ask (state_at i s) i section) as [s' r] eqn:Ha.
  assert (attempt i (state_at i s) = (s', r)) as Hat by (unfold attempt; by rewrite He).
  assert (state_at (Datatypes.S i) s = s' ∧ answer_at i s = r) as [Hs Hr].
  { cbn [state_at]. unfold answer_at. by rewrite Hat. }
  assert ((acceptable r = true ∨ i = copies - 1 ∨ 0 = length delays ∨ retry = false) →
    ∃ k, Some (s', r) = Some (state_at (Datatypes.S k) s, answer_at k s) ∧ ends_at copies retry i delays s k) as Hend.
  { intros Hcase. exists i. rewrite Hs, Hr. split; [done|]. unfold ends_at. split_and!; [lia|lia|lia|done|intros; lia|].
    rewrite Hr. destruct Hcase as [?|[?|[?|?]]]; [by left|by right; left|right; right; left; lia|by do 3 right; left]. }
  destruct (negb retry || (copies - 1 <=? i)) eqn:Hstop.
  { apply Hend. apply orb_true_iff in Hstop as [?%negb_true_iff|?%Nat.leb_le]; [by do 3 right|right; left; lia]. }
  apply orb_false_iff in Hstop as [Hretry%negb_false_iff Hlast%Nat.leb_gt].
  destruct delays as [|d delays]; [by apply Hend; right; right; left|].
  assert (acceptable r = false → ∃ k,
    query_loop network shuffle ask copies dst retry fuel (Datatypes.S i) delays s' =
      Some (state_at (Datatypes.S k) s, answer_at k s) ∧ ends_at copies retry i (d :: delays) s k) as Hgo.
  { intros Hacc. destruct (IH (Datatypes.S i) delays) as (k & Hk & H1 & H2 & H3 & H4 & H5); [lia|lia|]. rewrite Hs in Hk.
    exists k. split; [done|]. unfold ends_at. cbn [length]. split_and!; [lia|lia|lia|by rewrite Hretry| |].
    - intros j Hj. destruct (decide (j = i)) as [->|]; [|apply H4; lia]. unfold elders_known. by rewrite Hr, He.
    - destruct H5 as [?|[?|[?|[?|?]]]]; [by left|by right; left|right; right; left; lia|by do 3 right; left|by do 4 right]. }
  destruct r as [response|e]; [|by apply Hgo].
  destruct (is_data_not_found response) eqn:Hnf; [apply Hgo; simpl; by rewrite Hnf|].
  apply Hend. left. simpl. by rewrite Hnf.
Qed.

(** A query that is repeated asks the holders one after the other, each at most once and
    no more than there are copies, and always returns: the first answer that has the data, or
    the last one when there are no more copies or no more time, or at once when it is not to
    be repeated. *)
Theorem repeated_query_returns_first copies retry delays s q :
  query_dst_name q = dst → 0 < copies → is_Some (rmp_encode (ClientQueryMsg q : ClientMsg (Trigger := Trigger))) →
  ∃ k, send_query_with_retry network shuffle ask copies q retry delays s =
         Some (state_at (Datatypes.S k) s, answer_at k s) ∧ ends_at copies retry 0 delays s k.
Proof.
  intros Hdst Hc [bs Hbs]. unfold send_query_with_retry, serialize_msg_payload. rewrite Hbs. cbn.
  rewrite decide_False by lia. rewrite Hdst. apply (query_loop_spec copies retry copies 0 delays s); lia.
Qed.
End query.

(** ** Replicas *)

(** All replicas were asked with success, and agree with the last. *)
Lemma replicas_agree_iff (eqb : QueryResponse → QueryResponse → bool) (results : list (nat * result SErr QueryResponse)) r :
  (∀ a b, eqb a b = true ↔ a = b) →
  query_all_data_replicas eqb results = ReplicasAgree r ↔ results ≠ [] ∧ ∀ i a, (i, a) ∈ results → a = Ok r.
Proof.
  intros Heq. unfold query_all_data_replicas.
  assert (replica_errors results = [] ↔ ∀ i a, (i, a) ∈ results → is_ok a = true) as Herr.
  { unfold replica_errors. induction results as [|[i [a|e]] l IH]; csimpl.
    - split; [by intros _ ? ? ?%not_elem_of_nil|done].
    - rewrite IH. setoid_rewrite elem_of_cons. naive_solver.
    - split; [done|]. intros Hall. by specialize (Hall i (Err e) ltac:(by left)). }
  assert ((∀ i a, (i, a) ∈ results → is_ok a = true) → results = (λ e, (e.2, Ok e.1)) <$> replica_responses results) as Hall.
  { clear. unfold replica_responses. induction results as [|[i [a|e]] l IH]; csimpl; intros Hall; [done| |].
    - f_equal. apply IH. intros j b ?. eapply Hall. by right.
    - by specialize (Hall i (Err e) ltac:(by left)). }
  destruct (replica_errors results) as [|err errs]; cycle 1.
  { split; [done|]. intros [_ Ho]. assert (err :: errs = []) as Hc; [|done]. apply Herr. intros i a Hin. by rewrite (Ho i a Hin). }
  specialize (Hall (proj1 Herr eq_refl)). set (responses := replica_responses results) in *.
  assert (∀ i a, (i, a) ∈ results ↔ ∃ b, a = Ok b ∧ (b, i) ∈ responses) as Hin.
  { intros i a. rewrite Hall, list_elem_of_fmap. split; [intros ([b j] & [= -> ->] & ?); eauto|].
    intros (b & -> & ?). by exists (b, i). }
  clearbody responses. destruct (decide (responses = [])) as [->|Hne].
  { simpl. split; [done|]. intros [Hne _]. by rewrite Hall in Hne. }
  destruct (exists_last Hne) as (l & [r0 i0] & ->). rewrite last_snoc, length_app. cbn [length].
  replace (length l + 1 - 1) with (length l) by lia. rewrite take_app_length.
  destruct (forallb (λ e, eqb e.1 r0) l) eqn:Hf.
  - rewrite forallb_forall in Hf. split.
    + intros [= <-]. split; [rewrite Hall, fmap_app; by destruct (fmap _ l)|].
      intros i a (b & -> & [Hb|Hb%list_elem_of_singleton]%elem_of_app)%Hin; [|by injection Hb as ->].
      f_equal. apply Heq. by apply (Hf (b, i)), list_elem_of_In.
    + intros [_ Ho]. f_equal. assert (Ok r0 = Ok r :> result SErr QueryResponse) as [= ->]; [|done].
      apply (Ho i0). apply Hin. exists r0. split; [done|]. apply elem_of_app. right. by left.
  - split; [done|]. intros [_ Ho]. exfalso. apply not_true_iff_false in Hf. apply Hf, forallb_forall.
    assert (∀ b i, (b, i) ∈ l ++ [(r0, i0)] → b = r) as Hb.
    { intros b i Hb. assert (Ok b = Ok r :> result SErr QueryResponse) as [= ->]; [|done].
      apply (Ho i), Hin. eauto. }
    intros [b i] Hbi%list_elem_of_In. apply Heq. cbn. rewrite (Hb b i), (Hb r0 i0); [done| |]; apply elem_of_app; [right; by left|by left].
Qed.

(** ** Spends *)

Lemma get_signed_by_key_Some (t : Tree) key sap :
  get_signed_by_key t key = Some sap → section_key (value sap) = key ∧ ∃ p, sections t !! p = Some sap.
Proof.
  unfold get_signed_by_key. rewrite fmap_Some. intros ([i s] & (Hi & Hk & _)%list_find_Some & ->). split; [done|].
  apply list_elem_of_lookup_2 in Hi. unfold bmap_values in Hi. apply list_elem_of_fmap in Hi as ([p s'] & -> & Hin%elem_of_bmap_iter).
  eauto.
Qed.

Context {XL : XorLaws} {ML : MerkleLaws SectionInfo}.

(** What a repeated spend brings along proves the key that the section did not know: an
    authority with that key, and a verified chain through it from the genesis key. *)
Lemma knowledge_for_key_proves (t : Tree) e key :
  tree_ok t e → forallb e_signed e = true → has_key (sections_dag t) key = true → e ≠ [] →
  ∃ r, knowledge_for_key (MsgId := MsgId) (NodeMsgs := NodeMsgs) t key = Some r ∧
    ∀ chain sap, r = Ok (chain, sap) →
      section_key (value sap) = key ∧ (∃ p, sections t !! p = Some sap) ∧
      has_key chain key = true ∧ genesis_key chain = tree_genesis_key t ∧ self_verify chain = Some true.
Proof.
  intros Hok Hs Hk Hne. pose proof (ok_repr _ _ Hok) as R.
  destruct (single_branch_ends_at_leaf _ _ _ R Hs Hk Hne) as (d & b & leaf & Hb & _ & Hg & Rb & Hsub & Hin & _).
  unfold knowledge_for_key. rewrite Hb. eexists. split; [done|]. intros chain sap (s & Hsap%ok_or_Ok & [= <- <-])%result_bind_Ok.
  destruct (get_signed_by_key_Some _ _ _ Hsap) as [? ?]. split_and!; try done.
  - apply (repr_has_key _ _ Rb). by rewrite Hg.
  - rewrite (self_verify_repr _ _ Rb). f_equal. apply forallb_forall. intros x Hx%list_elem_of_In%Hsub.
    rewrite forallb_forall in Hs. by apply Hs, list_elem_of_In.
Qed.

Section spend.
Context {S : Type} (network : S → Tree).
Context (send : S → SpentbookCmd (Trigger := Trigger) → S * result SErr unit).

(** A spend returns after at most five commands when the walks through its knowledge return,
    and it reports an unknown key no more. *)
Lemma spend_loop_returns cmd fuel attempts k s :
  (∀ s key, is_Some (knowledge_for_key (MsgId := MsgId) (NodeMsgs := NodeMsgs) (network s) key)) →
  fuel + attempts = Datatypes.S MAX_SPEND_DBC_ATTEMPS → 0 < fuel →
  ∃ s' r, spend_loop network send cmd fuel attempts k s = Some (s', r) ∧
    ∀ key id, r ≠ Err (CmdError (MsgSpentProofUnknownSectionKey key) id).
Proof.
  intros Hk. revert attempts k s. induction fuel as [|fuel IH]; intros attempts k s Hf Hpos; [lia|]. cbn [spend_loop].
  destruct (send s (with_spend_knowledge cmd k)) as [s' res].
  assert ((∀ key id, res ≠ Err (CmdError (MsgSpentProofUnknownSectionKey key) id)) ∨
          ∃ key id, res = Err (CmdError (MsgSpentProofUnknownSectionKey key) id)) as [Hno|(key & id & ->)].
  { destruct res as [|[| | | | | | | | | | |[]| | | | | |]]; first [by left|right; by eexists _, _]. }
  { exists s', res. split; [|done]. destruct res as [|[| | | | | | | | | | |[]| | | | | |]]; try done. by edestruct Hno. }
  case_decide; [by eexists _, _|]. destruct (Hk s' key) as [[k'|err] Hk']; rewrite Hk'.
  - apply IH; unfold MAX_SPEND_DBC_ATTEMPS in *; lia.
  - eexists _, _. split; [done|]. unfold knowledge_for_key in Hk'.
    destruct (single_branch_dag_for_key _ _) as [[[d l]|]|]; [|by injection Hk' as <-|done].
    destruct (get_signed_by_key _ _); [done|]. by injection Hk' as <-.
Qed.
End spend.

(** ** The happy path of commands *)

(** With the happy path a command reaches at most the four elders nearest to its address,
    one, one and two at a time: the other elders of a section are never asked. *)
Theorem happy_path_reaches_four target (all_elders : list NodeId) :
  mjoin (happy_path_attempts target all_elders) = take 4 (stable_sort (closer_elder target) all_elders).
Proof.
  unfold happy_path_attempts, pick_elders. set (l := stable_sort _ _). cbn.
  destruct l as [|a [|b [|c [|d l]]]]; cbn; done.
Qed.
End props.
