(* ===== verification/HandleMsg.v ===== *)
(** * Messages that arrive at a node

    [handle_msg] of [sn_node/src/node/messaging/mod.rs], which decides what becomes of a
    message: an answer that the sender is outdated, forwarding to the holders of data, or
    processing; and the processing of client messages by [flow_ctrl/mod.rs] and
    [flow_ctrl/dispatcher.rs].  [None] is a panic or a walk that does not return. *)

From Stdlib Require Import SpecFloat.
From S2P Require Import Prelude External Xor NodeState SectionsDag Sap SectionTree MemberHistory.
From S2P Require Import NetworkKnowledge Aggregator Keys Register UsedSpace Storage Membership Handover Relocation.
From S2P Require Import Dkg FaultDetection MyNode HandoverMsgs JoinMsgs DkgMsgs SectionChange WireMsg AeMsgs Fees ClientMsgs.

Section handle_msg.
Context {B : Bls} {BSh : BlsShares} {BPS : BlsPublicShares} {E : Ed25519} {EK : EdKeypairs} {X : Xor} {Cfg : Settings}.
Context {NH : NameHashing} {SD : Sdkg} {BP : Bincode PublicKey} {MS : Merkle SectionInfo} {M : Merkle bytes}.
Context {Trigger : Type} `{Countable Trigger} {C : ConsensusDecision Trigger}.
Context {OS : Ord (NodeState Trigger)} {BN : Bincode (NodeState Trigger)} {ON : Ord NodeId}.
Context {BSap : Bincode (SectionAuthorityProvider Trigger)}.
Context {BA : Bincode RegisterAddress} {BC : Bincode CreateRegister} {BE : Bincode EditRegister}.
Context {R : ConsensusRounds (NodeState Trigger) (Decision Trigger)} {D : Type}.
Context {RH : ConsensusRounds (SapCandidate Trigger) D}.
Context (CmdId : Type) `{Countable CmdId} (register_operation_id : RegisterCmd → option CmdId).
Context (cmd_size : Z) (list_files : gmap CmdId RegisterCmd → list RegisterCmd).
Context {OE : Ord (Hash bytes * bytes)}.
Context {BCi : BlsCiphers} {DB : Dbcs} {PW : Powf}.
Context {MsgId Stream ClientId : Type}.
Context (copies : nat) (data_cmd_size max_chunk_size : Z) (todo_sig : SectionSig).
Context (get_blinded_amounts : DbcTransaction → list SpentProof → list DbcTransaction →
  option (list (PublicKey * BlindedAmount))).
Context {RS : Rmp SpentProofShare} {RND : Rmp DataNodeMsg}.
Context {RE : Rmp (MsgEnvelope MsgId)} {RD : Rmp Dst} {RA : Rmp (AntiEntropyMsg (Trigger := Trigger))}.
Context {RC : Rmp (ClientMsg (Trigger := Trigger))} {RR : Rmp (DataResponse (MsgId := MsgId))} {RN : Rmp (NodeMsg Trigger D)}.
(** [ClientId::from] of a sender. *)
Context (client_id : NodeId → ClientId).

Abbreviation Wire := (WireMsg MsgId).
Abbreviation Context_ := (NodeContext (Trigger := Trigger) CmdId).
Abbreviation NodeCmd := (Cmd Trigger D Stream).
Abbreviation ClientCmd_ := (ClientCmd (Trigger := Trigger) (MsgId := MsgId) (Stream := Stream) (ClientId := ClientId)).
Abbreviation Content := (WireContent (Ae := AntiEntropyMsg (Trigger := Trigger)) (Client := ClientMsg (Trigger := Trigger))
  (Response := DataResponse (MsgId := MsgId)) (Node := NodeMsg Trigger D)).

Inductive MsgCmd :=
  | ForNode (cmd : NodeCmd)
  | ForClient (cmd : ClientCmd_)
  | ProcessClientMsg (msg_id : MsgId) (msg : ClientMsg (Trigger := Trigger)) (auth : ClientAuth) (client : ClientId)
      (send_stream : option Stream).

Inductive MsgError :=
  | NoClientResponseStream
  | EntropyErr (e : NodeError Trigger D).

Definition sent_from_a_member (c : Context_) (sender : NodeId) : bool :=
  bool_decide (set_Exists (λ n, id_addr n = id_addr sender) (nk_members (ctx_network_knowledge _ c))).
Definition is_for_us (c : Context_) (sender : NodeId) (wire_msg : Wire) : bool :=
  sent_from_a_member c sender || bool_decide (dst_name (wm_dst wire_msg) = ctx_name _ c) || is_client_spend (wm_kind wire_msg).
Definition is_client_kind (k : MsgKind) : bool := match k with KindClient _ _ _ => true | _ => false end.

(** The answer to an outdated message, that is no anti-entropy message itself. *)
Definition entropy_of (c : Context_) (wire_msg : Wire)
    : option (result (NodeError Trigger D) (option (SectionTreeUpdate Trigger * AntiEntropyKind))) :=
  if is_ae_msg (wm_kind wire_msg) then Some (Ok None)
  else check_for_entropy (D := D) (ctx_is_elder _ c) wire_msg (ctx_network_knowledge _ c).

(** The message is for us: its payload decides. *)
Definition handle_own_msg (c : Context_) (sender : NodeId) (wire_msg : Wire) (send_stream : option Stream)
    : option (result MsgError (list MsgCmd)) :=
  match into_msg wire_msg : result WireError Content with
  | Err _ => Some (Ok [])
  | Ok (WireNode msg) => Some (Ok [ForNode (ProcessNodeMsg msg sender send_stream)])
  | Ok (WireClient auth msg) => Some (Ok [ProcessClientMsg (wm_msg_id wire_msg) msg auth (client_id sender) send_stream])
  | Ok (WireAntiEntropy (AntiEntropy kind u)) => Some (Ok [ForNode (ProcessAeMsg kind u sender)])
  | Ok (WireAntiEntropy (Probe section_key)) =>
      if negb (ctx_is_elder _ c) then Some (Ok [])
      else
        match send_ae_update_to_nodes (ctx_network_knowledge _ c) (Single sender) section_key with
        | None => None
        | Some cmd => Some (Ok [ForNode cmd])
        end
  | Ok (WireDataResponse _) => Some (Ok [])
  end.

Definition handle_msg (c : Context_) (sender : NodeId) (wire_msg : Wire) (send_stream : option Stream)
    : option (result MsgError (list MsgCmd)) :=
  match entropy_of c wire_msg with
  | None => None
  | Some (Err e) => Some (Err (EntropyErr e))
  | Some (Ok (Some (u, kind))) =>
      Some (Ok (ForNode <$> generate_anti_entropy_cmds wire_msg sender u kind send_stream))
  | Some (Ok None) =>
      if negb (is_for_us c sender wire_msg) && is_client_kind (wm_kind wire_msg) then
        match send_stream with
        | None => Some (Err NoClientResponseStream)
        | Some stream =>
            Some (Ok [ForClient (forward_data_and_respond_to_client CmdId copies c wire_msg (client_id sender) stream)])
        end
      else handle_own_msg c sender wire_msg send_stream
  end.

(** [Cmd::ProcessClientMsg]: without a stream to respond on the message is dropped. *)
Abbreviation handle_client := (handle_client_msg_for_us CmdId register_operation_id cmd_size list_files copies data_cmd_size
  max_chunk_size todo_sig get_blinded_amounts (MsgId := MsgId) (Stream := Stream) (ClientId := ClientId)).
Definition process_client_msg (c : Context_) (seed : Seed) (msg_id : MsgId) (msg : ClientMsg) (auth : ClientAuth)
    (client : ClientId) (send_stream : option Stream) : Context_ * Checked (list ClientCmd_) :=
  match send_stream with
  | Some stream => handle_client c seed msg_id msg auth client stream
  | None => (c, Some (Ok []))
  end.

(** [Cmd::UpdateNetworkAndHandleValidClientMsg]: the knowledge of the node itself is updated,
    and the message handled with it. *)
Definition update_network_and_handle (c : Context_) (seed : Seed) (proof_chain : SectionsDAG)
    (signed_sap : SectionSigned (SectionAuthorityProvider Trigger)) (msg_id : MsgId) (msg : ClientMsg) (auth : ClientAuth)
    (client : ClientId) (stream : Stream) : Context_ * Checked (list ClientCmd_) :=
  match update_sap_knowledge_if_valid (ctx_network_knowledge _ c) (mkSectionTreeUpdate signed_sap proof_chain) (ctx_name _ c) with
  | None => (c, None)
  | Some (k, Err e) => (with_knowledge _ c k, refuse (NetworkKnowledgeError e))
  | Some (k, Ok updated) =>
      handle_client (if updated then with_knowledge _ c k else c) seed msg_id msg auth client stream
  end.

(** ** Where a spend goes *)

(** The commands that let a node process a message of a client. *)
Definition processes (cmd : MsgCmd) : bool := match cmd with ProcessClientMsg _ _ _ _ _ => true | _ => false end.

Lemma into_msg_client (wire_msg : Wire) auth is_spend i msg :
  wm_kind wire_msg = KindClient auth is_spend i → rmp_decode (wm_payload wire_msg) = Some msg →
  verify_authority auth (wm_payload wire_msg) = Ok auth →
  (into_msg wire_msg : result WireError Content) = Ok (WireClient auth msg).
Proof. unfold into_msg. intros -> Hd Hv. rewrite Hd. simpl. by rewrite Hv. Qed.

(** A spend that reaches an elder of the right section from a client is processed by
    him exactly if it is marked as a spend, as it is when it is sent for the first time; not
    marked, as after an anti-entropy answer, it is only forwarded to the holders of data. *)
Theorem spend_routing (c : Context_) sender (wire_msg : Wire) stream auth is_spend i msg :
  wm_kind wire_msg = KindClient auth is_spend i →
  entropy_of c wire_msg = Some (Ok None) → sent_from_a_member c sender = false →
  dst_name (wm_dst wire_msg) ≠ ctx_name _ c →
  rmp_decode (wm_payload wire_msg) = Some msg → verify_authority auth (wm_payload wire_msg) = Ok auth →
  handle_msg c sender wire_msg (Some stream) =
    Some (Ok [if is_spend then ProcessClientMsg (wm_msg_id wire_msg) msg auth (client_id sender) (Some stream)
              else ForClient (forward_data_and_respond_to_client CmdId copies c wire_msg (client_id sender) stream)]).
Proof.
  intros Hk He Hs Hn Hd Hv. unfold handle_msg, is_for_us. rewrite He, Hs, bool_decide_false by done. rewrite Hk.
  simpl. destruct is_spend; simpl; [|done]. unfold handle_own_msg. by rewrite (into_msg_client _ _ _ _ _ Hk Hd Hv).
Qed.
End handle_msg.
