(* ===== verification/ClientSessionDemo.v ===== *)
(** * Witnesses for the sessions of clients

    A section with two elders.  A client sends a command, both elders acknowledge it, the
    second at the second attempt; the encodings are those of a network in which every message
    decodes to an acknowledgement of message 5. *)

From Stdlib Require Import SpecFloat.
From S2P Require Import Prelude External Xor NodeState SectionsDag SectionsDagProps Sap SectionTree.
From S2P Require Import SectionTreeProps MemberHistory MemberHistoryProps NetworkKnowledge.
From S2P Require Import NetworkKnowledgeProps Aggregator Keys Register RegisterProps UsedSpace Storage.
From S2P Require Import StorageProps Membership MembershipProps Handover Relocation Dkg FaultDetection MyNode.
From S2P Require Import NodeDemo HandoverMsgs JoinMsgs DkgMsgs WireMsg SectionChange AeMsgs Fees.
From S2P Require Import ClientMsgs ClientMsgsProps ClientSession ClientSessionProps.
From S2P Require Import HandleMsg.

Module ClientDemo.
Import External.Concrete Xor.ConcreteXor DagDemo TreeDemo HistoryDemo KnowledgeDemo AggregatorDemo NodeDemo.

(** Names of contents are collision-free, unlike those of the other demonstrations. *)
#[export] Instance content_hashing : NameHashing (X := concrete_xor) := {|
  name_of_bytes := bits_of;
  from_content bs := StorageDemo.demo_content bs;
  from_content_parts l := StorageDemo.demo_content (mjoin l);
  xn_cmp_distance t a b := Nat.compare (common_bits t b) (common_bits t a);
  sig_to_bytes s := s.2;
|}.
#[export] Instance content_keypair_laws : EdKeypairLaws (NH := content_hashing).
Proof.
  split.
  - intros kp msg. simpl. by apply bool_decide_eq_true.
  - intros k. unfold pub_key, ed_name. cbn -[bits_of xn_bytes]. f_equal. by rewrite !bits_of_bytes.
Qed.

#[export] Instance client_ciphers : BlsCiphers := {|
  Fees.SecretKey := nat;
  Ciphertext := nat * bytes;
  Seed := unit;
  Fees.sk_public_key k := k;
  sk_sign k msg := (k, msg);
  pk_encrypt _ k msg := (k, msg);
  sk_decrypt k c := if decide (c.1 = k) then Some c.2 else None;
  ciphertext_bytes c := Z.of_nat c.1 :: c.2;
  bls_key_bytes k := [Z.of_nat k];
  bls_sig_bytes s := s.2;
|}.
#[export] Instance client_ciphers_laws : BlsCiphersLaws.
Proof.
  split.
  - intros seed sk m. simpl. by rewrite decide_True.
  - intros sk m. simpl. by apply bool_decide_eq_true.
Qed.
#[export] Instance client_dbcs : Dbcs := {|
  BlindedAmount := Z;
  RevealedAmount := Z;
  revealed_value a := a;
  blind a := a;
  reveal k c := if decide (c.1 = k) then head c.2 else None;
  derive_key k _ := k;
  DbcTransaction := list (nat * Z);
  tx_outputs tx := tx;
  tx_hash tx := (λ o, o.2) <$> tx;
  tx_verify tx amounts := bool_decide (amounts ≠ []);
  hash_content k h r a := (Z.of_nat k :: a :: h) ++ r;
|}.

Definition demo_fee : RequiredFee (BCi := client_ciphers) :=
  required_fee_new (BCi := client_ciphers) () 300 (5 : nat) (7 : nat).
Lemma required_fee_roundtrip_witness :
  required_fee_verify demo_fee = Ok () ∧
  decrypt_amount (BCi := client_ciphers) (fee_content demo_fee) (5 : nat) = Some (Ok 300%Z).
Proof.
  destruct (required_fee_roundtrip (BCi := client_ciphers) () 300 (5 : nat) (7 : nat)) as (H1 & _ & H2); [lia|].
  split; [exact H1|exact H2].
Defined.

#[export] Instance client_address : Bincode (RegisterAddress (X := concrete_xor)) := StorageDemo.bincode_address.
#[export] Instance client_create : Bincode (CreateRegister (X := concrete_xor)) := λ c, Some [1; cr_tag c]%Z.
#[export] Instance client_edit : Bincode (EditRegister (X := concrete_xor)) := λ e,
  Some (2 :: ra_tag (ed_address e) :: node_value (crdt_op (ed_edit e)))%Z.
#[export] Instance client_merkle : Merkle bytes := concrete_merkle.
#[export] Instance client_entry_ord : Ord (Hash bytes * bytes) := countable_ord.

(** A share is encoded as one number. *)
Definition share_number (s : SpentProofShare) : positive :=
  let c := sps_content s in
  encode ((spc_public_key c : nat, spc_transaction_hash c, spc_reason c, spc_blinded_amount c : Z),
          (sps_spentbook_pks s : nat), sps_index s, (sps_sig_share s : nat * nat * bytes)).
Definition share_of_number (p : positive) : option SpentProofShare :=
  match (decode p : option (nat * bytes * bytes * Z * nat * nat * (nat * nat * bytes))) with
  | Some (k, h, r, a, pks, i, sig) =>
      Some (mkProofShare (mkProofContent (k : PublicKey) h r (a : BlindedAmount)) (pks : PublicKeySet) i (sig : SignatureShare))
  | None => None
  end.
#[export] Instance share_rmp : Rmp SpentProofShare := {|
  rmp_encode s := Some [Z.pos (share_number s)];
  rmp_decode bs := match bs with [Z.pos p] => share_of_number p | _ => None end;
|}.
#[export] Instance share_rmp_laws : RmpLaws SpentProofShare.
Proof.
  intros s bs [= <-]. destruct s as [[k h r a] pks i sig]. unfold rmp_decode, share_rmp, share_of_number, share_number.
  by rewrite decode_encode.
Qed.

(** No property reads the encodings of the messages to nodes. *)
#[export] Instance node_msg_rmp : Rmp DataNodeMsg := {| rmp_encode _ := Some []; rmp_decode _ := None |}.

#[export] Instance client_powf : Powf := λ x _, x.
#[export] Instance client_settings : Settings := 7.

Definition no_sig : SectionSig (B := concrete_bls) := mkSectionSig 1 (1, []).
Definition spent_key : PublicKey := (4 : nat).
Definition demo_share : SpentProofShare :=
  mkProofShare (mkProofContent spent_key [1%Z] reason_none (5%Z : BlindedAmount)) (1 : nat) 0 (((1, 0), [1%Z]) : nat * nat * bytes).
Definition empty_store : DataStorage nat := mkStorage nat ∅ ∅ (used_space_new 1000 2000).
Definition client_node (name : list bool) : NodeContext (Trigger := unit) nat :=
  mkContext nat true empty_store name (name : Keypair) 7 genesis_knowledge [demo_key_share] false false.
Definition elder : NodeContext (Trigger := unit) nat := client_node [false].
Definition holder : NodeContext (Trigger := unit) nat := client_node [true; false].

(** The two commands of the demonstration: that of the elder, and the creation by the holder. *)
Definition elder_cmd : result ClientMsgError RegisterCmd := gen_register_cmd nat demo_share spent_key elder.
Definition book : RegisterAddress := mkRegisterAddress (from_content (pk_to_bytes spent_key)) SPENTBOOK_TYPE_TAG.
Definition holder_create : RegisterCmd :=
  CmdCreate (mkCreate (ra_name book) SPENTBOOK_TYPE_TAG
               (mkPolicy (Key (KeyBls (nk_section_key genesis_knowledge))) {[Anyone := mkPermissions (Some true)]}))
    (mkClientAuth (own_key nat holder) (own_sign nat holder [1; 0]%Z)) no_sig.
Definition client_id (c : RegisterCmd) : option nat :=
  if decide (c = holder_create) then Some 0 else
  match elder_cmd with Ok e => if decide (c = e) then Some 1 else None | Err _ => None end.
Definition client_list (files : gmap nat RegisterCmd) : list RegisterCmd := (map_to_list files).*2.
#[export] Instance client_laws : StorageLaws from_content nat client_id client_list.
Proof.
  split.
  - intros a b Hab%StorageDemo.pos_bits_inj. by apply (inj encode) in Hab.
  - done.
  - intros c c' id. unfold client_id. destruct elder_cmd; repeat case_decide; intros; simplify_eq; done.
Qed.

Definition book_path : XorName := from_content (default [] (bincode_serialize book)).
Lemma empty_spentbook : spentbook_ok from_content nat client_id empty_store book book_path.
Proof.
  split.
  - reflexivity.
  - intros path id c. unfold reg_files. simpl. by rewrite !lookup_empty.
  - intros id c. unfold reg_files. simpl. by rewrite !lookup_empty.
  - by left.
Qed.

Abbreviation holder_store := (store_data nat client_id 10 client_list no_sig holder).
Abbreviation demo_shares c :=
  (query from_content nat client_list SpentProofShare rmp_decode (ctx_data_storage nat c)
     (GetSpentProofSharesQuery (ra_name book)) (Key (own_key nat holder))).

Lemma spent_share_is_found_witness :
  ∃ cmd holder' level shares, holder_store (ReplSpentbookWrite cmd) = (holder', Ok level) ∧
    demo_shares holder' = RespGetSpentProofShares _ (Ok shares) ∧ demo_share ∈ shares.
Proof.
  assert (is_ok elder_cmd = true) as Hok by (vm_compute; reflexivity).
  destruct elder_cmd as [cmd|e] eqn:Hcmd; [|discriminate Hok].
  assert (match elder_cmd with Ok cmd => is_ok (holder_store (ReplSpentbookWrite cmd)).2 | Err _ => false end = true)
    as Hst by (vm_compute; reflexivity).
  rewrite Hcmd in Hst. destruct (holder_store (ReplSpentbookWrite cmd)) as [holder' [level|e]] eqn:Hs; [|discriminate Hst].
  destruct (spent_share_is_found nat client_id 10 client_list no_sig elder holder holder' demo_share spent_key
    cmd book_path level (Key (own_key nat holder)) Hcmd empty_spentbook) as (_ & _ & shares & Hq & Hin & _).
  - apply (bool_decide_unpack _). vm_compute. exact I.
  - exact Hs.
  - exists cmd, holder', level, shares. split; [exact Hs|]. split; [exact Hq|exact Hin].
Defined.

Definition client_chunk : DataCmd (Trigger := unit) := StoreChunk (chunk_new from_content [1%Z; 2%Z]).
Abbreviation demo_handle := (handle_client_msg_for_us nat client_id 10 client_list 4 100 1000 no_sig (λ _ _ _, None)
  (MsgId := nat) (Stream := unit) (ClientId := unit)).

Lemma write_response_exact_witness :
  ∃ cmds response c,
    demo_handle holder () 1 (ClientCmdMsg client_chunk) (mkClientAuth (own_key nat holder) (own_sign nat holder [])) () () =
      (c, Some (Ok (cmds ++ [SendDataResponse (CmdResponseMsg response 1) 1 () ()]))) ∧ cmd_result response = Ok ().
Proof.
  assert (is_ok (store_data nat client_id 10 client_list no_sig holder (ReplChunk (chunk_new from_content [1%Z; 2%Z]))).2 = true)
    as Hok by (vm_compute; reflexivity).
  destruct (write_response_exact nat client_id 10 client_list 4 100 1000 no_sig (λ _ _ _, None) holder () 1 client_chunk
    (mkClientAuth (own_key nat holder) (own_sign nat holder [])) () () (ReplChunk (chunk_new from_content [1%Z; 2%Z])) eq_refl)
    as (cmds & response & Hh & _ & Hr).
  exists cmds, response, (store_data nat client_id 10 client_list no_sig holder (ReplChunk (chunk_new from_content [1%Z; 2%Z]))).1.
  split; [exact Hh|].
  destruct (store_data nat client_id 10 client_list no_sig holder (ReplChunk (chunk_new from_content [1%Z; 2%Z]))).2;
    [exact Hr|discriminate Hok].
Defined.

(** Of the three members of a section the two nearest to 11 hold the data of that name. *)
#[export] Instance content_distance_laws : DistanceLaws (NH := content_hashing).
Proof.
  split; intros *; cbn.
  - apply Nat.compare_antisym.
  - rewrite !Nat.compare_gt_iff. lia.
Qed.
Definition section_knowledge : NetworkKnowledge unit :=
  mkKnowledge (demo_signed [] (pk 1)) (mkHistory (demo_initial ∪ {[demo_join [true; true] 3]}) [] ∅) genesis_tree.
Definition near : NodeId (X := concrete_xor) := demo_id [true; true] 3.

Lemma holders_are_nearest_witness :
  size (nk_members section_knowledge) = 3 ∧ size (target_data_holders 2 section_knowledge [true; true] None) = 2 ∧
  target_data_holders 2 section_knowledge [true; true] (Some 0) = {[near]}.
Proof.
  assert (size (nk_members section_knowledge) = 3) as Hsz by (vm_compute; reflexivity).
  assert (bool_decide (sorted_members section_knowledge [true; true] !! 0 = Some near) = true) as Hnear
    by (vm_compute; reflexivity).
  apply bool_decide_eq_true in Hnear.
  destruct (holders_are_nearest 2 section_knowledge [true; true]) as (_ & Hs & _ & Hi).
  rewrite Hsz in Hs, Hi. split; [exact Hsz|]. split; [exact Hs|].
  destruct (proj1 (Hi 0)) as (x & Hx & _ & Hx0); [simpl; lia|]. rewrite Hnear in Hx0. injection Hx0 as <-. exact Hx.
Defined.
End ClientDemo.

Module SessionDemo.
Import External.Concrete Xor.ConcreteXor DagDemo TreeDemo HistoryDemo KnowledgeDemo AggregatorDemo MembershipDemo NodeDemo ClientDemo.

Definition elder0 : NodeId (X := concrete_xor) := demo_id [false] 1.
Definition elder1 : NodeId (X := concrete_xor) := demo_id [true] 2.
Definition two_elders : Sap := mkSap [] (pk 1) {[elder0; elder1]} ∅ 0.
Definition two_signed : SectionSigned Sap :=
  mkSectionSigned two_elders (mkSectionSig (pk 1) (pk 1, default [] (bincode_serialize two_elders))).
Definition two_tree : SectionTree unit := mkSectionTree {[[] := two_signed]} (SectionsDag.new (pk 1)).

Abbreviation Ae := (AntiEntropyMsg (Trigger := unit)).
Abbreviation Client := (ClientMsg (Trigger := unit)).
Abbreviation Response := (DataResponse (MsgId := nat)).
Definition ack : Response := CmdResponseMsg (RespStoreChunk (Ok ())) 5.
Definition client_query : Client := ClientQueryMsg (Stored (GetChunkQuery [true])).
Definition client_auth : ClientAuth := mkClientAuth (own_key nat holder) (own_sign nat holder [9]%Z).

#[export] Instance rmp_envelope : Rmp (MsgEnvelope nat) := {|
  rmp_encode _ := Some [];
  rmp_decode _ := Some (mkEnvelope 5 (KindDataResponse ([] : XorName)));
|}.
#[export] Instance rmp_dst : Rmp (Dst (B := concrete_bls) (X := concrete_xor)) := {|
  rmp_encode _ := Some [];
  rmp_decode _ := Some (mkDst concrete_bls concrete_xor ([] : list bool) (pk 1));
|}.
#[export] Instance rmp_ae : Rmp Ae := {| rmp_encode _ := Some []; rmp_decode _ := None |}.
#[export] Instance rmp_client : Rmp Client := {| rmp_encode _ := Some []; rmp_decode _ := Some client_query |}.
#[export] Instance rmp_response : Rmp Response := {| rmp_encode _ := Some []; rmp_decode _ := Some ack |}.
#[export] Instance rmp_unit : Rmp unit := {| rmp_encode _ := Some []; rmp_decode _ := None |}.

Definition ack_bytes : bytes * bytes * bytes := ([0; 4; 0; 1]%Z, [], []).
Definition events : list (nat * TaskEvent) :=
  [(0, LinkSent); (1, LinkFailed); (1, LinkSent); (1, Received ack_bytes); (0, Received ack_bytes)].

Abbreviation demo_cmd := (send_cmd (NodeMsgs := unit) two_tree ([true] : list bool) client_auth [] false (5 : nat)).
Abbreviation demo_run := (run (Trigger := unit) (MsgId := nat) (NodeMsgs := unit)).
Definition demo_outcome : option (option (result (SessionError (Trigger := unit) (MsgId := nat) (NodeMsgs := unit)) unit)) :=
  match demo_cmd with
  | Ok (nodes, msg, w) =>
      match demo_run msg w events with Some w => Some (send_msg_and_check_acks 5 nodes w) | None => None end
  | Err _ => None
  end.
Definition acknowledged : bool :=
  match demo_outcome with Some (Some (Ok _)) => true | _ => false end.


(** The command with its elders, and the run to the end. *)
Definition demo_addresses : list SocketAddr :=
  match demo_cmd with Ok (nodes, _, _) => id_addr <$> nodes | Err _ => [] end.
Lemma demo_starts : ∃ nodes msg w0 w, demo_cmd = Ok (nodes, msg, w0) ∧ demo_run msg w0 events = Some w ∧
  demo_addresses = id_addr <$> nodes ∧ demo_outcome = Some (send_msg_and_check_acks 5 nodes w).
Proof.
  assert (acknowledged = true) as Hack by (vm_compute; reflexivity). unfold acknowledged in Hack.
  unfold demo_outcome, demo_addresses in *. destruct demo_cmd as [[[nodes msg] w0]|e]; [|discriminate Hack].
  destruct (demo_run msg w0 events) as [w|] eqn:Hr; [|discriminate Hack].
  exists nodes, msg, w0, w. split; [reflexivity|]. split; [exact Hr|]. split; reflexivity.
Qed.
Lemma demo_nodup : NoDup demo_addresses.
Proof. apply (bool_decide_unpack _). vm_compute. exact I. Qed.
Lemma demo_ok : demo_outcome = Some (Some (Ok ())).
Proof.
  assert (acknowledged = true) as Hack by (vm_compute; reflexivity). unfold acknowledged in Hack.
  destruct demo_outcome as [[[[]|e]|]|]; [reflexivity|discriminate Hack..].
Qed.

Lemma cmd_succeeds_exactly_witness :
  ∃ nodes w, send_msg_and_check_acks (Trigger := unit) (NodeMsgs := unit) (5 : nat) nodes w = Some (Ok ()) ∧
    ∀ elder, elder ∈ nodes → ∃ resp, Some (CmdResponseFrom (id_addr elder) resp) ∈ w_results w ∧ cmd_result resp = Ok ().
Proof.
  destruct demo_starts as (nodes & msg & w0 & w & Hc & Hr & Ha & Ho). exists nodes, w.
  rewrite demo_ok in Ho. injection Ho as Ho. split; [symmetry; exact Ho|].
  pose proof demo_nodup as Hnd. rewrite Ha in Hnd.
  exact (proj1 (proj2 (cmd_succeeds_exactly _ _ _ _ _ _ _ _ _ _ _ Hc Hnd Hr)) (eq_sym Ho)).
Defined.

Lemma demo_sends : ∃ nodes msg w0 w, send_msg (NodeMsgs := unit) (MsgId := nat) two_tree nodes msg = Ok w0 ∧
  demo_run msg w0 events = Some w.
Proof.
  destruct demo_starts as (nodes & msg & w0 & w & Hc & Hr & _ & _). exists nodes, msg, w0, w. split; [|exact Hr].
  unfold send_cmd in Hc. apply result_bind_Ok in Hc as ([pk elders] & _ & Hc).
  apply result_bind_Ok in Hc as (w1 & Hs & Hc). injection Hc as <- <- <-. exact Hs.
Qed.

Lemma tasks_end_witness :
  ∃ (nodes : list (NodeId (X := concrete_xor))) w, (∀ i, events_of i events ≤ 26) ∧ length events ≤ 26 * length nodes ∧ length (w_sent (Trigger := unit) (MsgId := nat) (NodeMsgs := unit) w) ≤ 7 * length nodes.
Proof.
  destruct demo_sends as (nodes & msg & w0 & w & Hs & Hr). exists nodes, w.
  destruct (tasks_end _ _ _ _ _ _ Hs Hr) as (Hi & He & Hm & _).
  split; [intros i; exact (proj1 (Hi i))|]. split; [exact He|exact Hm].
Defined.

Lemma bounced_spend_is_no_spend_witness :
  ∃ (nodes : list (NodeId (X := concrete_xor))) msg w, ∀ node m, (node, m) ∈ w_sent (Trigger := unit) (MsgId := nat) (NodeMsgs := unit) w →
    (m = msg ∧ node ∈ nodes) ∨ is_client_spend (wm_kind m) = false.
Proof.
  destruct demo_sends as (nodes & msg & w0 & w & Hs & Hr). exists nodes, msg, w.
  exact (bounced_spend_is_no_spend _ _ _ _ _ _ Hs Hr).
Defined.

Lemma two_tree_signed : tree_signed two_tree.
Proof.
  intros p s Hs. simpl in Hs. apply lookup_singleton_Some in Hs as [<- <-]. split; [reflexivity|].
  split; [vm_compute; reflexivity|reflexivity].
Qed.
Lemma knowledge_stays_signed_witness :
  ∃ w, tree_signed (w_network (Trigger := unit) (MsgId := nat) (NodeMsgs := unit) w).
Proof.
  destruct demo_sends as (nodes & msg & w0 & w & Hs & Hr). exists w.
  exact (knowledge_stays_signed _ _ _ _ _ _ two_tree_signed Hs Hr).
Defined.

(** The holder with index 1 is the first that has the data. *)
Definition demo_ask (s : nat) (i : nat) (_ : PublicKey * list NodeId)
    : nat * result (SessionError (Trigger := unit) (MsgId := nat) (NodeMsgs := unit)) QueryResponse :=
  (S s, if decide (i = 1) then Ok (RespStored (RespGetChunk _ (Ok (chunk_new from_content [1%Z])))) else Err QuicP2p).
Definition three_tree : SectionTree unit :=
  mkSectionTree {[[] := mkSectionSigned (mkSap [] (pk 1) {[elder0; elder1; demo_id [true; true] 3]} ∅ 0)
    (mkSectionSig (pk 1) (pk 1, []))]} (SectionsDag.new (pk 1)).
Definition demo_query : ClientQuery := Stored (GetChunkQuery [true]).

Lemma repeated_query_returns_first_witness :
  ∃ k, send_query_with_retry (λ _, three_tree) (λ _ l, l) demo_ask 4 demo_query true [1; 1; 1] 0 =
         Some (state_at (λ _, three_tree) (λ _ l, l) demo_ask (query_dst_name demo_query) (S k) 0,
               answer_at (λ _, three_tree) (λ _ l, l) demo_ask (query_dst_name demo_query) k 0) ∧
    ends_at (λ _, three_tree) (λ _ l, l) demo_ask (query_dst_name demo_query) 4 true 0 [1; 1; 1] 0 k.
Proof.
  apply (repeated_query_returns_first (λ _, three_tree) (λ _ l, l) demo_ask (query_dst_name demo_query) 4 true [1; 1; 1] 0
    demo_query eq_refl); [lia|exists []; reflexivity].
Defined.

(** An elder gets a spend from a client. *)
Definition spend_msg (is_spend : bool) : WireMsg nat :=
  new_msg 5 [9]%Z (KindClient client_auth is_spend None) (mkDst _ _ ([true] : list bool) (pk 1)).
#[export] Instance rmp_node_msg : Rmp (NodeMsg unit (list Candidate)) := {| rmp_encode _ := Some []; rmp_decode _ := None |}.
Abbreviation demo_handle_msg := (handle_msg (Trigger := unit) (D := list Candidate) (Stream := unit) (ClientId := unit)
  nat 4 (λ _, ()) elder elder0).

Lemma spend_routing_witness :
  demo_handle_msg (spend_msg true) (Some ()) = Some (Ok [ProcessClientMsg (5 : nat) client_query client_auth () (Some ())]).
Proof.
  refine (spend_routing (D := list Candidate) nat 4 (λ _, ()) elder elder0 (spend_msg true) () client_auth true None client_query
    eq_refl _ _ _ eq_refl _).
  - reflexivity.
  - vm_compute. reflexivity.
  - discriminate.
  - reflexivity.
Defined.
End SessionDemo.
