(* ===== verification/Text.v ===== *)
(** * Strings

    A Rust string is a sequence of Unicode scalar values, here the list of their code
    points; its length is the length of its UTF-8 encoding.  The functions are those of
    [str], [char] and [slice] of the standard library that the URL code uses. *)

From Stdlib Require Import Ascii String.
From Stdlib Require Import String.
From S2P Require Import Prelude.

Abbreviation ustr := (list N).

(** A literal of the source; all of them are ASCII. *)
Definition lit (s : string) : ustr := N_of_ascii <$> list_ascii_of_string s.

(** ** UTF-8 *)

Definition utf8_char (c : N) : list N :=
  (if c <? 0x80 then [c]
   else if c <? 0x800 then [0xC0 + c / 0x40; 0x80 + c mod 0x40]
   else if c <? 0x10000 then [0xE0 + c / 0x1000; 0x80 + (c / 0x40) mod 0x40; 0x80 + c mod 0x40]
   else [0xF0 + c / 0x40000; 0x80 + (c / 0x1000) mod 0x40; 0x80 + (c / 0x40) mod 0x40; 0x80 + c mod 0x40])%N.

(** [str::as_bytes] and [str::len]. *)
Definition as_bytes (s : ustr) : list Z := Z.of_N <$> (s ≫= utf8_char).
Definition str_len (s : ustr) : nat := List.length (as_bytes s).

(** ** Characters *)

Definition in_range (lo hi c : N) : bool := (lo <=? c)%N && (c <=? hi)%N.

(** [char::is_whitespace]: the property White_Space. *)
Definition is_whitespace (c : N) : bool :=
  in_range 0x9 0xD c || in_range 0x2000 0x200A c || existsb (N.eqb c)
    [0x20; 0x85; 0xA0; 0x1680; 0x2028; 0x2029; 0x202F; 0x205F; 0x3000]%N.
(** [char::is_control]: the category Cc. *)
Definition is_control (c : N) : bool := in_range 0x0 0x1F c || in_range 0x7F 0x9F c.

Definition is_ascii_alphanumeric (c : N) : bool :=
  in_range 0x30 0x39 c || in_range 0x41 0x5A c || in_range 0x61 0x7A c.

(** ** Searching and splitting *)

Fixpoint starts_with (pat s : ustr) : bool :=
  match pat, s with
  | [], _ => true
  | p :: pat, c :: s => (p =? c)%N && starts_with pat s
  | _ :: _, [] => false
  end.

(** [str::contains] of a string. *)
Fixpoint contains (s pat : ustr) : bool :=
  starts_with pat s || match s with [] => false | _ :: s => contains s pat end.

(** [str::replacen] with count 1. *)
Fixpoint replace_first (s from to : ustr) : ustr :=
  if starts_with from s then to ++ drop (List.length from) s
  else match s with [] => [] | c :: s => c :: replace_first s from to end.

(** [str::split] at a character; never empty. *)
Fixpoint split (sep : N) (s : ustr) : list ustr :=
  match s with
  | [] => [[]]
  | c :: s =>
      if (c =? sep)%N then [] :: split sep s
      else match split sep s with [] => [[c]] | w :: ws => (c :: w) :: ws end
  end.

(** [slice::join]. *)
Fixpoint join (sep : ustr) (ws : list ustr) : ustr :=
  match ws with
  | [] => []
  | [w] => w
  | w :: ws => w ++ sep ++ join sep ws
  end.

(** ** Properties *)

Lemma split_not_nil sep s : split sep s ≠ [].
Proof. destruct s as [|c s]; simpl; [done|]. destruct (c =? sep)%N, (split sep s); done. Qed.

(** Joining the parts gives the string back. *)
Lemma join_split sep s : join [sep] (split sep s) = s.
Proof.
  induction s as [|c s IH]; simpl; [done|].
  destruct (N.eqb_spec c sep) as [->|Hne].
  - destruct (split sep s) eqn:E; [by apply split_not_nil in E|]. simpl in *. by rewrite IH.
  - destruct (split sep s) as [|w [|w' ws]] eqn:E; [by apply split_not_nil in E|..]; simpl in *; congruence.
Qed.

Lemma split_app_sep sep w s : sep ∉ w → split sep (w ++ sep :: s) = w :: split sep s.
Proof.
  induction w as [|c w IH]; simpl; intros Hw.
  - by rewrite N.eqb_refl.
  - apply not_elem_of_cons in Hw as [Hne Hw]. rewrite IH by done.
    by destruct (N.eqb_spec c sep) as [->|].
Qed.
Lemma split_no_sep sep w : sep ∉ w → split sep w = [w].
Proof.
  induction w as [|c w IH]; simpl; intros Hw; [done|].
  apply not_elem_of_cons in Hw as [Hne Hw]. rewrite IH by done.
  by destruct (N.eqb_spec c sep) as [->|].
Qed.
(** Splitting gives joined parts back. *)
Lemma split_join sep ws : ws ≠ [] → Forall (λ w, sep ∉ w) ws → split sep (join [sep] ws) = ws.
Proof.
  intros Hne Hws. induction Hws as [|w ws Hw Hws IH]; [done|].
  destruct ws as [|w' ws]; [by apply split_no_sep|].
  change (join [sep] (w :: w' :: ws)) with (w ++ sep :: join [sep] (w' :: ws)).
  by rewrite split_app_sep, IH.
Qed.
Lemma join_app sep ws w : ws ≠ [] → join sep (ws ++ [w]) = join sep ws ++ sep ++ w.
Proof.
  induction ws as [|v [|v' ws] IH]; intros Hne; [done|done|].
  change (join sep ((v :: v' :: ws) ++ [w])) with (v ++ sep ++ join sep ((v' :: ws) ++ [w])).
  rewrite IH by done. cbn [join]. by rewrite <-!(assoc_L (++)).
Qed.

Lemma join_all (P : N → Prop) sep ws : P sep → Forall (Forall P) ws → Forall P (join [sep] ws).
Proof.
  intros HP. induction 1 as [|w ws Hw Hws IH]; [constructor|].
  destruct ws as [|w' ws]; [done|]. change (join [sep] (w :: w' :: ws)) with (w ++ sep :: join [sep] (w' :: ws)).
  apply Forall_app. split; [done|]. by constructor.
Qed.

Lemma starts_with_prefix pat s : starts_with pat s = true ↔ pat `prefix_of` s.
Proof.
  revert s. induction pat as [|p pat IH]; intros s; simpl; [split; [by eexists|done]|].
  destruct s as [|c s]; [by split; [|intros [? [=]]]|].
  rewrite andb_true_iff.
  rewrite N.eqb_eq, IH. split.
  - intros [-> [k ->]]. by exists k.
  - intros [k [= -> ->]]. split; [done|by exists k].
Qed.
Lemma starts_with_app pat s : starts_with pat (pat ++ s) = true.
Proof. apply starts_with_prefix. by exists s. Qed.

Lemma replace_first_prefix from to s : replace_first (from ++ s) from to = to ++ s.
Proof.
  assert (∀ t, starts_with from t = true → replace_first t from to = to ++ drop (List.length from) t) as H.
  { intros t Ht. by destruct t; simpl; rewrite Ht. }
  rewrite H by apply starts_with_app. by rewrite drop_app_length.
Qed.

(** ** Decoding UTF-8 *)

(** The number of bytes that follow a leading byte, and the bits it carries. *)
Definition utf8_head (b : N) : option (nat * N) :=
  (if b <? 0x80 then Some (0%nat, b)
   else if in_range 0xC0 0xDF b then Some (1%nat, b - 0xC0)
   else if in_range 0xE0 0xEF b then Some (2%nat, b - 0xE0)
   else if in_range 0xF0 0xF7 b then Some (3%nat, b - 0xF0)
   else None)%N.

(** The values a [char] can have. *)
Definition is_scalar (c : N) : bool := (c <? 0xD800)%N || in_range 0xE000 0x10FFFF c.

Definition utf8_value (payload : N) (rest : list N) : N :=
  foldl (λ acc d, acc * 0x40 + (d - 0x80))%N payload rest.

(** [str::from_utf8]: every sequence is the (shortest) encoding of a [char]. *)
Fixpoint utf8_decode (fuel : nat) (bs : list N) : option ustr :=
  match fuel, bs with
  | _, [] => Some []
  | 0, _ => None
  | S fuel, b :: rest =>
      '(n, payload) ← utf8_head b;
      let c := utf8_value payload (take n rest) in
      if bool_decide (utf8_char c = b :: take n rest) && is_scalar c
      then cons c <$> utf8_decode fuel (drop n rest) else None
  end.
Definition from_utf8 (bs : list Z) : option ustr :=
  if bool_decide (Forall (λ b, 0 ≤ b)%Z bs) then utf8_decode (List.length bs) (Z.to_N <$> bs) else None.

(** A string holds [char]s. *)
Definition scalars (s : ustr) : Prop := Forall (λ c, is_scalar c = true) s.

Lemma utf8_head_char c :
  is_scalar c = true →
  ∃ b rest payload, utf8_char c = b :: rest ∧ utf8_head b = Some (List.length rest, payload) ∧ utf8_value payload rest = c.
Proof.
  unfold is_scalar, in_range. rewrite orb_true_iff, andb_true_iff, N.ltb_lt, !N.leb_le. intros Hc.
  unfold utf8_char, utf8_head, utf8_value, in_range.
  pose proof (N.div_mod' c 0x40) as H1. pose proof (N.mod_lt c 0x40 ltac:(done)) as H1'.
  pose proof (N.div_mod' (c / 0x40) 0x40) as H2. pose proof (N.mod_lt (c / 0x40) 0x40 ltac:(done)) as H2'.
  pose proof (N.div_mod' (c / 0x1000) 0x40) as H3. pose proof (N.mod_lt (c / 0x1000) 0x40 ltac:(done)) as H3'.
  assert (c / 0x1000 = c / 0x40 / 0x40)%N as E2 by (by rewrite N.Div0.div_div).
  assert (c / 0x40000 = c / 0x1000 / 0x40)%N as E3 by (by rewrite N.Div0.div_div).
  rewrite E3, E2 in *. clear E2 E3.
  generalize dependent (c / 0x40 / 0x40 / 0x40)%N. generalize dependent (c / 0x40 / 0x40 mod 0x40)%N.
  generalize dependent (c / 0x40 / 0x40)%N. generalize dependent ((c / 0x40) mod 0x40)%N.
  generalize dependent (c / 0x40)%N. generalize dependent (c mod 0x40)%N.
  intros m0 Hm0 q1 Hc1 m1 Hm1 q2 Hq1 m2 Hm2 q3 Hq2.
  destruct (N.ltb_spec c 0x80); [|destruct (N.ltb_spec c 0x800); [|destruct (N.ltb_spec c 0x10000)]];
    do 3 eexists; (split; [reflexivity|]); cbn [List.length foldl];
    repeat match goal with
       | |- context [(?a <? ?b)%N] => destruct (N.ltb_spec a b); try lia
       | |- context [(?a <=? ?b)%N] => destruct (N.leb_spec a b); cbn [andb]; try lia
       end; (split; [reflexivity|lia]).
Qed.

Lemma utf8_decode_chars fuel s :
  scalars s → List.length s ≤ fuel → utf8_decode fuel (s ≫= utf8_char) = Some s.
Proof.
  revert fuel. induction s as [|c s IH]; intros fuel Hs Hf; [by destruct fuel|].
  apply Forall_cons in Hs as [Hc Hs]. destruct (utf8_head_char c Hc) as (b & rest & payload & Hu & Hh & Hv).
  cbn [List.length] in Hf. destruct fuel as [|fuel]; [lia|]. cbn [mbind list_bind]. rewrite Hu. cbn [app utf8_decode].
  rewrite Hh. cbn. rewrite take_app_length, drop_app_length, Hv, Hu, Hc, bool_decide_true by done.
  cbn. by rewrite IH by (done || lia).
Qed.

Lemma as_bytes_nat s : Z.to_N <$> as_bytes s = s ≫= utf8_char.
Proof.
  unfold as_bytes. rewrite <-list_fmap_compose. rewrite <-(list_fmap_id (s ≫= utf8_char)) at 2.
  apply list_fmap_ext. intros _ x _. cbn. apply N2Z.id.
Qed.

Lemma as_bytes_nonneg s : Forall (λ b, 0 ≤ b)%Z (as_bytes s).
Proof. apply Forall_fmap, Forall_true. intros c. cbn. lia. Qed.

(** Decoding gives the characters of a string back. *)
Lemma from_utf8_as_bytes s : scalars s → from_utf8 (as_bytes s) = Some s.
Proof.
  intros Hs. unfold from_utf8. rewrite bool_decide_true by apply as_bytes_nonneg.
  rewrite as_bytes_nat. apply utf8_decode_chars; [done|].
  unfold as_bytes. rewrite length_fmap. clear Hs. induction s as [|c s IH]; [done|].
  cbn [mbind list_bind]. rewrite length_app.
  assert (1 ≤ List.length (utf8_char c)); [|cbn [List.length]; lia].
  unfold utf8_char. repeat case_match; cbn; lia.
Qed.

Lemma utf8_decode_sound fuel bs s : utf8_decode fuel bs = Some s → bs = (s ≫= utf8_char) ∧ scalars s.
Proof.
  revert bs s. induction fuel as [|fuel IH]; intros [|b rest] s; cbn [utf8_decode];
    [intros [= <-]; by split; [|constructor]|done|intros [= <-]; by split; [|constructor]|].
  destruct (utf8_head b) as [[n payload]|]; [|done]. cbn. case_bool_decide as Hc; [|done].
  destruct (is_scalar _) eqn:Hs; [|done]. cbn. intros (s' & (Hd & Hs')%IH & ->)%fmap_Some.
  split; [|by constructor]. change (b :: rest) with ([b] ++ rest). cbn [mbind list_bind].
  rewrite Hc, <-Hd. cbn. by rewrite take_drop.
Qed.
(** Only the bytes of a string decode. *)
Lemma from_utf8_Some bs s : from_utf8 bs = Some s ↔ bs = as_bytes s ∧ scalars s.
Proof.
  split; [|by intros [-> ?%from_utf8_as_bytes]]. unfold from_utf8. case_bool_decide as Hb; [|done].
  intros [He Hs]%utf8_decode_sound. split; [|done]. unfold as_bytes. rewrite <-He, <-list_fmap_compose.
  rewrite <-(list_fmap_id bs) at 1. apply list_fmap_ext. intros i x Hx. cbn.
  rewrite Forall_lookup in Hb. apply Hb in Hx. unfold id. lia.
Qed.
Lemma as_bytes_inj s t : scalars s → scalars t → as_bytes s = as_bytes t → s = t.
Proof. intros Hs%from_utf8_as_bytes Ht%from_utf8_as_bytes He. congruence. Qed.

(** ** Numbers as big-endian bytes *)

(** [to_be_bytes] of a number of [n] bytes, and [from_be_bytes]. *)
Fixpoint to_be_bytes (n : nat) (z : Z) : list Z :=
  match n with 0 => [] | S n => ((z / 256 ^ Z.of_nat n) `mod` 256)%Z :: to_be_bytes n z end.
Definition from_be_bytes (bs : list Z) : Z := foldl (λ acc b, acc * 256 + b)%Z 0%Z bs.

(** [u64::leading_zeros]. *)
Definition leading_zeros (z : Z) : Z := if decide (z = 0)%Z then 64 else (63 - Z.log2 z)%Z.

Lemma length_to_be_bytes n z : List.length (to_be_bytes n z) = n.
Proof. induction n; simpl; congruence. Qed.
Lemma drop_to_be_bytes k n z : drop k (to_be_bytes n z) = to_be_bytes (n - k) z.
Proof. revert k. induction n as [|n IH]; intros [|k]; simpl; auto. Qed.
Lemma to_be_bytes_range n z : Forall (λ b, 0 ≤ b < 256)%Z (to_be_bytes n z).
Proof. induction n; simpl; constructor; [apply Z.mod_pos_bound; lia|done]. Qed.

Lemma foldl_be acc bs :
  foldl (λ acc b, acc * 256 + b)%Z acc bs = (acc * 256 ^ Z.of_nat (List.length bs) + from_be_bytes bs)%Z.
Proof.
  unfold from_be_bytes. revert acc. induction bs as [|b bs IH]; intros acc; cbn [foldl List.length]; [lia|].
  rewrite (IH (acc * 256 + b)%Z), (IH (0 * 256 + b)%Z), Nat2Z.inj_succ, Z.pow_succ_r by lia. lia.
Qed.
Lemma from_to_be_bytes n z : from_be_bytes (to_be_bytes n z) = (z `mod` 256 ^ Z.of_nat n)%Z.
Proof.
  induction n as [|n IH]; [by rewrite Z.mod_1_r|].
  cbn [to_be_bytes]. unfold from_be_bytes at 1. cbn [foldl].
  rewrite foldl_be, length_to_be_bytes, IH, Nat2Z.inj_succ, Z.pow_succ_r by lia.
  rewrite (Z.mul_comm 256), Z.rem_mul_r by lia. lia.
Qed.
(** Leading zero bytes do not count. *)
Lemma from_be_bytes_zeros n bs : from_be_bytes (replicate n 0%Z ++ bs) = from_be_bytes bs.
Proof. unfold from_be_bytes. by induction n. Qed.

Definition skipped_bytes (z : Z) : nat := Z.to_nat (leading_zeros z / 8).

Lemma skipped_bytes_le z : (0 ≤ z)%Z → skipped_bytes z ≤ 8.
Proof.
  intros Hz. unfold skipped_bytes, leading_zeros. case_decide; [done|].
  assert (0 ≤ Z.log2 z)%Z by apply Z.log2_nonneg.
  assert ((63 - Z.log2 z) / 8 ≤ 8)%Z by (apply Z.div_le_upper_bound; lia). lia.
Qed.
(** The bytes that [leading_zeros / 8] skips are zero. *)
Lemma skipped_bytes_bound z : (0 ≤ z < 2 ^ 64)%Z → (z < 256 ^ Z.of_nat (8 - skipped_bytes z))%Z.
Proof.
  intros Hz. unfold skipped_bytes, leading_zeros. case_decide as Hd; [subst; done|].
  assert (0 ≤ Z.log2 z < 64)%Z as Hlog.
  { split; [apply Z.log2_nonneg|]. apply Z.log2_lt_pow2; lia. }
  assert (Hdiv : (8 * ((63 - Z.log2 z) / 8) ≤ 63 - Z.log2 z)%Z) by (apply Z.mul_div_le; lia).
  assert (0 ≤ (63 - Z.log2 z) / 8 < 8)%Z as Hq.
  { split; [apply Z.div_pos; lia|]. apply Z.div_lt_upper_bound; lia. }
  rewrite Nat2Z.inj_sub, Z2Nat.id by lia. change 256%Z with (2 ^ 8)%Z. rewrite <-Z.pow_mul_r by lia.
  eapply Z.lt_le_trans; [apply (Z.log2_spec z); lia|]. apply Z.pow_le_mono_r; lia.
Qed.
Lemma from_be_bytes_skipped z :
  (0 ≤ z < 2 ^ 64)%Z → from_be_bytes (drop (skipped_bytes z) (to_be_bytes 8 z)) = z.
Proof.
  intros Hz. rewrite drop_to_be_bytes, from_to_be_bytes. apply Z.mod_small.
  split; [lia|]. by apply skipped_bytes_bound.
Qed.

(** * Media types of XOR-URLs

    [sn_api/src/safeurl/xorurl_media_types.rs]: the codes of the supported media types, a
    range of 16-bit codes per top-level type. *)

Definition APPLICATION_SUBTYPES : list ustr := lit <$>
  ["application/x-abiword"; "application/octet-stream"; "application/vnd.amazon.ebook";
   "application/x-bzip"; "application/x-bzip2"; "application/x-csh";
   "application/msword"; "application/vnd.openxmlformats-officedocument.wordprocessingml.document"; "application/vnd.ms-fontobject";
   "application/epub+zip"; "application/ecmascript"; "application/java-archive";
   "application/javascript"; "application/json"; "application/vnd.apple.installer+xml";
   "application/vnd.oasis.opendocument.presentation"; "application/vnd.oasis.opendocument.spreadsheet"; "application/vnd.oasis.opendocument.text";
   "application/ogg"; "application/pdf"; "application/vnd.ms-powerpoint";
   "application/vnd.openxmlformats-officedocument.presentationml.presentation"; "application/x-rar-compressed"; "application/rtf";
   "application/x-sh"; "application/x-shockwave-flash"; "application/x-tar";
   "application/typescript"; "application/vnd.visio"; "application/xhtml+xml";
   "application/vnd.ms-excel"; "application/vnd.openxmlformats-officedocument.spreadsheetml.sheet"; "application/xml";
   "application/vnd.mozilla.xul+xml"; "application/zip"; "application/x-7z-compressed";
   "application/ld+json"; "application/rdf+xml"]%string.
Definition AUDIO_SUBTYPES : list ustr := lit <$>
  ["audio/aac"; "audio/midi"; "audio/x-midi";
   "audio/ogg"; "audio/wav"; "audio/webm";
   "audio/3gpp"; "audio/3gpp2"; "audio/mp4";
   "audio/mpeg"]%string.
Definition FONT_SUBTYPES : list ustr := lit <$>
  ["font/otf"; "font/ttf"; "font/woff";
   "font/woff2"]%string.
Definition IMAGE_SUBTYPES : list ustr := lit <$>
  ["image/bmp"; "image/gif"; "image/x-icon";
   "image/jpeg"; "image/png"; "image/svg+xml";
   "image/tiff"; "image/webp"]%string.
Definition MULTIPART_SUBTYPES : list ustr := lit <$>
  ["multipart/byteranges"]%string.
Definition TEXT_SUBTYPES : list ustr := lit <$>
  ["text/css"; "text/csv"; "text/html";
   "text/calendar"; "text/markdown"; "text/n3";
   "text/plain"; "text/turtle"; "text/x-markdown";
   "text/xml"]%string.
Definition VIDEO_SUBTYPES : list ustr := lit <$>
  ["video/x-msvideo"; "video/mpeg"; "video/ogg";
   "video/webm"; "video/3gpp"; "video/3gpp2";
   "video/jpeg"; "video/mp4"]%string.

(** [populate]: the codes of a range, in the order of the table. *)
Definition with_codes (subtypes : list ustr) (range : Z) : list (Z * ustr) :=
  imap (λ i subtype, ((range + Z.of_nat i)%Z, subtype)) subtypes.
Definition media_table : list (Z * ustr) :=
  with_codes APPLICATION_SUBTYPES 0x5000 ++ with_codes AUDIO_SUBTYPES 0x8000 ++
  with_codes FONT_SUBTYPES 0x9000 ++ with_codes IMAGE_SUBTYPES 0xa000 ++
  with_codes MULTIPART_SUBTYPES 0xd000 ++ with_codes TEXT_SUBTYPES 0xe000 ++
  with_codes VIDEO_SUBTYPES 0xf000.

Definition MEDIA_TYPE_STR : gmap Z ustr :=
  foldl (λ m p, <[p.1 := p.2]> m) ∅ media_table.
Definition MEDIA_TYPE_CODES : gmap ustr Z :=
  foldl (λ m p, <[p.2 := p.1]> m) ∅ media_table.

(** ** The two tables are inverse to each other *)

Lemma populate_lookup {K V A} `{Countable K} (f : A → K) (g : A → V) (l : list A) k v :
  NoDup (f <$> l) →
  foldl (λ m p, <[f p := g p]> m) (∅ : gmap K V) l !! k = Some v ↔ ∃ p, p ∈ l ∧ f p = k ∧ g p = v.
Proof.
  induction l as [|p l IH] using rev_ind; intros Hnd; simpl.
  { rewrite lookup_empty. set_solver. }
  rewrite foldl_snoc. rewrite fmap_app in Hnd. apply NoDup_app in Hnd as (Hnd & Hf & _).
  destruct (decide (f p = k)) as [<-|Hne].
  - rewrite lookup_insert_eq. split; [intros [= <-]; set_solver|].
    intros (q & [Hq| ->%list_elem_of_singleton]%elem_of_app & Hfq & <-); [|done].
    exfalso. apply (Hf (f q)); [by apply list_elem_of_fmap_2|]. rewrite Hfq. set_solver.
  - rewrite lookup_insert_ne, IH by done. set_solver.
Qed.

Lemma media_codes_distinct : NoDup media_table.*1.
Proof. apply (bool_decide_unpack _). vm_compute. exact I. Qed.
Lemma media_names_distinct : NoDup media_table.*2.
Proof. apply (bool_decide_unpack _). vm_compute. exact I. Qed.
(** Codes fit in 16 bits, above those of the other content types. *)
Lemma media_codes_range : Forall (λ p, 4 < p.1 < 2 ^ 16)%Z media_table.
Proof. apply (bool_decide_unpack _). vm_compute. exact I. Qed.

Lemma media_type_inverse code name :
  MEDIA_TYPE_STR !! code = Some name ↔ MEDIA_TYPE_CODES !! name = Some code.
Proof.
  unfold MEDIA_TYPE_STR, MEDIA_TYPE_CODES.
  rewrite (populate_lookup fst snd) by apply media_codes_distinct.
  rewrite (populate_lookup snd fst) by apply media_names_distinct. naive_solver.
Qed.
Lemma media_type_code_range name code : MEDIA_TYPE_CODES !! name = Some code → (4 < code < 2 ^ 16)%Z.
Proof.
  unfold MEDIA_TYPE_CODES. rewrite (populate_lookup snd fst) by apply media_names_distinct.
  intros (p & Hp & _ & <-). by apply (proj1 (Forall_forall _ _) media_codes_range).
Qed.
