(* ===== verification/SafeUrl.v ===== *)
(** * URLs of the network

    [sn_api/src/safeurl]: [url_parts.rs] (checking and splitting a URL), [version_hash.rs]
    and [mod.rs] (the URL with its parsing, printing and setters).  The crates [url],
    [uhttp_uri], [multibase] and [urlencoding] are a class of operations; its laws state
    their documentation for text without special characters.  The texts of errors are left
    out. *)

From Stdlib Require Import String.
From S2P Require Import Prelude External Xor Keys Text.

(** ** Crates *)

Class UrlCrates := {
  Url : Type;
  url_parse : ustr → option Url;
  url_scheme : Url → ustr;
  url_host_str : Url → option ustr;
  url_query : Url → option ustr;
  url_fragment : Url → option ustr;
  url_query_pairs : Url → list (ustr * ustr);
  (** [form_urlencoded::Serializer] after appending the pairs. *)
  form_serialize : list (ustr * ustr) → ustr;
  (** [HttpUri::new] and the path of its resource. *)
  http_uri_path : ustr → option ustr;
  urlencoding_encode : ustr → ustr;
  urlencoding_decode : ustr → option ustr;
  Base : Type;
  base_eq_dec :: EqDecision Base;
  MbBase32Z : Base;
  MbBase32Lower : Base;
  MbBase64 : Base;
  base_encode : Base → bytes → ustr;
  base_decode : ustr → option (Base * bytes);
}.

(** Text without special characters: letters, digits and [-._~%]; a name has letters,
    digits, [-] and dots between labels, a path has slashes and a query has [&=+*]. *)
Definition label_char (c : N) : bool := is_ascii_alphanumeric c || (c =? 45)%N.
Definition url_char (c : N) : bool := is_ascii_alphanumeric c || existsb (N.eqb c) [45; 46; 95; 126; 37]%N.
Definition path_char (c : N) : bool := url_char c || (c =? 47)%N.
Definition query_char (c : N) : bool := url_char c || existsb (N.eqb c) [38; 61; 43; 42]%N.
Definition host_char (c : N) : bool := label_char c || (c =? 46)%N.

(** A part of a URL with its separator, left out if it is empty. *)
Definition with_separator (sep : N) (s : ustr) : ustr := match s with [] => [] | _ => sep :: s end.

Class UrlLaws {UC : UrlCrates} : Prop := {
  base_decode_encode b bs :
    Forall (λ z, 0 ≤ z < 256)%Z bs → base_decode (base_encode b bs) = Some (b, bs);
  (** The alphabets of the two base-32 encodings. *)
  base_encode_chars b bs :
    b = MbBase32Z ∨ b = MbBase32Lower → Forall (λ z, 0 ≤ z < 256)%Z bs →
    base_encode b bs ≠ [] ∧ Forall (λ c, is_ascii_alphanumeric c = true) (base_encode b bs);
  (** Pairs that were serialised are read back. *)
  form_pairs pairs :
    ∃ u, url_parse (lit "file://dummy?" ++ form_serialize pairs) = Some u ∧ url_query_pairs u = pairs;
  form_serialize_nil : form_serialize [] = [];
  form_chars pairs : Forall (λ c, query_char c = true) (form_serialize pairs);
  (** The host of a URL with another scheme than those of the web is kept as it is. *)
  url_parse_text host p q f :
    host ≠ [] → Forall (λ c, host_char c = true) host →
    p = [] ∨ head p = Some 47%N → Forall (λ c, path_char c = true) p →
    Forall (λ c, query_char c = true) q → Forall (λ c, url_char c = true) f →
    ∃ u, url_parse (lit "safe://" ++ host ++ p ++ with_separator 63 q ++ with_separator 35 f) = Some u ∧
         url_scheme u = lit "safe" ∧ url_host_str u = Some host ∧
         default [] (url_query u) = q ∧ default [] (url_fragment u) = f;
  (** [uhttp_uri] gives the path as it is; that of a URL without one may be a slash. *)
  http_path_text host p q f :
    host ≠ [] → Forall (λ c, host_char c = true) host →
    p = [] ∨ head p = Some 47%N → Forall (λ c, path_char c = true) p →
    Forall (λ c, query_char c = true) q → Forall (λ c, url_char c = true) f →
    ∃ p', http_uri_path (lit "http://" ++ host ++ p ++ with_separator 63 q ++ with_separator 35 f) = Some p' ∧
          (p' = p ∨ p = [] ∧ p' = [47%N]);
}.

(** The bytes of a name and its hash ([XorName::from_content]). *)
Class XorBytes {X : Xor} := {
  xn_of_bytes : bytes → XorName;
  xn_from_content : bytes → XorName;
}.
Class XorBytesLaws {X : Xor} {XB : XorBytes} : Prop := {
  xn_of_bytes_bytes n : xn_of_bytes (xn_bytes n) = n;
  length_xn_bytes n : length (xn_bytes n) = 32;
  xn_bytes_range n : Forall (λ z, 0 ≤ z < 256)%Z (xn_bytes n);
}.

Inductive UrlError := InvalidXorUrl | InvalidInput | UnsupportedMediaType.
#[export] Instance url_error_eq_dec : EqDecision UrlError.
Proof. solve_decision. Defined.

(** ** Constants *)

Definition URL_PROTOCOL : ustr := lit "safe://".
Definition URL_SCHEME : ustr := lit "safe".
Definition XOR_URL_VERSION_1 : Z := 1.
Definition XOR_URL_STR_MAX_LENGTH : nat := 44.
Definition XOR_NAME_BYTES_OFFSET : nat := 4.
Definition XOR_NAME_LEN : nat := 32.
Definition URL_VERSION_QUERY_NAME : ustr := lit "v".
Definition NRS_MAP_TYPE_TAG : Z := 1500.
Definition MAX_LEN_URL_LABELS : nat := 63.

Definition INVALID_NRS_CHARS : list N :=
  [0x200B; 0x200C; 0x200D; 0x2060; 0xFEFF; 0x180E; 0x2800; 0x3164; 0x115F; 0x1160; 0xFFA0;
   0x2422; 0x034F; 0x17B4; 0x17B5; 0x2065; 0xFFF0; 0xFFF1; 0xFFF2; 0xFFF3; 0xFFF4; 0xFFF5;
   0xFFF6; 0xFFF7; 0x206A; 0x206B; 0x206C; 0x206D; 0x206E; 0x206F]%N.

(** The separators ['.'], ['/'], ['?'] and ['#']. *)
Definition DOT : N := 46.
Definition SLASH : N := 47.
Definition QUESTION : N := 63.
Definition HASH : N := 35.

(** ** Types *)

Inductive XorUrlBase := Base32z | Base32 | Base64.
Definition DEFAULT_XORURL_BASE : XorUrlBase := Base32z.

Definition xor_url_base_from_str (s : ustr) : result UrlError XorUrlBase :=
  if decide (s = lit "base32z") then Ok Base32z
  else if decide (s = lit "base32") then Ok Base32
  else if decide (s = lit "base64") then Ok Base64
  else Err InvalidInput.
(** [from_u8] and [from_u16]. *)
Definition xor_url_base_from_code (value : Z) : result UrlError XorUrlBase :=
  if decide (value = 0)%Z then Ok Base32z
  else if decide (value = 1)%Z then Ok Base32
  else if decide (value = 2)%Z then Ok Base64
  else Err InvalidInput.

Inductive ContentType := Raw | Wallet | FilesContainer | NrsMapContainer | Multimap | MediaType (media_type : ustr).
#[export] Instance content_type_eq_dec : EqDecision ContentType.
Proof. solve_decision. Defined.

Definition content_type_from_u16 (value : Z) : result UrlError ContentType :=
  if decide (value = 0)%Z then Ok Raw
  else if decide (value = 1)%Z then Ok Wallet
  else if decide (value = 2)%Z then Ok FilesContainer
  else if decide (value = 3)%Z then Ok NrsMapContainer
  else if decide (value = 4)%Z then Ok Multimap
  else Err InvalidInput.

Definition content_type_value (c : ContentType) : result UrlError Z :=
  match c with
  | Raw => Ok 0%Z
  | Wallet => Ok 1%Z
  | FilesContainer => Ok 2%Z
  | NrsMapContainer => Ok 3%Z
  | Multimap => Ok 4%Z
  | MediaType media_type => ok_or (MEDIA_TYPE_CODES !! media_type) UnsupportedMediaType
  end.

(** The content type that [from_xorurl] reads from its code. *)
Definition content_type_of_code (code : Z) : result UrlError ContentType :=
  if decide (code = 0)%Z then Ok Raw
  else if decide (code = 1)%Z then Ok Wallet
  else if decide (code = 2)%Z then Ok FilesContainer
  else if decide (code = 3)%Z then Ok NrsMapContainer
  else if decide (code = 4)%Z then Ok Multimap
  else MediaType <$> ok_or (MEDIA_TYPE_STR !! code) InvalidXorUrl.

Definition is_media_type_supported (media_type : ustr) : bool :=
  match MEDIA_TYPE_CODES !! media_type with Some _ => true | None => false end.

Inductive DataType := DtSafeKey | DtFile | DtRegister | DtSpentbook.
Definition data_type_as_u8 (d : DataType) : Z :=
  match d with DtSafeKey => 0 | DtFile => 1 | DtRegister => 2 | DtSpentbook => 3 end.

Inductive UrlType := XorUrl | NrsUrl.
#[export] Instance url_type_eq_dec : EqDecision UrlType.
Proof. solve_decision. Defined.
Definition url_type_value (t : UrlType) : Z := match t with XorUrl => 0 | NrsUrl => 1 end.

(** The hash of an entry of a register: 32 bytes. *)
Record VersionHash := mkVersionHash { entry_hash : bytes }.
#[export] Instance version_hash_eq_dec : EqDecision VersionHash.
Proof. solve_decision. Defined.
Inductive VersionHashError := DecodingError | InvalidHashLength | InvalidEncoding.

Section url.
Context {X : Xor} {XB : XorBytes} {UC : UrlCrates}.

Definition version_hash_to_string (v : VersionHash) : ustr := base_encode MbBase32Z (entry_hash v).
Definition version_hash_from_str (s : ustr) : result VersionHashError VersionHash :=
  '(base, data) ← ok_or (base_decode s) DecodingError;
  if decide (base ≠ MbBase32Z) then Err InvalidEncoding
  else if decide (length data ≠ 32) then Err InvalidHashLength
  else Ok (mkVersionHash data).

(** ** Parts of a URL *)

Definition validate_url_chars (url : ustr) : result UrlError unit :=
  if existsb is_whitespace url then Err InvalidInput
  else if existsb is_control url then Err InvalidInput
  else if existsb (λ c, existsb (N.eqb c) INVALID_NRS_CHARS) url then Err InvalidInput
  else Ok ().

Record UrlParts := mkUrlParts {
  up_scheme : ustr;
  up_public_name : ustr;
  up_top_name : ustr;
  up_sub_names : ustr;
  up_sub_names_vec : list ustr;
  up_path : ustr;
  up_query_string : ustr;
  up_fragment : ustr;
}.

Definition parse_parts (url : ustr) (ignore_labels_size : bool) : result UrlError UrlParts :=
  _ ← validate_url_chars url;
  parsing_url ← ok_or (url_parse url) InvalidXorUrl;
  let scheme := url_scheme parsing_url in
  if decide (scheme ≠ URL_SCHEME) then Err InvalidXorUrl else
  public_name ← ok_or (url_host_str parsing_url) InvalidXorUrl;
  if contains public_name (lit "..") then Err InvalidXorUrl else
  if decide (255 < str_len public_name) then Err InvalidInput else
  let names_vec := split DOT public_name in
  if negb ignore_labels_size && existsb (λ name, bool_decide (MAX_LEN_URL_LABELS < str_len name)) names_vec
  then Err InvalidInput else
  let top_name := default [] (names_vec !! (length names_vec - 1)) in
  let sub_names_vec := take (length names_vec - 1) names_vec in
  let sub_names := join [DOT] sub_names_vec in
  let http_url := replace_first url (lit "safe://") (lit "http://") in
  path ← ok_or (http_uri_path http_url) InvalidXorUrl;
  let query_string := default [] (url_query parsing_url) in
  let fragment := default [] (url_fragment parsing_url) in
  if contains path (lit "//") then Err InvalidXorUrl else
  Ok (mkUrlParts scheme public_name top_name sub_names sub_names_vec path query_string fragment).

(** ** The URL *)

Record SafeUrl := mkSafeUrl {
  encoding_version : Z;
  public_name : ustr;
  top_name : ustr;
  sub_names : ustr;
  sub_names_vec : list ustr;
  type_tag : Z;
  address : DataAddress;
  content_type : ContentType;
  content_type_u16 : Z;
  path : ustr;
  query_string : ustr;
  fragment : ustr;
  content_version : option VersionHash;
  url_type : UrlType;
}.

Definition with_names (u : SafeUrl) (pn tn sn : ustr) (snv : list ustr) : SafeUrl :=
  mkSafeUrl (encoding_version u) pn tn sn snv (type_tag u) (address u) (content_type u) (content_type_u16 u)
    (path u) (query_string u) (fragment u) (content_version u) (url_type u).
Definition with_content_type (u : SafeUrl) (c : ContentType) (code : Z) : SafeUrl :=
  mkSafeUrl (encoding_version u) (public_name u) (top_name u) (sub_names u) (sub_names_vec u) (type_tag u) (address u)
    c code (path u) (query_string u) (fragment u) (content_version u) (url_type u).
Definition with_path (u : SafeUrl) (p : ustr) : SafeUrl :=
  mkSafeUrl (encoding_version u) (public_name u) (top_name u) (sub_names u) (sub_names_vec u) (type_tag u) (address u)
    (content_type u) (content_type_u16 u) p (query_string u) (fragment u) (content_version u) (url_type u).
Definition with_query_string (u : SafeUrl) (q : ustr) : SafeUrl :=
  mkSafeUrl (encoding_version u) (public_name u) (top_name u) (sub_names u) (sub_names_vec u) (type_tag u) (address u)
    (content_type u) (content_type_u16 u) (path u) q (fragment u) (content_version u) (url_type u).
Definition set_fragment (u : SafeUrl) (f : ustr) : SafeUrl :=
  mkSafeUrl (encoding_version u) (public_name u) (top_name u) (sub_names u) (sub_names_vec u) (type_tag u) (address u)
    (content_type u) (content_type_u16 u) (path u) (query_string u) f (content_version u) (url_type u).
Definition with_content_version (u : SafeUrl) (v : option VersionHash) : SafeUrl :=
  mkSafeUrl (encoding_version u) (public_name u) (top_name u) (sub_names u) (sub_names_vec u) (type_tag u) (address u)
    (content_type u) (content_type_u16 u) (path u) (query_string u) (fragment u) v (url_type u).

Definition is_nrsurl (u : SafeUrl) : bool := bool_decide (url_type u = NrsUrl).
Definition is_xorurl (u : SafeUrl) : bool := bool_decide (url_type u = XorUrl).
Definition xorname (u : SafeUrl) : XorName := data_address_name (address u).

Definition data_type (u : SafeUrl) : DataType :=
  match address u with
  | BytesAddr _ => DtFile
  | RegisterAddr _ => DtRegister
  | SafeKeyAddr _ => DtSafeKey
  | SpentbookAddr _ => DtSpentbook
  end.

(** ** Query strings *)

Definition query_string_to_url (query_str : ustr) : result UrlError Url :=
  ok_or (url_parse (lit "file://dummy?" ++ query_str)) InvalidInput.

Definition query_pairs_internal (query_str : ustr) : list (ustr * ustr) :=
  match query_string_to_url query_str with Ok u => url_query_pairs u | Err _ => [] end.
Definition query_key_internal (query_str key : ustr) : list ustr :=
  snd <$> filter (λ p, p.1 = key) (query_pairs_internal query_str).
Definition query_key_last_internal (query_str key : ustr) : option ustr :=
  last (query_key_internal query_str key).
Definition query_key_first_internal (query_str key : ustr) : option ustr :=
  head (query_key_internal query_str key).

Definition query_pairs (u : SafeUrl) : list (ustr * ustr) := query_pairs_internal (query_string u).
Definition query_key (u : SafeUrl) (key : ustr) : list ustr := query_key_internal (query_string u) key.
Definition query_key_last (u : SafeUrl) (key : ustr) : option ustr := query_key_last_internal (query_string u) key.
Definition query_key_first (u : SafeUrl) (key : ustr) : option ustr := query_key_first_internal (query_string u) key.

Definition set_content_version_internal (u : SafeUrl) (version_option : option ustr) : SafeUrl * result UrlError unit :=
  match version_option with
  | Some version_str =>
      match version_hash_from_str version_str with
      | Ok version => (with_content_version u (Some version), Ok ())
      | Err _ => (u, Err InvalidInput)
      end
  | None => (with_content_version u None, Ok ())
  end.

Definition set_query_string (u : SafeUrl) (query : ustr) : SafeUrl * result UrlError unit :=
  let v_option := query_key_last_internal query URL_VERSION_QUERY_NAME in
  match set_content_version_internal u v_option with
  | (u, Err e) => (u, Err e)
  | (u, Ok _) => (with_query_string u query, Ok ())
  end.

(** The loop of [set_query_key]: the pairs written and whether the key was among them. *)
Fixpoint replace_key (key : ustr) (val : option ustr) (pairs : list (ustr * ustr)) (set_key : bool) :
    list (ustr * ustr) * bool :=
  match pairs with
  | [] => ([], set_key)
  | (k, v) :: pairs =>
      if decide (k = key) then
        match val with
        | Some v' =>
            if set_key then replace_key key val pairs set_key
            else let '(out, set_key) := replace_key key val pairs true in ((key, v') :: out, set_key)
        | None => replace_key key val pairs set_key
        end
      else let '(out, set_key) := replace_key key val pairs set_key in ((k, v) :: out, set_key)
  end.

Definition new_pairs (key : ustr) (val : option ustr) (pairs : list (ustr * ustr)) : list (ustr * ustr) :=
  let '(out, set_key) := replace_key key val pairs false in
  if set_key then out
  else match val with Some v => out ++ [(key, v)] | None => out end.

Definition set_query_key (u : SafeUrl) (key : ustr) (val : option ustr) : SafeUrl * result UrlError unit :=
  match query_string_to_url (query_string u) with
  | Err e => (u, Err e)
  | Ok url =>
      let u := with_query_string u (form_serialize (new_pairs key val (url_query_pairs url))) in
      if decide (key = URL_VERSION_QUERY_NAME) then set_content_version_internal u val
      else (u, Ok ())
  end.

(** A failure is only logged. *)
Definition set_content_version (u : SafeUrl) (version : option VersionHash) : SafeUrl :=
  (set_query_key u URL_VERSION_QUERY_NAME (version_hash_to_string <$> version)).1.

Definition query_string_with_separator (u : SafeUrl) : ustr :=
  if decide (query_string u = []) then query_string u else QUESTION :: query_string u.
Definition fragment_with_separator (u : SafeUrl) : ustr :=
  if decide (fragment u = []) then [] else HASH :: fragment u.

(** ** Paths *)

(** An empty first component is the leading slash. *)
Definition path_components (percent_encode : bool) (parts : list ustr) : list ustr :=
  let keep (p : ustr) := if percent_encode then urlencoding_encode p else p in
  match parts with
  | [] => []
  | [] :: parts => keep <$> parts
  | parts => keep <$> parts
  end.

Definition set_path_internal (u : SafeUrl) (p : ustr) (percent_encode : bool) : SafeUrl :=
  match p with
  | [] => match path u with [] => u | _ => with_path u [] end
  | _ =>
      let new_path := join [SLASH] (path_components percent_encode (split SLASH p)) in
      let separator := match new_path with [] => [] | _ => [SLASH] end in
      with_path u (separator ++ new_path)
  end.

Definition set_path (u : SafeUrl) (p : ustr) : SafeUrl := set_path_internal u p true.
Definition path_decoded (u : SafeUrl) : result UrlError ustr := ok_or (urlencoding_decode (path u)) InvalidInput.

(** ** Printing *)

(** The name of [XorUrlBase] in [multibase]. *)
Definition base_encoding (base : XorUrlBase) : Base :=
  match base with Base32z => MbBase32Z | Base32 => MbBase32Lower | Base64 => MbBase64 end.

Definition cid_vec (u : SafeUrl) : bytes :=
  [XOR_URL_VERSION_1] ++ to_be_bytes 2 (content_type_u16 u) ++ [data_type_as_u8 (data_type u)] ++
  xn_bytes (xorname u) ++ drop (skipped_bytes (type_tag u)) (to_be_bytes 8 (type_tag u)).

Definition name_to_base (u : SafeUrl) (base : XorUrlBase) (include_subnames : bool) : ustr :=
  let top_name := base_encode (base_encoding base) (cid_vec u) in
  if include_subnames then
    let sep := match sub_names u with [] => [] | _ => [DOT] end in
    sub_names u ++ sep ++ top_name
  else top_name.

Definition xorurl_public_name (u : SafeUrl) : ustr := name_to_base u DEFAULT_XORURL_BASE true.

Definition url_encode (u : SafeUrl) (base : XorUrlBase) : ustr :=
  URL_PROTOCOL ++ name_to_base u base true ++ path u ++ query_string_with_separator u ++ fragment_with_separator u.
Definition to_xorurl_string (u : SafeUrl) : ustr := url_encode u DEFAULT_XORURL_BASE.

Definition to_nrsurl_string (u : SafeUrl) : option ustr :=
  if is_nrsurl u then
    Some (URL_PROTOCOL ++ public_name u ++ path u ++ query_string_with_separator u ++ fragment_with_separator u)
  else None.

(** [Display]; [None] is a formatting error. *)
Definition url_to_string (u : SafeUrl) : option ustr :=
  if is_nrsurl u then to_nrsurl_string u else Some (to_xorurl_string u).

(** ** Construction and parsing *)

Definition xor_name_from_nrs_string (name : ustr) : XorName := xn_from_content (as_bytes name).

(** The names of a new URL: public name, top name, sub names and the type; those of a XOR-URL
    are completed below. *)
Definition url_names (addr : DataAddress) (nrs_name : option ustr) (subs : option (list ustr)) :
    result UrlError (ustr * ustr * ustr * list ustr * UrlType) :=
  match nrs_name with
  | Some nh =>
      if decide (nh = []) then Err InvalidInput else
      parts ← parse_parts (URL_PROTOCOL ++ nh) false;
      if decide (xor_name_from_nrs_string (up_top_name parts) ≠ data_address_name addr) then Err InvalidInput
      else Ok (up_public_name parts, up_top_name parts, up_sub_names parts, up_sub_names_vec parts, NrsUrl)
  | None =>
      let vec := default [] subs in
      if existsb (λ s, bool_decide (s = [])) vec then Err InvalidInput
      else Ok ([], [], join [DOT] vec, vec, XorUrl)
  end.

Definition url_new (addr : DataAddress) (nrs_name : option ustr) (tag : Z) (ct : ContentType) (p : option ustr)
    (subs : option (list ustr)) (query : option ustr) (frag : option ustr) (version : option VersionHash) :
    result UrlError SafeUrl :=
  code ← content_type_value ct;
  '(pn, tn, sn, snv, ty) ← url_names addr nrs_name subs;
  let url := mkSafeUrl XOR_URL_VERSION_1 pn tn sn snv tag addr ct code [] [] (default [] frag) None ty in
  let url :=
    if decide (url_type url = XorUrl) then
      let top := name_to_base url DEFAULT_XORURL_BASE false in
      let sep := match sub_names url with [] => [] | _ => [DOT] end in
      with_names url (sub_names url ++ sep ++ top) top (sub_names url) (sub_names_vec url)
    else url in
  let url := set_path_internal url (default [] p) false in
  match set_query_string url (default [] query) with
  | (_, Err e) => Err e
  | (url, Ok _) => Ok (match version with Some _ => set_content_version url version | None => url end)
  end.

Definition from_nrsurl (nrsurl : ustr) : result UrlError SafeUrl :=
  parts ← parse_parts nrsurl false;
  let hashed_name := xor_name_from_nrs_string (up_top_name parts) in
  url_new (RegisterAddr (mkRegisterAddress hashed_name NRS_MAP_TYPE_TAG)) (Some (up_public_name parts))
    NRS_MAP_TYPE_TAG NrsMapContainer (Some (up_path parts)) (Some (up_sub_names_vec parts))
    (Some (up_query_string parts)) (Some (up_fragment parts)) None.

(** [bs[from..to]]. *)
Definition slice (from to : nat) (bs : bytes) : bytes := take (to - from) (drop from bs).

(** The content type, address and type tag in the bytes of a XOR-URL. *)
Definition decode_cid (bs : bytes) : result UrlError (ContentType * DataAddress * Z) :=
  let type_tag_offset := XOR_NAME_BYTES_OFFSET + XOR_NAME_LEN in
  if decide (length bs < type_tag_offset) then Err InvalidXorUrl else
  if decide (XOR_URL_STR_MAX_LENGTH < length bs) then Err InvalidXorUrl else
  if decide (bs !! 0 ≠ Some XOR_URL_VERSION_1) then Err InvalidXorUrl else
  ct ← content_type_of_code (from_be_bytes (slice 1 3 bs));
  let xor_name := xn_of_bytes (slice XOR_NAME_BYTES_OFFSET type_tag_offset bs) in
  let type_tag_bytes_len := length bs - type_tag_offset in
  let tag := from_be_bytes (replicate (8 - type_tag_bytes_len) 0%Z ++ drop type_tag_offset bs) in
  addr ← match bs !! 3 with
         | Some 0%Z => Ok (SafeKeyAddr xor_name)
         | Some 1%Z => Ok (BytesAddr xor_name)
         | Some 2%Z => Ok (RegisterAddr (mkRegisterAddress xor_name tag))
         | _ => Err InvalidXorUrl
         end;
  Ok (ct, addr, tag).

Definition from_xorurl (xorurl : ustr) : result UrlError SafeUrl :=
  parts ← parse_parts xorurl true;
  '(_, xorurl_bytes) ← ok_or (base_decode (up_top_name parts)) InvalidXorUrl;
  '(ct, addr, tag) ← decode_cid xorurl_bytes;
  url_new addr None tag ct (Some (up_path parts)) (Some (up_sub_names_vec parts))
    (Some (up_query_string parts)) (Some (up_fragment parts)) None.

Definition from_url (url : ustr) : result UrlError SafeUrl :=
  match from_xorurl url with Ok enc => Ok enc | Err _ => from_nrsurl url end.

Definition from_safekey (name : XorName) : result UrlError SafeUrl :=
  url_new (SafeKeyAddr name) None 0 Raw None None None None None.
Definition from_bytes (name : XorName) (ct : ContentType) : result UrlError SafeUrl :=
  url_new (BytesAddr name) None 0 ct None None None None None.
Definition from_register (name : XorName) (tag : Z) (ct : ContentType) : result UrlError SafeUrl :=
  url_new (RegisterAddr (mkRegisterAddress name tag)) None tag ct None None None None None.

(** [None] would be the panic of [to_string]. *)
Definition validate (u : SafeUrl) : option (result UrlError unit) :=
  (λ s, (λ _, ()) <$> from_url s) <$> url_to_string u.

(** ** Other setters *)

Definition set_content_type (u : SafeUrl) (ct : ContentType) : SafeUrl * result UrlError unit :=
  match content_type_value ct with
  | Ok code => (with_content_type u ct code, Ok ())
  | Err e => (u, Err e)
  end.

Definition set_sub_names (u : SafeUrl) (subs : ustr) : SafeUrl * result UrlError unit :=
  let sep := match subs with [] => [] | _ => [DOT] end in
  match parse_parts (URL_PROTOCOL ++ subs ++ sep ++ top_name u) true with
  | Ok parts =>
      (with_names u (up_public_name parts) (top_name u) (up_sub_names parts) (up_sub_names_vec parts), Ok ())
  | Err e => (u, Err e)
  end.
End url.
