(* ===== verification/SafeUrlProps.v ===== *)
(** * Properties of URLs

    What is printed is parsed back, the setters keep the parts of a URL consistent, and
    where they do not. *)

From Stdlib Require Import String.
From S2P Require Import Prelude External Xor Keys Text SafeUrl.

(** ** Text *)

Abbreviation all_chars P s := (Forall (λ c, P c = true) s).

Lemma host_char_label c : label_char c = true → host_char c = true.
Proof. unfold host_char. by intros ->. Qed.
Lemma alnum_label c : is_ascii_alphanumeric c = true → label_char c = true.
Proof. unfold label_char. by intros ->. Qed.

(** The characters of clean text are visible ASCII. *)
Definition visible (c : N) : bool := in_range 0x21 0x7E c.

Lemma alnum_visible c : is_ascii_alphanumeric c = true → visible c = true.
Proof.
  unfold is_ascii_alphanumeric, visible, in_range.
  rewrite !orb_true_iff, !andb_true_iff, !N.leb_le. lia.
Qed.
Lemma one_of_visible c l : forallb visible l = true → existsb (N.eqb c) l = true → visible c = true.
Proof.
  intros Hl (d & Hd & ->%N.eqb_eq)%existsb_exists. rewrite forallb_forall in Hl. by apply Hl.
Qed.
Lemma url_char_visible c : url_char c = true → visible c = true.
Proof. intros [H|H]%orb_true_iff; [by apply alnum_visible|by apply one_of_visible in H]. Qed.
Lemma path_char_visible c : path_char c = true → visible c = true.
Proof. intros [H| ->%N.eqb_eq]%orb_true_iff; [by apply url_char_visible|done]. Qed.
Lemma query_char_visible c : query_char c = true → visible c = true.
Proof. intros [H|H]%orb_true_iff; [by apply url_char_visible|by apply one_of_visible in H]. Qed.
Lemma host_char_visible c : host_char c = true → visible c = true.
Proof.
  intros [[H| ->%N.eqb_eq]%orb_true_iff| ->%N.eqb_eq]%orb_true_iff; [by apply alnum_visible|done|done].
Qed.

Lemma visible_allowed c :
  visible c = true →
  is_whitespace c = false ∧ is_control c = false ∧ existsb (N.eqb c) INVALID_NRS_CHARS = false.
Proof.
  intros Hc.
  assert (Hall : forallb (λ c, negb (is_whitespace c || is_control c || existsb (N.eqb c) INVALID_NRS_CHARS))
    (N.of_nat <$> seq 33 94) = true) by (vm_compute; reflexivity).
  rewrite forallb_forall in Hall.
  specialize (Hall c). rewrite !negb_true_iff, !orb_false_iff in Hall.
  destruct Hall as [[??]?]; [|done].
  apply list_elem_of_In, list_elem_of_fmap. exists (N.to_nat c). split; [lia|].
  apply elem_of_seq. unfold visible, in_range in Hc. rewrite andb_true_iff, !N.leb_le in Hc. lia.
Qed.

Lemma existsb_all_false {A} (f : A → bool) l : Forall (λ x, f x = false) l → existsb f l = false.
Proof. induction 1 as [|x l Hx _ IH]; simpl; [done|]. by rewrite Hx, IH. Qed.

Lemma validate_visible s : all_chars visible s → validate_url_chars s = Ok ().
Proof.
  intros Hs. unfold validate_url_chars.
  rewrite !existsb_all_false; [done|..]; eapply Forall_impl; try exact Hs; intros c Hc; by apply visible_allowed.
Qed.

Lemma with_separator_visible sep s :
  visible sep = true → all_chars visible s → all_chars visible (with_separator sep s).
Proof. intros. destruct s; simpl; [constructor|]. by constructor. Qed.

(** No two dots meet in a name whose labels are not empty. *)
Lemma contains_double d c s :
  contains (c :: s) [d; d] = ((d =? c)%N && match s with c' :: _ => (d =? c')%N | [] => false end) || contains s [d; d].
Proof.
  cbn [contains starts_with]. f_equal. f_equal. destruct s as [|c' s]; [done|]. by rewrite andb_true_r.
Qed.
Lemma join_head sep w ws : w ≠ [] → head (join sep (w :: ws)) = head w.
Proof. destruct w as [|c w]; [done|]. intros _. by destruct ws. Qed.
Lemma contains_label_app d w s :
  d ∉ w → head s ≠ Some d → contains s [d; d] = false → contains (w ++ s) [d; d] = false.
Proof.
  intros Hw Hh Hs. induction w as [|c w IH]; [done|].
  apply not_elem_of_cons in Hw as [Hne Hw]. change ((c :: w) ++ s) with (c :: (w ++ s)).
  rewrite contains_double, IH by done. by destruct (N.eqb_spec d c).
Qed.
Lemma contains_label_sep d w s :
  d ∉ w → w ≠ [] → head s ≠ Some d → contains s [d; d] = false → contains (w ++ d :: s) [d; d] = false.
Proof.
  intros Hw Hne Hh Hs. induction w as [|c w IH]; [done|].
  apply not_elem_of_cons in Hw as [Hc Hw]. change ((c :: w) ++ d :: s) with (c :: (w ++ d :: s)).
  rewrite contains_double. replace (d =? c)%N with false by (symmetry; by apply N.eqb_neq). cbn [andb orb].
  destruct w as [|c' w]; [|by apply IH].
  change ([] ++ d :: s) with (d :: s). rewrite contains_double, Hs.
  destruct s as [|c' s]; [by rewrite andb_false_r|]. destruct (N.eqb_spec d c') as [->|]; [done|by rewrite andb_false_r].
Qed.
Lemma head_not_in (d : N) (w : ustr) : d ∉ w → w ≠ [] → head w ≠ Some d.
Proof. destruct w; [done|]. intros Hw _ [= ->]. set_solver. Qed.
Lemma join_no_double d ws :
  Forall (λ w, d ∉ w ∧ w ≠ []) ws → contains (join [d] ws) [d; d] = false.
Proof.
  induction 1 as [|w ws [Hw Hne] Hws IH]; [done|].
  destruct ws as [|w' ws].
  - simpl. rewrite <-(app_nil_r w). by apply contains_label_app.
  - change (join [d] (w :: w' :: ws)) with (w ++ d :: join [d] (w' :: ws)).
    apply Forall_cons in Hws as [[Hw' Hne'] _].
    apply contains_label_sep; [done..| |done]. rewrite join_head by done. by apply head_not_in.
Qed.

Section props.
Context {X : Xor} {XB : XorBytes} {UC : UrlCrates} {UL : UrlLaws} {XL : XorBytesLaws}.

(** ** Content types and versions *)

Lemma content_type_roundtrip ct code :
  content_type_value ct = Ok code → content_type_of_code code = Ok ct ∧ (0 ≤ code < 2 ^ 16)%Z.
Proof.
  clear. destruct ct as [| | | | |m]; cbn [content_type_value]; [intros [= <-]; by split..|].
  rewrite ok_or_Ok. intros Hm. pose proof (media_type_code_range _ _ Hm) as Hr.
  split; [|lia]. unfold content_type_of_code.
  rewrite !decide_False by lia. apply media_type_inverse in Hm. by rewrite Hm.
Qed.

(** A hash of an entry has 32 bytes. *)
Definition version_ok (v : VersionHash) : Prop :=
  length (entry_hash v) = 32 ∧ Forall (λ z, 0 ≤ z < 256)%Z (entry_hash v).

Lemma version_hash_roundtrip v : version_ok v → version_hash_from_str (version_hash_to_string v) = Ok v.
Proof.
  clear XL XB X. intros [Hlen Hb]. unfold version_hash_from_str, version_hash_to_string.
  rewrite base_decode_encode by done. cbn. rewrite decide_False by naive_solver.
  rewrite decide_False by lia. by destruct v.
Qed.

(** The version that a query string asks for. *)
Definition version_of_query (q : ustr) : result UrlError (option VersionHash) :=
  match query_key_last_internal q URL_VERSION_QUERY_NAME with
  | None => Ok None
  | Some s => Some <$> map_err (λ _, InvalidInput) (version_hash_from_str s)
  end.

Lemma set_query_string_eq u q :
  set_query_string u q =
  match version_of_query q with
  | Ok v => (with_query_string (with_content_version u v) q, Ok ())
  | Err _ => (u, Err InvalidInput)
  end.
Proof.
  clear. unfold set_query_string, set_content_version_internal, version_of_query.
  destruct (query_key_last_internal _ _) as [s|]; [|done]. by destruct (version_hash_from_str s).
Qed.

(** ** Query strings *)

Lemma query_pairs_serialized pairs : query_pairs_internal (form_serialize pairs) = pairs.
Proof.
  clear XL XB X. destruct (form_pairs pairs) as (u & Hu & Hp).
  unfold query_pairs_internal, query_string_to_url. by rewrite Hu.
Qed.

(** The loop writes the key at most once, in the place of its first occurrence. *)
Lemma replace_key_spec key val pairs set_key out set_key' :
  replace_key key val pairs set_key = (out, set_key') →
  filter (λ p, p.1 ≠ key) out = filter (λ p, p.1 ≠ key) pairs ∧
  (snd <$> filter (λ p, p.1 = key) out =
     if negb set_key && set_key' then match val with Some v => [v] | None => [] end else []) ∧
  (set_key' = true ↔ set_key = true ∨ val ≠ None ∧ ∃ v, (key, v) ∈ pairs).
Proof.
  clear. revert set_key out set_key'.
  induction pairs as [|[k w] pairs IH]; intros set_key out set_key'; cbn [replace_key].
  { intros [= <- <-]. split_and!; [done|by destruct set_key|]. set_solver. }
  destruct (decide (k = key)) as [->|Hne].
  - rewrite (filter_cons_False (λ p, p.1 ≠ key)) by naive_solver.
    destruct val as [v|].
    + destruct set_key.
      * intros (? & Hb & Hc)%IH. split_and!; [done|done|]. naive_solver.
      * destruct (replace_key _ _ _ true) as [out1 sk1] eqn:E. intros [= <- <-].
        apply IH in E as (Ha & Hb & Hc). rewrite filter_cons_False by naive_solver.
        rewrite filter_cons_True by done. cbn in Hb |- *. rewrite Hb.
        assert (sk1 = true) as -> by (apply Hc; by left). split_and!; [done|done|].
        split; [|done]. intros _. right. split; [done|]. exists w. left.
    + intros (? & Hb & Hc)%IH. split_and!; [done|done|]. naive_solver.
  - destruct (replace_key key val pairs set_key) as [out1 sk1] eqn:E. intros [= <- <-].
    apply IH in E as (Ha & Hb & Hc). rewrite !filter_cons_True by done. rewrite filter_cons_False by done.
    split_and!; [by rewrite Ha|done|]. rewrite Hc. set_solver.
Qed.

(** The written pairs have the key with the value asked for, and the other pairs unchanged. *)
Lemma new_pairs_spec key val pairs :
  filter (λ p, p.1 ≠ key) (new_pairs key val pairs) = filter (λ p, p.1 ≠ key) pairs ∧
  snd <$> filter (λ p, p.1 = key) (new_pairs key val pairs) = option_list val.
Proof.
  clear. unfold new_pairs. destruct (replace_key key val pairs false) as [out sk] eqn:E.
  apply replace_key_spec in E as (Ha & Hb & Hc). destruct sk, val as [v|]; cbn in Hb.
  - done.
  - by destruct Hc as [[|[]] _].
  - rewrite !filter_app, filter_cons_False, filter_cons_True by naive_solver.
    cbn. by rewrite app_nil_r, fmap_app, Hb.
  - done.
Qed.

(** ** Consistent URLs *)

Record url_wf (u : SafeUrl) : Prop := {
  wf_encoding : encoding_version u = XOR_URL_VERSION_1;
  wf_code : content_type_value (content_type u) = Ok (content_type_u16 u);
  wf_path : path u = [] ∨ ∃ p, path u = SLASH :: p ∧ p ≠ [];
  wf_version : version_of_query (query_string u) = Ok (content_version u);
  wf_sub_names : sub_names u = join [DOT] (sub_names_vec u);
  wf_public_name : public_name u = join [DOT] (sub_names_vec u ++ [top_name u]);
  wf_top_name :
    match url_type u with
    | XorUrl => top_name u = base_encode MbBase32Z (cid_vec u) ∧ Forall (λ s, s ≠ []) (sub_names_vec u)
    | NrsUrl => xorname u = xor_name_from_nrs_string (top_name u) ∧ DOT ∉ top_name u
    end;
}.

(** Paths are empty or a slash with something behind it. *)
Lemma set_path_shape u p enc :
  path (set_path_internal u p enc) = [] ∨ ∃ q, path (set_path_internal u p enc) = SLASH :: q ∧ q ≠ [].
Proof.
  clear. unfold set_path_internal. destruct p as [|c p]; [left; by destruct (path u) eqn:?|].
  destruct (join _ _) as [|d q]; [by left|]. right. eauto.
Qed.
Lemma set_path_eq u p enc : ∃ q, set_path_internal u p enc = with_path u q.
Proof.
  clear. unfold set_path_internal. destruct p; [|eauto]. exists [].
  destruct u as [? ? ? ? ? ? ? ? ? [|] ?]; done.
Qed.

(** A path that is in shape is kept. *)
Lemma set_path_same u p :
  p = [] ∨ (∃ q, p = SLASH :: q ∧ q ≠ []) → path (set_path_internal u p false) = p.
Proof.
  clear. unfold set_path_internal. intros [->|(q & -> & Hq)]; [by destruct (path u) eqn:?|].
  cbn [split]. rewrite N.eqb_refl. cbn [path_components path with_path].
  rewrite list_fmap_id, join_split. by destruct q.
Qed.
Lemma set_path_slash u : path (set_path_internal u [SLASH] false) = [].
Proof. done. Qed.

(** What parsing says about the names. *)
Lemma parse_parts_names s b parts :
  parse_parts s b = Ok parts →
  up_public_name parts = join [DOT] (up_sub_names_vec parts ++ [up_top_name parts]) ∧
  up_sub_names parts = join [DOT] (up_sub_names_vec parts) ∧ DOT ∉ up_top_name parts.
Proof.
  clear. unfold parse_parts. rewrite result_bind_Ok. intros (_ & _ & H).
  rewrite result_bind_Ok in H. destruct H as (pu & _ & H).
  case_decide; [done|]. rewrite result_bind_Ok in H. destruct H as (pn & _ & H).
  destruct (contains pn _); [done|]. case_decide; [done|]. destruct (_ && _); [done|].
  rewrite result_bind_Ok in H. destruct H as (p & _ & H).
  destruct (contains p _); [done|]. injection H as <-. cbn.
  destruct (split DOT pn) as [|w ws] eqn:E using rev_ind; [by apply split_not_nil in E|].
  rewrite length_app. cbn [length]. replace (length ws + 1 - 1) with (length ws) by lia.
  rewrite lookup_app_r, Nat.sub_diag, take_app_length by lia. cbn [lookup list_lookup default]. unfold id.
  split_and!; [|done|].
  - by rewrite <-E, join_split.
  - assert (Forall (λ w, DOT ∉ w) (split DOT pn)) as Hall.
    { clear. induction pn as [|c pn IH]; simpl; [repeat constructor; set_solver|].
      destruct (N.eqb_spec c DOT); [constructor; [set_solver|done]|].
      destruct (split DOT pn); [repeat constructor; set_solver|].
      apply Forall_cons in IH as [? ?]. constructor; [set_solver|done]. }
    rewrite E, Forall_app, Forall_singleton in Hall. by destruct Hall.
Qed.

Lemma url_names_spec addr nrs subs pn tn sn snv ty :
  url_names addr nrs subs = Ok (pn, tn, sn, snv, ty) →
  sn = join [DOT] snv ∧
  match ty with
  | XorUrl => Forall (λ s, s ≠ []) snv ∧ nrs = None ∧ snv = default [] subs
  | NrsUrl => pn = join [DOT] (snv ++ [tn]) ∧ DOT ∉ tn ∧ data_address_name addr = xor_name_from_nrs_string tn
  end.
Proof.
  clear. unfold url_names. destruct nrs as [nh|].
  - case_decide; [done|]. rewrite result_bind_Ok. intros (parts & Hp & Hr).
    apply parse_parts_names in Hp as (? & ? & ?). case_decide as Hn; [done|]. injection Hr as <- <- <- <- <-.
    done.
  - destruct (existsb _ _) eqn:He; [done|]. intros [= <- <- <- <- <-]. split_and!; [done| |done..].
    apply Forall_forall. intros s Hs ->. apply not_true_iff_false in He. apply He.
    apply existsb_exists. exists []. split; [by apply list_elem_of_In|done].
Qed.

(** Sub names in front of a top name. *)
Lemma join_names vec top :
  Forall (λ s, s ≠ []) vec →
  join [DOT] vec ++ match join [DOT] vec with [] => [] | _ => [DOT] end ++ top = join [DOT] (vec ++ [top]).
Proof.
  clear. intros Hv. destruct vec as [|w vec]; [done|]. rewrite join_app by done.
  apply Forall_cons in Hv as [Hw _]. destruct w as [|c w]; [done|]. by destruct vec.
Qed.

(** The URL that [new] builds from its parts. *)
Lemma url_new_inv addr nrs tag ct p subs q f v u :
  url_new addr nrs tag ct p subs q f v = Ok u →
  ∃ code pn tn sn snv ty cv,
    content_type_value ct = Ok code ∧ url_names addr nrs subs = Ok (pn, tn, sn, snv, ty) ∧
    version_of_query (default [] q) = Ok cv ∧
    let u0 := mkSafeUrl XOR_URL_VERSION_1 pn tn sn snv tag addr ct code [] [] (default [] f) None ty in
    let top := base_encode MbBase32Z (cid_vec u0) in
    let u1 := match ty with
              | XorUrl => with_names u0 (join [DOT] (snv ++ [top])) top sn snv
              | NrsUrl => u0
              end in
    let u2 := with_query_string (with_content_version (set_path_internal u1 (default [] p) false) cv) (default [] q) in
    u = match v with Some _ => set_content_version u2 v | None => u2 end.
Proof.
  clear. unfold url_new. rewrite result_bind_Ok. intros (code & Hc & Hr).
  rewrite result_bind_Ok in Hr. destruct Hr as ([[[[pn tn] sn] snv] ty] & Hn & Hr).
  rewrite set_query_string_eq in Hr.
  destruct (version_of_query (default [] q)) as [cv|] eqn:Hv; [|done]. injection Hr as <-.
  exists code, pn, tn, sn, snv, ty, cv. split_and!; [done..|].
  apply url_names_spec in Hn as [-> Hn]. destruct ty; [|done].
  destruct Hn as [Hne _]. cbn [url_type]. rewrite decide_True by done. cbn -[set_path_internal join cid_vec].
  by rewrite join_names.
Qed.

(** The encoded bytes depend on the content type, the address and the tag. *)
Lemma cid_vec_ext u u' :
  content_type_u16 u = content_type_u16 u' → address u = address u' → type_tag u = type_tag u' →
  cid_vec u = cid_vec u'.
Proof. clear. unfold cid_vec, data_type, xorname. by intros -> -> ->. Qed.

Ltac url_wf_tac H :=
  let W := fresh in
  destruct H as [W ? ? ? ? ? ?]; constructor; cbn; auto.

Lemma wf_with_path u p : url_wf u → p = [] ∨ (∃ q, p = SLASH :: q ∧ q ≠ []) → url_wf (with_path u p).
Proof. clear. intros H ?. by url_wf_tac H. Qed.
Lemma wf_set_fragment u f : url_wf u → url_wf (set_fragment u f).
Proof. clear. intros H. by url_wf_tac H. Qed.
Lemma wf_with_query u q cv :
  url_wf u → version_of_query q = Ok cv → url_wf (with_query_string (with_content_version u cv) q).
Proof. clear. intros H ?. by url_wf_tac H. Qed.
Lemma wf_set_path_internal u p enc : url_wf u → url_wf (set_path_internal u p enc).
Proof.
  clear. intros H. pose proof (set_path_shape u p enc) as Hs. destruct (set_path_eq u p enc) as [q E].
  rewrite E in *. by apply wf_with_path.
Qed.
Lemma wf_set_query_string u q : url_wf u → url_wf (set_query_string u q).1.
Proof.
  clear. intros H. rewrite set_query_string_eq. destruct (version_of_query q) eqn:E; [|done]. by apply wf_with_query.
Qed.

(** After a change of the key [v] the version is that of the new query string. *)
Lemma version_of_new_pairs val pairs :
  version_of_query (form_serialize (new_pairs URL_VERSION_QUERY_NAME val pairs)) =
  match val with
  | Some s => Some <$> map_err (λ _, InvalidInput) (version_hash_from_str s)
  | None => Ok None
  end.
Proof.
  clear XL XB X. unfold version_of_query, query_key_last_internal, query_key_internal.
  rewrite query_pairs_serialized. destruct (new_pairs_spec URL_VERSION_QUERY_NAME val pairs) as [_ ->].
  by destruct val.
Qed.
Lemma version_of_other_pairs key val pairs :
  key ≠ URL_VERSION_QUERY_NAME →
  snd <$> filter (λ p, p.1 = URL_VERSION_QUERY_NAME) (new_pairs key val pairs) =
  snd <$> filter (λ p, p.1 = URL_VERSION_QUERY_NAME) pairs.
Proof.
  clear. intros Hne. destruct (new_pairs_spec key val pairs) as [Ha _]. f_equal.
  assert (∀ l : list (ustr * ustr), filter (λ p, p.1 = URL_VERSION_QUERY_NAME) l =
    filter (λ p, p.1 = URL_VERSION_QUERY_NAME) (filter (λ p, p.1 ≠ key) l)) as Hf.
  { intros l. rewrite list_filter_filter. apply list_filter_iff. intros [k v]. simpl. naive_solver. }
  by rewrite Hf, Ha, <-Hf.
Qed.

Lemma wf_set_query_key u key val u' :
  url_wf u → set_query_key u key val = (u', Ok ()) → url_wf u'.
Proof.
  clear XL. intros H. unfold set_query_key. destruct (query_string_to_url (query_string u)) as [url|] eqn:Hu; [|done].
  destruct (decide (key = URL_VERSION_QUERY_NAME)) as [->|Hne].
  - assert (version_of_query _ = _) as Hv by exact (version_of_new_pairs val (url_query_pairs url)).
    unfold set_content_version_internal. destruct val as [s|].
    + destruct (version_hash_from_str s); [|done]. intros [= <-]. url_wf_tac H.
    + intros [= <-]. url_wf_tac H.
  - intros [= <-]. url_wf_tac H.
    enough (version_of_query (form_serialize (new_pairs key val (url_query_pairs url))) = version_of_query (query_string u)) by congruence.
    unfold version_of_query, query_key_last_internal, query_key_internal.
    rewrite query_pairs_serialized, version_of_other_pairs by done.
    unfold query_pairs_internal. by rewrite Hu.
Qed.

Lemma set_content_version_Ok u v :
  (∀ w, v = Some w → version_ok w) →
  (∃ u', set_query_key u URL_VERSION_QUERY_NAME (version_hash_to_string <$> v) = (u', Ok ()) ∧ set_content_version u v = u' ∧ content_version u' = v) ∨
  set_content_version u v = u.
Proof.
  clear XL. intros Hv. unfold set_content_version, set_query_key.
  destruct (query_string_to_url (query_string u)) as [url|] eqn:Hu; [|by right]. left.
  rewrite decide_True by done. unfold set_content_version_internal. destruct v as [w|]; cbn.
  - rewrite version_hash_roundtrip by auto. eauto.
  - eauto.
Qed.
Lemma wf_set_content_version u v :
  (∀ w, v = Some w → version_ok w) → url_wf u → url_wf (set_content_version u v).
Proof.
  clear XL. intros Hv H. destruct (set_content_version_Ok u v Hv) as [(u' & Hs & -> & _)| ->]; [|done].
  by eapply wf_set_query_key.
Qed.

Lemma wf_url_new addr nrs tag ct p subs q f v u :
  (∀ w, v = Some w → version_ok w) → url_new addr nrs tag ct p subs q f v = Ok u → url_wf u.
Proof.
  clear XL. intros Hv (code & pn & tn & sn & snv & ty & cv & Hc & Hn & Hq & Hu)%url_new_inv. cbv zeta in Hu.
  apply url_names_spec in Hn as [-> Hn].
  match type of Hu with u = match v with Some _ => set_content_version ?u2 v | None => _ end => assert (url_wf u2) as Hwf end.
  { set (u1 := match ty with XorUrl => _ | NrsUrl => _ end).
    assert (encoding_version u1 = XOR_URL_VERSION_1 ∧ content_type_value (content_type u1) = Ok (content_type_u16 u1) ∧
      sub_names u1 = join [DOT] (sub_names_vec u1) ∧ public_name u1 = join [DOT] (sub_names_vec u1 ++ [top_name u1]) ∧
      match url_type u1 with
      | XorUrl => top_name u1 = base_encode MbBase32Z (cid_vec u1) ∧ Forall (λ s, s ≠ []) (sub_names_vec u1)
      | NrsUrl => xorname u1 = xor_name_from_nrs_string (top_name u1) ∧ DOT ∉ top_name u1
      end) as (? & ? & ? & ? & ?).
    { subst u1. destruct ty; cbn; naive_solver. }
    pose proof (set_path_shape u1 (default [] p) false) as Hs.
    destruct (set_path_eq u1 (default [] p) false) as [q' E]. rewrite E in *. constructor; cbn in *; auto. }
  subst u. destruct v; [|done]. by apply wf_set_content_version.
Qed.

(** ** Text that parses *)

Definition label_ok (s : ustr) : Prop := s ≠ [] ∧ all_chars label_char s.

Lemma label_no_dot s : all_chars label_char s → DOT ∉ s.
Proof. clear. intros Hs Hd. by apply (proj1 (Forall_forall _ _) Hs) in Hd. Qed.

(** Names with the path, query and fragment behind them, without special characters. *)
Record text_ok (ws : list ustr) (p q f : ustr) : Prop := {
  text_labels : Forall label_ok ws;
  text_some : ws ≠ [];
  text_path : p = [] ∨ ∃ r, p = SLASH :: r ∧ r ≠ [];
  text_path_chars : all_chars path_char p;
  text_path_slashes : contains p (lit "//") = false;
  text_query : all_chars query_char q;
  text_fragment : all_chars url_char f;
}.

Lemma text_host ws p q f :
  text_ok ws p q f →
  join [DOT] ws ≠ [] ∧ all_chars host_char (join [DOT] ws) ∧ contains (join [DOT] ws) (lit "..") = false ∧
  split DOT (join [DOT] ws) = ws ∧ (p = [] ∨ head p = Some 47%N).
Proof.
  clear. intros [Hl Hne Hp _ _ _ _].
  assert (Forall (λ w, DOT ∉ w ∧ w ≠ []) ws) as Hd.
  { eapply Forall_impl; [exact Hl|]. intros w [??]. split; [by apply label_no_dot|done]. }
  split_and!.
  - destruct ws as [|w ws]; [done|]. apply Forall_cons in Hd as [[_ Hw] _].
    destruct w as [|c w]; [done|]. by destruct ws.
  - apply join_all; [done|]. eapply Forall_impl; [exact Hl|]. intros w [_ Hw].
    eapply Forall_impl; [exact Hw|]. intros c. apply host_char_label.
  - by apply join_no_double.
  - apply split_join; [done|]. eapply Forall_impl; [exact Hd|]. naive_solver.
  - destruct Hp as [->|(r & -> & _)]; [by left|by right].
Qed.

(** Labels within the limit on their size, where it is checked. *)
Definition labels_fit (ignore_labels_size : bool) (ws : list ustr) : Prop :=
  ignore_labels_size = true ∨ Forall (λ w, str_len w ≤ MAX_LEN_URL_LABELS) ws.

Lemma labels_fit_check ignore ws :
  labels_fit ignore ws → negb ignore && existsb (λ w, bool_decide (MAX_LEN_URL_LABELS < str_len w)) ws = false.
Proof.
  clear. intros [->|Hw]; [done|]. rewrite existsb_all_false; [by rewrite andb_false_r|].
  eapply Forall_impl; [exact Hw|]. intros w Hle. cbn in Hle |- *. apply bool_decide_eq_false. lia.
Qed.

Lemma parse_text ignore subs top p q f :
  text_ok (subs ++ [top]) p q f → labels_fit ignore (subs ++ [top]) →
  ∃ p', (p' = p ∨ p = [] ∧ p' = [SLASH]) ∧
  parse_parts (URL_PROTOCOL ++ join [DOT] (subs ++ [top]) ++ p ++ with_separator QUESTION q ++ with_separator HASH f) ignore =
  if decide (255 < str_len (join [DOT] (subs ++ [top]))) then Err InvalidInput
  else Ok (mkUrlParts URL_SCHEME (join [DOT] (subs ++ [top])) top (join [DOT] subs) subs p' q f).
Proof.
  clear XL XB X. intros Ht Hfit. pose proof (text_host _ _ _ _ Ht) as (Hne & Hhost & Hdd & Hsplit & Hhd).
  destruct Ht as [Hl _ Hp Hpc Hps Hq Hf].
  set (host := join [DOT] (subs ++ [top])) in *.
  destruct (url_parse_text host p q f) as (u & Hu & Hsch & Hho & Hqu & Hfr); [done..|].
  destruct (http_path_text host p q f) as (p' & Hhp & Hp'); [done..|].
  exists p'. split; [done|]. unfold parse_parts.
  change URL_PROTOCOL with (lit "safe://"). change QUESTION with 63%N. change HASH with 35%N.
  rewrite validate_visible.
  2:{ rewrite !Forall_app. split_and!.
      - by apply (bool_decide_unpack _).
      - eapply Forall_impl; [exact Hhost|]. intros c. apply host_char_visible.
      - eapply Forall_impl; [exact Hpc|]. intros c. apply path_char_visible.
      - apply with_separator_visible; [done|]. eapply Forall_impl; [exact Hq|]. intros c. apply query_char_visible.
      - apply with_separator_visible; [done|]. eapply Forall_impl; [exact Hf|]. intros c. apply url_char_visible. }
  rewrite Hu. cbn [mbind result_bind ok_or]. rewrite Hsch, decide_False by naive_solver.
  rewrite Hho. cbn [mbind result_bind ok_or]. rewrite Hdd. case_decide; [done|].
  rewrite Hsplit, labels_fit_check by done.
  rewrite replace_first_prefix, Hhp. cbn [mbind result_bind ok_or].
  assert (contains p' (lit "//") = false) as -> by (destruct Hp' as [->|[_ ->]]; done).
  rewrite length_app. cbn [length]. replace (length subs + 1 - 1) with (length subs) by lia.
  rewrite lookup_app_r, Nat.sub_diag, take_app_length by lia. by rewrite Hqu, Hfr.
Qed.

(** A prefix of sub names in front of a name: its labels. *)
Lemma sub_names_text subs top :
  subs = [] ∨ Forall label_ok (split DOT subs) →
  subs ++ match subs with [] => [] | _ => [DOT] end ++ top =
  join [DOT] (match subs with [] => [] | _ => split DOT subs end ++ [top]).
Proof.
  clear. intros [->|Hs]; [done|]. destruct subs as [|c subs]; [done|].
  rewrite join_app by apply split_not_nil. by rewrite join_split.
Qed.

Lemma wf_set_sub_names u subs :
  url_wf u → label_ok (top_name u) → (subs = [] ∨ Forall label_ok (split DOT subs)) → url_wf (set_sub_names u subs).1.
Proof.
  clear XL. intros H Htop Hsubs. unfold set_sub_names. rewrite sub_names_text by done.
  set (vec := match subs with [] => [] | _ => split DOT subs end).
  destruct (parse_parts _ true) as [parts|] eqn:Hp; [|done].
  assert (Forall label_ok (vec ++ [top_name u])) as Hl.
  { apply Forall_app. split; [|by repeat constructor; apply Htop].
    subst vec. destruct Hsubs as [->|?]; [constructor|]. by destruct subs. }
  destruct (parse_text true vec (top_name u) [] [] []) as (p' & _ & Hp2).
  { constructor; try done; [by destruct vec|by left|constructor..]. }
  { by left. }
  rewrite !app_nil_r in Hp2. rewrite Hp2 in Hp. case_decide; [done|]. injection Hp as <-.
  destruct H as [? ? ? ? ? ? Ht]. constructor; cbn; auto.
  destruct (url_type u); [|done]. destruct Ht as [-> _]. split; [done|].
  apply Forall_app in Hl as [Hl _]. eapply Forall_impl; [exact Hl|]. by intros w [? _].
Qed.

(** ** URLs in use

    [new] and the setters; the version hashes have 32 bytes and sub names no special
    characters.  Setting a key of the query counts when it succeeds. *)
Inductive url_op (u : SafeUrl) : SafeUrl → Prop :=
  | op_set_path p : url_op u (set_path u p)
  | op_set_fragment f : url_op u (set_fragment u f)
  | op_set_query_string q : url_op u (set_query_string u q).1
  | op_set_query_key key val u' : set_query_key u key val = (u', Ok ()) → url_op u u'
  | op_set_content_version v : (∀ w, v = Some w → version_ok w) → url_op u (set_content_version u v)
  | op_set_sub_names subs :
      label_ok (top_name u) → (subs = [] ∨ Forall label_ok (split DOT subs)) → url_op u (set_sub_names u subs).1.

Inductive url_reach : SafeUrl → Prop :=
  | reach_new addr nrs tag ct p subs q f v u :
      (∀ w, v = Some w → version_ok w) → url_new addr nrs tag ct p subs q f v = Ok u → url_reach u
  | reach_op u u' : url_reach u → url_op u u' → url_reach u'.

Lemma from_xorurl_reach s u : from_xorurl s = Ok u → url_reach u.
Proof.
  clear. unfold from_xorurl. rewrite result_bind_Ok. intros (parts & _ & H).
  rewrite result_bind_Ok in H. destruct H as ([? bs] & _ & H).
  rewrite result_bind_Ok in H. destruct H as ([[ct addr] tag] & _ & H). by eapply reach_new in H.
Qed.
Lemma from_nrsurl_reach s u : from_nrsurl s = Ok u → url_reach u.
Proof.
  clear. unfold from_nrsurl. rewrite result_bind_Ok. intros (parts & _ & H). by eapply reach_new in H.
Qed.

(** Every URL that is parsed or built, and every URL that the setters other than that of
    the content type make of it, is consistent: its content type has its code, its path is
    empty or starts with a slash, its content version is the one its query string asks for,
    its public name is made of its sub names and its top name, and the top name encodes or
    hashes to its address. *)
Theorem urls_stay_consistent u : url_reach u → url_wf u.
Proof.
  clear XL. induction 1 as [|u u' _ IH Hop]; [by eapply wf_url_new|]. destruct Hop.
  - by apply wf_set_path_internal.
  - by apply wf_set_fragment.
  - by apply wf_set_query_string.
  - by eapply wf_set_query_key.
  - by apply wf_set_content_version.
  - by apply wf_set_sub_names.
Qed.

(** Setting a key of a query string that parses leaves one pair with the key if a value is
    given and none otherwise, and keeps the other pairs, their order and all other parts of the
    URL.  It fails exactly for the key [v] with a value that is no version hash: the query
    string has then been changed, while the content version is still the old one.  Otherwise
    the content version follows the key [v]. *)
Theorem set_query_key_exact u key val url u' r :
  query_string_to_url (query_string u) = Ok url →
  set_query_key u key val = (u', r) →
  query_key u' key = option_list val ∧
  filter (λ p, p.1 ≠ key) (query_pairs u') = filter (λ p, p.1 ≠ key) (query_pairs u) ∧
  u' = with_query_string (with_content_version u (content_version u')) (query_string u') ∧
  (is_ok r = false ↔
    key = URL_VERSION_QUERY_NAME ∧ ∃ s, val = Some s ∧ is_ok (version_hash_from_str s) = false) ∧
  content_version u' =
    (if decide (key = URL_VERSION_QUERY_NAME) then
       match val with
       | None => None
       | Some s => match version_hash_from_str s with Ok w => Some w | Err _ => content_version u end
       end
     else content_version u).
Proof.
  clear XL. intros Hu. unfold set_query_key. rewrite Hu. intros Hs.
  assert (query_string u' = form_serialize (new_pairs key val (url_query_pairs url))) as Hq.
  { destruct (decide _); [|by injection Hs as <- <-]. unfold set_content_version_internal in Hs.
    destruct val as [s|]; [destruct (version_hash_from_str s)|]; by injection Hs as <- <-. }
  unfold query_key, query_key_internal, query_pairs. rewrite Hq, query_pairs_serialized.
  unfold query_pairs_internal. rewrite Hu.
  destruct (new_pairs_spec key val (url_query_pairs url)) as [Ha Hb]. split; [done|]. split; [done|]. clear Ha Hb.
  destruct (decide (key = URL_VERSION_QUERY_NAME)) as [->|Hne].
  - unfold set_content_version_internal in Hs. destruct val as [s|].
    + destruct (version_hash_from_str s) eqn:Hw; injection Hs as <- <-; cbn; (split_and!; [by destruct u| |done]).
      * split; [done|]. intros (_ & s' & [= <-] & Hf). by rewrite Hw in Hf.
      * split; [|done]. intros _. split; [done|]. exists s. by rewrite Hw.
    + injection Hs as <- <-. cbn. split_and!; [by destruct u| |done]. naive_solver.
  - injection Hs as <- <-. cbn. split_and!; [by destruct u| |done]. naive_solver.
Qed.

(** ** Round trip *)

(** Addresses that XOR-URLs can hold, and the tag that goes with them. *)
Definition address_ok (addr : DataAddress) (tag : Z) : Prop :=
  match addr with
  | SafeKeyAddr _ | BytesAddr _ => True
  | RegisterAddr a => ra_tag a = tag
  | SpentbookAddr _ => False
  end.

Lemma length_cid_vec u : (0 ≤ type_tag u)%Z → length (cid_vec u) = 36 + (8 - skipped_bytes (type_tag u)).
Proof.
  clear UL. intros Ht. unfold cid_vec. rewrite !length_app, length_xn_bytes, drop_to_be_bytes, !length_to_be_bytes.
  simpl. lia.
Qed.
Lemma cid_vec_bytes u : Forall (λ z, 0 ≤ z < 256)%Z (cid_vec u).
Proof.
  clear UL. unfold cid_vec. rewrite !Forall_app. split_and!.
  - by repeat constructor.
  - apply to_be_bytes_range.
  - repeat constructor; destruct (data_type u); by cbn.
  - apply xn_bytes_range.
  - apply Forall_drop, to_be_bytes_range.
Qed.

Lemma decode_cid_vec u :
  content_type_value (content_type u) = Ok (content_type_u16 u) →
  (0 ≤ type_tag u < 2 ^ 64)%Z → address_ok (address u) (type_tag u) →
  decode_cid (cid_vec u) = Ok (content_type u, address u, type_tag u).
Proof.
  clear UL. intros [Hct Hcode]%content_type_roundtrip Htag Haddr.
  pose proof (skipped_bytes_le (type_tag u)) as Hsk.
  assert (length (cid_vec u) = 36 + (8 - skipped_bytes (type_tag u))) as Hlen by (apply length_cid_vec; lia).
  set (tagb := drop (skipped_bytes (type_tag u)) (to_be_bytes 8 (type_tag u))) in *.
  assert (cid_vec u = [1%Z] ++ to_be_bytes 2 (content_type_u16 u) ++ [data_type_as_u8 (data_type u)] ++ (xn_bytes (xorname u) ++ tagb)) as Hcid by done.
  unfold decode_cid, XOR_NAME_BYTES_OFFSET, XOR_NAME_LEN, XOR_URL_STR_MAX_LENGTH.
  rewrite decide_False by lia. rewrite decide_False by lia.
  rewrite decide_False by (rewrite Hcid; simpl; by intros []).
  replace (slice 1 3 (cid_vec u)) with (to_be_bytes 2 (content_type_u16 u)) by (by rewrite Hcid).
  rewrite from_to_be_bytes, Z.mod_small, Hct by done. cbn [mbind result_bind].
  assert (slice 4 (4 + 32) (cid_vec u) = xn_bytes (xorname u)) as ->.
  { rewrite Hcid. unfold slice. change (drop 4 _) with (xn_bytes (xorname u) ++ tagb).
    by rewrite take_app_length' by (by rewrite length_xn_bytes). }
  assert (drop (4 + 32) (cid_vec u) = tagb) as ->.
  { rewrite Hcid. change (drop (4 + 32) _) with (drop 32 (xn_bytes (xorname u) ++ tagb)).
    by rewrite drop_app_length' by (by rewrite length_xn_bytes). }
  rewrite xn_of_bytes_bytes, from_be_bytes_zeros. unfold tagb. rewrite from_be_bytes_skipped by done.
  rewrite Hcid. cbn [app lookup list_lookup to_be_bytes].
  unfold data_type, xorname. destruct (address u) as [n|n|a|n]; cbn in *; [done|done| |done].
  destruct a as [n tag]. cbn in *. by rewrite Haddr.
Qed.

(** A XOR-URL whose parts have no special characters. *)
Record printable (u : SafeUrl) : Prop := {
  pr_type : url_type u = XorUrl;
  pr_tag : (0 ≤ type_tag u < 2 ^ 64)%Z;
  pr_sub_names : Forall label_ok (sub_names_vec u);
  pr_path : all_chars path_char (path u);
  pr_slashes : contains (path u) (lit "//") = false;
  pr_query : all_chars query_char (query_string u);
  pr_fragment : all_chars url_char (fragment u);
}.

Lemma url_encode_eq u base :
  url_wf u → url_type u = XorUrl →
  url_encode u base =
  URL_PROTOCOL ++ join [DOT] (sub_names_vec u ++ [base_encode (base_encoding base) (cid_vec u)]) ++ path u ++
  with_separator QUESTION (query_string u) ++ with_separator HASH (fragment u).
Proof.
  clear. intros [? ? ? ? Hs ? Ht] Hty. rewrite Hty in Ht. destruct Ht as [_ Hne].
  unfold url_encode, name_to_base, query_string_with_separator, fragment_with_separator. cbv zeta.
  rewrite Hs, join_names by done. f_equal. f_equal. f_equal.
  destruct (query_string u), (fragment u); reflexivity.
Qed.

(** What parsing a printed XOR-URL comes to. *)
Lemma from_xorurl_encoded u base :
  url_wf u → printable u → base ≠ Base64 → str_len (name_to_base u base true) ≤ 255 →
  ∃ p', (p' = path u ∨ path u = [] ∧ p' = [SLASH]) ∧
  from_xorurl (url_encode u base) =
    '(ct, addr, tag) ← decode_cid (cid_vec u);
    url_new addr None tag ct (Some p') (Some (sub_names_vec u)) (Some (query_string u)) (Some (fragment u)) None.
Proof.
  intros Hwf Hpr Hb Hlen. rewrite url_encode_eq by (done || apply Hpr).
  set (top := base_encode (base_encoding base) (cid_vec u)).
  assert (label_ok top) as Htop.
  { destruct (base_encode_chars (base_encoding base) (cid_vec u)) as [Hne Hc]; [destruct base; auto; done|apply cid_vec_bytes|].
    split; [done|]. eapply Forall_impl; [exact Hc|]. intros c. apply alnum_label. }
  destruct (parse_text true (sub_names_vec u) top (path u) (query_string u) (fragment u)) as (p' & Hp' & Hparse).
  { constructor; try apply Hpr; [|by destruct (sub_names_vec u)|apply Hwf].
    apply Forall_app. split; [apply Hpr|by repeat constructor; apply Htop]. }
  { by left. }
  exists p'. split; [done|].
  assert (Hne : Forall (λ s, s ≠ []) (sub_names_vec u)) by (eapply Forall_impl; [apply Hpr|]; by intros ? [? _]).
  rewrite decide_False in Hparse.
  2:{ unfold name_to_base in Hlen. cbv zeta in Hlen. rewrite (wf_sub_names u Hwf), join_names in Hlen by done.
      unfold top. lia. }
  unfold from_xorurl. rewrite Hparse. cbn [mbind result_bind up_top_name]. unfold top.
  by rewrite base_decode_encode by apply cid_vec_bytes.
Qed.

(** The parts of a consistent URL make the URL again. *)
Lemma url_new_parts u p' :
  url_wf u → url_type u = XorUrl → (p' = path u ∨ path u = [] ∧ p' = [SLASH]) →
  url_new (address u) None (type_tag u) (content_type u) (Some p') (Some (sub_names_vec u)) (Some (query_string u))
    (Some (fragment u)) None = Ok u.
Proof.
  clear XL UL. intros [H1 H2 H3 H4 H5 H6 H7] Hty Hp'. rewrite Hty in H7. destruct H7 as [H7 Hne].
  unfold url_new. rewrite H2. cbn [mbind result_bind]. unfold url_names. cbn [default]. unfold id.
  rewrite existsb_all_false.
  2:{ eapply Forall_impl; [exact Hne|]. intros s Hs. by apply bool_decide_eq_false. }
  cbn [mbind result_bind url_type]. rewrite decide_True by done. cbn [default].
  rewrite set_query_string_eq, H4. f_equal.
  match goal with |- with_query_string (with_content_version (set_path_internal ?v p' false) _) _ = _ => set (u1 := v) end.
  assert (path (set_path_internal u1 p' false) = path u) as Hpath.
  { destruct Hp' as [->|[-> ->]]; [by apply set_path_same|apply set_path_slash]. }
  destruct (set_path_eq u1 p' false) as [q E]. rewrite E in *. cbn in Hpath. subst q u1.
  unfold name_to_base. cbv zeta. cbn [sub_names sub_names_vec base_encoding DEFAULT_XORURL_BASE].
  rewrite join_names by done. rewrite (cid_vec_ext _ u), <-H7, <-H6, <-H5 by done.
  destruct u. cbn in *. by subst.
Qed.

Lemma from_xorurl_encode u base :
  url_wf u → printable u → address_ok (address u) (type_tag u) →
  base ≠ Base64 → str_len (name_to_base u base true) ≤ 255 → from_xorurl (url_encode u base) = Ok u.
Proof.
  intros Hwf Hpr Ha Hb Hlen. destruct (from_xorurl_encoded u base Hwf Hpr Hb Hlen) as (p' & Hp' & ->).
  rewrite decode_cid_vec by (done || apply Hpr || apply Hwf).
  cbn [mbind result_bind]. apply url_new_parts; [done|apply Hpr|done].
Qed.

(** C30: A consistent XOR-URL without special characters and not of a spentbook, that is printed in
    a base-32 encoding, with a top name of at most 255 bytes, is parsed back to the same URL, with its sub names, path, query,
    fragment and content version; and so its own check accepts it. *)
Theorem xorurl_roundtrip u base :
  url_wf u → printable u → address_ok (address u) (type_tag u) →
  base ≠ Base64 → str_len (name_to_base u base true) ≤ 255 →
  from_url (url_encode u base) = Ok u ∧
  (base = DEFAULT_XORURL_BASE → url_to_string u = Some (url_encode u base) ∧ validate u = Some (Ok ())).
Proof.
  intros Hwf Hpr Ha Hb Hlen.
  assert (from_url (url_encode u base) = Ok u) as Hf by (unfold from_url; by rewrite from_xorurl_encode).
  split; [done|]. intros ->.
  assert (url_to_string u = Some (url_encode u DEFAULT_XORURL_BASE)) as Hs.
  { unfold url_to_string, is_nrsurl. by rewrite (pr_type u Hpr). }
  split; [done|]. unfold validate. rewrite Hs. cbn [fmap option_fmap option_map]. by rewrite Hf.
Qed.

(** The address of a spentbook is printed with a code that parsing refuses. *)
Lemma spentbook_refused u n base :
  url_wf u → printable u → address u = SpentbookAddr n →
  base ≠ Base64 → str_len (name_to_base u base true) ≤ 255 →
  from_xorurl (url_encode u base) = Err InvalidXorUrl.
Proof.
  intros Hwf Hpr Ha Hb Hlen. destruct (from_xorurl_encoded u base Hwf Hpr Hb Hlen) as (p' & _ & ->).
  enough (decode_cid (cid_vec u) = Err InvalidXorUrl) as -> by done.
  pose proof (pr_tag u Hpr) as Htag. pose proof (content_type_roundtrip _ _ (wf_code u Hwf)) as [Hct Hcode].
  pose proof (length_cid_vec u (proj1 Htag)) as Hlen'. pose proof (skipped_bytes_le (type_tag u)) as Hsk.
  unfold decode_cid, XOR_NAME_BYTES_OFFSET, XOR_NAME_LEN, XOR_URL_STR_MAX_LENGTH.
  rewrite decide_False by lia. rewrite decide_False by lia. rewrite decide_False by (simpl; by intros []).
  replace (slice 1 3 (cid_vec u)) with (to_be_bytes 2 (content_type_u16 u)) by done.
  rewrite from_to_be_bytes, Z.mod_small, Hct by done. cbn [mbind result_bind].
  assert (cid_vec u !! 3 = Some 3%Z) as -> by (cbn; unfold data_type; by rewrite Ha). done.
Qed.

(** After the content type of a consistent XOR-URL is changed, the URL prints with the new
    type, but its top name and public name still encode the old one. *)
Theorem set_content_type_stale u ct code :
  url_wf u → url_type u = XorUrl → content_type_value ct = Ok code → ct ≠ content_type u →
  let u' := (set_content_type u ct).1 in
  (set_content_type u ct).2 = Ok () ∧ content_type u' = ct ∧
  top_name u' = name_to_base u DEFAULT_XORURL_BASE false ∧ top_name u' ≠ name_to_base u' DEFAULT_XORURL_BASE false.
Proof.
  intros Hwf Hty Hc Hne. unfold set_content_type. rewrite Hc. cbn -[cid_vec name_to_base].
  assert (top_name u = name_to_base u DEFAULT_XORURL_BASE false) as Ht.
  { pose proof (wf_top_name u Hwf) as H. rewrite Hty in H. apply H. }
  split_and!; [done..|]. rewrite Ht. unfold name_to_base. cbv zeta. intros He.
  apply (f_equal base_decode) in He. rewrite !base_decode_encode in He by apply cid_vec_bytes.
  apply (f_equal (λ o, match o with Some (_, bs) => slice 1 3 bs | None => [] end)) in He.
  change (to_be_bytes 2 (content_type_u16 u) = to_be_bytes 2 code) in He.
  apply (f_equal from_be_bytes) in He. rewrite !from_to_be_bytes in He.
  destruct (content_type_roundtrip _ _ Hc) as [H1 Hr1].
  destruct (content_type_roundtrip _ _ (wf_code u Hwf)) as [H2 Hr2].
  rewrite !Z.mod_small in He by done. congruence.
Qed.
End props.
