(* ===== verification/SafeUrlDemo.v ===== *)
(** * Concrete URLs

    Instances of the crates that satisfy their laws, with a simple alphabet, and the URLs at
    which the properties are applied.  Names have 32 bytes; URLs use no prefixes, so those
    of the instance are bit lists without meaning. *)

From Stdlib Require Import String.
From S2P Require Import Prelude External Xor Keys Text SafeUrl SafeUrlProps.

(** ** Names of 32 bytes *)

Definition is_name (l : list Z) : Prop := length l = 32 ∧ Forall (λ z, 0 ≤ z < 256)%Z l.
#[export] Instance is_name_dec l : Decision (is_name l).
Proof. unfold is_name. apply _. Defined.

Definition Name32 : Type := dsig is_name.
Definition zero_name : Name32 := dexist (replicate 32 0%Z) (bool_decide_unpack (is_name (replicate 32 0%Z)) I).
Definition name_of_bytes (l : list Z) : Name32 :=
  match decide (is_name l) with left H => dexist l H | right _ => zero_name end.

#[export] Instance name32_ord : Ord Name32 := countable_ord.
#[export] Instance bool_list_ord : Ord (list bool) := countable_ord.

Definition xor32 : Xor := {|
  XorName := Name32;
  xn_bits n := (λ z, Z.testbit z 0) <$> `n;
  xn_bit n i := default false ((λ z, Z.testbit z 0) <$> (`n !! i));
  xn_bytes n := `n;
  Prefix := list bool;
  px_bits p := p;
  px_default := [];
  px_matches p n := bool_decide (p = (λ z, Z.testbit z 0) <$> `n);
  px_is_extension_of p q := false;
  px_is_empty p := bool_decide (p = []);
  px_popped p := p;
  px_pushed p b := p ++ [b];
  px_sibling p := p;
  px_bit_count := length;
  px_common_prefix p n := 0;
  px_cmp_distance p q n := Eq;
  px_name p := zero_name;
|}.
#[export] Existing Instance xor32.

(** The "hash" of a text: its first bytes. *)
#[export] Instance xor_bytes32 : XorBytes := {|
  xn_of_bytes := name_of_bytes;
  xn_from_content l := name_of_bytes (take 32 (((λ z, z `mod` 256)%Z <$> l) ++ replicate 32 0%Z));
|}.
#[export] Instance xor_bytes32_laws : XorBytesLaws.
Proof.
  split.
  - intros n. cbn. unfold name_of_bytes. destruct (decide _) as [H|H].
    + by apply dsig_eq.
    + by destruct H; apply (proj2_dsig n).
  - intros n. apply (proj2_dsig n).
  - intros n. apply (proj2_dsig n).
Qed.

(** ** Encodings

    A byte is two letters from [a] to [p]; the first character tells the encoding. *)

Inductive DemoBase := D32Z | D32 | D64.
#[export] Instance demo_base_eq_dec : EqDecision DemoBase.
Proof. solve_decision. Defined.

Definition base_code (b : DemoBase) : N := match b with D32Z => 104 | D32 => 98 | D64 => 109 end.
Definition byte_letters (z : Z) : ustr := [97 + Z.to_N (z / 16); 97 + Z.to_N (z mod 16)]%N.
Fixpoint letters_bytes (s : ustr) : option bytes :=
  match s with
  | [] => Some []
  | a :: b :: s =>
      if in_range 97 112 a && in_range 97 112 b then
        cons (16 * (Z.of_N a - 97) + (Z.of_N b - 97))%Z <$> letters_bytes s
      else None
  | [_] => None
  end.
Definition demo_encode (b : DemoBase) (bs : bytes) : ustr := base_code b :: (bs ≫= byte_letters).
Definition demo_decode (s : ustr) : option (DemoBase * bytes) :=
  match s with
  | [] => None
  | c :: s =>
      b ← (if (c =? 104)%N then Some D32Z else if (c =? 98)%N then Some D32
           else if (c =? 109)%N then Some D64 else None);
      pair b <$> letters_bytes s
  end.

Lemma byte_letters_range z :
  (0 ≤ z < 256)%Z → Forall (λ c, in_range 97 112 c = true) (byte_letters z).
Proof.
  intros Hz. assert (0 ≤ z / 16 < 16)%Z by (split; [apply Z.div_pos|apply Z.div_lt_upper_bound]; lia).
  pose proof (Z.mod_pos_bound z 16 ltac:(lia)).
  repeat constructor; unfold in_range; rewrite andb_true_iff, !N.leb_le; lia.
Qed.
Lemma demo_letters bs : Forall (λ z, 0 ≤ z < 256)%Z bs → letters_bytes (bs ≫= byte_letters) = Some bs.
Proof.
  induction 1 as [|z bs Hz _ IH]; [done|].
  change ((z :: bs) ≫= byte_letters) with (byte_letters z ++ (bs ≫= byte_letters)).
  cbn [app byte_letters letters_bytes].
  pose proof (byte_letters_range z Hz) as [Ha [Hb _]%Forall_cons]%Forall_cons. rewrite Ha, Hb. cbn [andb].
  rewrite IH. cbn. do 2 f_equal. pose proof (Z.div_mod z 16 ltac:(lia)).
  assert (0 ≤ z / 16)%Z by (apply Z.div_pos; lia). pose proof (Z.mod_pos_bound z 16 ltac:(lia)). lia.
Qed.

(** ** Forms

    A character is its binary digits, closed by [z]. *)

Fixpoint pos_digits (p : positive) : ustr :=
  match p with xH => [104] | xO p => 111 :: pos_digits p | xI p => 105 :: pos_digits p end%N.
Definition char_digits (c : N) : ustr := match c with N0 => [] | Npos p => pos_digits p end.
Fixpoint digits_char (s : ustr) : N :=
  match s with
  | [] => 0
  | c :: s => if c =? 104 then 1 else if c =? 111 then N.double (digits_char s) else N.succ_double (digits_char s)
  end%N.

Definition form_encode (s : ustr) : ustr := s ≫= (λ c, char_digits c ++ [122%N]).
Definition form_decode (s : ustr) : ustr :=
  let ws := split 122 s in digits_char <$> take (length ws - 1) ws.
Definition demo_serialize (pairs : list (ustr * ustr)) : ustr :=
  join [38%N] ((λ p, form_encode p.1 ++ 61%N :: form_encode p.2) <$> pairs).
Definition decode_pair (s : ustr) : ustr * ustr :=
  match split 61 s with k :: v :: _ => (form_decode k, form_decode v) | _ => (form_decode s, []) end.
Definition demo_pairs (q : ustr) : list (ustr * ustr) :=
  decode_pair <$> filter (λ s, s ≠ []) (split 38 q).

Lemma pos_digits_char p : digits_char (pos_digits p) = Npos p.
Proof. induction p as [p IH|p IH|]; cbn; [by rewrite IH..|done]. Qed.
Lemma digits_char_digits c : digits_char (char_digits c) = c.
Proof. destruct c; [done|apply pos_digits_char]. Qed.
Lemma char_digits_alphabet c : Forall (λ d, d ∈ [104; 111; 105]%N) (char_digits c).
Proof. destruct c as [|p]; [constructor|]. induction p; cbn; repeat constructor; set_solver. Qed.

Lemma form_encode_alphabet s : Forall (λ d, d ∈ [104; 111; 105; 122]%N) (form_encode s).
Proof.
  induction s as [|c s IH]; [constructor|].
  change (form_encode (c :: s)) with ((char_digits c ++ [122%N]) ++ form_encode s).
  rewrite !Forall_app. split_and!; [|repeat constructor; set_solver|done].
  eapply Forall_impl; [apply char_digits_alphabet|]. set_solver.
Qed.
Lemma alphabet_not_in d (l s : ustr) : Forall (λ c, c ∈ l) s → d ∉ l → d ∉ s.
Proof. rewrite Forall_forall. set_solver. Qed.

Lemma split_form_encode s : split 122 (form_encode s) = (char_digits <$> s) ++ [[]].
Proof.
  induction s as [|c s IH]; [done|].
  change (form_encode (c :: s)) with ((char_digits c ++ [122%N]) ++ form_encode s).
  rewrite <-(assoc_L (++)). cbn [app]. rewrite split_app_sep, IH; [done|].
  eapply alphabet_not_in; [apply char_digits_alphabet|]. by apply (bool_decide_unpack _).
Qed.
Lemma form_decode_encode s : form_decode (form_encode s) = s.
Proof.
  unfold form_decode. rewrite split_form_encode, length_app, length_fmap. cbn [length].
  replace (length s + 1 - 1) with (length s) by lia.
  rewrite take_app_length' by by rewrite length_fmap. rewrite <-list_fmap_compose.
  rewrite <-(list_fmap_id s) at 2. apply list_fmap_ext. intros i c _. apply digits_char_digits.
Qed.

Lemma demo_pairs_serialize pairs : demo_pairs (demo_serialize pairs) = pairs.
Proof.
  unfold demo_pairs, demo_serialize. destruct pairs as [|p pairs]; [done|].
  rewrite split_join; [|done|].
  - generalize (p :: pairs). clear. intros l. induction l as [|[k v] l IH]; [done|].
    rewrite fmap_cons, filter_cons_True by (cbn [fst snd]; by destruct (form_encode k)).
    cbn [fst snd]. rewrite fmap_cons, IH. f_equal. unfold decode_pair.
    rewrite split_app_sep, split_no_sep; [by rewrite !form_decode_encode|..];
      (eapply alphabet_not_in; [apply form_encode_alphabet|]; by apply (bool_decide_unpack _)).
  - apply Forall_fmap, Forall_true. intros [k v]. cbn. rewrite elem_of_app, elem_of_cons.
    intros [H|[H|H]]; [|done|]; revert H;
      (eapply alphabet_not_in; [apply form_encode_alphabet|]; by apply (bool_decide_unpack _)).
Qed.

(** ** Parsing *)

(** The text before a character and what follows it. *)
Fixpoint cut (sep : N) (s : ustr) : ustr * option ustr :=
  match s with
  | [] => ([], None)
  | c :: s => if (c =? sep)%N then ([], Some s) else let '(a, b) := cut sep s in (c :: a, b)
  end.

Record DemoUrl := mkDemoUrl { du_scheme : ustr; du_host : ustr; du_path : ustr; du_query : option ustr; du_fragment : option ustr }.

Definition demo_parse (s : ustr) : option DemoUrl :=
  match cut 58 s with
  | (scheme, Some (47%N :: 47%N :: rest)) =>
      let '(rest, fragment) := cut 35 rest in
      let '(rest, query) := cut 63 rest in
      let '(host, p) := cut 47 rest in
      Some (mkDemoUrl scheme host (match p with Some p => 47%N :: p | None => [] end) query fragment)
  | _ => None
  end.

#[export] Instance demo_crates : UrlCrates := {|
  Url := DemoUrl;
  url_parse := demo_parse;
  url_scheme := du_scheme;
  url_host_str u := if decide (du_host u = []) then None else Some (du_host u);
  url_query := du_query;
  url_fragment := du_fragment;
  url_query_pairs u := demo_pairs (default [] (du_query u));
  form_serialize := demo_serialize;
  http_uri_path s := du_path <$> demo_parse s;
  urlencoding_encode s := s;
  urlencoding_decode s := Some s;
  Base := DemoBase;
  MbBase32Z := D32Z;
  MbBase32Lower := D32;
  MbBase64 := D64;
  base_encode := demo_encode;
  base_decode := demo_decode;
|}.

Lemma cut_no sep s : sep ∉ s → cut sep s = (s, None).
Proof.
  induction s as [|c s IH]; cbn; [done|]. intros [Hne Hs]%not_elem_of_cons.
  rewrite IH by done. by destruct (N.eqb_spec c sep) as [->|].
Qed.
Lemma cut_at sep a b : sep ∉ a → cut sep (a ++ sep :: b) = (a, Some b).
Proof.
  induction a as [|c a IH]; cbn; [by rewrite N.eqb_refl|]. intros [Hne Hs]%not_elem_of_cons.
  rewrite IH by done. by destruct (N.eqb_spec c sep) as [->|].
Qed.
Lemma cut_separator sep a b : sep ∉ a → cut sep (a ++ with_separator sep b) = (a, if decide (b = []) then None else Some b).
Proof. intros Ha. destruct b; cbn; [by rewrite app_nil_r, cut_no|by rewrite cut_at]. Qed.

Lemma chars_not_in (P : N → bool) c (s : ustr) : all_chars P s → P c = false → c ∉ s.
Proof. rewrite Forall_forall. intros Hs Hc Hin%Hs. congruence. Qed.
Lemma separator_not_in c sep (s : ustr) : c ∉ s → c ≠ sep → c ∉ with_separator sep s.
Proof. destruct s; cbn; set_solver. Qed.

(** A URL with a given scheme is cut into its parts. *)
Lemma demo_parse_text scheme host p q f :
  58%N ∉ scheme → all_chars host_char host → (p = [] ∨ head p = Some 47%N) → all_chars path_char p →
  all_chars query_char q → all_chars url_char f →
  demo_parse (scheme ++ 58%N :: 47%N :: 47%N :: host ++ p ++ with_separator 63 q ++ with_separator 35 f) =
  Some (mkDemoUrl scheme host p (if decide (q = []) then None else Some q) (if decide (f = []) then None else Some f)).
Proof.
  intros Hs Hhost Hp Hpc Hq Hf. unfold demo_parse. rewrite cut_at by done.
  assert (∀ c, host_char c = false → c ∉ host) as Hh by (intros c; by apply chars_not_in).
  assert (∀ c, path_char c = false → c ∉ p) as Hpp by (intros c; by apply chars_not_in).
  assert (∀ c, query_char c = false → c ∉ q) as Hqq by (intros c; by apply chars_not_in).
  replace (host ++ p ++ with_separator 63 q ++ with_separator 35 f)
    with ((host ++ p ++ with_separator 63 q) ++ with_separator 35 f) by by rewrite <-!(assoc_L (++)).
  rewrite cut_separator.
  2:{ rewrite !elem_of_app. intros [H|[H|H]]; revert H; [by apply Hh|by apply Hpp|].
      apply separator_not_in; [by apply Hqq|done]. }
  rewrite (assoc_L (++)), cut_separator.
  2:{ rewrite elem_of_app. intros [H|H]; revert H; [by apply Hh|by apply Hpp]. }
  destruct p as [|c p].
  - rewrite app_nil_r, cut_no by by apply Hh. done.
  - destruct Hp as [|[= ->]]; [done|]. by rewrite cut_at by by apply Hh.
Qed.

Lemma if_some_default (s : ustr) : default [] (if decide (s = []) then None else Some s) = s.
Proof. by destruct s. Qed.

Lemma letter_alnum c : in_range 97 112 c = true → is_ascii_alphanumeric c = true.
Proof.
  unfold is_ascii_alphanumeric, in_range. rewrite !orb_true_iff, !andb_true_iff, !N.leb_le. lia.
Qed.

Lemma demo_serialize_chars pairs : all_chars query_char (demo_serialize pairs).
Proof.
  unfold demo_serialize. apply join_all; [done|]. apply Forall_fmap, Forall_true. intros [k v]. cbn.
  assert (∀ s, all_chars query_char (form_encode s)) as Hs.
  { intros s. eapply Forall_impl; [apply form_encode_alphabet|]. intros c Hc.
    repeat (apply elem_of_cons in Hc as [->|Hc]; [done|]). by apply not_elem_of_nil in Hc. }
  apply Forall_app. split; [done|]. by constructor.
Qed.

#[export] Instance demo_laws : UrlLaws.
Proof.
  split.
  - intros b bs Hbs. cbn. unfold demo_encode, demo_decode. by destruct b; cbn; rewrite demo_letters.
  - intros b bs _ Hbs. split; [done|]. cbn. constructor; [by destruct b|].
    induction Hbs as [|z bs Hz _ IH]; [constructor|].
    change ((z :: bs) ≫= byte_letters) with (byte_letters z ++ (bs ≫= byte_letters)).
    apply Forall_app. split; [|done]. eapply Forall_impl; [by apply byte_letters_range|].
    intros c. apply letter_alnum.
  - intros pairs. exists (mkDemoUrl (lit "file") (lit "dummy") [] (Some (demo_serialize pairs)) None).
    split; [|apply demo_pairs_serialize]. cbn [url_parse demo_crates form_serialize]. unfold demo_parse.
    change (lit "file://dummy?" ++ ?r) with (lit "file" ++ 58%N :: 47%N :: 47%N :: (lit "dummy" ++ 63%N :: r)).
    rewrite cut_at by by apply (bool_decide_unpack _). rewrite cut_no.
    + by rewrite cut_at by by apply (bool_decide_unpack _).
    + rewrite elem_of_app, elem_of_cons. intros [H|[H|H]]; [by apply (bool_decide_pack _) in H|done|].
      revert H. by apply (chars_not_in query_char); [apply demo_serialize_chars|].
  - done.
  - apply demo_serialize_chars.
  - intros host p q f Hne Hhost Hp Hpc Hq Hf.
    exists (mkDemoUrl (lit "safe") host p (if decide (q = []) then None else Some q) (if decide (f = []) then None else Some f)).
    split_and!; [|done|by cbn; rewrite decide_False|apply if_some_default..].
    by apply (demo_parse_text (lit "safe")); [apply (bool_decide_unpack _)|..].
  - intros host p q f Hne Hhost Hp Hpc Hq Hf. exists p. split; [|by left].
    cbn [http_uri_path demo_crates].
    change (lit "http://" ++ ?r) with (lit "http" ++ 58%N :: 47%N :: 47%N :: r).
    by rewrite demo_parse_text; [|apply (bool_decide_unpack _)|..].
Qed.

(** ** URLs *)

Definition demo_name : Name32 := name_of_bytes (Z.of_nat <$> seq 1 32).
Definition demo_version : VersionHash := mkVersionHash (replicate 32 7%Z).
Definition demo_query : ustr := demo_serialize [(lit "k", lit "x"); (lit "v", demo_encode D32Z (replicate 32 9%Z)); (lit "k", lit "y")].

(** A register with a tag of two bytes, sub names, a path, a query with a version and a fragment. *)
Definition demo_result : result UrlError SafeUrl :=
  url_new (RegisterAddr (mkRegisterAddress demo_name 15000)) None 15000 FilesContainer (Some (lit "/a/b"))
    (Some [lit "sub"; lit "name"]) (Some demo_query) (Some (lit "frag")) None.
Definition demo_url : SafeUrl :=
  match demo_result with
  | Ok u => u
  | Err _ => mkSafeUrl 0 [] [] [] [] 0 (SafeKeyAddr demo_name) Raw 0 [] [] [] None XorUrl
  end.

Lemma demo_result_ok : is_ok demo_result = true.
Proof. vm_compute. reflexivity. Qed.
Lemma demo_url_new : demo_result = Ok demo_url.
Proof. unfold demo_url. pose proof demo_result_ok. by destruct demo_result. Qed.
Lemma demo_url_wf : url_wf demo_url.
Proof. pose proof demo_url_new as H. unfold demo_result in H. by eapply wf_url_new in H. Qed.
Lemma demo_url_printable : printable demo_url.
Proof. split; apply (bool_decide_unpack _); vm_compute; exact I. Qed.

Lemma urls_stay_consistent_witness : url_wf (set_content_version (set_path demo_url (lit "c d")) (Some demo_version)).
Proof.
  apply (urls_stay_consistent (set_content_version (set_path demo_url (lit "c d")) (Some demo_version))).
  pose proof demo_url_new as H. unfold demo_result in H.
  eapply reach_op; [eapply reach_op; [eapply reach_new; [|exact H]; done|]|].
  - apply op_set_path.
  - apply op_set_content_version. intros w [= <-]. by apply (bool_decide_unpack _).
Defined.

Lemma xorurl_roundtrip_witness : from_url (url_encode demo_url Base32z) = Ok demo_url.
Proof.
  refine (proj1 (xorurl_roundtrip demo_url Base32z demo_url_wf demo_url_printable _ _ _)).
  - reflexivity.
  - discriminate.
  - apply (bool_decide_unpack _). vm_compute. exact I.
Defined.

Lemma set_query_key_exact_witness :
  query_key (set_query_key demo_url (lit "k") (Some (lit "z"))).1 (lit "k") = [lit "z"].
Proof.
  destruct (query_string_to_url (query_string demo_url)) as [url|] eqn:Hu; [|by vm_compute in Hu].
  destruct (set_query_key demo_url (lit "k") (Some (lit "z"))) as [u' r] eqn:Hs.
  exact (proj1 (set_query_key_exact demo_url (lit "k") (Some (lit "z")) url u' r Hu Hs)).
Defined.

Lemma set_content_type_stale_witness :
  content_type (set_content_type demo_url Raw).1 = Raw ∧
  top_name (set_content_type demo_url Raw).1 = name_to_base demo_url DEFAULT_XORURL_BASE false.
Proof.
  destruct (set_content_type_stale demo_url Raw 0 demo_url_wf) as (_ & ? & ? & _); [reflexivity|reflexivity|discriminate|done].
Defined.

(** Sub names are not checked for characters that end a name: the new public name is the part
    before the slash and the top name is not in it any more. *)
Lemma set_sub_names_unchecked :
  let '(u', r) := set_sub_names demo_url (lit "a/b") in
  r = Ok () ∧ public_name u' = lit "a" ∧ sub_names_vec u' = [] ∧ top_name u' = top_name demo_url.
Proof. vm_compute. auto. Qed.
