(* ===== verification/FilesMap.v ===== *)
(** * Files containers

    [sn_api/src/app/files]: [metadata.rs], [realpath.rs] and [files_map.rs], the map of the
    files of a container, the resolution of paths through links, and looking up files and
    folders; and the removal of paths from [mod.rs].

    A path is its text, as on Unix.  Loops that need not end take fuel and an outcome says
    how they ended. *)

From Stdlib Require Import String.
From S2P Require Import Prelude External Xor Keys Text SafeUrl.

(** The errors of the library; their texts are left out. *)
Inductive ApiError :=
  | ApiContentNotFound
  | ApiContentError
  | ApiEntryNotFound
  | ApiFileAlreadyExists (name : ustr)
  | ApiFileNameConflict (name : ustr)
  | ApiInvalidInput
  | ApiFileSystemError
  | ApiInvalidMediaType
  | ApiUrlError (e : UrlError)
  | ApiNotEnoughChunksRetrieved
  | ApiClientError
  | ApiEmptyContent
  | ApiAccessDenied
  | ApiHashNotFound (hash : bytes)
  | ApiVersionNotFound
  | ApiNetDataError
  | ApiSerialisation
  | ApiConnectionError
  | ApiNrsNameAlreadyExists (name : ustr)
  | ApiUnversionedContentError
  | ApiInvalidUtf8Sequence
  | ApiNotImplementedError
  | ApiInvalidXorUrl
  | ApiContentUploadVerificationFailed (xorurl : ustr)
  | ApiInvalidAmount
  | ApiDbcError
  | ApiDbcDepositError
  | ApiDbcDepositInvalidSecretKey
  | ApiDbcReissueError.
#[export] Instance api_error_eq_dec : EqDecision ApiError.
Proof. solve_decision. Defined.

(** How a computation ended: with a value, with a panic, or not within its fuel. *)
Inductive outcome (A : Type) := Returns (a : A) | Panics | Unfinished.
Arguments Returns {A} a.
Arguments Panics {A}.
Arguments Unfinished {A}.

#[export] Instance outcome_bind : MBind outcome := λ A B f m,
  match m with Returns a => f a | Panics => Panics | Unfinished => Unfinished end.

(** ** Constants *)

Definition PREDICATE_LINK : ustr := lit "link".
Definition PREDICATE_TYPE : ustr := lit "type".
Definition PREDICATE_SIZE : ustr := lit "size".
Definition PREDICATE_MODIFIED : ustr := lit "modified".
Definition PREDICATE_CREATED : ustr := lit "created".
Definition PREDICATE_ORIGINAL_MODIFIED : ustr := lit "o_modified".
Definition PREDICATE_ORIGINAL_CREATED : ustr := lit "o_created".
Definition PREDICATE_READONLY : ustr := lit "readonly".
Definition PREDICATE_MODE_BITS : ustr := lit "mode_bits".
Definition MIMETYPE_FILESYSTEM_DIR : ustr := lit "inode/directory".
Definition MIMETYPE_FILESYSTEM_SYMLINK : ustr := lit "inode/symlink".

(** ** Metadata *)

Abbreviation FileInfo := (gmap ustr ustr).
Abbreviation FilesMap := (gmap ustr FileInfo).

Record FileMeta := mkFileMeta {
  created : ustr;
  modified : ustr;
  file_size : ustr;
  file_type : ustr;
  readonly : option ustr;
  mode_bits : option ustr;
  original_created : option ustr;
  original_modified : option ustr;
}.

(** [None] is the panic of indexing when one of the first four is missing. *)
Definition from_file_item (file_item : FileInfo) : option FileMeta :=
  created ← file_item !! PREDICATE_CREATED;
  modified ← file_item !! PREDICATE_MODIFIED;
  file_size ← file_item !! PREDICATE_SIZE;
  file_type ← file_item !! PREDICATE_TYPE;
  Some (mkFileMeta created modified file_size file_type
    (file_item !! PREDICATE_READONLY) (file_item !! PREDICATE_MODE_BITS)
    (file_item !! PREDICATE_ORIGINAL_CREATED) (file_item !! PREDICATE_ORIGINAL_MODIFIED)).

(** The time of the two calls of the clock is an argument. *)
Definition from_type_and_size (now : ustr) (ty size : ustr) : FileMeta :=
  mkFileMeta now now size ty None None None None.

Definition add_to_fileitem (file_item : FileInfo) (key : ustr) (val : option ustr) : FileInfo :=
  match val with Some v => <[key := v]> file_item | None => file_item end.

Definition to_file_item (m : FileMeta) : FileInfo :=
  let i := add_to_fileitem ∅ PREDICATE_CREATED (Some (created m)) in
  let i := add_to_fileitem i PREDICATE_MODIFIED (Some (modified m)) in
  let i := add_to_fileitem i PREDICATE_SIZE (Some (file_size m)) in
  let i := add_to_fileitem i PREDICATE_TYPE (Some (file_type m)) in
  let i := add_to_fileitem i PREDICATE_READONLY (readonly m) in
  let i := add_to_fileitem i PREDICATE_MODE_BITS (mode_bits m) in
  let i := add_to_fileitem i PREDICATE_ORIGINAL_CREATED (original_created m) in
  add_to_fileitem i PREDICATE_ORIGINAL_MODIFIED (original_modified m).

Definition filetype_is_file (ty : ustr) : bool :=
  negb (bool_decide (ty = MIMETYPE_FILESYSTEM_DIR) || bool_decide (ty = MIMETYPE_FILESYSTEM_SYMLINK)).
Definition filetype_is_symlink (ty : ustr) : bool := bool_decide (ty = MIMETYPE_FILESYSTEM_SYMLINK).
Definition filetype_is_dir (ty : ustr) : bool := bool_decide (ty = MIMETYPE_FILESYSTEM_DIR).

Definition is_file (m : FileMeta) : bool := filetype_is_file (file_type m).
Definition is_symlink (m : FileMeta) : bool := filetype_is_symlink (file_type m).
Definition is_dir (m : FileMeta) : bool := filetype_is_dir (file_type m).

Definition getattr (i : FileInfo) (key : ustr) : result ApiError ustr := ok_or (i !! key) ApiEntryNotFound.

(** ** Changes *)

Inductive FilesMapChange := Added (link : ustr) | Updated (link : ustr) | Removed (link : ustr) | Failed (e : ApiError).

Definition is_success (c : FilesMapChange) : bool := match c with Failed _ => false | _ => true end.
Definition change_link (c : FilesMapChange) : option ustr :=
  match c with Added l | Updated l | Removed l => Some l | Failed _ => None end.
Definition is_added (c : FilesMapChange) : bool := match c with Added _ => true | _ => false end.
Definition is_updated (c : FilesMapChange) : bool := match c with Updated _ => true | _ => false end.
Definition is_removed (c : FilesMapChange) : bool := match c with Removed _ => true | _ => false end.

(** The components of a path, the root first: paths with equal components are equal. *)
Definition path_components_of (p : ustr) : list ustr :=
  let parts := filter (λ w, w ≠ [] ∧ w ≠ lit ".") (split SLASH p) in
  match p with
  | c :: _ => if (c =? SLASH)%N then [SLASH] :: parts
              else match split SLASH p with w :: _ => if decide (w = lit ".") then w :: parts else parts | [] => parts end
  | [] => parts
  end.

(** [BTreeMap<PathBuf, FilesMapChange>]: the report of what was done with a path. *)
Abbreviation ProcessedFiles := (list (ustr * FilesMapChange)).

Fixpoint pf_insert (l : ProcessedFiles) (p : ustr) (c : FilesMapChange) : ProcessedFiles :=
  match l with
  | [] => [(p, c)]
  | (q, d) :: l =>
      if decide (path_components_of p = path_components_of q) then (q, c) :: l else (q, d) :: pf_insert l p c
  end.

(** ** Real paths *)

(** [&s[0..1] == "/"] of a string that is not empty: [None] is a panic, when the first
    character takes more than one byte. *)
Definition starts_with_slash (s : ustr) : option bool :=
  match s with
  | [] => None
  | c :: _ => if decide (length (utf8_char c) = 1) then Some (c =? SLASH)%N else None
  end.

Inductive walked :=
  | WEnd (newpath : list ustr) (nlinks : nat) (ended : bool)
  | WLink (target : list ustr) (nlinks : nat) (ended : bool)
  | WErr (e : ApiError)
  | WPanic.

Definition is_nil {A} (l : list A) : bool := match l with [] => true | _ => false end.

(** One pass over the components of a path, up to the first link. *)
Fixpoint walk (m : FilesMap) (newpath : list ustr) (nlinks : nat) (ended : bool) (path : list ustr) : walked :=
  match path with
  | [] => WEnd newpath nlinks ended
  | cur :: rest =>
      if decide (cur = lit ".") then walk m newpath nlinks ended rest
      else if decide (cur = lit "..") then
        let newpath := removelast newpath in
        if is_nil newpath then WErr ApiContentNotFound else walk m newpath nlinks ended rest
      else
        let newpath := newpath ++ [cur] in
        match m !! join [SLASH] newpath with
        | Some fileitem =>
            match from_file_item fileitem with
            | None => WPanic
            | Some meta =>
                if is_symlink meta then
                  let nlinks := S nlinks in
                  if decide (16 < nlinks) then WErr ApiContentNotFound else
                  match getattr fileitem (lit "symlink_target") with
                  | Err e => WErr e
                  | Ok target_str =>
                      if is_nil target_str then WErr ApiContentNotFound else
                      match starts_with_slash target_str with
                      | None => WPanic
                      | Some absolute =>
                          let target_parts := split SLASH target_str in
                          let target := if absolute then target_parts else removelast newpath ++ target_parts in
                          WLink (target ++ rest) nlinks ended
                      end
                  end
                else if is_dir meta then walk m newpath nlinks (is_nil rest || ended) rest
                else walk m newpath nlinks true rest
            end
        | None => walk m newpath nlinks (is_nil rest || ended) rest
        end
  end.

(** [while !ended]. *)
Fixpoint realpath_loop (fuel : nat) (m : FilesMap) (path newpath : list ustr) (nlinks : nat) :
    outcome (result ApiError ustr) :=
  match fuel with
  | 0 => Unfinished
  | S fuel =>
      match walk m newpath nlinks false path with
      | WEnd newpath nlinks ended =>
          if ended then Returns (Ok (join [SLASH] newpath)) else realpath_loop fuel m path newpath nlinks
      | WLink target nlinks ended =>
          if ended then Returns (Ok (join [SLASH] [])) else realpath_loop fuel m target [] nlinks
      | WErr e => Returns (Err e)
      | WPanic => Panics
      end
  end.

Definition realpath (fuel : nat) (m : FilesMap) (fpath : ustr) : outcome (result ApiError ustr) :=
  if is_nil fpath then Returns (Err ApiInvalidInput) else
  match starts_with_slash fpath with
  | None => Panics
  | Some false => Returns (Err ApiInvalidInput)
  | Some true => realpath_loop fuel m (split SLASH fpath) [] 0
  end.

(** ** Files and folders *)

Definition ends_with_slash (s : ustr) : bool := bool_decide (last s = Some SLASH).

(** Names are distinct after the prefix is cut, so the order of the map does not matter. *)
Definition filesmap_chroot (urlpath : ustr) (m : FilesMap) : result ApiError FilesMap :=
  let folder_path := if ends_with_slash urlpath then urlpath else urlpath ++ [SLASH] in
  let filtered := foldr (λ p acc,
      if starts_with folder_path p.1 then <[drop (length folder_path) p.1 := p.2]> acc else acc)
    ∅ (map_to_list m) in
  if decide (filtered = ∅) then Err ApiContentError else Ok filtered.

Definition file_map_for_path (fuel : nat) (m : FilesMap) (path : ustr) : outcome (result ApiError FilesMap) :=
  r ← realpath fuel m path;
  Returns (
    real ← r;
    match m !! real with
    | Some file_info =>
        ty ← ok_or (file_info !! lit "type") ApiContentError;
        if filetype_is_symlink ty then Err ApiContentError
        else if filetype_is_file ty then Ok m
        else filesmap_chroot real m
    | None => filesmap_chroot real m
    end).

(** [Path::file_name]: the last component, if it is a name. *)
Definition file_name (p : ustr) : option ustr :=
  match last (filter (λ w, w ≠ [] ∧ w ≠ lit ".") (split SLASH p)) with
  | Some w => if decide (w = lit "..") then None else Some w
  | None => None
  end.

Definition get_file_link_and_metadata (fuel : nat) (m : FilesMap) (path : ustr) :
    outcome (result ApiError (option ustr * option FileInfo)) :=
  if is_nil path then Returns (Ok (None, None)) else
  r ← realpath fuel m path;
  Returns (
    real ← r;
    match m !! real with
    | Some file_info =>
        ty ← ok_or (file_info !! lit "type") ApiContentError;
        if filetype_is_file ty then
          link ← ok_or (file_info !! lit "link") ApiContentError;
          let enriched := match file_name path with
                          | Some name => <[lit "name" := name]> file_info
                          | None => file_info
                          end in
          Ok (Some link, Some enriched)
        else Ok (None, None)
    | None => Ok (None, None)
    end).

(** ** Removal *)

(** [Path::ends_with("/")] compares components: only the root ends with it. *)
Definition path_is_root (p : ustr) : bool := bool_decide (path_components_of p = [[SLASH]]).

Definition item_link (i : FileInfo) : ustr := default [] (i !! PREDICATE_LINK).

Definition files_map_remove_path (dst_path : ustr) (m : FilesMap) (recursive : bool) :
    result ApiError (ProcessedFiles * FilesMap * nat) :=
  if recursive then
    let folder_path := if path_is_root dst_path then dst_path else dst_path ++ [SLASH] in
    Ok (foldr (λ p acc,
        let '(processed, new_map, count) := acc in
        if starts_with folder_path p.1 then (pf_insert processed p.1 (Removed (item_link p.2)), new_map, S count)
        else (processed, <[p.1 := p.2]> new_map, count))
      ([], ∅, 0) (map_to_list m))
  else
    file_item ← ok_or (m !! dst_path) ApiContentError;
    Ok (pf_insert [] dst_path (Removed (item_link file_item)), delete dst_path m, 1).
