(* ===== verification/FilesMapProps.v ===== *)
(** * Properties of files containers

    Paths resolve, in a bounded number of rounds, to paths without dots and links; paths that
    end in a dot do not; folders and files are found at their resolved path. *)

From Stdlib Require Import String.
From S2P Require Import Prelude External Xor Keys Text SafeUrl FilesMap.

(** ** Resolved paths *)

Definition is_dots (w : ustr) : Prop := w = lit "." ∨ w = lit "..".
#[export] Instance is_dots_dec w : Decision (is_dots w).
Proof. unfold is_dots. apply _. Defined.

Definition is_link (m : FilesMap) (ws : list ustr) : Prop :=
  ∃ i meta, m !! join [SLASH] ws = Some i ∧ from_file_item i = Some meta ∧ is_symlink meta = true.

(** No dots, and no link at the path or above it. *)
Definition resolved (m : FilesMap) (ws : list ustr) : Prop :=
  Forall (λ w, ¬ is_dots w) ws ∧ ∀ k, 0 < k ≤ length ws → ¬ is_link m (take k ws).

Lemma resolved_nil m : resolved m [].
Proof. split; [constructor|]. simpl. lia. Qed.
Lemma resolved_push m ws w : resolved m ws → ¬ is_dots w → ¬ is_link m (ws ++ [w]) → resolved m (ws ++ [w]).
Proof.
  intros [Hd Hl] Hw Hn. split; [apply Forall_app; by repeat constructor|].
  intros k Hk. rewrite length_app in Hk. simpl in Hk.
  destruct (decide (k = length ws + 1)) as [->|].
  - by rewrite take_ge by (rewrite length_app; simpl; lia).
  - rewrite take_app_le by lia. apply Hl. lia.
Qed.
Lemma removelast_snoc {A} (l : list A) x : removelast (l ++ [x]) = l.
Proof. apply removelast_last. Qed.
Lemma resolved_pop m ws : resolved m ws → resolved m (removelast ws).
Proof.
  intros [Hd Hl]. destruct ws as [|w ws _] using rev_ind; [apply resolved_nil|]. rewrite removelast_snoc.
  apply Forall_app in Hd as [Hd _]. split; [done|]. intros k Hk. rewrite <-(take_app_le ws [w]) by lia.
  apply Hl. rewrite length_app. simpl. lia.
Qed.

Lemma not_is_link m ws i meta :
  m !! join [SLASH] ws = Some i → from_file_item i = Some meta → is_symlink meta = false → ¬ is_link m ws.
Proof. intros Hi Hm Hs (i' & meta' & ? & ? & ?). congruence. Qed.

Lemma walk_resolved m path newpath nl e newpath' nl' e' :
  resolved m newpath → walk m newpath nl e path = WEnd newpath' nl' e' → resolved m newpath'.
Proof.
  revert newpath nl e. induction path as [|cur rest IH]; intros newpath nl e Hr; cbn [walk].
  { by intros [= <- _ _]. }
  case_decide as H1; [by apply IH|]. case_decide as H2.
  { destruct (is_nil _); [done|]. by apply IH, resolved_pop. }
  assert (¬ is_dots cur) as Hnd by (intros [?|?]; done).
  destruct (m !! _) as [i|] eqn:Hi.
  - destruct (from_file_item i) as [meta|] eqn:Hm; [|done]. destruct (is_symlink meta) eqn:Hs.
    + case_decide; [done|]. destruct (getattr _ _) as [t|]; [|done]. destruct (is_nil t); [done|].
      by destruct (starts_with_slash t).
    + assert (resolved m (newpath ++ [cur])) by (apply resolved_push; [done|done|by eapply not_is_link]).
      destruct (is_dir meta); by apply IH.
  - apply IH, resolved_push; [done|done|]. intros (i & meta & Hi' & _). congruence.
Qed.

Lemma realpath_loop_resolved fuel m path newpath nl r :
  resolved m newpath → realpath_loop fuel m path newpath nl = Returns (Ok r) →
  ∃ ws, r = join [SLASH] ws ∧ resolved m ws.
Proof.
  revert path newpath nl. induction fuel as [|fuel IH]; intros path newpath nl Hr; cbn [realpath_loop]; [done|].
  destruct (walk m newpath nl false path) as [np nl' e|target nl' e| |] eqn:Hw; try done.
  - apply walk_resolved in Hw; [|done]. destruct e; [intros [= <-]; eauto|by apply IH].
  - destruct e; [|by apply IH, resolved_nil]. intros [= <-]. exists []. split; [done|apply resolved_nil].
Qed.

(** ** Termination *)

(** A path whose last component is a name. *)
Definition good_end (ws : list ustr) : Prop := ∃ w, last ws = Some w ∧ ¬ is_dots w.

(** Every item has its attributes, and every link has a target that ends with a name and starts
    with an ASCII character. *)
Definition items_ok (m : FilesMap) : Prop := ∀ k i, m !! k = Some i →
  ∃ meta, from_file_item i = Some meta ∧
  (is_symlink meta = true → ∀ t, i !! lit "symlink_target" = Some t → t ≠ [] →
     starts_with_slash t ≠ None ∧ good_end (split SLASH t)).

Lemma good_end_cons w ws : good_end (w :: ws) → ws ≠ [] → good_end ws.
Proof. intros (x & Hx & Hd) Hne. exists x. split; [|done]. by destruct ws. Qed.
Lemma good_end_app ws ws' : good_end ws' → good_end (ws ++ ws').
Proof. intros (x & Hx & Hd). exists x. split; [|done]. rewrite last_app. by rewrite Hx. Qed.

Lemma walk_ends m path newpath nl e :
  items_ok m → good_end path → nl ≤ 16 →
  match walk m newpath nl e path with
  | WEnd _ _ e' => e' = true
  | WLink target nl' _ => good_end target ∧ nl < nl' ≤ 16
  | WErr _ => True
  | WPanic => False
  end.
Proof.
  intros Hm. revert newpath nl e. induction path as [|cur rest IH]; intros newpath nl e Hg Hnl; cbn [walk].
  { by destruct Hg as (w & ? & _). }
  assert (rest ≠ [] → good_end rest) as Hrest by (by eapply good_end_cons).
  assert (Hstep : ∀ np e, ¬ is_dots cur → e = true ∨ rest ≠ [] →
    match walk m np nl e rest with
    | WEnd _ _ e' => e' = true | WLink target nl' _ => good_end target ∧ nl < nl' ≤ 16 | WErr _ => True | WPanic => False
    end).
  { intros np e0 Hd He. destruct rest as [|w rest]; [by destruct He|]. apply IH; [by apply Hrest|done]. }
  assert (is_dots cur → rest ≠ []) as Hdots.
  { intros Hd ->. destruct Hg as (w & [= ->] & Hw). done. }
  case_decide as H1; [apply IH; [apply Hrest, Hdots; by left|done]|].
  case_decide as H2.
  { destruct (is_nil _); [done|]. apply IH; [apply Hrest, Hdots; by right|done]. }
  assert (¬ is_dots cur) as Hnd by (intros [?|?]; done).
  assert (is_nil rest || e = true ∨ rest ≠ []) as He by (destruct rest; [by left|by right]).
  destruct (m !! _) as [i|] eqn:Hi; [|by apply Hstep].
  destruct (Hm _ _ Hi) as (meta & -> & Hlink). destruct (is_symlink meta) eqn:Hs.
  - case_decide; [done|]. unfold getattr. destruct (i !! lit "symlink_target") as [t|] eqn:Ht; [|done]. cbn [ok_or].
    destruct t as [|c t]; [done|]. destruct (Hlink eq_refl _ eq_refl) as [Hsl Hge]; [done|]. cbn [is_nil].
    destruct (starts_with_slash (c :: t)) as [b|] eqn:Hb; [|done]. split; [|lia].
    destruct rest as [|w rest]; [rewrite app_nil_r|by apply good_end_app, Hrest].
    destruct b; [done|by apply good_end_app].
  - destruct (is_dir meta); apply Hstep; auto.
Qed.

Lemma realpath_loop_returns fuel m path newpath nl :
  items_ok m → good_end path → nl ≤ 16 → 17 ≤ fuel + nl → ∃ r, realpath_loop fuel m path newpath nl = Returns r.
Proof.
  intros Hm. revert path newpath nl. induction fuel as [|fuel IH]; intros path newpath nl Hg Hnl Hf; [lia|].
  cbn [realpath_loop]. pose proof (walk_ends m path newpath nl false Hm Hg Hnl) as Hw.
  destruct (walk m newpath nl false path) as [np nl' e|target nl' e| |]; [subst; eauto| |eauto|done].
  destruct Hw as [Ht Hl]. destruct e; [eauto|]. apply IH; [done|lia|lia].
Qed.

(** C31: In a container whose items are complete and whose links have a target that ends with a
    name and starts with an ASCII character, the real path
    of an absolute path that ends with a name is computed in at most 17 rounds, however the
    links point to each other; it is an error or a path without dots of which no part is a
    link. *)
Theorem realpath_resolves m fpath fuel :
  items_ok m → good_end (split SLASH fpath) → starts_with_slash fpath = Some true → 17 ≤ fuel →
  (∃ e, realpath fuel m fpath = Returns (Err e)) ∨
  (∃ ws, realpath fuel m fpath = Returns (Ok (join [SLASH] ws)) ∧ resolved m ws).
Proof.
  intros Hm Hg Hs Hf. unfold realpath. rewrite Hs. destruct fpath as [|c fpath]; [done|]. cbn [is_nil].
  destruct (realpath_loop_returns fuel m (split SLASH (c :: fpath)) [] 0) as [[r|e] Hr]; [done|done|lia|lia| |eauto].
  right. destruct (realpath_loop_resolved _ _ _ _ _ _ (resolved_nil m) Hr) as (ws & -> & Hw). eauto.
Qed.

(** ** Paths that end in a dot *)

Definition dirs_only (m : FilesMap) : Prop := ∀ k i, m !! k = Some i →
  ∃ meta, from_file_item i = Some meta ∧ is_dir meta = true.

Lemma dir_not_symlink meta : is_dir meta = true → is_symlink meta = false.
Proof. unfold is_dir, is_symlink, filetype_is_dir, filetype_is_symlink. by intros ->%bool_decide_eq_true. Qed.

Lemma walk_names m newpath nl ws rest :
  dirs_only m → Forall (λ w, ¬ is_dots w) ws → rest ≠ [] →
  walk m newpath nl false (ws ++ rest) = walk m (newpath ++ ws) nl false rest.
Proof.
  intros Hm Hws Hne. revert newpath. induction Hws as [|w ws Hw Hws IH]; intros newpath; [by rewrite app_nil_r|].
  cbn [app walk]. rewrite decide_False by (intros ->; apply Hw; by left).
  rewrite decide_False by (intros ->; apply Hw; by right).
  assert (is_nil (ws ++ rest) = false) as Hn by (by destruct ws, rest).
  assert (newpath ++ w :: ws = (newpath ++ [w]) ++ ws) as -> by by rewrite <-(assoc_L (++)).
  destruct (m !! _) as [i|] eqn:Hi; rewrite ?Hn; [|apply IH].
  destruct (Hm _ _ Hi) as (meta & -> & Hd). rewrite (dir_not_symlink meta Hd), Hd, ?Hn. apply IH.
Qed.

(** In a container of folders, the real path of an absolute path that ends in a dot, or in
    two dots below the root, is never computed: the loop runs for ever. *)
Theorem realpath_dots_hang m comps dots fuel :
  dirs_only m → Forall (λ w, ¬ is_dots w ∧ SLASH ∉ w) comps →
  dots = lit "." ∨ dots = lit ".." ∧ comps ≠ [] →
  realpath fuel m (join [SLASH] ([] :: comps ++ [dots])) = Unfinished.
Proof.
  intros Hm Hc Hdots.
  assert (split SLASH (join [SLASH] ([] :: comps ++ [dots])) = ([] :: comps) ++ [dots]) as Hsplit.
  { apply split_join; [done|]. constructor; [apply not_elem_of_nil|]. apply Forall_app. split.
    - eapply Forall_impl; [exact Hc|]. naive_solver.
    - repeat constructor. destruct Hdots as [->|[-> _]]; by apply (bool_decide_unpack _). }
  assert (∃ s, join [SLASH] ([] :: comps ++ [dots]) = SLASH :: s) as [s Hs] by (destruct comps; cbn; eauto).
  unfold realpath. rewrite Hsplit, Hs. change (starts_with_slash (SLASH :: s)) with (Some true). cbn [is_nil].
  assert (∀ np nl, ∃ np' nl', walk m np nl false (([] :: comps) ++ [dots]) = WEnd np' nl' false) as Hw.
  { intros np nl. rewrite walk_names; [|done| |done].
    - destruct Hdots as [->|[-> Hne]]; [by do 2 eexists|].
      cbn [walk]. rewrite decide_False, decide_True by done.
      destruct comps as [|c comps]; [done|]. destruct (comps) as [|w ws _] using rev_ind.
      + change (np ++ [[]; c]) with (np ++ ([[]] ++ [c])). rewrite (assoc_L (++)), removelast_snoc.
        assert (is_nil (np ++ [[]]) = false) as -> by (by destruct np). by do 2 eexists.
      + change (np ++ [] :: c :: ws ++ [w]) with (np ++ ([] :: c :: ws) ++ [w]).
        rewrite (assoc_L (++)), removelast_snoc.
        assert (is_nil (np ++ [] :: c :: ws) = false) as -> by (by destruct np). by do 2 eexists.
    - constructor; [by intros [?|?]|]. eapply Forall_impl; [exact Hc|]. naive_solver. }
  generalize (@nil ustr) at 2. generalize 0. revert Hw. generalize (([] : ustr) :: comps). intros ws Hw.
  induction fuel as [|fuel IH]; intros nl np; cbn [realpath_loop]; [done|].
  destruct (Hw np nl) as (np' & nl' & ->). apply IH.
Qed.

(** ** Folders *)

Lemma chroot_fold (pre : ustr) (l : list (ustr * FileInfo)) (name : ustr) :
  NoDup l.*1 →
  foldr (λ p acc, if starts_with pre p.1 then <[drop (length pre) p.1 := p.2]> acc else acc) (∅ : FilesMap) l !! name =
  (list_to_map l : FilesMap) !! (pre ++ name).
Proof.
  intros Hnd. induction l as [|[k fi] l IH]; simpl; [by rewrite !lookup_empty|].
  apply NoDup_cons in Hnd as [_ Hnd]. specialize (IH Hnd).
  destruct (starts_with pre k) eqn:Hk.
  - pose proof Hk as [s ->]%starts_with_prefix. rewrite drop_app_length. destruct (decide (s = name)) as [->|Hne].
    + by rewrite !lookup_insert_eq.
    + rewrite !lookup_insert_ne; [done| |done]. intros E%app_inv_head. done.
  - rewrite lookup_insert_ne; [done|]. intros ->. by rewrite starts_with_app in Hk.
Qed.

(** A folder has the items below it, at their path from it. *)
Lemma filesmap_chroot_lookup urlpath m c :
  filesmap_chroot urlpath m = Ok c →
  ∀ name, c !! name = m !! ((if ends_with_slash urlpath then urlpath else urlpath ++ [SLASH]) ++ name).
Proof.
  unfold filesmap_chroot. intros Hc name. case_decide; [done|]. injection Hc as <-.
  etrans; [apply chroot_fold, NoDup_fst_map_to_list|]. by rewrite list_to_map_to_list.
Qed.

Lemma remove_fold (pre : ustr) (l : list (ustr * FileInfo)) (name : ustr) :
  NoDup l.*1 →
  (foldr (λ p acc,
      let '(processed, new_map, count) := acc in
      if starts_with pre p.1 then (pf_insert processed p.1 (Removed (item_link p.2)), new_map, S count)
      else (processed, <[p.1 := p.2]> new_map, count))
    ([], ∅ : FilesMap, 0) l).1.2 !! name =
  if starts_with pre name then None else (list_to_map l : FilesMap) !! name.
Proof.
  intros Hnd. induction l as [|[k fi] l IH]; simpl; [rewrite lookup_empty; by destruct (starts_with pre name)|].
  apply NoDup_cons in Hnd as [_ Hnd]. specialize (IH Hnd). destruct (foldr _ _ _) as [[a b] c]. simpl in *.
  destruct (decide (k = name)) as [->|Hne].
  - destruct (starts_with pre name) eqn:E; simpl; [done|]. by rewrite !lookup_insert_eq.
  - rewrite lookup_insert_ne by done. destruct (starts_with pre k); simpl; [done|]. by rewrite lookup_insert_ne.
Qed.

(** Removing a path recursively takes away what starts with it and a slash, unless it is the root. *)
Lemma remove_path_lookup dst m processed m' count :
  files_map_remove_path dst m true = Ok (processed, m', count) →
  ∀ name, m' !! name =
    if starts_with (if path_is_root dst then dst else dst ++ [SLASH]) name then None else m !! name.
Proof.
  unfold files_map_remove_path. intros [= Hr] name.
  transitivity ((processed, m', count).1.2 !! name); [done|]. rewrite <-Hr.
  etrans; [apply remove_fold, NoDup_fst_map_to_list|]. by rewrite list_to_map_to_list.
Qed.
