(* ===== verification/FilesSync.v ===== *)
(** * Adding and syncing files

    [sn_api/src/app/files/mod.rs], [files_map.rs] and [metadata.rs]: the items made of local
    files, and the maps that adding, syncing and creating a container give.  The local file
    system, the clock, the guess of media types, the client that stores bytes and the crate
    [relative_path] are a class of operations. *)

From Stdlib Require Import String.
From S2P Require Import Prelude External Xor Keys Text SafeUrl FilesMap FilesMapProps.

(** [fs::Metadata], as far as it is used, with its numbers printed. *)
Record Metadata := mkMetadata {
  md_is_dir : bool;
  md_is_symlink : bool;
  md_is_file : bool;
  md_created : option ustr;
  md_modified : option ustr;
  md_readonly : bool;
  md_len : ustr;
  md_mode : ustr;
}.

Class LocalFiles {X : Xor} := {
  (** [fs::metadata], or [fs::symlink_metadata] when links are not followed. *)
  fs_metadata : bool → ustr → option Metadata;
  fs_read_link : ustr → option ustr;
  mime_guess : ustr → option ustr;
  gen_timestamp_secs : ustr;
  fs_read : ustr → option bytes;
  (** [Client::calculate_address] and [Client::upload_and_verify]. *)
  calculate_address : bytes → result ApiError XorName;
  upload_and_verify : bytes → result ApiError XorName;
  (** [RelativePath::normalize]. *)
  normalize : ustr → ustr;
}.

Section files.
Context {X : Xor} {XB : XorBytes} {UC : UrlCrates} {LF : LocalFiles} (xorurl_base : XorUrlBase).

(** ** Storing bytes

    [dry] is the dry-run mode of the library. *)

Definition store_bytes (dry : bool) (bs : bytes) (media_type : option ustr) : result ApiError ustr :=
  ct ← match media_type with
       | None => Ok Raw
       | Some mt => if is_media_type_supported mt then Ok (MediaType mt) else Err ApiInvalidMediaType
       end;
  address ← if dry then calculate_address bs else upload_and_verify bs;
  url ← map_err ApiUrlError (from_bytes address ct);
  Ok (url_encode url xorurl_base).

(** Media types without a code are stored as raw content. *)
Definition upload_file_to_net (dry : bool) (path : ustr) : result ApiError ustr :=
  data ← ok_or (fs_read path) ApiInvalidInput;
  let guess := mime_guess path in
  let '(res, guess) :=
    match store_bytes dry data guess with
    | Err ApiInvalidMediaType => (store_bytes dry data None, None)
    | res => (res, guess)
    end in
  match res with
  | Err ApiNotEnoughChunksRetrieved =>
      xorurl ← store_bytes true data guess;
      Err (ApiContentUploadVerificationFailed xorurl)
  | _ => res
  end.

(** ** Metadata of local files *)

Definition get_media_type (path : ustr) (meta : Metadata) : ustr :=
  if md_is_dir meta then MIMETYPE_FILESYSTEM_DIR
  else if md_is_symlink meta then MIMETYPE_FILESYSTEM_SYMLINK
  else default (lit "Raw") (mime_guess path).

Definition get_metadata (path : ustr) (follow_links : bool) : result ApiError (Metadata * ustr) :=
  metadata ← ok_or (fs_metadata follow_links path) ApiFileSystemError;
  Ok (metadata, get_media_type path metadata).

Definition from_path (path : ustr) (follow_links : bool) : result ApiError FileMeta :=
  '(metadata, ty) ← get_metadata path follow_links;
  let size := if md_is_file metadata then md_len metadata else lit "0" in
  Ok (mkFileMeta gen_timestamp_secs gen_timestamp_secs size ty
    (Some (if md_readonly metadata then lit "true" else lit "false")) (Some (md_mode metadata))
    (md_created metadata) (md_modified metadata)).

(** ** Items *)

Definition normalise_path_separator (s : ustr) : ustr := (λ c, if (c =? 92)%N then SLASH else c) <$> s.

Definition gen_new_file_item (dry : bool) (file_path : ustr) (meta : FileMeta) (link : option ustr) :
    result ApiError FileInfo :=
  let file_item := to_file_item meta in
  if is_file meta then
    xorurl ← match link with None => upload_file_to_net dry file_path | Some link => Ok link end;
    Ok (<[PREDICATE_LINK := xorurl]> file_item)
  else if is_symlink meta then
    let symlink_target_type :=
      match fs_metadata true file_path with
      | Some m => if md_is_dir m then lit "dir" else lit "file"
      | None => lit "unknown"
      end in
    target_path ← match link with
                  | Some target => Ok target
                  | None => normalise_path_separator <$> ok_or (fs_read_link file_path) ApiFileSystemError
                  end;
    Ok (<[lit "symlink_target_type" := symlink_target_type]> (<[lit "symlink_target" := target_path]> file_item))
  else Ok file_item.

Definition add_or_update_file_item (dry : bool) (file_name name_for_map file_path : ustr) (meta : FileMeta)
    (file_link : option ustr) (name_exists : bool) (m : FilesMap) (processed : ProcessedFiles) :
    bool * FilesMap * ProcessedFiles :=
  match gen_new_file_item dry file_path meta file_link with
  | Ok new_file_item =>
      let xorurl := item_link new_file_item in
      (true, <[name_for_map := new_file_item]> m,
       pf_insert processed file_name (if name_exists then Updated xorurl else Added xorurl))
  | Err err => (false, m, pf_insert processed file_name (Failed err))
  end.

(** ** Names in the container *)

(** [str::replace]; [skip] counts the characters of a match that are still to be passed over. *)
Fixpoint replace_all (from to : ustr) (skip : nat) (s : ustr) : ustr :=
  match s with
  | [] => match skip, from with 0, [] => to | _, _ => [] end
  | c :: s' =>
      match skip with
      | S skip => replace_all from to skip s'
      | 0 =>
          if starts_with from s then
            match from with
            | [] => to ++ c :: replace_all from to 0 s'
            | _ :: from' => to ++ replace_all from to (length from') s'
            end
          else c :: replace_all from to 0 s'
      end
  end.

(** [str::trim_end_matches] of a slash. *)
Definition trim_slashes (s : ustr) : ustr :=
  foldr (λ c acc, if (c =? SLASH)%N && is_nil acc then [] else c :: acc) [] s.

Definition get_base_paths (location : ustr) (dst_path : option ustr) : ustr * ustr :=
  let location_base_path :=
    if decide (location = lit ".") then lit "./" else normalise_path_separator location in
  let new_dst_path :=
    match dst_path with
    | Some path => if is_nil path then lit "/" else path
    | None => lit "/"
    end in
  let dst_base_path :=
    if ends_with_slash new_dst_path then
      if ends_with_slash location_base_path then new_dst_path
      else new_dst_path ++ default [] (last (split SLASH location_base_path))
    else new_dst_path ++ [SLASH] in
  (location_base_path, dst_base_path).

(** The name that [files_map_create] gives a local file in the container. *)
Definition container_name (bases : ustr * ustr) (local_file_name : ustr) : ustr :=
  trim_slashes (SLASH :: normalise_path_separator (normalize (replace_all bases.1 bases.2 0 local_file_name))).
(** The one that [files_map_sync] gives it. *)
Definition sync_name (bases : ustr * ustr) (local_file_name : ustr) : ustr :=
  let name := container_name bases local_file_name in if is_nil name then lit "/" else name.

(** ** Syncing *)

(** Indexing with a missing key panics. *)
Definition is_file_item_modified (local_filename : ustr) (file_item : FileInfo) : option bool :=
  ty ← file_item !! PREDICATE_TYPE;
  if filetype_is_file ty then
    match upload_file_to_net true local_filename with
    | Ok local_xorurl => link ← file_item !! PREDICATE_LINK; Some (bool_decide (link ≠ local_xorurl))
    | Err _ => Some false
    end
  else Some false.

(** The parts of a name up to each slash; the first is the root. *)
Definition ancestors_of (name : ustr) : list ustr :=
  let parts := split SLASH name in
  (λ i, if decide (i = 1) then lit "/" else join [SLASH] (take i parts)) <$> seq 1 (length parts).

(** Folders above a name are kept. *)
Definition keep_ancestors (name : ustr) (st : FilesMap * FilesMap) : FilesMap * FilesMap :=
  foldl (λ st ancestor,
    let '(current, updated) := st in
    if decide (ancestor = name) then st else
    match current !! ancestor with
    | Some fi => (delete ancestor current, <[ancestor := fi]> updated)
    | None => st
    end) st (ancestors_of name).

Record SyncState := mkSync { ss_current : FilesMap; ss_updated : FilesMap; ss_processed : ProcessedFiles; ss_count : nat }.

(** One local file. *)
Definition sync_file (dry : bool) (bases : ustr * ustr) (force compare_file_content follow_links : bool)
    (local_file_name : ustr) (s : SyncState) : outcome (result ApiError SyncState) :=
  let name := sync_name bases local_file_name in
  match ss_current s !! name with
  | None =>
      match from_path local_file_name follow_links with
      | Err e => Returns (Err e)
      | Ok meta =>
          let '(added, updated, processed) :=
            add_or_update_file_item dry local_file_name name local_file_name meta None false (ss_updated s) (ss_processed s) in
          if added then
            let '(current, updated) := keep_ancestors name (ss_current s, updated) in
            Returns (Ok (mkSync current updated processed (S (ss_count s))))
          else Returns (Ok (mkSync (ss_current s) updated processed (ss_count s)))
      end
  | Some file_item =>
      match is_file_item_modified local_file_name file_item with
      | None => Panics
      | Some is_modified =>
          let step :=
            if force || (compare_file_content && is_modified) then
              meta ← from_path local_file_name follow_links;
              let '(added, updated, processed) :=
                add_or_update_file_item dry local_file_name name local_file_name meta None true (ss_updated s) (ss_processed s) in
              Ok (updated, processed, if added then S (ss_count s) else ss_count s)
            else
              let updated := <[name := file_item]> (ss_updated s) in
              if negb force && negb compare_file_content then
                let err := if is_modified then ApiFileNameConflict name else ApiFileAlreadyExists name in
                Ok (updated, pf_insert (ss_processed s) local_file_name (Failed err), ss_count s)
              else Ok (updated, ss_processed s, ss_count s) in
          Returns (
            '(updated, processed, count) ← step;
            let '(current, updated) := keep_ancestors name (delete name (ss_current s), updated) in
            Ok (mkSync current updated processed count))
      end
  end.

Fixpoint sync_files (dry : bool) (bases : ustr * ustr) (force compare_file_content follow_links : bool)
    (files : list ustr) (s : SyncState) : outcome (result ApiError SyncState) :=
  match files with
  | [] => Returns (Ok s)
  | f :: files =>
      r ← sync_file dry bases force compare_file_content follow_links f s;
      match r with
      | Ok s => sync_files dry bases force compare_file_content follow_links files s
      | Err e => Returns (Err e)
      end
  end.

(** The files of the container that have no local file. *)
Definition sync_rest (del : bool) (s : SyncState) : ProcessedFiles * FilesMap * nat :=
  foldr (λ p acc,
    let '(processed, updated, count) := acc in
    if del then (pf_insert processed p.1 (Removed (item_link p.2)), updated, S count)
    else (processed, <[p.1 := p.2]> updated, count))
  (ss_processed s, ss_updated s, ss_count s) (map_to_list (ss_current s)).

(** The paths of the new content come in the order of the map. *)
Definition files_map_sync (dry : bool) (current_files_map : FilesMap) (location : ustr) (new_content : ProcessedFiles)
    (dst_path : option ustr) (del force compare_file_content follow_links : bool) :
    outcome (result ApiError (ProcessedFiles * FilesMap * nat)) :=
  let bases := get_base_paths location dst_path in
  let files := fst <$> filter (λ p, is_success p.2 = true) new_content in
  r ← sync_files dry bases force compare_file_content follow_links files (mkSync current_files_map ∅ [] 0);
  Returns (s ← r; Ok (sync_rest del s)).

(** ** Adding a link *)

(** [Display] of a content type that is no media type. *)
Definition content_type_text (c : ContentType) : ustr :=
  match c with
  | Raw => lit "Raw"
  | Wallet => lit "Wallet"
  | FilesContainer => lit "FilesContainer"
  | NrsMapContainer => lit "NrsMapContainer"
  | Multimap => lit "Multimap"
  | MediaType media_type => media_type
  end.

Definition files_map_add_link (m : FilesMap) (file_link file_name : ustr) (force : bool) :
    outcome (ProcessedFiles * FilesMap * nat) :=
  match from_url file_link with
  | Err err => Returns (pf_insert [] file_link (Failed (ApiUrlError err)), m, 0)
  | Ok safe_url =>
      let ty := content_type_text (content_type safe_url) in
      match m !! file_name with
      | Some current_file_item =>
          match from_file_item current_file_item with
          | None => Panics
          | Some meta =>
              let meta := mkFileMeta (created meta) (modified meta) [] ty (readonly meta) (mode_bits meta)
                            (original_created meta) (original_modified meta) in
              let is_modified :=
                if is_file meta then
                  link ← current_file_item !! PREDICATE_LINK; Some (bool_decide (link ≠ file_link))
                else Some false in
              match is_modified with
              | None => Panics
              | Some true =>
                  if force then
                    let '(added, m, processed) :=
                      add_or_update_file_item true file_name file_name [] meta (Some file_link) true m [] in
                    Returns (processed, m, if added then 1 else 0)
                  else Returns (pf_insert [] file_name (Failed (ApiFileNameConflict file_name)), m, 0)
              | Some false => Returns (pf_insert [] file_link (Failed (ApiFileAlreadyExists file_name)), m, 0)
              end
          end
      | None =>
          let '(added, m, processed) :=
            add_or_update_file_item true file_name file_name [] (from_type_and_size gen_timestamp_secs ty [])
              (Some file_link) false m [] in
          Returns (processed, m, if added then 1 else 0)
      end
  end.

(** ** Creating a container *)

Fixpoint pf_lookup (l : ProcessedFiles) (p : ustr) : option FilesMapChange :=
  match l with
  | [] => None
  | (q, d) :: l => if decide (path_components_of p = path_components_of q) then Some d else pf_lookup l p
  end.

Fixpoint create_files (dry : bool) (bases : ustr * ustr) (follow_links : bool) (names : list ustr)
    (m : FilesMap) (content : ProcessedFiles) : result ApiError (FilesMap * ProcessedFiles) :=
  match names with
  | [] => Ok (m, content)
  | file_name :: names =>
      match pf_lookup content file_name ≫= change_link with
      | None => create_files dry bases follow_links names m content
      | Some link =>
          meta ← from_path file_name follow_links;
          let '(_, m, content) :=
            add_or_update_file_item dry file_name (container_name bases file_name) file_name meta
              (if is_nil link then None else Some link) false m content in
          create_files dry bases follow_links names m content
      end
  end.

Definition files_map_create (dry : bool) (content : ProcessedFiles) (location : ustr) (dst_path : option ustr)
    (follow_links : bool) : result ApiError (FilesMap * ProcessedFiles) :=
  create_files dry (get_base_paths location dst_path) follow_links (fst <$> content) ∅ content.

(** ** Local files

    The entries of a walk over a folder, with their depth and whether their name is valid text. *)

Definition MAX_RECURSIVE_DEPTH : nat := Z.to_nat 10000.

Record DirEntry := mkDirEntry { de_path : ustr; de_depth : nat; de_valid_name : bool }.

Definition valid_depth (e : DirEntry) (max_depth : nat) : bool := de_valid_name e && bool_decide (de_depth e ≤ max_depth).

(** One entry of the walk; a file is a folder, a link or a plain file. *)
Definition process_entry (dry recursive follow_links : bool) (idx : nat) (path : ustr) (processed : ProcessedFiles) :
    ProcessedFiles :=
  let normalised_path := normalise_path_separator path in
  match get_metadata path follow_links with
  | Err err => pf_insert processed normalised_path (Failed err)
  | Ok (metadata, _) =>
      if md_is_dir metadata && (bool_decide (idx = 0) && ends_with_slash normalised_path || negb recursive) then processed
      else
        let processed := if md_is_dir metadata then pf_insert processed normalised_path (Added []) else processed in
        let processed := if md_is_symlink metadata then pf_insert processed normalised_path (Added []) else processed in
        if md_is_file metadata then
          match upload_file_to_net dry path with
          | Ok xorurl => pf_insert processed normalised_path (Added xorurl)
          | Err err => pf_insert processed normalised_path (Failed err)
          end
        else processed
  end.

Fixpoint process_entries (dry recursive follow_links : bool) (idx : nat) (paths : list ustr) (processed : ProcessedFiles) :
    ProcessedFiles :=
  match paths with
  | [] => processed
  | p :: paths =>
      process_entries dry recursive follow_links (S idx) paths (process_entry dry recursive follow_links idx p processed)
  end.

(** The walk does not go below an entry that the depth excludes: [walk_dir] lists what is left. *)
Definition file_system_dir_walk (walk_dir : (DirEntry → bool) → list DirEntry) (dry : bool) (location : ustr)
    (recursive follow_links : bool) : result ApiError ProcessedFiles :=
  '(metadata, _) ← get_metadata location follow_links;
  if md_is_dir metadata || negb recursive then
    let max_depth := if recursive then MAX_RECURSIVE_DEPTH else 1 in
    Ok (process_entries dry recursive follow_links 0 (de_path <$> walk_dir (λ e, valid_depth e max_depth)) [])
  else Err ApiInvalidInput.

Definition file_system_single_file (dry : bool) (location : ustr) : result ApiError ProcessedFiles :=
  '(metadata, _) ← get_metadata location true;
  let normalised_path := normalise_path_separator location in
  if md_is_dir metadata then Err ApiInvalidInput
  else
    match upload_file_to_net dry location with
    | Ok xorurl => Ok (pf_insert [] normalised_path (Added xorurl))
    | Err err => Ok (pf_insert [] normalised_path (Failed err))
    end.
End files.

(** * Properties of syncing files

    What a sync keeps of a container, and what it loses. *)

Section props.
Context {X : Xor} {XB : XorBytes} {UC : UrlCrates} {LF : LocalFiles} (xorurl_base : XorUrlBase).
Context (dry : bool) (bases : ustr * ustr) (force compare_file_content follow_links : bool).

(** The item of a local file cannot be made: its upload or its metadata fail. *)
Definition item_fails (f : ustr) : Prop :=
  ∃ meta e, from_path f follow_links = Ok meta ∧ gen_new_file_item xorurl_base dry f meta None = Err e.

(** How far a sync has come: an item of the container is still to be looked at, or already in
    the new map, or its local file failed; and the new map changes no other item than those of
    the local files. *)
Record sync_inv (files : list ustr) (m : FilesMap) (s : SyncState) : Prop := {
  si_current : ss_current s ⊆ m;
  si_kept : ∀ name fi, m !! name = Some fi →
    ss_current s !! name = Some fi ∨ is_Some (ss_updated s !! name) ∨ ∃ f, f ∈ files ∧ sync_name bases f = name ∧ item_fails f;
  si_updated : ∀ name fi, ss_updated s !! name = Some fi →
    m !! name = Some fi ∨ ∃ f, f ∈ files ∧ sync_name bases f = name;
}.

Lemma keep_ancestors_inv name current updated current' updated' :
  keep_ancestors name (current, updated) = (current', updated') →
  current' ⊆ current ∧
  (∀ n fi, current !! n = Some fi → current' !! n = Some fi ∨ is_Some (updated' !! n)) ∧
  (∀ n, is_Some (updated !! n) → is_Some (updated' !! n)) ∧
  (∀ n fi, updated' !! n = Some fi → updated !! n = Some fi ∨ current !! n = Some fi).
Proof.
  unfold keep_ancestors. generalize (ancestors_of name). intros l. revert current updated.
  induction l as [|a l IH]; intros current updated; cbn [foldl].
  { intros [= <- <-]. split_and!; naive_solver. }
  case_decide; [apply IH|]. destruct (current !! a) as [fi|] eqn:Ha; [|apply IH].
  intros (Hsub & Hk & Hu & Hf)%IH. split_and!.
  - etrans; [exact Hsub|]. apply delete_subseteq.
  - intros n fi' Hn. destruct (decide (n = a)) as [->|Hne]; [right; apply Hu; rewrite lookup_insert_eq; eauto|].
    apply Hk. by rewrite lookup_delete_ne.
  - intros n Hn. apply Hu. destruct (decide (n = a)) as [->|]; [rewrite lookup_insert_eq; eauto|by rewrite lookup_insert_ne].
  - intros n fi' [Hn|Hn]%Hf.
    + destruct (decide (n = a)) as [->|]; [rewrite lookup_insert_eq in Hn; right; congruence|].
      rewrite lookup_insert_ne in Hn by done. by left.
    + right. eapply lookup_weaken; [exact Hn|apply delete_subseteq].
Qed.

(** A step that takes the item of the local file [f] out of the current map, and puts one with
    its name into the new map or fails. *)
Lemma sync_inv_step files m s f current updated processed count current' updated' :
  sync_inv files m s → f ∈ files →
  current = delete (sync_name bases f) (ss_current s) ∨ current = ss_current s ∧ ss_current s !! sync_name bases f = None →
  (∃ fi, updated = <[sync_name bases f := fi]> (ss_updated s)) ∨ updated = ss_updated s ∧ item_fails f →
  keep_ancestors (sync_name bases f) (current, updated) = (current', updated') →
  sync_inv files m (mkSync current' updated' processed count).
Proof.
  intros [Hc Hk Hu] Hf Hcur Hup (Hsub & Hk' & Hu' & Hf')%keep_ancestors_inv.
  set (name := sync_name bases f) in *.
  assert (current ⊆ ss_current s) as Hcs by (destruct Hcur as [->|[-> _]]; [apply delete_subseteq|done]).
  assert (∀ n, is_Some (ss_updated s !! n) → is_Some (updated !! n)) as Hmono.
  { destruct Hup as [[fi ->]|[-> _]]; [|done]. intros n Hn.
    destruct (decide (n = name)) as [->|]; [rewrite lookup_insert_eq; eauto|by rewrite lookup_insert_ne]. }
  constructor; cbn.
  - etrans; [exact Hsub|]. by etrans.
  - intros n fi Hn. destruct (Hk _ _ Hn) as [Hn'|[Hn'|?]]; [|by auto|by auto].
    destruct (decide (n = name)) as [->|Hne].
    + right. destruct Hup as [[fi' ->]|[-> Hfail]]; [left; apply Hu'; rewrite lookup_insert_eq; eauto|right; eauto].
    + destruct (Hk' n fi) as [?|?]; [|by auto|by auto].
      destruct Hcur as [->|[-> _]]; [by rewrite lookup_delete_ne|done].
  - intros n fi [Hn|Hn]%Hf'.
    + destruct Hup as [[fi' ->]|[-> _]]; [|by apply Hu].
      destruct (decide (n = name)) as [->|Hne]; [right; eauto|]. rewrite lookup_insert_ne in Hn by done. by apply Hu.
    + left. eapply lookup_weaken; [exact Hn|]. by etrans.
Qed.

Lemma add_or_update_cases f meta link exists_ updated processed b updated' processed' name :
  add_or_update_file_item xorurl_base dry f name f meta link exists_ updated processed = (b, updated', processed') →
  (∃ fi, gen_new_file_item xorurl_base dry f meta link = Ok fi ∧ b = true ∧ updated' = <[name := fi]> updated) ∨
  (∃ e, gen_new_file_item xorurl_base dry f meta link = Err e ∧ b = false ∧ updated' = updated).
Proof.
  unfold add_or_update_file_item. destruct (gen_new_file_item xorurl_base dry f meta link) as [fi|e]; intros [= <- <- _]; eauto.
Qed.

Lemma sync_file_inv files m s f s' :
  sync_inv files m s → f ∈ files →
  sync_file xorurl_base dry bases force compare_file_content follow_links f s = Returns (Ok s') → sync_inv files m s'.
Proof.
  intros Hi Hf. unfold sync_file. destruct (ss_current s !! sync_name bases f) as [item|] eqn:Hcur.
  - destruct (is_file_item_modified xorurl_base f item) as [modif|]; [|done]. intros [= Hs].
    rewrite result_bind_Ok in Hs. destruct Hs as ([[updated processed] count] & Hstep & Hs).
    destruct (keep_ancestors _ _) as [current' updated'] eqn:Hka. injection Hs as <-.
    eapply sync_inv_step; [done|done|by left| |exact Hka].
    destruct (force || _).
    + rewrite result_bind_Ok in Hstep. destruct Hstep as (meta & Hm & Hstep).
      destruct (add_or_update_file_item _ _ _ _ _ _ _ _ _ _) as [[b updated1] processed1] eqn:Ha.
      injection Hstep as -> _ _.
      apply add_or_update_cases in Ha as [(fi & _ & _ & ->)|(e & Hg & _ & ->)]; [left; eauto|].
      right. split; [done|]. by exists meta, e.
    + left. exists item. destruct (negb force && _); by injection Hstep as <- _ _.
  - destruct (from_path f follow_links) as [meta|] eqn:Hm; [|done].
    destruct (add_or_update_file_item _ _ _ _ _ _ _ _ _ _) as [[b updated1] processed1] eqn:Ha.
    apply add_or_update_cases in Ha as [(fi & _ & -> & ->)|(e & Hg & -> & ->)].
    + destruct (keep_ancestors _ _) as [current' updated'] eqn:Hka. intros [= <-].
      eapply sync_inv_step; [done|done|by right|left; eauto|exact Hka].
    + intros [= <-]. destruct Hi. by constructor.
Qed.

Lemma sync_files_inv files todo m s s' :
  sync_inv files m s → (∀ f, f ∈ todo → f ∈ files) →
  sync_files xorurl_base dry bases force compare_file_content follow_links todo s = Returns (Ok s') → sync_inv files m s'.
Proof.
  revert s. induction todo as [|f todo IH]; intros s Hi Hin; cbn [sync_files]; [by intros [= <-]|].
  destruct (sync_file _ _ _ _ _ _ f s) as [[s1|e]| |] eqn:Hf; cbn; [|done..].
  apply IH; [|set_solver]. eapply sync_file_inv; [done| |exact Hf]. apply Hin. left.
Qed.
End props.

Lemma foldr_insert_lookup (l : list (ustr * FileInfo)) (pr : ProcessedFiles) (u : FilesMap) (n : nat) name :
  NoDup l.*1 →
  (foldr (λ p acc, let '(processed, updated, count) := acc in (processed, <[p.1 := p.2]> updated, count)) (pr, u, n) l).1.2 !! name =
  match (list_to_map l : FilesMap) !! name with Some fi => Some fi | None => u !! name end.
Proof.
  intros Hnd. induction l as [|[k fi] l IH]; simpl; [by rewrite lookup_empty|].
  apply NoDup_cons in Hnd as [_ Hnd]. specialize (IH Hnd).
  destruct (foldr _ _ _) as [[a b] c]. simpl in *. destruct (decide (k = name)) as [->|].
  - by rewrite !lookup_insert_eq.
  - by rewrite !lookup_insert_ne.
Qed.

Lemma sync_rest_keep s name :
  (sync_rest false s).1.2 !! name =
  match ss_current s !! name with Some fi => Some fi | None => ss_updated s !! name end.
Proof.
  unfold sync_rest. etrans; [apply foldr_insert_lookup, NoDup_fst_map_to_list|]. by rewrite list_to_map_to_list.
Qed.

Section theorem.
Context {X : Xor} {XB : XorBytes} {UC : UrlCrates} {LF : LocalFiles} (xorurl_base : XorUrlBase).

(** C32: A sync without deletion changes only the items that local files stand for: every other
    item of the container is in the new map as it was, and no other item appears.  An item with
    a local file is lost only if the new item could not be made. *)
Theorem sync_keeps_container dry m location content dst force compare_content follow_links processed m' count :
  files_map_sync xorurl_base dry m location content dst false force compare_content follow_links =
    Returns (Ok (processed, m', count)) →
  let synced f := f ∈ fst <$> filter (λ p, is_success p.2 = true) content in
  let name_of := sync_name (get_base_paths location dst) in
  (∀ name, (∀ f, synced f → name_of f ≠ name) → m' !! name = m !! name) ∧
  (∀ name, is_Some (m !! name) → m' !! name = None →
     ∃ f, synced f ∧ name_of f = name ∧ item_fails xorurl_base dry follow_links f).
Proof.
  unfold files_map_sync. set (files := fst <$> _). intros Hs.
  destruct (sync_files _ _ _ _ _ _ files _) as [[s|e]| |] eqn:Hf; cbn in Hs; [|done..].
  injection Hs as Hs.
  assert (sync_inv xorurl_base dry (get_base_paths location dst) follow_links files m s) as [Hc Hk Hu].
  { eapply sync_files_inv; [|done|exact Hf]. constructor; [done|by auto|]. intros n fi. cbn [ss_updated]. by rewrite lookup_empty. }
  assert (∀ name, m' !! name = match ss_current s !! name with Some fi => Some fi | None => ss_updated s !! name end) as Hm'.
  { intros name. rewrite <-sync_rest_keep. by rewrite Hs. }
  split.
  - intros name Hn. rewrite Hm'. destruct (ss_current s !! name) as [fi|] eqn:E.
    { symmetry. by eapply lookup_weaken. }
    destruct (ss_updated s !! name) as [fi|] eqn:E2.
    + destruct (Hu _ _ E2) as [->|(f & Hf1 & Hf2)]; [done|]. by destruct (Hn f).
    + destruct (m !! name) as [fi|] eqn:E3; [|done].
      destruct (Hk _ _ E3) as [?|[[? ?]|(f & Hf1 & Hf2 & _)]]; [congruence|congruence|]. by destruct (Hn f).
  - intros name [fi Hfi] Hnone. rewrite Hm' in Hnone. destruct (Hk _ _ Hfi) as [He|[[? ?]|?]].
    + by rewrite He in Hnone.
    + destruct (ss_current s !! name); congruence.
    + done.
Qed.
End theorem.

Section link.
Context {X : Xor} {XB : XorBytes} {UC : UrlCrates} {LF : LocalFiles} (xorurl_base : XorUrlBase).

(** Adding a link to a file at the path of a folder or a link panics: the check whether the link
    changed reads the link of the old item, which only files have. *)
Lemma add_link_at_folder_panics m file_link name force u item meta :
  from_url file_link = Ok u → filetype_is_file (content_type_text (content_type u)) = true →
  m !! name = Some item → from_file_item item = Some meta → item !! PREDICATE_LINK = None →
  files_map_add_link xorurl_base m file_link name force = Panics.
Proof.
  intros Hu Hf Hi Hm Hl. unfold files_map_add_link. rewrite Hu, Hi, Hm.
  unfold is_file. cbn [file_type]. by rewrite Hf, Hl.
Qed.
End link.
