(* ===== verification/FilesDemo.v ===== *)
(** * Concrete containers

    A local file system, containers with folders, files and links, and what resolving paths
    and syncing give there. *)

From Stdlib Require Import String.
From S2P Require Import Prelude External Xor Keys Text SafeUrl SafeUrlDemo FilesMap FilesMapProps FilesSync.

Definition demo_item (ty : ustr) (attrs : list (ustr * ustr)) : FileInfo :=
  list_to_map (attrs ++ [(PREDICATE_CREATED, lit "1"); (PREDICATE_MODIFIED, lit "1"); (PREDICATE_SIZE, lit "0"); (PREDICATE_TYPE, ty)]).

Definition demo_container : FilesMap := list_to_map [
  (lit "/dir", demo_item MIMETYPE_FILESYSTEM_DIR []);
  (lit "/dir/file", demo_item (lit "text/plain") [(PREDICATE_LINK, lit "safe://old")]);
  (lit "/link", demo_item MIMETYPE_FILESYSTEM_SYMLINK [(lit "symlink_target", lit "./dir")]);
  (lit "/loop", demo_item MIMETYPE_FILESYSTEM_SYMLINK [(lit "symlink_target", lit "/loop")])].

(** ** Real paths *)

Lemma demo_items_ok : items_ok demo_container.
Proof.
  intros k i Hi. apply elem_of_list_to_map_2 in Hi.
  repeat (apply elem_of_cons in Hi as [[= -> ->]|Hi]; [eexists; split; [vm_compute; reflexivity|]|]);
    [done|done|..|by apply not_elem_of_nil in Hi].
  - intros _ t Ht _. vm_compute in Ht. injection Ht as <-. split; [done|]. exists (lit "dir"). split; [done|].
    by apply (bool_decide_unpack _).
  - intros _ t Ht _. vm_compute in Ht. injection Ht as <-. split; [done|]. exists (lit "loop"). split; [done|].
    by apply (bool_decide_unpack _).
Qed.

(** A path through a link; and a link to itself is an error. *)
Example realpath_link : realpath 17 demo_container (lit "/link/./file") = Returns (Ok (lit "/dir/file")).
Proof. vm_compute. reflexivity. Qed.
Example realpath_loop_error : realpath 17 demo_container (lit "/loop") = Returns (Err ApiContentNotFound).
Proof. vm_compute. reflexivity. Qed.

Lemma realpath_resolves_witness :
  (∃ e, realpath 17 demo_container (lit "/link/./file") = Returns (Err e)) ∨
  (∃ ws, realpath 17 demo_container (lit "/link/./file") = Returns (Ok (join [SLASH] ws)) ∧ resolved demo_container ws).
Proof.
  apply (realpath_resolves demo_container (lit "/link/./file") 17).
  - exact demo_items_ok.
  - exists (lit "file"). split; [reflexivity|]. by apply (bool_decide_unpack _).
  - reflexivity.
  - lia.
Defined.

Definition demo_folders : FilesMap := {[lit "/dir" := demo_item MIMETYPE_FILESYSTEM_DIR []]}.

Lemma realpath_dots_hang_witness :
  realpath 1000 demo_folders (lit "/dir/.") = Unfinished ∧ realpath 1000 demo_folders (lit "/dir/..") = Unfinished.
Proof.
  assert (dirs_only demo_folders) as Hd.
  { intros k i. unfold demo_folders. intros [<- <-]%lookup_singleton_Some. eexists. split; vm_compute; reflexivity. }
  assert (Forall (λ w, ¬ is_dots w ∧ SLASH ∉ w) [lit "dir"]) as Hc by by apply (bool_decide_unpack _).
  split.
  - apply (realpath_dots_hang demo_folders [lit "dir"] (lit ".") 1000 Hd Hc). by left.
  - apply (realpath_dots_hang demo_folders [lit "dir"] (lit "..") 1000 Hd Hc). right. split; [reflexivity|discriminate].
Defined.

(** A link whose target starts with a character of two bytes. *)
Example realpath_unicode_panics :
  realpath 17 {[lit "/l" := demo_item MIMETYPE_FILESYSTEM_SYMLINK [(lit "symlink_target", [0xFC; 0x62]%N)]]} (lit "/l") = Panics.
Proof. vm_compute. reflexivity. Qed.

(** ** Syncing

    All local files are plain files that hold their own name; the network refuses that of
    [/local/bad]. *)

#[export] Instance demo_files : LocalFiles := {|
  fs_metadata _ _ := Some (mkMetadata false false true None None false (lit "3") (lit "420"));
  fs_read_link _ := None;
  mime_guess _ := Some (lit "text/plain");
  gen_timestamp_secs := lit "2";
  fs_read p := Some (as_bytes p);
  calculate_address bs := Ok (xn_from_content bs);
  upload_and_verify bs := if decide (bs = as_bytes (lit "/local/bad")) then Err ApiClientError else Ok (xn_from_content bs);
  normalize p := join [SLASH] (filter (λ w, w ≠ []) (split SLASH p));
|}.

Definition sync_container : FilesMap := list_to_map [
  (lit "/bad", demo_item (lit "text/plain") [(PREDICATE_LINK, lit "safe://old")]);
  (lit "/other", demo_item (lit "text/plain") [(PREDICATE_LINK, lit "safe://other")])].
Definition local_content : ProcessedFiles := [(lit "/local/bad", Added []); (lit "/local/new", Added [])].

(** The names in the new map, and the report. *)
Definition result_names (r : outcome (result ApiError (ProcessedFiles * FilesMap * nat))) : list bool * list bool :=
  match r with
  | Returns (Ok (processed, m, _)) =>
      ((λ n, bool_decide (m !! n ≠ None)) <$> [lit "/bad"; lit "/other"; lit "/new"], (λ p, is_success p.2) <$> processed)
  | _ => ([], [])
  end.

(** A sync without deletion loses a file of the container when the new version of the file
    cannot be uploaded: the report says that the update failed, the other files are in the new
    map, and the file is not. *)
Theorem sync_drops_failed_update :
  result_names (files_map_sync DEFAULT_XORURL_BASE false sync_container (lit "/local/") local_content None false false true true) =
    ([false; true; true], [false; true]).
Proof. vm_compute. reflexivity. Qed.

Lemma sync_keeps_container_witness :
  ∃ processed m' count,
    files_map_sync DEFAULT_XORURL_BASE false sync_container (lit "/local/") local_content None false false true true = Returns (Ok (processed, m', count)) ∧
    m' !! lit "/other" = sync_container !! lit "/other".
Proof.
  destruct (files_map_sync DEFAULT_XORURL_BASE false sync_container (lit "/local/") local_content None false false true true)
    as [[[[processed m'] count]|e]| |] eqn:Hs; [|exfalso..].
  - exists processed, m', count. split; [reflexivity|].
    apply (proj1 (sync_keeps_container DEFAULT_XORURL_BASE false sync_container (lit "/local/") local_content None false true true processed m' count Hs)).
    intros f Hf. apply (bool_decide_unpack _). revert f Hf. apply Forall_forall. vm_compute. repeat constructor.
  - apply (f_equal result_names) in Hs. by vm_compute in Hs.
  - apply (f_equal result_names) in Hs. by vm_compute in Hs.
  - apply (f_equal result_names) in Hs. by vm_compute in Hs.
Defined.

(** ** Removal

    A path with a slash at its end removes nothing. *)
Example remove_trailing_slash :
  (λ r : ProcessedFiles * FilesMap * nat, (size r.1.2, r.2)) <$> files_map_remove_path (lit "/dir/") demo_container true = Ok (4, 0) ∧
  (λ r : ProcessedFiles * FilesMap * nat, (size r.1.2, r.2)) <$> files_map_remove_path (lit "/dir") demo_container true = Ok (3, 1).
Proof. vm_compute. auto. Qed.
