(* ===== verification/Api.v ===== *)
(** * Registers and multimaps of the library

    [sn_client/src/api/register_apis.rs] and, of [sn_api/src/app], [mod.rs], [register.rs]
    and [multimap.rs].  What the client sends goes to the network, whose state is passed
    along; sending commands and queries, reading files and random values are operations of
    a class.  A call of the library is a computation over the state of the network that
    may fail.  The texts of errors are left out. *)

From Stdlib Require Import String.
From S2P Require Import Prelude External Xor NodeState SectionsDag Sap Keys Register UsedSpace Storage.
From S2P Require Import Text SafeUrl FilesMap.

Section api.
Context {B : Bls} {BSh : BlsShares} {BPS : BlsPublicShares} {E : Ed25519} {X : Xor}.
Context {M : Merkle bytes}.

(** [sn_client::Error], as far as its callers tell it apart. *)
Inductive ClientError :=
  | ClErrorMsg (source : ErrorMsg)
  | ClNetworkDataError (e : RegError)
  | ClUnexpectedQueryResponse
  | ClSerialisation
  | ClOther.

(** Where the library runs: the network as the client reaches it, and random values. *)
Class ApiEnv := {
  Net : Type;
  SpentShare : Type;
  send_cmd : RegisterCmd → Net → Net * result ClientError unit;
  send_query : RegisterQuery → Net → result ClientError (NodeQueryResponse SpentShare);
  (** [read_bytes] and [read_from] with its start and length. *)
  read_bytes : XorName → Net → result ClientError bytes;
  read_from : XorName → Z → Z → Net → result ClientError bytes;
  random_name : XorName;
  random_hash : Hash bytes;
  (** The signature over ["hello"] by a random key. *)
  section_sig : SectionSig;
}.

(** [EntryHash] is the 32 bytes of a hash. *)
Class HashBytes := {
  hash_bytes : Hash bytes → bytes;
  hash_of_bytes : bytes → Hash bytes;
  hash_ord :: Ord (Hash bytes);
}.
Class HashBytesLaws `{!HashBytes} : Prop := hash_of_hash_bytes h : hash_of_bytes (hash_bytes h) = h.

Context {AE : ApiEnv} {HB : HashBytes}.

(** ** Computations of the library *)

Definition api (A : Type) : Type := Net → Net * outcome (result ApiError A).
Definition run {A} (m : api A) (net : Net) : Net * outcome (result ApiError A) := m net.

#[export] Instance api_ret : MRet api := λ A a net, (net, Returns (Ok a)).
#[export] Instance api_bind : MBind api := λ A B f m net,
  match m net with
  | (net, Returns (Ok a)) => f a net
  | (net, Returns (Err e)) => (net, Returns (Err e))
  | (net, Panics) => (net, Panics)
  | (net, Unfinished) => (net, Unfinished)
  end.

Definition lift {A} (r : result ApiError A) : api A := λ net, (net, Returns r).
Definition lift_outcome {A} (o : outcome (result ApiError A)) : api A := λ net, (net, o).
Definition throw {A} (e : ApiError) : api A := lift (Err e).
(** A read of the network. *)
Definition ask {A} (f : Net → result ApiError A) : api A := λ net, (net, Returns (f net)).
(** The outcome of a computation as a value, for a [match] on it. *)
Definition attempt {A} (m : api A) : api (result ApiError A) := λ net,
  match m net with
  | (net, Returns r) => (net, Returns (Ok r))
  | (net, Panics) => (net, Panics)
  | (net, Unfinished) => (net, Unfinished)
  end.

(** ** The client *)

Record Client := mkClient { cl_public_key : ClientKey; cl_sign : bytes → ClientSignature }.

Context {BC : Bincode CreateRegister} {BE : Bincode EditRegister}.

Fixpoint publish_register_ops (wal : list RegisterCmd) (net : Net) : Net * result ClientError unit :=
  match wal with
  | [] => (net, Ok ())
  | cmd :: wal =>
      match send_cmd cmd net with
      | (net, Err e) => (net, Err e)
      | (net, Ok _) => publish_register_ops wal net
      end
  end.

Definition create_register (c : Client) (name : XorName) (tag : Z) (p : Policy)
    : result ClientError (RegisterAddress * list RegisterCmd) :=
  let address := mkRegisterAddress name tag in
  let op := mkCreate name tag p in
  bs ← ok_or (bincode_serialize op) ClSerialisation;
  let signature := cl_sign c bs in
  Ok (address, [CmdCreate op (mkClientAuth (cl_public_key c) signature) section_sig]).

Definition get_register (a : RegisterAddress) (net : Net) : result ClientError Register :=
  response ← send_query (QGet a) net;
  match response with
  | RespGetRegister _ res => map_err ClErrorMsg res
  | _ => Err ClUnexpectedQueryResponse
  end.
Definition read_register (a : RegisterAddress) (net : Net) : result ClientError (gset (Hash bytes * bytes)) :=
  response ← send_query (QRead a) net;
  match response with
  | RespReadRegister _ res => map_err ClErrorMsg res
  | _ => Err ClUnexpectedQueryResponse
  end.
Definition get_register_entry (a : RegisterAddress) (h : Hash bytes) (net : Net) : result ClientError bytes :=
  response ← send_query (QGetEntry a h) net;
  match response with
  | RespGetRegisterEntry _ res => map_err ClErrorMsg res
  | _ => Err ClUnexpectedQueryResponse
  end.
Definition get_register_owner (a : RegisterAddress) (net : Net) : result ClientError User :=
  response ← send_query (QGetOwner a) net;
  match response with
  | RespGetRegisterOwner _ res => map_err ClErrorMsg res
  | _ => Err ClUnexpectedQueryResponse
  end.
Definition get_register_permissions_for_user (a : RegisterAddress) (u : User) (net : Net)
    : result ClientError Permissions :=
  response ← send_query (QGetUserPermissions a u) net;
  match response with
  | RespGetRegisterUserPermissions _ res => map_err ClErrorMsg res
  | _ => Err ClUnexpectedQueryResponse
  end.
Definition get_register_policy (a : RegisterAddress) (net : Net) : result ClientError Policy :=
  response ← send_query (QGetPolicy a) net;
  match response with
  | RespGetRegisterPolicy _ res => map_err ClErrorMsg res
  | _ => Err ClUnexpectedQueryResponse
  end.

Definition write_to_local_register (c : Client) (a : RegisterAddress) (entry : bytes) (children : gset (Hash bytes))
    (net : Net) : result ClientError (Hash bytes * list RegisterCmd) :=
  register ← get_register a net;
  let public_key := cl_public_key c in
  _ ← map_err ClNetworkDataError (check_permissions register Write (Some (Key public_key)));
  '(hash, op) ← map_err ClNetworkDataError (write register entry children).2;
  let op := mkEdit a op in
  bs ← ok_or (bincode_serialize op) ClSerialisation;
  let signature := cl_sign c bs in
  Ok (hash, [CmdEdit op (mkClientAuth public_key signature)]).

(** ** The library *)

Record Safe := mkSafe { safe_client : option Client; xorurl_base : XorUrlBase; dry_run_mode : bool }.

Definition dry_runner (base : option XorUrlBase) : Safe := mkSafe None (default DEFAULT_XORURL_BASE base) true.
Definition is_connected (s : Safe) : bool := match safe_client s with Some _ => true | None => false end.
Definition get_safe_client (s : Safe) : result ApiError Client := ok_or (safe_client s) ApiConnectionError.

(** [client.publish_register_ops(batch).await?]. *)
Definition publish (wal : list RegisterCmd) : api unit := λ net,
  let '(net, r) := publish_register_ops wal net in (net, Returns (map_err (λ _, ApiClientError) r)).

Context {XB : XorBytes} {UC : UrlCrates}.

Definition lift_url {A} (r : result UrlError A) : api A := lift (map_err ApiUrlError r).

(** [to_string]; [url_to_string] never fails. *)
Definition display (u : SafeUrl) : ustr := default [] (url_to_string u).

(** ** Registers *)

(** The policy of a new register: its owner may write. *)
Definition owner_policy (o : User) : Policy := mkPolicy o {[o := mkPermissions (Some true)]}.

Definition register_create (s : Safe) (name : option XorName) (tag : Z) (ct : ContentType) : api ustr :=
  let xorname := default random_name name in
  url ← lift_url (from_register xorname tag ct);
  let xorurl := url_encode url (xorurl_base s) in
  if dry_run_mode s then mret xorurl else
  client ← lift (get_safe_client s);
  let owner := Key (cl_public_key client) in
  '(_, op_batch) ← lift (map_err (λ _, ApiNetDataError) (create_register client xorname tag (owner_policy owner)));
  _ ← publish op_batch;
  mret xorurl.

Definition get_register_address (u : SafeUrl) : result ApiError RegisterAddress :=
  match SafeUrl.address u with RegisterAddr a => Ok a | _ => Err ApiContentError end.

Definition entry_error (h : Hash bytes) (e : ClientError) : ApiError :=
  match e with ClErrorMsg (MsgNoSuchEntry _) => ApiHashNotFound (hash_bytes h) | _ => ApiNetDataError end.
Definition register_fetch_entry (s : Safe) (u : SafeUrl) (h : Hash bytes) : api bytes :=
  a ← lift (get_register_address u);
  _ ← lift (get_safe_client s);
  ask (λ net, map_err (entry_error h) (get_register_entry a h net)).

(** The hash that a version stands for, and the version of an entry. *)
Definition version_entry (v : VersionHash) : Hash bytes := hash_of_bytes (entry_hash v).
Definition version_of (h : Hash bytes) : VersionHash := mkVersionHash (hash_bytes h).

Definition read_error (e : ClientError) : ApiError :=
  match e with
  | ClNetworkDataError (NoSuchEntry _) => ApiEmptyContent
  | ClErrorMsg (MsgAccessDenied _) => ApiAccessDenied
  | _ => ApiNetDataError
  end.
Definition register_fetch_entries (s : Safe) (u : SafeUrl) : api (gset (Hash bytes * bytes)) :=
  match content_version u with
  | Some v =>
      let hash := version_entry v in
      entry ← register_fetch_entry s u hash;
      mret {[(hash, entry)]}
  | None =>
      a ← lift (get_register_address u);
      _ ← lift (get_safe_client s);
      ask (λ net, map_err read_error (read_register a net))
  end.

(** [register_write] after its URL is resolved. *)
Definition write_error (e : ClientError) : ApiError :=
  match e with
  | ClNetworkDataError (AccessDenied _) | ClErrorMsg (MsgAccessDenied _) => ApiAccessDenied
  | _ => ApiNetDataError
  end.
Definition register_write_at (s : Safe) (reg_url : SafeUrl) (entry : bytes) (parents : gset (Hash bytes))
    : api (Hash bytes) :=
  a ← lift (get_register_address reg_url);
  if dry_run_mode s then mret random_hash else
  client ← lift (get_safe_client s);
  '(hash, op_batch) ← ask (λ net, map_err write_error (write_to_local_register client a entry parents net));
  _ ← publish op_batch;
  mret hash.

(** ** Multimaps *)

Definition MultimapKeyValue : Type := bytes * bytes.
Definition MultimapEntries : Type := gset (Hash bytes * (bytes * bytes)).
Definition MULTIMAP_REMOVED_MARK : bytes := [].

Context {RK : Rmp (bytes * bytes)}.

Definition decode_multimap_entry (entry : bytes) : result ApiError (bytes * bytes) :=
  ok_or (rmp_decode entry) ApiContentError.

Definition multimap_create (s : Safe) (name : option XorName) (tag : Z) : api ustr :=
  register_create s name tag Multimap.

(** The loop over the entries, in their order. *)
Fixpoint parse_multimap (entries : list (Hash bytes * bytes)) (m : MultimapEntries) : result ApiError MultimapEntries :=
  match entries with
  | [] => Ok m
  | (hash, entry) :: entries =>
      if decide (entry = MULTIMAP_REMOVED_MARK) then parse_multimap entries m else
      key_val ← decode_multimap_entry entry;
      parse_multimap entries ({[(hash, key_val)]} ∪ m)
  end.

(** The mapping of errors keeps their kinds. *)
Definition fetch_multimap (s : Safe) (u : SafeUrl) : api MultimapEntries :=
  entries ← register_fetch_entries s u;
  lift (parse_multimap (bset_iter entries) ∅).

Definition fetch_multimap_values_by_key (s : Safe) (u : SafeUrl) (key : bytes) : api MultimapEntries :=
  entries ← fetch_multimap s u;
  mret (filter (λ e, e.2.1 = key) entries).

Definition fetch_multimap_value_by_hash (s : Safe) (u : SafeUrl) (h : Hash bytes) : api (bytes * bytes) :=
  entry ← register_fetch_entry s u h;
  if decide (entry = MULTIMAP_REMOVED_MARK) then throw ApiEmptyContent
  else lift (decode_multimap_entry entry).

(** The end of [multimap_insert] and [multimap_remove]: an entry over those it replaces. *)
Definition multimap_write (s : Safe) (url : ustr) (data : bytes) (replace : gset (Hash bytes)) : api (Hash bytes) :=
  u ← lift_url (from_url url);
  a ← lift (match SafeUrl.address u with RegisterAddr a => Ok a | _ => Err ApiInvalidXorUrl end);
  if dry_run_mode s then mret random_hash else
  client ← lift (get_safe_client s);
  '(hash, op_batch) ← ask (λ net, map_err (λ _, ApiClientError) (write_to_local_register client a data replace net));
  _ ← publish op_batch;
  mret hash.

Definition multimap_insert (s : Safe) (url : ustr) (entry : bytes * bytes) (replace : gset (Hash bytes))
    : api (Hash bytes) :=
  data ← lift (ok_or (rmp_encode entry) ApiSerialisation);
  multimap_write s url data replace.

Definition multimap_remove (s : Safe) (url : ustr) (to_remove : gset (Hash bytes)) : api (Hash bytes) :=
  multimap_write s url MULTIMAP_REMOVED_MARK to_remove.
End api.
