(* ===== verification/ApiProps.v ===== *)
(** * Properties of multimaps

    The interface of a network that keeps registers, and what inserting into, removing from
    and reading a multimap do on it. *)

From Stdlib Require Import String.
From S2P Require Import Prelude External Xor NodeState SectionsDag Sap Keys Register RegisterProps UsedSpace.
From S2P Require Import Storage StorageProps Text SafeUrl FilesMap Api.

(** ** The network

    A network keeps at most one register at an address.  It answers queries from it, and a
    command that it acknowledges was applied to it. *)

Section network.
Context {B : Bls} {BSh : BlsShares} {BPS : BlsPublicShares} {E : Ed25519} {X : Xor} {M : Merkle bytes}.

(** Two registers with the same entries. *)
Record same_register (r r' : Register) : Prop := {
  same_known : reg_known r = reg_known r';
  same_policy : policy r = policy r';
  same_address : Register.address r = Register.address r';
}.

Context {AE : ApiEnv} {BC : Bincode CreateRegister} {BE : Bincode EditRegister}.

Class NetView := net_register : Net → RegisterAddress → option Register.

Definition or_not_found {A} (a : RegisterAddress) (o : option A) : result ErrorMsg A :=
  ok_or o (MsgDataNotFound (RegisterAddr a)).

Class NetLaws {V : NetView} : Prop := {
  net_get net a : send_query (QGet a) net = Ok (RespGetRegister _ (or_not_found a (net_register net a)));
  net_read net a :
    send_query (QRead a) net = Ok (RespReadRegister _ (reg_read <$> or_not_found a (net_register net a)));
  net_get_entry net a h :
    send_query (QGetEntry a h) net = Ok (RespGetRegisterEntry _
      (r ← or_not_found a (net_register net a); map_err reg_error_msg (reg_get r h)));
  net_at_address net a r : net_register net a = Some r → Register.address r = a;
  (** An acknowledged edit was applied at its address, and nowhere else. *)
  net_edit net op auth net' r :
    send_cmd (CmdEdit op auth) net = (net', Ok ()) → net_register net (ed_address op) = Some r →
    (∃ r1 r2, apply_cmd (CmdEdit op auth) r = (r1, Ok ()) ∧
              net_register net' (ed_address op) = Some r2 ∧ same_register r1 r2) ∧
    ∀ a, a ≠ ed_address op → net_register net' a = net_register net a;
  (** An acknowledged creation leaves a register that was there. *)
  net_create net op auth sig net' :
    send_cmd (CmdCreate op auth sig) net = (net', Ok ()) →
    let a := mkRegisterAddress (cr_name op) (cr_tag op) in
    net_register net' a =
      Some (default (Register.new (owner (cr_policy op)) (cr_name op) (cr_tag op) (cr_policy op)) (net_register net a)) ∧
    ∀ a', a' ≠ a → net_register net' a' = net_register net a';
}.
End network.

(** ** Computations *)

Section run.
Context {B : Bls} {BSh : BlsShares} {BPS : BlsPublicShares} {E : Ed25519} {X : Xor} {M : Merkle bytes} {AE : ApiEnv}.

Lemma api_bind_Ok {A C} (f : A → api C) (m : api A) net net' c :
  (m ≫= f) net = (net', Returns (Ok c)) ↔
  ∃ net1 a, m net = (net1, Returns (Ok a)) ∧ f a net1 = (net', Returns (Ok c)).
Proof.
  unfold mbind, api_bind. destruct (m net) as [net1 [[a|e]| |]]; split; try done; try (intros; naive_solver).
Qed.
Lemma api_bind_eq {A C} (f : A → api C) (m : api A) net net1 a :
  m net = (net1, Returns (Ok a)) → (m ≫= f) net = f a net1.
Proof. unfold mbind, api_bind. by intros ->. Qed.
Lemma lift_Ok {A} (r : result ApiError A) net net' a : lift r net = (net', Returns (Ok a)) ↔ r = Ok a ∧ net' = net.
Proof. unfold lift. split; [by intros [= <- ->]|by intros [-> ->]]. Qed.
Lemma ask_Ok {A} (f : Net → result ApiError A) net net' a :
  ask f net = (net', Returns (Ok a)) ↔ f net = Ok a ∧ net' = net.
Proof. unfold ask. split; [by intros [= <- ->]|by intros [-> ->]]. Qed.
Lemma ret_Ok {A} (a : A) (net net' : Net) b : (mret a : api A) net = (net', Returns (Ok b)) ↔ a = b ∧ net' = net.
Proof. unfold mret, api_ret. split; [by intros [= <- ->]|by intros [-> ->]]. Qed.
End run.

(** Takes an equation of a computation that returns a value apart. *)
Ltac api_inv H :=
  repeat match type of H with
  | (_ ≫= _) _ = (_, Returns (Ok _)) =>
      let net := fresh "net" in let a := fresh "a" in let Ha := fresh "Ha" in
      apply api_bind_Ok in H as (net & a & Ha & H); api_inv Ha
  | _ ≫= _ = Ok _ =>
      let a := fresh "a" in let Ha := fresh "Ha" in apply result_bind_Ok in H as (a & Ha & H); api_inv Ha
  | lift_url _ _ = _ => unfold lift_url in H
  | lift _ _ = (_, Returns (Ok _)) => apply lift_Ok in H as [H ?]; simplify_eq
  | ask _ _ = (_, Returns (Ok _)) => apply ask_Ok in H as [H ?]; simplify_eq
  | mret _ _ = (_, Returns (Ok _)) => apply ret_Ok in H as [H ?]; simplify_eq
  | map_err _ _ = Ok _ => apply map_err_Ok in H
  | ok_or _ _ = Ok _ => apply ok_or_Ok in H
  end.

(** [rmp_serde] of the pairs: they are read back, and never empty, since they start with the
    length of their array. *)
Class PairLaws `{!Rmp (bytes * bytes)} : Prop := {
  pair_rmp :: RmpLaws (bytes * bytes);
  rmp_not_empty (kv : bytes * bytes) : rmp_encode kv ≠ Some [];
}.

Section multimap.
Context {B : Bls} {BSh : BlsShares} {BPS : BlsPublicShares} {E : Ed25519} {X : Xor}.
Context {M : Merkle bytes} {ML : MerkleLaws bytes} {AE : ApiEnv} {HB : HashBytes}.
Context {BC : Bincode CreateRegister} {BE : Bincode EditRegister} {V : NetView} {NL : NetLaws}.
Context {XB : XorBytes} {UC : UrlCrates} {RK : Rmp (bytes * bytes)} {RL : PairLaws}.

(** ** Reading *)

Lemma get_register_eq a net :
  Api.get_register a net = map_err ClErrorMsg (or_not_found a (net_register net a)).
Proof. unfold Api.get_register. rewrite net_get. by destruct (net_register net a). Qed.

Lemma fetch_entries_eq s c u a net :
  safe_client s = Some c → SafeUrl.address u = RegisterAddr a → content_version u = None →
  register_fetch_entries s u net =
    (net, Returns (map_err read_error (map_err ClErrorMsg (reg_read <$> or_not_found a (net_register net a))))).
Proof.
  intros Hc Ha Hv. unfold register_fetch_entries. rewrite Hv. unfold get_register_address. rewrite Ha.
  unfold get_safe_client. rewrite Hc. unfold mbind, api_bind. cbn. unfold ask, read_register. rewrite net_read.
  by destruct (net_register net a).
Qed.

(** The pairs of the readable entries that are no tombstones. *)
Lemma parse_multimap_Ok l m0 m :
  parse_multimap l m0 = Ok m ↔
  (∀ h e, (h, e) ∈ l → e = MULTIMAP_REMOVED_MARK ∨ is_Some (rmp_decode e)) ∧
  m = m0 ∪ list_to_set (omap (λ p : Hash bytes * bytes,
        if decide (p.2 = MULTIMAP_REMOVED_MARK) then None else pair p.1 <$> rmp_decode p.2) l).
Proof.
  revert m0. induction l as [|[h e] l IH]; intros m0; cbn [parse_multimap omap list_omap].
  { rewrite list_to_set_nil, union_empty_r_L. split; [intros [= ->]; split; [|done]|by intros [_ ->]]. by intros ? ? ?%elem_of_nil. }
  cbn [fst snd]. destruct (decide (e = MULTIMAP_REMOVED_MARK)) as [->|Hne].
  { rewrite IH. split; (intros [Hl ->]; split; [|done]).
    - intros h' e' [[= -> ->]|?]%elem_of_cons; eauto.
    - intros h' e' ?. apply (Hl h'). by right. }
  unfold decode_multimap_entry. destruct (rmp_decode e) as [kv|] eqn:Hd; cbn.
  - rewrite IH. split; (intros [Hl ->]; split; [|set_solver]).
    + intros h' e' [[= -> ->]|?]%elem_of_cons; eauto.
    + intros h' e' ?. apply (Hl h'). by right.
  - split; [done|]. intros [Hl _]. destruct (Hl h e) as [?|[? ?]]; [left|done|congruence].
Qed.

(** What the entries of a multimap are, for the entries of its register. *)
Definition multimap_of (entries : gset (Hash bytes * bytes)) (m : MultimapEntries) : Prop :=
  parse_multimap (bset_iter entries) ∅ = Ok m.

Lemma multimap_of_spec entries m :
  multimap_of entries m ↔
  (∀ h e, (h, e) ∈ entries → e = MULTIMAP_REMOVED_MARK ∨ is_Some (rmp_decode e)) ∧
  ∀ h kv, (h, kv) ∈ m ↔ ∃ e, (h, e) ∈ entries ∧ e ≠ MULTIMAP_REMOVED_MARK ∧ rmp_decode e = Some kv.
Proof.
  unfold multimap_of. rewrite parse_multimap_Ok, (left_id_L ∅ (∪)). setoid_rewrite elem_of_bset_iter.
  apply and_iff_compat_l. split.
  - intros -> h kv. rewrite elem_of_list_to_set, list_elem_of_omap. split.
    + intros ([h' e] & Hin%elem_of_bset_iter & He). cbn in He. case_decide; [done|].
      apply fmap_Some in He as (? & ? & [= -> ->]). eauto.
    + intros (e & Hin%elem_of_bset_iter & Hne & Hd). exists (h, e). split; [done|]. cbn.
      by rewrite decide_False, Hd by done.
  - intros Hm. apply set_eq. intros [h kv]. rewrite Hm, elem_of_list_to_set, list_elem_of_omap. split.
    + intros (e & Hin%elem_of_bset_iter & Hne & Hd). exists (h, e). split; [done|]. cbn.
      by rewrite decide_False, Hd by done.
    + intros ([h' e] & Hin%elem_of_bset_iter & He). cbn in He. case_decide; [done|].
      apply fmap_Some in He as (? & ? & [= -> ->]). eauto.
Qed.

Lemma fetch_multimap_Ok s c u a net r m :
  safe_client s = Some c → SafeUrl.address u = RegisterAddr a → content_version u = None →
  net_register net a = Some r →
  fetch_multimap s u net = (net, Returns (Ok m)) ↔ multimap_of (reg_read r) m.
Proof.
  intros Hc Ha Hv Hr. unfold fetch_multimap.
  rewrite (api_bind_eq _ _ net net (reg_read r)); [unfold lift, multimap_of; split; [by intros [= ?]|by intros ->]|].
  rewrite (fetch_entries_eq s c u a) by done. by rewrite Hr.
Qed.

(** ** Writing *)

(** The client prepares one edit, with the entry over those it replaces. *)
Lemma write_to_local_register_Ok c a data replace net h wal :
  write_to_local_register c a data replace net = Ok (h, wal) →
  ∃ r op auth, net_register net a = Some r ∧ wal = [CmdEdit op auth] ∧ ed_address op = a ∧
    crdt_op (ed_edit op) = mkNode data replace ∧ h = node_hash (mkNode data replace).
Proof.
  unfold write_to_local_register. rewrite get_register_eq. intros Hw. api_inv Hw.
  destruct a2 as [h' op]. api_inv Hw. injection Hw as <- <-.
  unfold write in Ha1. destruct (check_entry_and_reg_sizes a0 data); cbn in Ha1; [|done].
  rewrite mr_write_spec in Ha1. injection Ha1 as <- <-.
  unfold or_not_found in Ha. apply ok_or_Ok in Ha.
  exists a0. do 2 eexists. by split_and!.
Qed.

Lemma publish_one_Ok cmd net net' : publish [cmd] net = (net', Returns (Ok ())) ↔ send_cmd cmd net = (net', Ok ()).
Proof.
  unfold publish. cbn. destruct (send_cmd cmd net) as [net1 [[]|e]]; cbn; split; by intros [= <-].
Qed.

(** Writing to the register of the network, as [register_write] and the multimap do. *)
Lemma write_and_publish c a data replace net h wal net' :
  write_to_local_register c a data replace net = Ok (h, wal) → publish wal net = (net', Returns (Ok ())) →
  h = node_hash (mkNode data replace) ∧
  (∃ r r', net_register net a = Some r ∧ net_register net' a = Some r' ∧
           reg_known r' = reg_known r ∪ {[h := mkNode data replace]} ∧ policy r' = policy r) ∧
  ∀ a', a' ≠ a → net_register net' a' = net_register net a'.
Proof.
  intros (r & op & auth & Hr & -> & Ha & Hn & ->)%write_to_local_register_Ok Hp%publish_one_Ok. subst a.
  destruct (net_edit _ _ _ _ _ Hp Hr) as [(r1 & r2 & Hap & Hr2 & Hs) Hother].
  split; [done|]. split; [|done]. exists r, r2. split_and!; [done..| |].
  - apply apply_cmd_edit in Hap as (_ & _ & _ & Hop).
    destruct (apply_op_Ok_inv _ _ _ Hop) as [Hok Hsz].
    destruct (apply_op_Ok _ _ Hok Hsz) as (r3 & Hop' & _ & _ & _ & Hk). rewrite Hop in Hop'. simplify_eq.
    by rewrite <-(same_known _ _ Hs), Hk, Hn.
  - apply apply_cmd_edit in Hap as (_ & _ & _ & Hop).
    destruct (apply_op_Ok_inv _ _ _ Hop) as [Hok Hsz].
    destruct (apply_op_Ok _ _ Hok Hsz) as (r3 & Hop' & _ & Hpol & _). rewrite Hop in Hop'. simplify_eq.
    by rewrite <-(same_policy _ _ Hs).
Qed.

(** A write that succeeds adds one entry to the register of the network. *)
Lemma multimap_write_Ok s url data replace net net' h u a r :
  multimap_write s url data replace net = (net', Returns (Ok h)) → dry_run_mode s = false →
  from_url url = Ok u → SafeUrl.address u = RegisterAddr a → net_register net a = Some r →
  h = node_hash (mkNode data replace) ∧
  (∃ r', net_register net' a = Some r' ∧ reg_known r' = reg_known r ∪ {[h := mkNode data replace]} ∧
         policy r' = policy r) ∧
  ∀ a', a' ≠ a → net_register net' a' = net_register net a'.
Proof.
  intros Hw Hdry Hu Ha Hr. unfold multimap_write in Hw. rewrite Hdry in Hw. api_inv Hw.
  rewrite Hu in Ha0. injection Ha0 as <-. rewrite Ha in Ha1. injection Ha1 as <-.
  destruct a3 as [h' wal]. api_inv Hw. destruct a0.
  destruct (write_and_publish _ _ _ _ _ _ _ _ Ha3 Ha0) as (-> & (r0 & r' & Hr0 & Hr' & Hk & Hpol) & Hother).
  rewrite Hr in Hr0. injection Hr0 as <-. eauto 10.
Qed.

(** The register holds what the hashes stand for, and no entry waits for another. *)
Definition replaceable (r : Register) (replace : gset (Hash bytes)) : Prop :=
  settled r ∧ ∀ c, c ∈ replace → is_Some (mr_dag (data (crdt r)) !! c).

Lemma replaceable_empty r : settled r → replaceable r ∅.
Proof. intros Hr. split; [done|]. by intros c ?%elem_of_empty. Qed.

(** The multimap of a register that gained an entry, or a tombstone. *)
Lemma inserted_multimap r r' m kv replace e :
  replaceable r replace → rmp_encode kv = Some e → multimap_of (reg_read r) m →
  reg_known r !! node_hash (mkNode e replace) = None →
  reg_known r' = reg_known r ∪ {[node_hash (mkNode e replace) := mkNode e replace]} →
  multimap_of (reg_read r') ({[(node_hash (mkNode e replace), kv)]} ∪ filter (λ x, x.1 ∉ replace) m).
Proof.
  intros [Hset Hch] He Hm Hfresh Hk.
  pose proof (node_added_reads r r' (mkNode e replace) Hset Hch Hfresh Hk) as Hreads. cbn in Hreads.
  apply rmp_decode_encode in He as Hd. rewrite multimap_of_spec in Hm |- *. destruct Hm as [Hdec Hm].
  split.
  - intros x e' [[-> ->]|[Hx _]]%Hreads; eauto.
  - intros x kv'. rewrite elem_of_union, elem_of_singleton, elem_of_filter, Hm. cbn. setoid_rewrite Hreads.
    assert (e ≠ MULTIMAP_REMOVED_MARK) by (intros ->; by apply (rmp_not_empty kv)). split.
    + intros [[= -> ->]|(Hx & e' & He' & Hne & Hde)]; [exists e; by eauto|]. exists e'. eauto.
    + intros (e' & [[-> ->]|[He' Hx]] & Hne & Hde); [left; by simplify_eq|]. right. eauto.
Qed.
Lemma removed_multimap r r' m replace :
  replaceable r replace → multimap_of (reg_read r) m →
  reg_known r !! node_hash (mkNode MULTIMAP_REMOVED_MARK replace) = None →
  reg_known r' =
    reg_known r ∪ {[node_hash (mkNode MULTIMAP_REMOVED_MARK replace) := mkNode MULTIMAP_REMOVED_MARK replace]} →
  multimap_of (reg_read r') (filter (λ x, x.1 ∉ replace) m).
Proof.
  intros [Hset Hch] Hm Hfresh Hk.
  pose proof (node_added_reads r r' (mkNode MULTIMAP_REMOVED_MARK replace) Hset Hch Hfresh Hk) as Hreads. cbn in Hreads.
  rewrite multimap_of_spec in Hm |- *. destruct Hm as [Hdec Hm]. split.
  - intros x e [[-> ->]|[Hx _]]%Hreads; eauto.
  - intros x kv'. rewrite elem_of_filter, Hm. cbn. setoid_rewrite Hreads. split.
    + intros (Hx & e & He & Hne & Hde). exists e. eauto.
    + intros (e & [[-> ->]|[He Hx]] & Hne & Hde); [done|]. eauto.
Qed.

(** C23: inserting replaces exactly the entries it names: after a successful insert into the
    multimap of a register without pending entries, not in a dry run, replacing entries that are there and with an
    entry that was never written before, the multimap reads as the old one without the replaced entries and with the new
    pair under the returned hash; the other registers are not changed. *)
Theorem multimap_insert_refines s c url u a net net' r m kv replace h :
  safe_client s = Some c → dry_run_mode s = false →
  from_url url = Ok u → SafeUrl.address u = RegisterAddr a → content_version u = None →
  net_register net a = Some r → replaceable r replace →
  fetch_multimap s u net = (net, Returns (Ok m)) →
  multimap_insert s url kv replace net = (net', Returns (Ok h)) → reg_known r !! h = None →
  fetch_multimap s u net' = (net', Returns (Ok ({[(h, kv)]} ∪ filter (λ e, e.1 ∉ replace) m))) ∧
  ∀ a', a' ≠ a → net_register net' a' = net_register net a'.
Proof.
  intros Hc Hdry Hu Ha Hv Hr Hrep Hm Hi Hfresh. unfold multimap_insert in Hi. api_inv Hi.
  destruct (multimap_write_Ok _ _ _ _ _ _ _ _ _ _ Hi Hdry Hu Ha Hr) as (-> & (r' & Hr' & Hk & _) & Hother).
  split; [|done]. apply (fetch_multimap_Ok s c u a net r m) in Hm; [|done..].
  apply (fetch_multimap_Ok s c u a net' r'); [done..|]. by eapply inserted_multimap.
Qed.

(** Removing hides exactly the entries it names. *)
Theorem multimap_remove_refines s c url u a net net' r m to_remove h :
  safe_client s = Some c → dry_run_mode s = false →
  from_url url = Ok u → SafeUrl.address u = RegisterAddr a → content_version u = None →
  net_register net a = Some r → replaceable r to_remove →
  fetch_multimap s u net = (net, Returns (Ok m)) →
  multimap_remove s url to_remove net = (net', Returns (Ok h)) → reg_known r !! h = None →
  fetch_multimap s u net' = (net', Returns (Ok (filter (λ e, e.1 ∉ to_remove) m))) ∧
  ∀ a', a' ≠ a → net_register net' a' = net_register net a'.
Proof.
  intros Hc Hdry Hu Ha Hv Hr Hrep Hm Hi Hfresh.
  destruct (multimap_write_Ok _ _ _ _ _ _ _ _ _ _ Hi Hdry Hu Ha Hr) as (-> & (r' & Hr' & Hk & _) & Hother).
  split; [|done]. apply (fetch_multimap_Ok s c u a net r m) in Hm; [|done..].
  apply (fetch_multimap_Ok s c u a net' r'); [done..|]. by eapply removed_multimap.
Qed.

Lemma union_known (m : gmap (Hash bytes) (Node (Hash bytes) bytes)) h n n' : m !! h = Some n → m ∪ {[h := n']} = m.
Proof.
  intros Hn. apply map_eq. intros x. destruct (m !! x) as [y|] eqn:Hx; [by apply lookup_union_Some_l|].
  rewrite lookup_union_r by done. apply lookup_singleton_ne. congruence.
Qed.

(** An entry that was written before is not written again: the insert reports success and
    the multimap stays as it was. *)
Lemma repeated_insert_is_lost s c url u a net net' r kv replace h :
  safe_client s = Some c → dry_run_mode s = false →
  from_url url = Ok u → SafeUrl.address u = RegisterAddr a → content_version u = None →
  net_register net a = Some r → is_Some (reg_known r !! h) →
  multimap_insert s url kv replace net = (net', Returns (Ok h)) →
  (fetch_multimap s u net').2 = (fetch_multimap s u net).2.
Proof.
  intros Hc Hdry Hu Ha Hv Hr [n Hn] Hi. unfold multimap_insert in Hi. api_inv Hi.
  destruct (multimap_write_Ok _ _ _ _ _ _ _ _ _ _ Hi Hdry Hu Ha Hr) as (-> & (r' & Hr' & Hk & _) & _).
  assert (reg_known r' = reg_known r) as [Hreads _]%known_reads.
  { rewrite Hk. by eapply union_known. }
  unfold fetch_multimap, mbind, api_bind. rewrite !(fetch_entries_eq s c u a) by done.
  rewrite Hr, Hr'. cbn. by rewrite Hreads.
Qed.
End multimap.
