(* ===== verification/Nrs.v ===== *)
(** * Names of the network

    [sn_api/src/app/nrs]: a top name has a multimap whose entries map public names to
    URLs.  Creating a top name, associating, removing and looking up public names. *)

From Stdlib Require Import String.
From S2P Require Import Prelude External Xor NodeState SectionsDag Sap Keys Register UsedSpace Storage.
From S2P Require Import Text SafeUrl FilesMap Api.

#[export] Instance version_hash_countable : Countable VersionHash :=
  inj_countable' entry_hash mkVersionHash (λ v, match v with mkVersionHash _ => eq_refl end).
#[export] Instance url_type_countable : Countable UrlType.
Proof.
  refine (inj_countable' (λ t, match t with XorUrl => true | NrsUrl => false end)
    (λ b : bool, if b then XorUrl else NrsUrl) _). by intros [].
Defined.
#[export] Instance content_type_countable : Countable ContentType.
Proof.
  refine (inj_countable'
    (λ c, match c with
          | Raw => inl 0 | Wallet => inl 1 | FilesContainer => inl 2 | NrsMapContainer => inl 3 | Multimap => inl 4
          | MediaType m => inr m
          end)
    (λ x : nat + ustr, match x with
          | inl 0 => Raw | inl 1 => Wallet | inl 2 => FilesContainer | inl 3 => NrsMapContainer | inl _ => Multimap
          | inr m => MediaType m
          end) _). by intros [].
Defined.
#[export] Instance data_address_countable {X : Xor} : Countable DataAddress.
Proof.
  refine (inj_countable'
    (λ a, match a with
          | SafeKeyAddr n => inl (0, n) | BytesAddr n => inl (1, n) | SpentbookAddr n => inl (2, n)
          | RegisterAddr a => inr a
          end)
    (λ x : nat * XorName + RegisterAddress, match x with
          | inl (0, n) => SafeKeyAddr n | inl (1, n) => BytesAddr n | inl (_, n) => SpentbookAddr n
          | inr a => RegisterAddr a
          end) _). by intros [].
Defined.
#[export] Instance safe_url_eq_dec {X : Xor} : EqDecision SafeUrl.
Proof. solve_decision. Defined.
(** Coded as a list of the codes of the fields, which keeps codes short. *)
#[export] Instance safe_url_countable {X : Xor} : Countable SafeUrl.
Proof.
  refine (inj_countable
    (λ u, [encode (encoding_version u); encode (public_name u); encode (top_name u); encode (sub_names u);
           encode (sub_names_vec u); encode (type_tag u); encode (SafeUrl.address u); encode (content_type u);
           encode (content_type_u16 u); encode (SafeUrl.path u); encode (query_string u); encode (fragment u);
           encode (content_version u); encode (url_type u)])
    (λ l, match l with
          | [ev; pn; tn; sn; sv; tag; a; ct; cc; p; q; f; cv; ut] =>
              ev ← decode ev; pn ← decode pn; tn ← decode tn; sn ← decode sn; sv ← decode sv; tag ← decode tag;
              a ← decode a; ct ← decode ct; cc ← decode cc; p ← decode p; q ← decode q; f ← decode f;
              cv ← decode cv; ut ← decode ut;
              Some (mkSafeUrl ev pn tn sn sv tag a ct cc p q f cv ut)
          | _ => None
          end) _).
  intros []. cbn. rewrite !decode_encode. reflexivity.
Defined.

(** The map of a top name: public names to URLs. *)
Abbreviation NrsMap := (gmap ustr SafeUrl).

Section nrs.
Context {B : Bls} {BSh : BlsShares} {BPS : BlsPublicShares} {E : Ed25519} {X : Xor}.
Context {M : Merkle bytes} {AE : ApiEnv} {HB : HashBytes} {BC : Bincode CreateRegister} {BE : Bincode EditRegister}.
Context {XB : XorBytes} {UC : UrlCrates} {RK : Rmp (bytes * bytes)}.

(** The order that [SafeUrl] derives. *)
Context {OU : Ord SafeUrl}.

(** ** Checks *)

Definition validate_nrs_top_name (name : ustr) : result ApiError SafeUrl :=
  url ← map_err ApiUrlError (from_url (lit "safe://" ++ name));
  if decide (top_name url ≠ name) then Err ApiInvalidInput else Ok url.
Definition validate_nrs_public_name (name : ustr) : result ApiError SafeUrl :=
  url ← map_err ApiUrlError (from_url (lit "safe://" ++ name));
  if decide (public_name url ≠ name) then Err ApiInvalidInput else Ok url.

(** A link has a version if its data has versions. *)
Definition validate_nrs_url (link : SafeUrl) : result ApiError unit :=
  match content_version link with
  | Some _ => Ok ()
  | None =>
      match content_type link with
      | FilesContainer | NrsMapContainer => Err ApiUnversionedContentError
      | _ => match data_type link with DtRegister => Err ApiUnversionedContentError | _ => Ok () end
      end
  end.

Definition set_nrs_url_props (url : SafeUrl) (h : Hash bytes) : result ApiError SafeUrl :=
  match set_content_type (set_content_version url (Some (version_of h))) NrsMapContainer with
  | (url, Ok _) => Ok url
  | (_, Err e) => Err (ApiUrlError e)
  end.

(** ** The map of a top name *)

Definition public_name_contains_subname (name : ustr) : bool :=
  let parts := split DOT name in
  match join [DOT] (take (length parts - 1) parts) with [] => false | _ => true end.

Definition nrs_map_get (m : NrsMap) (name : ustr) : result ApiError (option SafeUrl) :=
  match m !! name with
  | Some link => Ok (Some link)
  | None => if public_name_contains_subname name then Err ApiContentError else Ok None
  end.

(** Sorted by the length of the name; the sort is stable. *)
Definition get_map_summary (m : NrsMap) : list (ustr * ustr) :=
  stable_sort (λ a b, bool_decide (str_len a.1 ≤ str_len b.1)) ((λ e, (e.1, display e.2)) <$> bmap_iter m).

Definition parse_nrs_entry (kv : bytes * bytes) : result ApiError (ustr * SafeUrl) :=
  name ← ok_or (from_utf8 kv.1) ApiInvalidUtf8Sequence;
  text ← ok_or (from_utf8 kv.2) ApiInvalidUtf8Sequence;
  url ← map_err ApiUrlError (from_url text);
  Ok (name, url).

Definition parse_versioned_entry (e : Hash bytes * (bytes * bytes)) : result ApiError (VersionHash * (ustr * SafeUrl)) :=
  kv ← parse_nrs_entry e.2; Ok (version_of e.1, kv).

(** With a version, the other versions of the public name are left out. *)
Definition convert_multimap_to_nrs_set (m : MultimapEntries) (name : ustr) (version : option VersionHash)
    : result ApiError (gset (ustr * SafeUrl)) :=
  match version with
  | Some version =>
      versioned ← mapM parse_versioned_entry (bset_iter m);
      let versioned_set : gset (VersionHash * (ustr * SafeUrl)) := list_to_set versioned in
      let duplicate_entries := filter (λ x, x.2.1 = name ∧ x.1 ≠ version) versioned_set in
      Ok (set_map snd (versioned_set ∖ duplicate_entries))
  | None => list_to_set <$> mapM (λ e : Hash bytes * (bytes * bytes), parse_nrs_entry e.2) (bset_iter m)
  end.

(** Collecting the set into a map: the last entry of a name stays. *)
Definition get_nrs_map_from_set (s : gset (ustr * SafeUrl)) : NrsMap :=
  foldl (λ m e, <[e.1 := e.2]> m) ∅ (bset_iter s).

(** An error of [nrs_get_subnames_map]: conflicting entries with the map, or another error. *)
Inductive NrsError :=
  | ConflictingNrsEntries (entries : list (ustr * SafeUrl)) (m : NrsMap)
  | NrsOther (e : ApiError).

Definition nrs_map_of_set (s : gset (ustr * SafeUrl)) : result NrsError NrsMap :=
  let m := get_nrs_map_from_set s in
  if decide (size m ≠ size s) then
    Err (ConflictingNrsEntries (bset_iter (s ∖ map_to_set pair m)) m)
  else Ok m.

Definition fetch_error (e : ApiError) : ApiError :=
  match e with ApiContentNotFound => ApiContentNotFound | _ => ApiNetDataError end.

(** The entries, with that of the requested version added when it is not among them. *)
Definition fetch_nrs_entries (s : Safe) (url : SafeUrl) (version : option VersionHash) : api MultimapEntries :=
  r ← attempt (fetch_multimap s url);
  m ← lift (match r with
            | Ok m => Ok m
            | Err ApiEmptyContent => Ok ∅
            | Err e => Err (fetch_error e)
            end);
  match version with
  | Some version =>
      if bool_decide (set_Exists (λ e, version_of e.1 = version) m) then mret m
      else
        key_val ← fetch_multimap_value_by_hash s url (version_entry version);
        mret ({[(version_entry version, key_val)]} ∪ m)
  | None => mret m
  end.

Definition nrs_get_subnames_map (s : Safe) (name : ustr) (version : option VersionHash)
    : api (result NrsError NrsMap) :=
  r ← attempt (url ← lift_url (from_url (lit "safe://" ++ name));
               m ← fetch_nrs_entries s url version;
               lift (convert_multimap_to_nrs_set m name version));
  mret (match r with Ok set => nrs_map_of_set set | Err e => Err (NrsOther e) end).

(** ** Names *)

Definition nrs_create (s : Safe) (name : ustr) : api SafeUrl :=
  nrs_url ← lift (validate_nrs_top_name name);
  nrs_url ← lift (match set_content_type nrs_url NrsMapContainer with
                  | (url, Ok _) => Ok url
                  | (_, Err e) => Err (ApiUrlError e)
                  end);
  u ← lift_url (from_nrsurl (display nrs_url));
  existing ← nrs_get_subnames_map s name None;
  if is_ok existing then throw (ApiNrsNameAlreadyExists name) else
  _ ← multimap_create s (Some (xorname u)) NRS_MAP_TYPE_TAG;
  mret nrs_url.

Definition current_versions (m : MultimapEntries) : gset (Hash bytes) := set_map fst m.

Definition nrs_associate (s : Safe) (name : ustr) (link : SafeUrl) : api SafeUrl :=
  url ← lift (validate_nrs_public_name name);
  _ ← lift (validate_nrs_url link);
  m ← fetch_multimap_values_by_key s url (as_bytes name);
  let entry := (as_bytes name, as_bytes (display link)) in
  hash ← multimap_insert s (display url) entry (current_versions m);
  lift (set_nrs_url_props url hash).

Definition nrs_add (s : Safe) (name : ustr) (link : SafeUrl) : api (SafeUrl * bool) :=
  url ← lift (validate_nrs_public_name name);
  creation_result ← attempt (nrs_create s (top_name url));
  did_register_topname ← lift (match creation_result with
                               | Ok _ => Ok true
                               | Err (ApiNrsNameAlreadyExists _) => Ok false
                               | Err e => Err e
                               end);
  new_url ← nrs_associate s name link;
  mret (new_url, did_register_topname).

Definition nrs_remove (s : Safe) (name : ustr) : api SafeUrl :=
  url ← lift (validate_nrs_public_name name);
  m ← fetch_multimap_values_by_key s url (as_bytes name);
  hash ← multimap_remove s (display url) (current_versions m);
  lift (set_nrs_url_props url hash).

(** Conflicts of other names are passed over. *)
Definition nrs_get (s : Safe) (name : ustr) (version : option VersionHash)
    : api (result NrsError (option SafeUrl * NrsMap)) :=
  r ← nrs_get_subnames_map s name version;
  mret (m ← match r with
            | Err (ConflictingNrsEntries entries m) =>
                if existsb (λ e, bool_decide (e.1 = name)) entries then Err (ConflictingNrsEntries entries m) else Ok m
            | r => r
            end;
        url ← map_err NrsOther (nrs_map_get m name);
        Ok (url, m)).
End nrs.
