(* ===== verification/NrsProps.v ===== *)
(** * Properties of names

    What associating, removing and looking up a public name do on a network that keeps the
    multimap of its top name. *)

From Stdlib Require Import String.
From S2P Require Import Prelude External Xor NodeState SectionsDag Sap Keys Register RegisterProps UsedSpace.
From S2P Require Import Storage Text SafeUrl SafeUrlProps FilesMap Api ApiProps Nrs.

(** ** Results of lists *)

Lemma mapM_result_Ok {E A C} (f : A → result E C) l ks :
  mapM f l = Ok ks ↔ Forall2 (λ x y, f x = Ok y) l ks.
Proof.
  revert ks. induction l as [|x l IH]; intros ks; cbn.
  { split; [intros [= <-]; constructor|by inversion 1]. }
  split.
  - intros (y & Hy & (k & Hk & [= <-])%result_bind_Ok)%result_bind_Ok. constructor; [done|by apply IH].
  - inversion 1 as [|? y ? k Hy Hk]; subst. rewrite Hy. cbn. apply IH in Hk. by rewrite Hk.
Qed.
Lemma elem_of_Forall2_l {A C} (P : A → C → Prop) l k y : Forall2 P l k → y ∈ k → ∃ x, x ∈ l ∧ P x y.
Proof.
  induction 1 as [|x z l k Hx _ IH]; [by intros ?%elem_of_nil|].
  intros [->|(x' & ? & ?)%IH]%elem_of_cons; [exists x|exists x']; split; set_solver.
Qed.
Lemma elem_of_Forall2_r {A C} (P : A → C → Prop) l k x : Forall2 P l k → x ∈ l → ∃ y, y ∈ k ∧ P x y.
Proof.
  induction 1 as [|z y l k Hx _ IH]; [by intros ?%elem_of_nil|].
  intros [->|(y' & ? & ?)%IH]%elem_of_cons; [exists y|exists y']; split; set_solver.
Qed.

Section names.
Context {B : Bls} {BSh : BlsShares} {BPS : BlsPublicShares} {E : Ed25519} {X : Xor}.
Context {M : Merkle bytes} {ML : MerkleLaws bytes} {AE : ApiEnv} {HB : HashBytes}.
Context {BC : Bincode CreateRegister} {BE : Bincode EditRegister} {V : NetView} {NL : NetLaws}.
Context {XB : XorBytes} {UC : UrlCrates} {UL : UrlLaws} {RK : Rmp (bytes * bytes)} {RL : PairLaws}.
Context {OU : Ord SafeUrl}.

(** ** The map of a set of entries *)

(** For every name, the map has the greatest URL of the set. *)
Lemma nrs_map_lookup (s : gset (ustr * SafeUrl)) k v :
  get_nrs_map_from_set s !! k = Some v ↔ (k, v) ∈ s ∧ ∀ v', (k, v') ∈ s → ord_le v' v.
Proof.
  unfold get_nrs_map_from_set. setoid_rewrite <-(elem_of_bset_iter s).
  pose proof (bset_iter_Sorted s) as Hs. apply (Sorted_StronglySorted _) in Hs.
  generalize dependent (bset_iter s). intros l Hs. revert k v.
  induction l as [|[k0 v0] l IH] using rev_ind; intros k v.
  { cbn [foldl]. rewrite lookup_empty. split; [done|]. by intros [?%elem_of_nil _]. }
  apply StronglySorted_app in Hs as (Hlast & Hs & _). specialize (IH Hs). rewrite foldl_app. cbn [foldl fst snd]. rewrite lookup_insert_Some.
  assert (∀ w, (k0, w) ∈ l → ord_le w v0) as Hmax.
  { intros w Hw. destruct (Hlast (k0, w) (k0, v0)) as [_ H]; [done|left|]. apply H, ord_le_refl. }
  setoid_rewrite elem_of_app. setoid_rewrite list_elem_of_singleton. split.
  - intros [[<- <-]|[Hne (Hin & Hle)%IH]]; [split; [by right|]|split; [by left|]].
    + intros w [?|[= ->]]; [by apply Hmax|reflexivity].
    + intros w [?|[= -> ->]]; [by apply Hle|done].
  - intros [[Hin|[= -> ->]] Hle]; [|by left]. destruct (decide (k0 = k)) as [->|Hne].
    + left. split; [done|]. apply (anti_symm ord_le); [|by apply Hmax]. apply Hle. by right.
    + right. split; [done|]. apply IH. split; [done|]. intros w Hw. apply Hle. by left.
Qed.

(** ** Public names *)

(** Labels without special characters, within the limits, that do not make a XOR-URL. *)
Record name_ok (subs : list ustr) (top : ustr) : Prop := {
  name_labels : Forall label_ok (subs ++ [top]);
  name_sizes : Forall (λ w, str_len w ≤ MAX_LEN_URL_LABELS) (subs ++ [top]);
  name_size : str_len (join [DOT] (subs ++ [top])) ≤ 255;
  name_no_xorurl : is_ok (from_xorurl (URL_PROTOCOL ++ join [DOT] (subs ++ [top]))) = false;
}.
Definition full_name (subs : list ustr) (top : ustr) : ustr := join [DOT] (subs ++ [top]).
Definition name_address (top : ustr) : RegisterAddress :=
  mkRegisterAddress (xor_name_from_nrs_string top) NRS_MAP_TYPE_TAG.
Definition nrs_url_of (subs : list ustr) (top : ustr) : SafeUrl :=
  mkSafeUrl XOR_URL_VERSION_1 (full_name subs top) top (join [DOT] subs) subs NRS_MAP_TYPE_TAG
    (RegisterAddr (name_address top)) NrsMapContainer 3 [] [] [] None NrsUrl.

Lemma version_of_empty_query : version_of_query [] = Ok None.
Proof.
  unfold version_of_query, query_key_last_internal, query_key_internal.
  rewrite <-form_serialize_nil, query_pairs_serialized. done.
Qed.

Lemma parse_name subs top :
  name_ok subs top → ∃ p, (p = [] ∨ p = [SLASH]) ∧
  parse_parts (URL_PROTOCOL ++ full_name subs top) false =
    Ok (mkUrlParts URL_SCHEME (full_name subs top) top (join [DOT] subs) subs p [] []).
Proof.
  intros [Hl Hsz Hlen _]. destruct (parse_text false subs top [] [] []) as (p' & Hp' & Hp).
  { constructor; try done; [by destruct subs|by left|constructor..]. }
  { by right. }
  rewrite !app_nil_r in Hp. exists p'. split; [naive_solver|]. unfold full_name. rewrite Hp.
  by rewrite decide_False by lia.
Qed.

(** The URL of a public name. *)
Lemma from_nrsurl_name subs top :
  name_ok subs top → from_nrsurl (URL_PROTOCOL ++ full_name subs top) = Ok (nrs_url_of subs top).
Proof.
  intros Hn. destruct (parse_name subs top Hn) as (p & Hp & Hparse).
  unfold from_nrsurl. rewrite Hparse. cbn [mbind result_bind up_top_name up_public_name up_path up_sub_names_vec up_query_string up_fragment].
  unfold url_new. cbn [content_type_value mbind result_bind]. unfold url_names.
  assert (full_name subs top ≠ []) as Hne.
  { unfold full_name. pose proof (name_labels _ _ Hn) as Hl. destruct subs as [|w subs]; cbn.
    - apply Forall_cons in Hl as [[? _] _]. done.
    - apply Forall_cons in Hl as [[Hw _] _]. by destruct w, subs. }
  rewrite decide_False, Hparse by done. cbn [mbind result_bind]. rewrite decide_False by naive_solver.
  cbn [mbind result_bind up_public_name up_top_name up_sub_names up_sub_names_vec url_type default].
  rewrite decide_False by done. rewrite set_query_string_eq. unfold from_option, id.
  rewrite version_of_empty_query. by destruct Hp as [-> | ->].
Qed.
Lemma from_url_name subs top :
  name_ok subs top → from_url (URL_PROTOCOL ++ full_name subs top) = Ok (nrs_url_of subs top).
Proof.
  intros Hn. unfold from_url. pose proof (name_no_xorurl _ _ Hn) as Hx. fold (full_name subs top) in Hx.
  destruct (from_xorurl _); [done|]. by apply from_nrsurl_name.
Qed.
Lemma validate_name subs top :
  name_ok subs top → validate_nrs_public_name (full_name subs top) = Ok (nrs_url_of subs top).
Proof.
  intros Hn. unfold validate_nrs_public_name. change (lit "safe://") with URL_PROTOCOL. rewrite (from_url_name subs top Hn). cbn.
  by rewrite decide_False by naive_solver.
Qed.
Lemma display_name subs top : display (nrs_url_of subs top) = URL_PROTOCOL ++ full_name subs top.
Proof.
  change (display (nrs_url_of subs top)) with (URL_PROTOCOL ++ full_name subs top ++ [] ++ [] ++ []).
  by rewrite !app_nil_r.
Qed.

Lemma label_scalar c : label_char c = true → is_scalar c = true.
Proof.
  unfold label_char. intros [Ha%alnum_visible| ->%N.eqb_eq]%orb_true_iff; [|done].
  unfold visible, in_range in Ha. unfold is_scalar. apply orb_true_iff. left.
  rewrite andb_true_iff, !N.leb_le in Ha. apply N.ltb_lt. lia.
Qed.
Lemma name_scalars subs top : name_ok subs top → scalars (full_name subs top).
Proof.
  intros Hn. unfold full_name, scalars. apply join_all; [done|].
  eapply Forall_impl; [apply Hn|]. intros w [_ Hw]. eapply Forall_impl; [exact Hw|]. intros c. apply label_scalar.
Qed.

(** ** Looking up *)

(** What the entries of a multimap say: pairs of a name and a URL. *)
Definition nrs_names (m : MultimapEntries) (S : gset (ustr * SafeUrl)) : Prop :=
  (∀ h kv, (h, kv) ∈ m → ∃ p, parse_nrs_entry kv = Ok p) ∧
  ∀ p, p ∈ S ↔ ∃ h kv, (h, kv) ∈ m ∧ parse_nrs_entry kv = Ok p.

Lemma convert_multimap_None m name S :
  convert_multimap_to_nrs_set m name None = Ok S ↔ nrs_names m S.
Proof.
  unfold convert_multimap_to_nrs_set. rewrite result_fmap_Ok. setoid_rewrite mapM_result_Ok. split.
  - intros (ks & Hks & ->). split.
    + intros h kv Hin%elem_of_bset_iter. destruct (elem_of_Forall2_r _ _ _ _ Hks Hin) as (y & _ & Hy). eauto.
    + intros p. rewrite elem_of_list_to_set. split.
      * intros Hp. destruct (elem_of_Forall2_l _ _ _ _ Hks Hp) as ([h kv] & Hin%elem_of_bset_iter & Hy). eauto.
      * intros (h & kv & Hin%elem_of_bset_iter & Hp).
        destruct (elem_of_Forall2_r _ _ _ _ Hks Hin) as (y & ? & Hy). cbn [snd] in Hy.
        by replace p with y by congruence.
  - intros [Hall HS].
    assert (∃ ks, Forall2 (λ x y, parse_nrs_entry x.2 = Ok y) (bset_iter m) ks) as [ks Hks].
    { assert (Forall (λ x : Hash bytes * (bytes * bytes), ∃ p, parse_nrs_entry x.2 = Ok p) (bset_iter m)) as Hf.
      { apply Forall_forall. intros [h kv] Hin%elem_of_bset_iter. eauto. }
      induction Hf as [|x l [p Hp] _ [ks Hks]]; [by exists []|]. exists (p :: ks). by constructor. }
    exists ks. split; [done|]. apply set_eq. intros p. rewrite HS, elem_of_list_to_set. split.
    + intros (h & kv & Hin%elem_of_bset_iter & Hp).
      destruct (elem_of_Forall2_r _ _ _ _ Hks Hin) as (y & ? & Hy). cbn [snd] in Hy.
        by replace p with y by congruence.
    + intros Hp. destruct (elem_of_Forall2_l _ _ _ _ Hks Hp) as ([h kv] & Hin%elem_of_bset_iter & Hy). eauto.
Qed.

(** A network whose register of a top name holds the entries of [m]. *)
Definition holds_names (net : Net) (top : ustr) (r : Register) (m : MultimapEntries) (S : gset (ustr * SafeUrl)) : Prop :=
  net_register net (name_address top) = Some r ∧ multimap_of (reg_read r) m ∧ nrs_names m S.

Lemma subnames_map_eq s c subs top net r m S :
  safe_client s = Some c → name_ok subs top → holds_names net top r m S →
  nrs_get_subnames_map s (full_name subs top) None net = (net, Returns (Ok (nrs_map_of_set S))).
Proof.
  intros Hc Hn (Hr & Hm & HS). unfold nrs_get_subnames_map.
  change (lit "safe://") with URL_PROTOCOL. rewrite (from_url_name subs top Hn).
  apply (convert_multimap_None m (full_name subs top)) in HS.
  apply (fetch_multimap_Ok s c (nrs_url_of subs top) (name_address top) net r m) in Hm; [|done..].
  unfold mbind, api_bind, attempt. cbn. unfold fetch_nrs_entries, mbind, api_bind, attempt. rewrite Hm. cbn.
  unfold convert_multimap_to_nrs_set in HS. by rewrite HS.
Qed.

(** A name with one link is found, whatever other names say. *)
Lemma nrs_get_unique s c subs top net r m S link :
  safe_client s = Some c → name_ok subs top → holds_names net top r m S →
  (∀ l, (full_name subs top, l) ∈ S ↔ l = link) →
  nrs_get s (full_name subs top) None net = (net, Returns (Ok (Ok (Some link, get_nrs_map_from_set S)))).
Proof.
  intros Hc Hn Hh Hlink. unfold nrs_get, mbind, api_bind. rewrite (subnames_map_eq s c subs top net r m S) by done.
  assert (get_nrs_map_from_set S !! full_name subs top = Some link) as Hl.
  { apply nrs_map_lookup. split; [by apply Hlink|]. intros l ->%Hlink. reflexivity. }
  assert (nrs_map_get (get_nrs_map_from_set S) (full_name subs top) = Ok (Some link)) as Hget.
  { unfold nrs_map_get. by rewrite Hl. }
  unfold nrs_map_of_set. case_decide; [|cbn; by rewrite Hget].
  rewrite existsb_all_false; [cbn; by rewrite Hget|].
  apply Forall_forall. intros [n l] Hin%elem_of_bset_iter. cbn. apply bool_decide_eq_false. intros ->.
  apply elem_of_difference in Hin as [->%Hlink Hnot]. apply Hnot.
  apply elem_of_map_to_set. eauto.
Qed.

(** ** Associating *)

(** The entry that associates a name with a link, over the current entries of the name. *)
Definition association (m : MultimapEntries) (name : ustr) (link : SafeUrl) : option (Node (Hash bytes) bytes) :=
  e ← rmp_encode (as_bytes name, as_bytes (display link));
  Some (mkNode e (current_versions (filter (λ x, x.2.1 = as_bytes name) m))).

Lemma elem_of_current_versions m name h :
  h ∈ current_versions (filter (λ x : Hash bytes * (bytes * bytes), x.2.1 = as_bytes name) m) ↔
  ∃ kv, (h, kv) ∈ m ∧ kv.1 = as_bytes name.
Proof.
  unfold current_versions. rewrite elem_of_map. split.
  - intros ([h' kv] & -> & [? ?]%elem_of_filter). eauto.
  - intros (kv & ? & ?). exists (h, kv). split; [done|]. by apply elem_of_filter.
Qed.

Lemma fetch_by_key_eq s c u a net r m key :
  safe_client s = Some c → SafeUrl.address u = RegisterAddr a → content_version u = None →
  net_register net a = Some r → multimap_of (reg_read r) m →
  fetch_multimap_values_by_key s u key net = (net, Returns (Ok (filter (λ e, e.2.1 = key) m))).
Proof.
  intros Hc Ha Hv Hr Hm. unfold fetch_multimap_values_by_key.
  by rewrite (api_bind_eq _ _ net net m) by by apply (fetch_multimap_Ok s c u a net r m).
Qed.

(** What a successful association wrote. *)
Lemma nrs_associate_Ok s c subs top net r m link net' url :
  safe_client s = Some c → dry_run_mode s = false → name_ok subs top →
  net_register net (name_address top) = Some r → multimap_of (reg_read r) m →
  nrs_associate s (full_name subs top) link net = (net', Returns (Ok url)) →
  ∃ n r', association m (full_name subs top) link = Some n ∧ net_register net' (name_address top) = Some r' ∧
    reg_known r' = reg_known r ∪ {[node_hash n := n]} ∧
    set_nrs_url_props (nrs_url_of subs top) (node_hash n) = Ok url ∧
    ∀ a, a ≠ name_address top → net_register net' a = net_register net a.
Proof.
  intros Hc Hdry Hn Hr Hm Ha. unfold nrs_associate in Ha. rewrite (validate_name subs top Hn) in Ha.
  rewrite (api_bind_eq _ _ net net (nrs_url_of subs top)) in Ha by done.
  apply api_bind_Ok in Ha as (net1 & [] & [_ ->]%lift_Ok & Ha).
  rewrite (api_bind_eq _ _ net net (filter (λ e, e.2.1 = as_bytes (full_name subs top)) m)) in Ha
    by by apply (fetch_by_key_eq s c _ (name_address top) _ r).
  apply api_bind_Ok in Ha as (net1 & h & Hi & [Hu ->]%lift_Ok).
  unfold multimap_insert in Hi. apply api_bind_Ok in Hi as (net2 & e & [He%ok_or_Ok ->]%lift_Ok & Hi).
  destruct (multimap_write_Ok _ _ _ _ _ _ _ (nrs_url_of subs top) (name_address top) r Hi) as (-> & (r' & Hr' & Hk & _) & Ho);
    [done|by rewrite display_name, from_url_name|done|done|].
  exists (mkNode e (current_versions (filter (λ x, x.2.1 = as_bytes (full_name subs top)) m))), r'.
  split_and!; [|done..]. unfold association. by rewrite He.
Qed.

(** ** What the names are afterwards *)

Lemma multimap_hash_unique r m h kv kv' :
  multimap_of (reg_read r) m → (h, kv) ∈ m → (h, kv') ∈ m → kv = kv'.
Proof.
  intros [_ Hm]%multimap_of_spec (e & He & _ & Hd)%Hm (e' & He' & _ & Hd')%Hm.
  apply elem_of_reg_read in He as (n & -> & Hn & _). apply elem_of_reg_read in He' as (n' & -> & Hn' & _).
  congruence.
Qed.
Lemma versions_replaceable r m (P : Hash bytes * (bytes * bytes) → Prop) `{!∀ x, Decision (P x)} :
  settled r → multimap_of (reg_read r) m → replaceable r (current_versions (filter P m)).
Proof.
  intros Hs [_ Hm]%multimap_of_spec. split; [done|]. intros h Hh.
  apply elem_of_map in Hh as ([h' kv] & -> & [_ (e & He & _)%Hm]%elem_of_filter).
  apply elem_of_reg_read in He as (n & _ & Hn & _). by eexists.
Qed.

(** The key of an entry is the text of its name. *)
Lemma entry_key kv p name :
  scalars name → parse_nrs_entry kv = Ok p → kv.1 = as_bytes name ↔ p.1 = name.
Proof.
  intros Hs Hp. unfold parse_nrs_entry in Hp.
  apply result_bind_Ok in Hp as (n & [Hn Hsn]%ok_or_Ok%from_utf8_Some & Hp).
  apply result_bind_Ok in Hp as (t & _ & Hp). apply result_bind_Ok in Hp as (u & _ & [= <-]).
  cbn. rewrite Hn. split; [|by intros ->]. intros He. by apply as_bytes_inj.
Qed.

(** The entries that stay are those of other names. *)
Lemma kept_names r m S name :
  scalars name → multimap_of (reg_read r) m → nrs_names m S →
  nrs_names (filter (λ x, x.1 ∉ current_versions (filter (λ x, x.2.1 = as_bytes name) m)) m)
    (filter (λ p, p.1 ≠ name) S).
Proof.
  intros Hs Hm [Hall HS]. split.
  { intros h kv [_ Hin]%elem_of_filter. eauto. }
  intros p. rewrite elem_of_filter, HS. setoid_rewrite elem_of_filter. setoid_rewrite elem_of_current_versions.
  cbn [fst]. split.
  - intros [Hne (h & kv & Hin & Hp)]. exists h, kv. split_and!; [|done..].
    intros (kv' & Hin' & Hk). rewrite (multimap_hash_unique r m h kv' kv) in Hk by done.
    apply Hne. by apply (entry_key kv p name).
  - intros (h & kv & [Hne Hin] & Hp). split; [|eauto]. intros Hn. apply Hne. exists kv. split; [done|].
    by apply (entry_key kv p name).
Qed.

Lemma other_name_kept (S : gset (ustr * SafeUrl)) (S' : gset (ustr * SafeUrl)) n :
  (∀ l, (n, l) ∈ S' ↔ (n, l) ∈ S) → get_nrs_map_from_set S' !! n = get_nrs_map_from_set S !! n.
Proof.
  intros HS. apply option_eq. intros l. rewrite !nrs_map_lookup. setoid_rewrite HS. done.
Qed.

(** C27: a name that was associated with a link is found with that link, also when it or other
    names had conflicting links before, and the links of the other names stay.  The register
    of the top name has no pending entries, its entries are names and URLs, and the entry is
    not one that was written before. *)
Theorem associate_then_get s c subs top link net net' r m S n url :
  safe_client s = Some c → dry_run_mode s = false → name_ok subs top →
  holds_names net top r m S → settled r →
  scalars (display link) → from_url (display link) = Ok link →
  association m (full_name subs top) link = Some n → reg_known r !! node_hash n = None →
  nrs_associate s (full_name subs top) link net = (net', Returns (Ok url)) →
  ∃ map, nrs_get s (full_name subs top) None net' = (net', Returns (Ok (Ok (Some link, map)))) ∧
    ∀ name, name ≠ full_name subs top → map !! name = get_nrs_map_from_set S !! name.
Proof.
  intros Hc Hdry Hn (Hr & Hm & HS) Hset Hsc Hlink Has Hfresh Ha.
  destruct (nrs_associate_Ok s c subs top net r m link net' url) as (n' & r' & Has' & Hr' & Hk & _); [done..|].
  rewrite Has in Has'. injection Has' as <-. unfold association in Has.
  destruct (rmp_encode _) as [e|] eqn:He; [|done]. cbn in Has. injection Has as <-.
  set (name := full_name subs top) in *. pose proof (name_scalars subs top Hn) as Hsn. fold name in Hsn.
  set (S' := {[(name, link)]} ∪ filter (λ p, p.1 ≠ name) S : gset (ustr * SafeUrl)).
  set (replace := current_versions (filter (λ x, x.2.1 = as_bytes name) m)) in *.
  assert (holds_names net' top r'
    ({[(node_hash (mkNode e replace), (as_bytes name, as_bytes (display link)))]} ∪ filter (λ x, x.1 ∉ replace) m) S')
    as Hh.
  { split; [done|]. split; [eapply inserted_multimap; eauto using versions_replaceable|].
    destruct (kept_names r m S name Hsn Hm HS) as [Hall HK]. fold replace in Hall, HK.
    assert (parse_nrs_entry (as_bytes name, as_bytes (display link)) = Ok (name, link)) as Hp.
    { unfold parse_nrs_entry. cbn [fst snd]. rewrite !from_utf8_as_bytes by done.
      cbn [ok_or mbind result_bind]. by rewrite Hlink. }
    split.
    - intros h kv [[= -> ->]%elem_of_singleton|Hin]%elem_of_union; eauto.
    - intros p. unfold S'. rewrite elem_of_union, elem_of_singleton, HK. setoid_rewrite elem_of_union.
      setoid_rewrite elem_of_singleton. split.
      + intros [->|(h & kv & ? & ?)]; [by eauto 10|by eauto 10].
      + intros (h & kv & [[= -> ->]|Hin] & Hp'); [left; congruence|right; eauto]. }
  exists (get_nrs_map_from_set S'). split.
  - eapply (nrs_get_unique s c subs top net' r'); [done..|]. fold name. intros l. unfold S'.
    rewrite elem_of_union, elem_of_singleton, elem_of_filter. cbn. naive_solver.
  - intros name' Hne. apply other_name_kept. intros l. unfold S'.
    rewrite elem_of_union, elem_of_singleton, elem_of_filter. cbn. naive_solver.
Qed.

(** ** Removing *)

(** A name without a link: nothing is found for a top name, an error for a name below one. *)
Lemma nrs_get_absent s c subs top net r m S :
  safe_client s = Some c → name_ok subs top → holds_names net top r m S →
  (∀ l, (full_name subs top, l) ∉ S) →
  nrs_get s (full_name subs top) None net = (net, Returns (Ok (
    if public_name_contains_subname (full_name subs top) then Err (NrsOther ApiContentError)
    else Ok (None, get_nrs_map_from_set S)))).
Proof.
  intros Hc Hn Hh Hno. unfold nrs_get, mbind, api_bind. rewrite (subnames_map_eq s c subs top net r m S) by done.
  assert (get_nrs_map_from_set S !! full_name subs top = None) as Hl.
  { apply eq_None_not_Some. intros [l [Hin _]%nrs_map_lookup]. by apply (Hno l). }
  assert (nrs_map_get (get_nrs_map_from_set S) (full_name subs top) =
    if public_name_contains_subname (full_name subs top) then Err ApiContentError else Ok None) as Hget.
  { unfold nrs_map_get. by rewrite Hl. }
  assert (∀ o : result NrsError NrsMap, o = Ok (get_nrs_map_from_set S) →
    (m ← o; url ← map_err NrsOther (nrs_map_get m (full_name subs top)); Ok (url, m)) =
    if public_name_contains_subname (full_name subs top) then Err (NrsOther ApiContentError)
    else Ok (None, get_nrs_map_from_set S)) as Hfin.
  { intros o ->. cbn [mbind result_bind]. rewrite Hget. by destruct (public_name_contains_subname _). }
  unfold mret, api_ret. f_equal. f_equal. f_equal. apply Hfin.
  unfold nrs_map_of_set. case_decide; [|done]. rewrite existsb_all_false; [done|].
  apply Forall_forall. intros [n l] Hin%elem_of_bset_iter. cbn. apply bool_decide_eq_false. intros ->.
  apply elem_of_difference in Hin as [Hin _]. by apply (Hno l).
Qed.

(** A removed name is not found any more, and the links of the other names stay. *)
Theorem remove_then_get s c subs top net net' r m S url :
  let name := full_name subs top in
  safe_client s = Some c → dry_run_mode s = false → name_ok subs top →
  holds_names net top r m S → settled r →
  reg_known r !! node_hash (mkNode MULTIMAP_REMOVED_MARK
    (current_versions (filter (λ x, x.2.1 = as_bytes name) m))) = None →
  nrs_remove s name net = (net', Returns (Ok url)) →
  ∃ map, nrs_get s name None net' = (net', Returns (Ok (
      if public_name_contains_subname name then Err (NrsOther ApiContentError) else Ok (None, map)))) ∧
    ∀ name', name' ≠ name → map !! name' = get_nrs_map_from_set S !! name'.
Proof.
  intros name Hc Hdry Hn (Hr & Hm & HS) Hset Hfresh Ha.
  unfold nrs_remove in Ha. unfold name in Ha. rewrite (validate_name subs top Hn) in Ha. fold name in Ha.
  rewrite (api_bind_eq _ _ net net (nrs_url_of subs top)) in Ha by done.
  rewrite (api_bind_eq _ _ net net (filter (λ e, e.2.1 = as_bytes name) m)) in Ha
    by by apply (fetch_by_key_eq s c _ (name_address top) _ r).
  apply api_bind_Ok in Ha as (net1 & h & Hi & [Hu <-]%lift_Ok).
  destruct (multimap_write_Ok _ _ _ _ _ _ _ (nrs_url_of subs top) (name_address top) r Hi) as (-> & (r' & Hr' & Hk & _) & Ho);
    [done|by rewrite display_name, from_url_name|done|done|].
  pose proof (name_scalars subs top Hn) as Hsn. fold name in Hsn.
  exists (get_nrs_map_from_set (filter (λ p, p.1 ≠ name) S)). split.
  - eapply (nrs_get_absent s c subs top net' r'); [done..| |].
    + split; [done|]. split; [|by apply (kept_names r m S name)].
      eapply removed_multimap; eauto using versions_replaceable.
    + intros l [? _]%elem_of_filter. done.
  - intros name' Hne. apply other_name_kept. intros l. rewrite elem_of_filter. cbn. naive_solver.
Qed.

(** ** Associating again *)

(** Associating a name that has no link with a link it had before its first removal does
    nothing: the call reports success, and the name is still not found. *)
Theorem reassociation_is_lost s c subs top link net net' r m S n url :
  safe_client s = Some c → dry_run_mode s = false → name_ok subs top →
  holds_names net top r m S → (∀ l, (full_name subs top, l) ∉ S) →
  association m (full_name subs top) link = Some n → is_Some (reg_known r !! node_hash n) →
  nrs_associate s (full_name subs top) link net = (net', Returns (Ok url)) →
  nrs_get s (full_name subs top) None net' = (net', Returns (Ok (
    if public_name_contains_subname (full_name subs top) then Err (NrsOther ApiContentError)
    else Ok (None, get_nrs_map_from_set S)))).
Proof.
  intros Hc Hdry Hn (Hr & Hm & HS) Hno Has [n0 Hn0] Ha.
  destruct (nrs_associate_Ok s c subs top net r m link net' url) as (n' & r' & Has' & Hr' & Hk & _); [done..|].
  rewrite Has in Has'. injection Has' as <-. rewrite (union_known _ _ n0) in Hk by done.
  apply (nrs_get_absent s c subs top net' r' m S); [done..| |done].
  split; [done|]. split; [|done]. destruct (known_reads r' r Hk) as [Hreads _]. by rewrite Hreads.
Qed.

(** ** Creating a name that exists *)

Lemma validate_top top : name_ok [] top → validate_nrs_top_name (full_name [] top) = Ok (nrs_url_of [] top).
Proof.
  intros Hn. unfold validate_nrs_top_name. change (lit "safe://") with URL_PROTOCOL.
  rewrite (from_url_name [] top Hn). cbn. by rewrite decide_False by naive_solver.
Qed.

Lemma register_create_Ok s c name tag ct net net' x :
  safe_client s = Some c → dry_run_mode s = false →
  register_create s (Some name) tag ct net = (net', Returns (Ok x)) →
  let a := mkRegisterAddress name tag in
  let p := owner_policy (Key (cl_public_key c)) in
  net_register net' a = Some (default (Register.new (owner p) name tag p) (net_register net a)) ∧
  ∀ a', a' ≠ a → net_register net' a' = net_register net a'.
Proof.
  intros Hc Hdry Hi. unfold register_create in Hi. rewrite Hdry in Hi. unfold get_safe_client in Hi.
  rewrite Hc in Hi. api_inv Hi. destruct a1 as [a1 wal]. unfold create_register in Ha1.
  api_inv Ha1. injection Ha1 as <- <-. apply api_bind_Ok in Hi as (net1 & [] & Hp & [_ ->]%ret_Ok).
  by apply publish_one_Ok, net_create in Hp.
Qed.

(** Creating a top name that exists is refused, unless the entries of its map conflict:
    then the call sends the creation again, reports success and leaves the register as it is. *)
Theorem create_existing_name s c top net r m S :
  safe_client s = Some c → dry_run_mode s = false → name_ok [] top → holds_names net top r m S →
  let name := full_name [] top in
  (size (get_nrs_map_from_set S) = size S →
     nrs_create s name net = (net, Returns (Err (ApiNrsNameAlreadyExists name)))) ∧
  (size (get_nrs_map_from_set S) ≠ size S →
     ∀ net' x, multimap_create s (Some (ra_name (name_address top))) NRS_MAP_TYPE_TAG net = (net', Returns (Ok x)) →
     nrs_create s name net = (net', Returns (Ok (nrs_url_of [] top))) ∧
     net_register net' (name_address top) = Some r).
Proof.
  intros Hc Hdry Hn Hh name.
  assert (∀ net' o, (if is_ok (nrs_map_of_set S) then throw (ApiNrsNameAlreadyExists name) else
      _ ← multimap_create s (Some (ra_name (name_address top))) NRS_MAP_TYPE_TAG; mret (nrs_url_of [] top)) net =
      (net', o) → nrs_create s name net = (net', o)) as Hcreate.
  { intros net' o Ho. unfold nrs_create, name. rewrite (validate_top top Hn).
    rewrite (api_bind_eq _ _ net net (nrs_url_of [] top)) by done.
    rewrite (api_bind_eq _ _ net net (nrs_url_of [] top)) by done.
    rewrite (api_bind_eq _ _ net net (nrs_url_of [] top)).
    2:{ unfold lift_url. by rewrite display_name, (from_nrsurl_name [] top Hn). }
    rewrite (api_bind_eq _ _ net net (nrs_map_of_set S)) by by apply (subnames_map_eq s c [] top net r m S).
    exact Ho. }
  unfold nrs_map_of_set in Hcreate. split.
  - intros Hsz. apply Hcreate. by rewrite decide_False by naive_solver.
  - intros Hsz net' x Hmk. split.
    + apply Hcreate. rewrite decide_True by done. cbn [is_ok]. by rewrite (api_bind_eq _ _ net net' x).
    + destruct (register_create_Ok s c _ _ _ _ _ _ Hc Hdry Hmk) as [Hreg _].
      destruct Hh as [Hr _]. cbn in Hreg. unfold name_address in *. cbn in *. by rewrite Hreg, Hr.
Qed.
End names.
