(* ===== verification/Resolver.v ===== *)
(** * Resolution of URLs

    [sn_api/src/app/resolver]: [safe_data.rs], [handlers.rs] and [mod.rs], with the reading of
    files and files containers from [files/mod.rs].  A URL is resolved step by step, through
    names and files containers, with a limit on the number of steps. *)

From Stdlib Require Import String.
From S2P Require Import Prelude External Xor NodeState SectionsDag Sap Keys Register UsedSpace Storage.
From S2P Require Import Text SafeUrl FilesMap Api Nrs.

(** [serde_json] of a map of files. *)
Class FilesJson := {
  files_map_to_json : FilesMap → option bytes;
  files_map_of_json : bytes → option FilesMap;
}.

Section resolver.
Context {B : Bls} {BSh : BlsShares} {BPS : BlsPublicShares} {E : Ed25519} {X : Xor}.
Context {M : Merkle bytes} {AE : ApiEnv} {HB : HashBytes} {BC : Bincode CreateRegister} {BE : Bincode EditRegister}.
Context {XB : XorBytes} {UC : UrlCrates} {RK : Rmp (bytes * bytes)} {OU : Ord SafeUrl} {FJ : FilesJson}.

(** ** Reading files *)

(** [Range]: an optional start and end. *)
Definition Range : Type := option (option Z * option Z).
Definition USIZE_MAX : Z := 2 ^ 64 - 1.

(** Subtracting wraps around, as in a release build. *)
Definition get_bytes (s : Safe) (name : XorName) (range : Range) : api bytes :=
  _ ← lift (get_safe_client s);
  ask (λ net, map_err (λ _, ApiNetDataError)
    match range with
    | Some (start, end_) =>
        let start := default 0%Z start in
        let len := match end_ with Some e => wrap64 (e - start) | None => USIZE_MAX end in
        read_from name start len net
    | None => read_bytes name net
    end).

Definition fetch_data (s : Safe) (u : SafeUrl) (range : Range) : api bytes :=
  match data_type u with
  | DtFile => get_bytes s (xorname u) range
  | _ => throw ApiContentError
  end.

Definition container_error (e : ApiError) : ApiError :=
  match e with
  | ApiContentNotFound => ApiContentNotFound
  | ApiHashNotFound _ => ApiVersionNotFound
  | _ => ApiNetDataError
  end.
Definition fetch_files_container (s : Safe) (u : SafeUrl) : api (option (VersionHash * FilesMap)) :=
  r ← attempt (register_fetch_entries s u);
  entries ← lift (map_err container_error r);
  if decide (1 < size entries) then throw ApiNotImplementedError else
  match head (bset_iter entries) with
  | None => mret None
  | Some (v, m) =>
      files_map_xorurl ← lift (ok_or (from_utf8 m) ApiInvalidUtf8Sequence);
      files_map_url ← lift_url (from_xorurl files_map_xorurl);
      serialised ← fetch_data s files_map_url None;
      files_map ← lift (ok_or (files_map_of_json serialised) ApiContentError);
      mret (Some (version_of v, files_map))
  end.

(** ** Resolved data *)

Inductive SafeData :=
  | SdSafeKey (xorurl : ustr) (name : XorName) (resolved_from : ustr)
  | SdFilesContainer (xorurl : ustr) (name : XorName) (tag : Z) (version : option VersionHash) (files_map : FilesMap)
      (dt : DataType) (metadata : option FileInfo) (resolves_into : option SafeUrl) (resolved_from : ustr)
  | SdPublicFile (xorurl : ustr) (name : XorName) (data : bytes) (media_type : option ustr)
      (metadata : option FileInfo) (resolved_from : ustr)
  | SdNrsMapContainer (xorurl : ustr) (name : XorName) (tag : Z) (nrs_map : NrsMap) (dt : DataType)
  | SdNrsEntry (xorurl : ustr) (public_name : ustr) (dt : DataType) (resolves_into : SafeUrl) (resolved_from : ustr)
      (version : option (Hash bytes))
  | SdMultimap (xorurl : ustr) (name : XorName) (tag : Z) (data : MultimapEntries) (resolved_from : ustr)
  | SdRegister (xorurl : ustr) (name : XorName) (tag : Z) (data : gset (Hash bytes * bytes)) (resolved_from : ustr).

Definition sd_xorurl (d : SafeData) : ustr :=
  match d with
  | SdSafeKey x _ _ | SdFilesContainer x _ _ _ _ _ _ _ _ | SdPublicFile x _ _ _ _ _ | SdNrsMapContainer x _ _ _ _
  | SdNrsEntry x _ _ _ _ _ | SdMultimap x _ _ _ _ | SdRegister x _ _ _ _ => x
  end.
Definition sd_resolved_from (d : SafeData) : option ustr :=
  match d with
  | SdSafeKey _ _ r | SdFilesContainer _ _ _ _ _ _ _ _ r | SdPublicFile _ _ _ _ _ r | SdNrsEntry _ _ _ _ r _
  | SdMultimap _ _ _ _ r | SdRegister _ _ _ _ r => Some r
  | SdNrsMapContainer _ _ _ _ _ => None
  end.
Definition sd_resolves_into (d : SafeData) : option SafeUrl :=
  match d with
  | SdFilesContainer _ _ _ _ _ _ _ r _ => r
  | SdNrsEntry _ _ _ r _ _ => Some r
  | _ => None
  end.
Definition sd_metadata (d : SafeData) : option FileInfo :=
  match d with
  | SdFilesContainer _ _ _ _ _ _ m _ _ | SdPublicFile _ _ _ _ m _ => m
  | _ => None
  end.

(** ** One step *)

(** [path_decoded], with its error of the library. *)
Definition decoded_path (u : SafeUrl) : api ustr := lift_url (path_decoded u).

Definition ensure_no_subnames (u : SafeUrl) : result ApiError unit :=
  match sub_names_vec u with [] => Ok () | _ => Err ApiInvalidXorUrl end.

Definition resolve_nrs_map_container (s : Safe) (u : SafeUrl) : api SafeData :=
  r ← nrs_get s (public_name u) (content_version u);
  '(target, nrs_map) ← lift (map_err (λ _, ApiContentNotFound) r);
  match target with
  | Some target_url =>
      url_path ← decoded_path u;
      target_path ← decoded_path target_url;
      let target_url := set_path target_url (target_path ++ url_path) in
      mret (SdNrsEntry (to_xorurl_string target_url) (public_name u) (data_type target_url) target_url (display u)
              (version_entry <$> content_version u))
  | None => mret (SdNrsMapContainer (to_xorurl_string u) (xorname u) (type_tag u) nrs_map (data_type u))
  end.

Definition resolve_multimap (s : Safe) (u : SafeUrl) (retrieve_data : bool) : api SafeData :=
  data ← (if retrieve_data then
            match content_version u with
            | None => fetch_multimap s u
            | Some v =>
                kv ← fetch_multimap_value_by_hash s u (version_entry v);
                mret {[(version_entry v, kv)]}
            end
          else mret ∅);
  mret (SdMultimap (to_xorurl_string u) (xorname u) (type_tag u) data (display u)).

(** [Error::ContentError] carries the decoded path, whose decoding may fail first. *)
Definition retrieve_data (s : Safe) (u : SafeUrl) (retrieve : bool) (media_type : option ustr)
    (metadata : option FileInfo) (range : Range) : api SafeData :=
  if decide (SafeUrl.path u ≠ []) then _ ← decoded_path u; throw ApiContentError else
  data ← (if retrieve then fetch_data s u range else mret []);
  mret (SdPublicFile (to_xorurl_string u) (xorname u) data media_type metadata (display u)).

Definition resolve_raw (s : Safe) (u : SafeUrl) (metadata : option FileInfo) (retrieve : bool) (range : Range)
    : api SafeData :=
  _ ← lift (ensure_no_subnames u);
  match data_type u with
  | DtSafeKey => mret (SdSafeKey (to_xorurl_string u) (xorname u) (display u))
  | DtFile => retrieve_data s u retrieve None metadata range
  | DtRegister =>
      data ← (if retrieve then
                match content_version u with
                | None => register_fetch_entries s u
                | Some v =>
                    entry ← register_fetch_entry s u (version_entry v);
                    mret {[(version_entry v, entry)]}
                end
              else mret ∅);
      mret (SdRegister (to_xorurl_string u) (xorname u) (type_tag u) data (display u))
  | DtSpentbook => mret (SdRegister (to_xorurl_string u) (xorname u) (type_tag u) ∅ (display u))
  end.

Definition resolve_mediatype (s : Safe) (u : SafeUrl) (metadata : option FileInfo) (retrieve : bool) (range : Range)
    (media_type : ustr) : api SafeData :=
  _ ← lift (ensure_no_subnames u);
  match data_type u with
  | DtFile => retrieve_data s u retrieve (Some media_type) metadata range
  | _ => throw ApiContentError
  end.

(** What the path of a container leads to: the files below it, and the link of a file. *)
Definition resolve_container_path (fuel : nat) (files_map : FilesMap) (path : ustr)
    : api (FilesMap * option SafeUrl * option FileInfo) :=
  r ← attempt (lift_outcome (file_map_for_path fuel files_map path));
  files_map_for_path ← lift (map_err (λ _, ApiContentError) r);
  r ← attempt (lift_outcome (get_file_link_and_metadata fuel files_map_for_path path));
  '(link, metadata) ← lift (map_err (λ _, ApiContentError) r);
  resolves_into ← match link with
                  | Some l => u ← lift_url (from_url l); mret (Some u)
                  | None => mret None
                  end;
  mret (files_map_for_path, resolves_into, metadata).

Definition resolve_file_container (fuel : nat) (s : Safe) (u : SafeUrl) (resolve_path : bool) : api SafeData :=
  _ ← lift (ensure_no_subnames u);
  found ← fetch_files_container s u;
  let '(version, files_map) :=
    match found with Some (version, m) => (Some version, m) | None => (None, ∅) end in
  path ← decoded_path u;
  '(files_map, resolves_into, metadata) ←
    (if negb resolve_path || bool_decide (path = [SLASH]) || is_nil path then mret (files_map, None, None)
     else resolve_container_path fuel files_map path);
  let u := set_path u [] in
  mret (SdFilesContainer (to_xorurl_string u) (xorname u) (type_tag u) version files_map (data_type u) metadata
          resolves_into (display u)).

Definition resolve_url (fuel : nat) (s : Safe) (u : SafeUrl) (metadata : option FileInfo) (retrieve : bool)
    (range : Range) (resolve_path : bool) : api SafeData :=
  match content_type u with
  | FilesContainer => resolve_file_container fuel s u resolve_path
  | NrsMapContainer => resolve_nrs_map_container s u
  | Multimap => resolve_multimap s u retrieve
  | Raw => resolve_raw s u metadata retrieve range
  | MediaType media_type => resolve_mediatype s u metadata retrieve range media_type
  | Wallet => resolve_multimap s u retrieve
  end.

(** ** All steps *)

Definition INDIRECTION_LIMIT : nat := 10.

(** The loop with the steps that are left; the last of them always fails. *)
Fixpoint resolve_loop (fuel : nat) (s : Safe) (next : option SafeUrl) (metadata : option FileInfo) (retrieve : bool)
    (range : Range) (resolve_path : bool) (limit : nat) (chain : list SafeData) : api (list SafeData) :=
  match next with
  | None => mret chain
  | Some next_url =>
      d ← resolve_url fuel s next_url metadata retrieve range resolve_path;
      match limit with
      | 0 => throw ApiContentError
      | S limit =>
          resolve_loop fuel s (sd_resolves_into d) (sd_metadata d) retrieve range resolve_path limit (chain ++ [d])
      end
  end.

Definition fully_resolve_url (fuel : nat) (s : Safe) (u : SafeUrl) (metadata : option FileInfo) (retrieve : bool)
    (range : Range) (resolve_path : bool) : api (list SafeData) :=
  resolve_loop fuel s (Some u) metadata retrieve range resolve_path INDIRECTION_LIMIT [].

(** The path is not resolved: no fuel is used. *)
Definition parse_and_resolve_url (s : Safe) (url : ustr) : api SafeUrl :=
  u ← lift_url (from_url url);
  orig_path ← decoded_path u;
  chain ← fully_resolve_url 0 s u None false None false;
  d ← lift (ok_or (last chain) ApiContentNotFound);
  new_url ← lift_url (from_url (sd_xorurl d));
  mret (set_path new_url orig_path).

Definition fetch (fuel : nat) (s : Safe) (url : ustr) (range : Range) : api SafeData :=
  u ← lift_url (from_url url);
  chain ← fully_resolve_url fuel s u None true range true;
  lift (ok_or (last chain) ApiContentNotFound).

Definition inspect (fuel : nat) (s : Safe) (url : ustr) : api (list SafeData) :=
  u ← lift_url (from_url url);
  fully_resolve_url fuel s u None false None true.

(** ** Calls that resolve their URL *)

Definition register_read (s : Safe) (url : ustr) : api (gset (Hash bytes * bytes)) :=
  u ← parse_and_resolve_url s url; register_fetch_entries s u.
Definition register_read_entry (s : Safe) (url : ustr) (h : Hash bytes) : api bytes :=
  u ← parse_and_resolve_url s url; register_fetch_entry s u h.
Definition register_write (s : Safe) (url : ustr) (entry : bytes) (parents : gset (Hash bytes)) : api (Hash bytes) :=
  u ← parse_and_resolve_url s url; register_write_at s u entry parents.
Definition multimap_get_by_key (s : Safe) (url : ustr) (key : bytes) : api MultimapEntries :=
  u ← parse_and_resolve_url s url; fetch_multimap_values_by_key s u key.
Definition multimap_get_by_hash (s : Safe) (url : ustr) (h : Hash bytes) : api (bytes * bytes) :=
  u ← parse_and_resolve_url s url; fetch_multimap_value_by_hash s u h.
Definition files_get (s : Safe) (url : ustr) (range : Range) : api bytes :=
  u ← parse_and_resolve_url s url; fetch_data s u range.
Definition files_container_get (s : Safe) (url : ustr) : api (option (VersionHash * FilesMap)) :=
  u ← parse_and_resolve_url s url; fetch_files_container s u.
End resolver.
