(* ===== verification/ResolverProps.v ===== *)
(** * Properties of the resolution of URLs

    Resolving reads the network and always returns; what it returns is the chain of the
    steps, if there are at most ten. *)

From Stdlib Require Import String.
From S2P Require Import Prelude External Xor NodeState SectionsDag Sap Keys Register UsedSpace Storage.
From S2P Require Import Text SafeUrl FilesMap Api ApiProps Nrs Resolver.

Create HintDb reading.

Section resolver.
Context {B : Bls} {BSh : BlsShares} {BPS : BlsPublicShares} {E : Ed25519} {X : Xor}.
Context {M : Merkle bytes} {AE : ApiEnv} {HB : HashBytes} {BC : Bincode CreateRegister} {BE : Bincode EditRegister}.
Context {XB : XorBytes} {UC : UrlCrates} {RK : Rmp (bytes * bytes)} {OU : Ord SafeUrl} {FJ : FilesJson}.

(** ** Computations that only read *)

Definition reads {A} (m : api A) : Prop := ∀ net, (m net).1 = net.
(** They return, and only read. *)
Definition reads_and_returns {A} (m : api A) : Prop := ∀ net, ∃ r, m net = (net, Returns r).

Lemma returns_reads {A} (m : api A) : reads_and_returns m → reads m.
Proof. intros Hm net. by destruct (Hm net) as [r ->]. Qed.

Lemma reads_bind {A C} (m : api A) (f : A → api C) : reads m → (∀ a, reads (f a)) → reads (m ≫= f).
Proof.
  intros Hm Hf net. unfold mbind, api_bind. specialize (Hm net).
  destruct (m net) as [net1 [[a|e]| |]]; cbn in Hm; subst; try done. apply Hf.
Qed.
Lemma reads_attempt {A} (m : api A) : reads m → reads (attempt m).
Proof. intros Hm net. unfold attempt. specialize (Hm net). by destruct (m net) as [net1 [[a|e]| |]]. Qed.
Lemma reads_outcome {A} (o : outcome (result ApiError A)) : reads (lift_outcome o).
Proof. done. Qed.

Lemma returns_bind {A C} (m : api A) (f : A → api C) :
  reads_and_returns m → (∀ a, reads_and_returns (f a)) → reads_and_returns (m ≫= f).
Proof.
  intros Hm Hf net. unfold mbind, api_bind. destruct (Hm net) as [[a|e] ->]; [apply Hf|by eexists].
Qed.
Lemma returns_attempt {A} (m : api A) : reads_and_returns m → reads_and_returns (attempt m).
Proof. intros Hm net. unfold attempt. destruct (Hm net) as [r ->]. by eexists. Qed.
Lemma returns_lift {A} (r : result ApiError A) : reads_and_returns (lift r).
Proof. intros net. by eexists. Qed.
Lemma returns_url {A} (r : result UrlError A) : reads_and_returns (lift_url r).
Proof. apply returns_lift. Qed.
Lemma returns_throw {A} e : reads_and_returns (throw e : api A).
Proof. apply returns_lift. Qed.
Lemma returns_ret {A} (a : A) : reads_and_returns (mret a).
Proof. intros net. by eexists. Qed.
Lemma returns_ask {A} (f : Net → result ApiError A) : reads_and_returns (ask f).
Proof. intros net. by eexists. Qed.
End resolver.

#[export] Hint Resolve returns_lift returns_url returns_throw returns_ret returns_ask returns_attempt : reading.
#[export] Hint Resolve returns_reads reads_attempt reads_outcome : reading.

(** Follows the structure of a computation that reads. *)
Ltac solve_returns :=
  repeat first
    [ progress intros
    | solve [eauto with reading]
    | apply returns_bind
    | apply returns_attempt
    | match goal with |- reads_and_returns (match ?x with _ => _ end) => destruct x end
    | match goal with |- reads_and_returns ((match ?x with _ => _ end) _) => destruct x end ].
Ltac solve_reads :=
  repeat first
    [ progress intros
    | solve [eauto with reading]
    | apply reads_bind
    | apply reads_attempt
    | match goal with |- reads (match ?x with _ => _ end) => destruct x end ].

Section chains.
Context {B : Bls} {BSh : BlsShares} {BPS : BlsPublicShares} {E : Ed25519} {X : Xor}.
Context {M : Merkle bytes} {AE : ApiEnv} {HB : HashBytes} {BC : Bincode CreateRegister} {BE : Bincode EditRegister}.
Context {XB : XorBytes} {UC : UrlCrates} {RK : Rmp (bytes * bytes)} {OU : Ord SafeUrl} {FJ : FilesJson}.

Lemma fetch_entry_returns s u h : reads_and_returns (register_fetch_entry s u h).
Proof. unfold register_fetch_entry. solve_returns. Qed.
Hint Resolve fetch_entry_returns : reading.
Lemma fetch_entries_returns s u : reads_and_returns (register_fetch_entries s u).
Proof. unfold register_fetch_entries. solve_returns. Qed.
Hint Resolve fetch_entries_returns : reading.
Lemma fetch_multimap_returns s u : reads_and_returns (fetch_multimap s u).
Proof. unfold fetch_multimap. solve_returns. Qed.
Hint Resolve fetch_multimap_returns : reading.
Lemma fetch_by_hash_returns s u h : reads_and_returns (fetch_multimap_value_by_hash s u h).
Proof. unfold fetch_multimap_value_by_hash. solve_returns. Qed.
Hint Resolve fetch_by_hash_returns : reading.
Lemma nrs_entries_returns s u v : reads_and_returns (fetch_nrs_entries s u v).
Proof. unfold fetch_nrs_entries. solve_returns. Qed.
Hint Resolve nrs_entries_returns : reading.
Lemma subnames_map_returns s name v : reads_and_returns (nrs_get_subnames_map s name v).
Proof. unfold nrs_get_subnames_map. solve_returns. Qed.
Hint Resolve subnames_map_returns : reading.
Lemma nrs_get_returns s name v : reads_and_returns (nrs_get s name v).
Proof. unfold nrs_get. solve_returns. Qed.
Hint Resolve nrs_get_returns : reading.
Lemma get_bytes_returns s name range : reads_and_returns (get_bytes s name range).
Proof. unfold get_bytes. solve_returns. Qed.
Hint Resolve get_bytes_returns : reading.
Lemma fetch_data_returns s u range : reads_and_returns (fetch_data s u range).
Proof. unfold fetch_data. solve_returns. Qed.
Hint Resolve fetch_data_returns : reading.
Lemma fetch_container_returns s u : reads_and_returns (fetch_files_container s u).
Proof. unfold fetch_files_container. solve_returns. Qed.
Hint Resolve fetch_container_returns : reading.
Lemma decoded_path_returns u : reads_and_returns (decoded_path u).
Proof. apply returns_url. Qed.
Hint Resolve decoded_path_returns : reading.
Lemma resolve_nrs_returns s u : reads_and_returns (resolve_nrs_map_container s u).
Proof. unfold resolve_nrs_map_container. solve_returns. Qed.
Lemma resolve_multimap_returns s u b : reads_and_returns (resolve_multimap s u b).
Proof. unfold resolve_multimap. solve_returns. Qed.
Lemma retrieve_data_returns s u b mt md range : reads_and_returns (retrieve_data s u b mt md range).
Proof. unfold retrieve_data. solve_returns. Qed.
Hint Resolve resolve_nrs_returns resolve_multimap_returns retrieve_data_returns : reading.
Lemma resolve_raw_returns s u md b range : reads_and_returns (resolve_raw s u md b range).
Proof. unfold resolve_raw. solve_returns. Qed.
Lemma resolve_mediatype_returns s u md b range mt : reads_and_returns (resolve_mediatype s u md b range mt).
Proof. unfold resolve_mediatype. solve_returns. Qed.
Hint Resolve resolve_raw_returns resolve_mediatype_returns : reading.

(** Only the path of a container takes fuel. *)
Lemma resolve_container_reads fuel s u rp : reads (resolve_file_container fuel s u rp).
Proof. unfold resolve_file_container, resolve_container_path. solve_reads. Qed.
Lemma resolve_container_returns fuel s u : reads_and_returns (resolve_file_container fuel s u false).
Proof. unfold resolve_file_container. cbn [negb orb]. solve_returns. Qed.
Hint Resolve resolve_container_reads resolve_container_returns : reading.

Lemma resolve_url_reads fuel s u md b range rp : reads (resolve_url fuel s u md b range rp).
Proof. unfold resolve_url. solve_reads. Qed.
Lemma resolve_url_returns fuel s u md b range : reads_and_returns (resolve_url fuel s u md b range false).
Proof. unfold resolve_url. solve_returns. Qed.
Hint Resolve resolve_url_returns : reading.

(** ** Chains of steps *)

Section steps.
Context (fuel : nat) (s : Safe) (retrieve : bool) (range : Range) (resolve_path : bool) (net : Net).

Abbreviation step u md d := (resolve_url fuel s u md retrieve range resolve_path net = (net, Returns (Ok d))).

(** The data that a URL resolves to, step by step, until it leads nowhere else. *)
Inductive resolves_to : SafeUrl → option FileInfo → list SafeData → Prop :=
  | resolves_last u md d : step u md d → sd_resolves_into d = None → resolves_to u md [d]
  | resolves_step u md d u' chain :
      step u md d → sd_resolves_into d = Some u' → resolves_to u' (sd_metadata d) chain →
      resolves_to u md (d :: chain).

(** A URL that leads on for [n] steps. *)
Inductive leads_on : nat → SafeUrl → option FileInfo → Prop :=
  | leads_zero u md d : step u md d → leads_on 0 u md
  | leads_step n u md d u' :
      step u md d → sd_resolves_into d = Some u' → leads_on n u' (sd_metadata d) → leads_on (S n) u md.

Lemma resolve_loop_spec limit u md chain0 chain :
  resolve_loop fuel s (Some u) md retrieve range resolve_path limit chain0 net = (net, Returns (Ok chain)) ↔
  ∃ rest, chain = chain0 ++ rest ∧ resolves_to u md rest ∧ length rest ≤ limit.
Proof.
  revert u md chain0. induction limit as [|limit IH]; intros u md chain0; cbn [resolve_loop].
  - split.
    + intros (net1 & d & _ & [? _]%lift_Ok)%api_bind_Ok. done.
    + intros (rest & _ & Hr & Hlen). destruct Hr; cbn in Hlen; lia.
  - pose proof (resolve_url_reads fuel s u md retrieve range resolve_path net) as Hread. split.
    + intros (net1 & d & Hd & H)%api_bind_Ok. rewrite Hd in Hread. cbn in Hread. subst net1.
      destruct (sd_resolves_into d) as [u'|] eqn:Hu.
      * apply IH in H as (rest & -> & Hr & Hlen). exists (d :: rest).
        split; [by rewrite <-(assoc_L (++))|]. split; [by eapply resolves_step|cbn; lia].
      * destruct limit; cbn in H; apply ret_Ok in H as [<- _]; exists [d];
          (split; [done|]; split; [by apply resolves_last|cbn; lia]).
    + intros (rest & -> & Hr & Hlen). destruct Hr as [u md d Hd Hn|u md d u' rest Hd Hn Hr].
      * rewrite (api_bind_eq _ _ net net d) by done. rewrite Hn. by destruct limit.
      * rewrite (api_bind_eq _ _ net net d) by done. rewrite Hn. apply IH. exists rest.
        split; [by rewrite <-(assoc_L (++))|]. split; [done|]. cbn in Hlen. lia.
Qed.

Lemma resolve_loop_leads limit u md chain0 :
  leads_on limit u md →
  resolve_loop fuel s (Some u) md retrieve range resolve_path limit chain0 net = (net, Returns (Err ApiContentError)).
Proof.
  intros H. revert chain0. induction H as [u md d Hd|n u md d u' Hd Hu _ IH]; intros chain0; cbn [resolve_loop];
    rewrite (api_bind_eq _ _ net net d) by done; [done|]. rewrite Hu. apply IH.
Qed.

(** Resolving a URL fully gives exactly the chain of its steps, when that has at most
    ten; a URL that leads on for more is refused with a content error. *)
Theorem resolution_is_the_chain u md :
  (∀ chain, fully_resolve_url fuel s u md retrieve range resolve_path net = (net, Returns (Ok chain)) ↔
     resolves_to u md chain ∧ length chain ≤ INDIRECTION_LIMIT) ∧
  (leads_on INDIRECTION_LIMIT u md →
     fully_resolve_url fuel s u md retrieve range resolve_path net = (net, Returns (Err ApiContentError))).
Proof.
  split; [|apply resolve_loop_leads]. intros chain. unfold fully_resolve_url. rewrite resolve_loop_spec.
  split; [by intros (rest & -> & ?)|by intros ?; exists chain].
Qed.
End steps.

Lemma resolve_loop_returns s next md retrieve range limit chain :
  reads_and_returns (resolve_loop 0 s next md retrieve range false limit chain).
Proof.
  revert next md chain. induction limit as [|limit IH]; intros [u|] md chain; cbn [resolve_loop]; solve_returns; apply IH.
Qed.

Lemma parse_and_resolve_reads s url : reads_and_returns (parse_and_resolve_url s url).
Proof.
  unfold parse_and_resolve_url, fully_resolve_url. apply returns_bind; [apply returns_url|intros u].
  apply returns_bind; [apply returns_url|intros p]. apply returns_bind; [apply resolve_loop_returns|intros c].
  solve_returns.
Qed.

(** Resolving a URL for a call always returns, with a URL or an error, and it does not
    change the network; neither loops of links nor what the network holds keep it from it. *)
Theorem parse_and_resolve_returns s url net :
  ∃ r, parse_and_resolve_url s url net = (net, Returns r).
Proof. apply parse_and_resolve_reads. Qed.
End chains.
