(* ===== verification/FilesContainer.v ===== *)
(** * Operations on files containers

    [sn_api/src/app/files/mod.rs]: creating, syncing, adding to and removing from the files
    container behind a URL.  A container is a register whose entry links to the stored map of
    its files; an operation computes the new map, stores it, writes an entry over the current
    version and, if asked, associates the name with the new version. *)

From Stdlib Require Import String.
From S2P Require Import Prelude External Xor NodeState SectionsDag Sap Keys Register UsedSpace Storage.
From S2P Require Import Text SafeUrl FilesMap FilesSync Api Nrs Resolver.

Section container.
Context {B : Bls} {BSh : BlsShares} {BPS : BlsPublicShares} {E : Ed25519} {X : Xor}.
Context {M : Merkle bytes} {AE : ApiEnv} {HB : HashBytes} {BC : Bincode CreateRegister} {BE : Bincode EditRegister}.
Context {XB : XorBytes} {UC : UrlCrates} {RK : Rmp (bytes * bytes)} {OU : Ord SafeUrl} {FJ : FilesJson}.
Context {LF : LocalFiles}.

(** The listing of a local folder, as in [file_system_dir_walk]. *)
Context (walk_dir : ustr → (DirEntry → bool) → list DirEntry).

Definition FILES_CONTAINER_TYPE_TAG : Z := 1100.

Definition store_files_map (s : Safe) (m : FilesMap) : result ApiError ustr :=
  serialised ← ok_or (files_map_to_json m) ApiSerialisation;
  store_bytes (xorurl_base s) (dry_run_mode s) serialised None.

Definition files_container_create (s : Safe) : api ustr :=
  register_create s None FILES_CONTAINER_TYPE_TAG FilesContainer.

Definition files_container_create_from (s : Safe) (location : ustr) (dst : option ustr) (recursive follow_links : bool)
    : api (ustr * ProcessedFiles * FilesMap) :=
  let base := xorurl_base s in
  let dry := dry_run_mode s in
  processed ← lift (file_system_dir_walk base (walk_dir location) dry location recursive follow_links);
  '(files_map, processed) ← lift (files_map_create base dry processed location dst follow_links);
  xorurl ← files_container_create s;
  if dry then mret (xorurl, processed, files_map)
  else
    files_map_xorurl ← lift (store_files_map s files_map);
    reg_url ← lift_url (from_xorurl xorurl);
    reg_address ← lift (get_register_address reg_url);
    let entry := as_bytes files_map_xorurl in
    client ← lift (get_safe_client s);
    '(hash, reg_op) ← ask (λ net, map_err (λ _, ApiClientError) (write_to_local_register client reg_address entry ∅ net));
    _ ← publish reg_op;
    mret (display (set_content_version reg_url (Some (version_of hash))), processed, files_map).

Definition append_version_to_files_container (s : Safe) (current_version : gset VersionHash) (new_files_map : FilesMap)
    (url : ustr) (u : SafeUrl) (update_nrs : bool) : api VersionHash :=
  files_map_xorurl ← lift (if dry_run_mode s then Ok [] else store_files_map s new_files_map);
  let entry := as_bytes files_map_xorurl in
  let replace := set_map version_entry current_version in
  hash ← register_write s (display u) entry replace;
  let new_version := version_of hash in
  if update_nrs then
    let u := set_content_version u (Some new_version) in
    nrs_url ← lift_url (from_url url);
    _ ← nrs_associate s (top_name nrs_url) u;
    mret new_version
  else mret new_version.

Definition update_files_container (s : Safe) (changes : nat) (current_version : option VersionHash)
    (new_files_map : FilesMap) (processed : ProcessedFiles) (url : ustr) (u : SafeUrl) (update_nrs : bool)
    : api (option (VersionHash * FilesMap) * ProcessedFiles) :=
  if decide (changes = 0) then
    mret (match current_version with Some v => Some (v, new_files_map) | None => None end, processed)
  else
    let parent_versions := match current_version with Some v => {[v]} | None => ∅ end in
    new_version ← append_version_to_files_container s parent_versions new_files_map url u update_nrs;
    mret (Some (new_version, new_files_map), processed).

(** The URL of the container without its version, and whether a name can be updated. *)
Definition target_container (s : Safe) (url : ustr) (update_nrs : bool) : api SafeUrl :=
  u ← lift_url (from_url url);
  if update_nrs && negb (bool_decide (content_type u = NrsMapContainer)) then throw ApiInvalidInput else
  u ← parse_and_resolve_url s url;
  mret (set_content_version u None).

Definition current_container (s : Safe) (u : SafeUrl) : api (option VersionHash * FilesMap) :=
  found ← fetch_files_container s u;
  mret (match found with Some (version, m) => (Some version, m) | None => (None, ∅) end).

Definition files_container_sync (s : Safe) (location url : ustr) (recursive follow_links del update_nrs : bool)
    : api (option (VersionHash * FilesMap) * ProcessedFiles) :=
  if del && negb recursive then throw ApiInvalidInput else
  u ← target_container s url update_nrs;
  '(current_version, current_files_map) ← current_container s u;
  processed ← lift (file_system_dir_walk (xorurl_base s) (walk_dir location) true location recursive follow_links);
  '(processed, new_files_map, count) ←
    lift_outcome (files_map_sync (xorurl_base s) (dry_run_mode s) current_files_map location processed
      (Some (SafeUrl.path u)) del false true follow_links);
  update_files_container s count current_version new_files_map processed url u update_nrs.

Definition validate_files_add_params (s : Safe) (source_file url : ustr) (update_nrs : bool)
    : api (SafeUrl * option VersionHash * FilesMap) :=
  u ← target_container s url update_nrs;
  _ ← (if starts_with URL_PROTOCOL source_file then
         source ← lift_url (from_url source_file);
         match data_type source with
         | DtFile => if is_nil (SafeUrl.path u) then throw ApiInvalidInput else mret ()
         | _ => throw ApiInvalidInput
         end
       else mret ());
  '(current_version, current_files_map) ← current_container s u;
  mret (u, current_version, current_files_map).

Definition add_link (s : Safe) (m : FilesMap) (link name : ustr) (force : bool) : api (ProcessedFiles * FilesMap * nat) :=
  lift_outcome (r ← files_map_add_link (xorurl_base s) m link name force; Returns (Ok r)).

Definition files_container_add (s : Safe) (source_file url : ustr) (force update_nrs follow_links : bool)
    : api (option (VersionHash * FilesMap) * ProcessedFiles) :=
  '(u, current_version, current_files_map) ← validate_files_add_params s source_file url update_nrs;
  let dst_path := SafeUrl.path u in
  '(processed, new_files_map, count) ←
    (if starts_with URL_PROTOCOL source_file then add_link s current_files_map source_file dst_path force
     else
       processed ← lift (file_system_single_file (xorurl_base s) true source_file);
       lift_outcome (files_map_sync (xorurl_base s) (dry_run_mode s) current_files_map source_file processed
         (Some dst_path) false force false follow_links));
  update_files_container s count current_version new_files_map processed url u update_nrs.

Definition files_container_add_from_raw (s : Safe) (data : bytes) (url : ustr) (force update_nrs : bool)
    : api (option (VersionHash * FilesMap) * ProcessedFiles) :=
  '(u, current_version, current_files_map) ← validate_files_add_params s [] url update_nrs;
  new_file_xorurl ← lift (store_bytes (xorurl_base s) (dry_run_mode s) data None);
  '(processed, new_files_map, count) ← add_link s current_files_map new_file_xorurl (SafeUrl.path u) force;
  update_files_container s count current_version new_files_map processed url u update_nrs.

Definition files_container_remove_path (s : Safe) (url : ustr) (recursive update_nrs : bool)
    : api (VersionHash * ProcessedFiles * FilesMap) :=
  orig_url ← lift_url (from_url url);
  let dst_path := SafeUrl.path orig_url in
  if is_nil dst_path then throw ApiInvalidInput else
  u ← target_container s url update_nrs;
  found ← fetch_files_container s u;
  match found with
  | None => throw ApiEmptyContent
  | Some (current_version, files_map) =>
      '(processed, new_files_map, count) ← lift (files_map_remove_path dst_path files_map recursive);
      version ← (if decide (count = 0) then mret current_version
                 else append_version_to_files_container s {[current_version]} new_files_map url u update_nrs);
      mret (version, processed, new_files_map)
  end.
End container.
