(* ===== verification/FilesContainerProps.v ===== *)
(** * Properties of the operations on files containers

    A dry run never writes to the network, and the version that an update writes is the one
    that the next reading of the container gives. *)

From Stdlib Require Import String.
From S2P Require Import Prelude External Xor NodeState SectionsDag Sap Keys Register RegisterProps UsedSpace.
From S2P Require Import Storage StorageProps Text SafeUrl SafeUrlProps FilesMap FilesSync.
From S2P Require Import Api ApiProps Nrs NrsProps Resolver ResolverProps FilesContainer.

Section container.
Context {B : Bls} {BSh : BlsShares} {BPS : BlsPublicShares} {E : Ed25519} {X : Xor}.
Context {M : Merkle bytes} {AE : ApiEnv} {HB : HashBytes} {BC : Bincode CreateRegister} {BE : Bincode EditRegister}.
Context {XB : XorBytes} {UC : UrlCrates} {RK : Rmp (bytes * bytes)} {OU : Ord SafeUrl} {FJ : FilesJson}.
Context {LF : LocalFiles} (walk_dir : ustr → (DirEntry → bool) → list DirEntry).

(** ** Dry runs *)

Section dry.
Context (s : Safe) (Hdry : dry_run_mode s = true).

Lemma resolved_reads url : reads (parse_and_resolve_url s url).
Proof. apply returns_reads. exact (parse_and_resolve_reads s url). Qed.
Hint Resolve resolved_reads fetch_container_returns fetch_multimap_returns subnames_map_returns : reading.

Ltac dry_run := rewrite ?Hdry; solve_reads.

Lemma dry_register_create name tag ct : reads (register_create s name tag ct).
Proof. unfold register_create. dry_run. Qed.
Hint Resolve dry_register_create : reading.
Lemma dry_register_write url entry parents : reads (register_write s url entry parents).
Proof. unfold register_write, register_write_at. dry_run. Qed.
Lemma dry_multimap_write url data replace : reads (multimap_write s url data replace).
Proof. unfold multimap_write. dry_run. Qed.
Hint Resolve dry_register_write dry_multimap_write : reading.
Lemma dry_multimap_insert url kv replace : reads (multimap_insert s url kv replace).
Proof. unfold multimap_insert. dry_run. Qed.
Hint Resolve dry_multimap_insert : reading.
Lemma dry_multimap_remove url replace : reads (multimap_remove s url replace).
Proof. unfold multimap_remove. dry_run. Qed.
Hint Resolve dry_multimap_remove : reading.
Lemma fetch_by_key_reads u key : reads (fetch_multimap_values_by_key s u key).
Proof. unfold fetch_multimap_values_by_key. dry_run. Qed.
Hint Resolve fetch_by_key_reads : reading.
Lemma dry_nrs_create name : reads (nrs_create s name).
Proof. unfold nrs_create. dry_run. Qed.
Lemma dry_nrs_associate name link : reads (nrs_associate s name link).
Proof. unfold nrs_associate. dry_run. Qed.
Lemma dry_nrs_remove name : reads (nrs_remove s name).
Proof. unfold nrs_remove. dry_run. Qed.
Hint Resolve dry_nrs_create dry_nrs_associate dry_nrs_remove : reading.
Lemma dry_nrs_add name link : reads (nrs_add s name link).
Proof. unfold nrs_add. dry_run. Qed.
Lemma dry_append v m url u b : reads (append_version_to_files_container s v m url u b).
Proof. unfold append_version_to_files_container. dry_run. Qed.
Hint Resolve dry_append : reading.
Lemma dry_update n v m p url u b : reads (update_files_container s n v m p url u b).
Proof. unfold update_files_container. dry_run. Qed.
Lemma target_reads url b : reads (target_container s url b).
Proof. unfold target_container. dry_run. Qed.
Lemma current_reads u : reads (current_container s u).
Proof. unfold current_container. dry_run. Qed.
Hint Resolve dry_update target_reads current_reads : reading.
Lemma add_params_reads f url b : reads (validate_files_add_params s f url b).
Proof. unfold validate_files_add_params. dry_run. Qed.
Hint Resolve add_params_reads : reading.

Lemma dry_create_from location dst recursive follow :
  reads (files_container_create_from walk_dir s location dst recursive follow).
Proof. unfold files_container_create_from, files_container_create. cbv zeta. dry_run. Qed.
Lemma dry_sync location url recursive follow del nrs :
  reads (files_container_sync walk_dir s location url recursive follow del nrs).
Proof. unfold files_container_sync. dry_run. Qed.
Lemma dry_add f url force nrs follow : reads (files_container_add s f url force nrs follow).
Proof. unfold files_container_add, add_link. cbv zeta. dry_run. Qed.
Lemma dry_add_raw data url force nrs : reads (files_container_add_from_raw s data url force nrs).
Proof. unfold files_container_add_from_raw, add_link. cbv zeta. dry_run. Qed.
Lemma dry_remove_path url recursive nrs : reads (files_container_remove_path s url recursive nrs).
Proof. unfold files_container_remove_path. cbv zeta. dry_run. Qed.
End dry.

(** A library in dry-run mode never changes the network: creating and writing registers
    and multimaps, creating, associating, adding and removing names, and creating, syncing,
    adding to and removing from files containers, with the names updated or not, leave it as
    it is, whatever they return. *)
Theorem dry_run_changes_nothing s net :
  dry_run_mode s = true →
  (∀ name tag ct, (register_create s name tag ct net).1 = net) ∧
  (∀ url entry parents, (register_write s url entry parents net).1 = net) ∧
  (∀ url kv replace, (multimap_insert s url kv replace net).1 = net) ∧
  (∀ url replace, (multimap_remove s url replace net).1 = net) ∧
  (∀ name, (nrs_create s name net).1 = net) ∧
  (∀ name link, (nrs_associate s name link net).1 = net) ∧
  (∀ name link, (nrs_add s name link net).1 = net) ∧
  (∀ name, (nrs_remove s name net).1 = net) ∧
  (∀ location dst recursive follow,
     (files_container_create_from walk_dir s location dst recursive follow net).1 = net) ∧
  (∀ location url recursive follow del nrs,
     (files_container_sync walk_dir s location url recursive follow del nrs net).1 = net) ∧
  (∀ f url force nrs follow, (files_container_add s f url force nrs follow net).1 = net) ∧
  (∀ data url force nrs, (files_container_add_from_raw s data url force nrs net).1 = net) ∧
  (∀ url recursive nrs, (files_container_remove_path s url recursive nrs net).1 = net).
Proof.
  intros Hdry. split_and!; intros.
  - by apply dry_register_create.
  - by apply dry_register_write.
  - by apply dry_multimap_insert.
  - by apply dry_multimap_remove.
  - by apply dry_nrs_create.
  - by apply dry_nrs_associate.
  - by apply dry_nrs_add.
  - by apply dry_nrs_remove.
  - by apply dry_create_from.
  - by apply dry_sync.
  - by apply dry_add.
  - by apply dry_add_raw.
  - by apply dry_remove_path.
Qed.

(** ** The version that an update writes *)

Context {ML : MerkleLaws bytes} {V : NetView} {NL : NetLaws} {HL : HashBytesLaws} {UL : UrlLaws} {XL : XorBytesLaws}.

(** The serialised map of a container reads back. *)
Class FilesJsonLaws : Prop :=
  files_json_roundtrip m bs : files_map_to_json m = Some bs → files_map_of_json bs = Some m.
Context {FL : FilesJsonLaws}.

(** An entry over a current one is new. *)
Lemma over_current_fresh r h e (n : Node (Hash bytes) bytes) :
  settled r → (h, e) ∈ reg_read r → h ∈ node_children n → reg_known r !! node_hash n = None.
Proof.
  intros Hset (n0 & _ & _ & Hhead)%elem_of_reg_read Hin. apply eq_None_not_Some. intros [n' Hn'].
  assert (n' = n) as -> by (apply node_hash_inj; symmetry; by apply (mr_known_hash _ _ _ Hn')).
  unfold reg_known, mr_known in Hn'. unfold settled in Hset. rewrite Hset, (right_id_L ∅ (∪)) in Hn'.
  by apply (Hhead _ _ Hn').
Qed.

(** The URL of stored bytes. *)
Lemma from_bytes_Ok name u :
  from_bytes name Raw = Ok u →
  url_wf u ∧ printable u ∧ SafeUrl.address u = BytesAddr name ∧ sub_names_vec u = [] ∧ SafeUrl.path u = [] ∧
  query_string u = [] ∧ fragment u = [].
Proof.
  intros Hu. pose proof (wf_url_new _ _ _ _ _ _ _ _ None _ ltac:(done) Hu) as Hwf.
  apply url_new_inv in Hu as (code & pn & tn & sn & snv & ty & cv & _ & Hn & _ & ->).
  cbn in Hn. injection Hn as <- <- <- <- <-. cbv zeta in *.
  match type of Hwf with url_wf (with_query_string (with_content_version (set_path_internal ?v _ false) _) _) =>
    pose proof (set_path_same v [] (or_introl eq_refl)) as Hp;
    destruct (set_path_eq v [] false) as [q Hq] end.
  cbn [default] in *. unfold id in *. rewrite Hq in *. cbn in Hp. subst q.
  split; [done|]. split; [|done]. by split; cbn.
Qed.

(** The link to stored bytes leads to them. *)
Lemma stored_link base bs x :
  store_bytes base false bs None = Ok x → base ≠ Base64 → str_len x ≤ 255 →
  ∃ name u, upload_and_verify bs = Ok name ∧ from_xorurl x = Ok u ∧ SafeUrl.address u = BytesAddr name ∧ scalars x.
Proof.
  unfold store_bytes. cbn [mbind result_bind]. intros Hx Hb Hlen. api_inv Hx. injection Hx as <-.
  destruct (from_bytes_Ok _ _ Ha0) as (Hwf & Hpr & Haddr & Hs & Hp & Hq & Hf).
  exists a, a0. split; [done|].
  assert (url_encode a0 base = URL_PROTOCOL ++ base_encode (base_encoding base) (cid_vec a0)) as He.
  { rewrite url_encode_eq by (done || apply Hpr). rewrite Hs, Hp, Hq, Hf. cbn. by rewrite !app_nil_r. }
  split; [|split; [done|]].
  - apply from_xorurl_encode; [done..|by rewrite Haddr|done|].
    rewrite He in Hlen. unfold name_to_base. cbv zeta. rewrite (wf_sub_names _ Hwf), Hs. cbn [app join].
    unfold str_len, as_bytes in *. rewrite bind_app, fmap_app, length_app in Hlen. simpl in Hlen |- *. lia.
  - rewrite He. apply Forall_app. split; [by repeat constructor|].
    destruct (base_encode_chars (base_encoding base) (cid_vec a0)) as [_ Hc]; [destruct base; auto; done|apply cid_vec_bytes|].
    eapply Forall_impl; [exact Hc|]. intros c ?. apply label_scalar. by apply alnum_label.
Qed.

(** What a container with one entry gives. *)
Lemma fetch_container_eq s c u a net r h x fu name bs m :
  safe_client s = Some c → SafeUrl.address u = RegisterAddr a → content_version u = None →
  net_register net a = Some r → reg_read r = {[(h, as_bytes x)]} → scalars x →
  from_xorurl x = Ok fu → SafeUrl.address fu = BytesAddr name → read_bytes name net = Ok bs →
  files_map_of_json bs = Some m →
  fetch_files_container s u net = (net, Returns (Ok (Some (version_of h, m)))).
Proof.
  intros Hc Ha Hv Hr Hread Hx Hfu Hname Hbs Hm. unfold fetch_files_container.
  rewrite (api_bind_eq _ _ net net (Ok (reg_read r))).
  2:{ unfold attempt. rewrite (fetch_entries_eq s c u a net) by done. by rewrite Hr. }
  rewrite (api_bind_eq _ _ net net (reg_read r)) by done. rewrite Hread.
  rewrite decide_False by (rewrite size_singleton; lia). rewrite bset_iter_singleton. cbn [head].
  rewrite from_utf8_as_bytes by done. rewrite (api_bind_eq _ _ net net x) by done.
  rewrite Hfu, (api_bind_eq _ _ net net fu) by done.
  rewrite (api_bind_eq _ _ net net bs).
  2:{ unfold fetch_data, data_type, xorname, get_bytes, get_safe_client. rewrite Hname, Hc. cbn.
      unfold mbind, api_bind. cbn. unfold ask. by rewrite Hbs. }
  by rewrite Hm.
Qed.

(** The container has one version, and its register no pending entries. *)
Lemma fetch_container_inv s c u a net v m :
  safe_client s = Some c → SafeUrl.address u = RegisterAddr a → content_version u = None →
  fetch_files_container s u net = (net, Returns (Ok (Some (v, m)))) →
  ∃ r h e, net_register net a = Some r ∧ reg_read r = {[(h, e)]} ∧ v = version_of h.
Proof.
  intros Hc Ha Hv Hf. unfold fetch_files_container in Hf. apply api_bind_Ok in Hf as (net1 & res & Hatt & Hf).
  unfold attempt in Hatt. rewrite (fetch_entries_eq s c u a net Hc Ha Hv) in Hatt. injection Hatt as <- <-.
  apply api_bind_Ok in Hf as (net1 & entries & Hlift & Hf). apply lift_Ok in Hlift as [Hlift ->].
  apply map_err_Ok in Hlift. apply map_err_Ok in Hlift. apply map_err_Ok in Hlift.
  apply result_fmap_Ok in Hlift as (r & Hr%ok_or_Ok & ->).
  case_decide as Hsize; [done|]. destruct (bset_iter (reg_read r)) as [|[h e] l] eqn:Hit; [by apply ret_Ok in Hf as [? _]|].
  cbn [head] in Hf. api_inv Hf. exists r, h, e. split; [done|]. split; [|done].
  assert (l = []) as ->.
  { pose proof (Permutation_length (bset_iter_Permutation (reg_read r))) as Hl. rewrite Hit in Hl. cbn in Hl.
    change (length (elements (reg_read r))) with (size (reg_read r)) in Hl. destruct l; [done|cbn in Hl; lia]. }
  apply set_eq. intros y. rewrite <-elem_of_bset_iter, Hit, list_elem_of_singleton, elem_of_singleton. done.
Qed.

(** A write through a URL that leads to the register. *)
Lemma register_write_Ok s url u' a entry replace net net' h :
  dry_run_mode s = false → parse_and_resolve_url s url net = (net, Returns (Ok u')) →
  SafeUrl.address u' = RegisterAddr a → register_write s url entry replace net = (net', Returns (Ok h)) →
  h = node_hash (mkNode entry replace) ∧
  (∃ r r', net_register net a = Some r ∧ net_register net' a = Some r' ∧
           reg_known r' = reg_known r ∪ {[h := mkNode entry replace]} ∧ policy r' = policy r) ∧
  ∀ a', a' ≠ a → net_register net' a' = net_register net a'.
Proof.
  intros Hdry Hres Ha' Hw. unfold register_write in Hw. rewrite (api_bind_eq _ _ net net u') in Hw by done.
  unfold register_write_at in Hw. rewrite Hdry in Hw. unfold get_register_address in Hw. rewrite Ha' in Hw.
  rewrite (api_bind_eq _ _ net net a) in Hw by done. api_inv Hw. destruct a1 as [h2 wal]. api_inv Hw. destruct a1.
  by eapply write_and_publish.
Qed.

(** An entry over the only current one becomes the only one. *)
Lemma over_only_current r r' h e x :
  settled r → reg_read r = {[(h, e)]} →
  reg_known r' = reg_known r ∪ {[node_hash (mkNode x {[h]}) := mkNode x {[h]}]} →
  reg_read r' = {[(node_hash (mkNode x {[h]}), x)]}.
Proof.
  intros Hset Hone Hk. assert ((h, e) ∈ reg_read r) as Hin by (rewrite Hone; set_solver).
  assert (reg_known r !! node_hash (mkNode x {[h]}) = None) as Hfresh.
  { apply (over_current_fresh r h e); [done..|]. cbn. set_solver. }
  apply set_eq. intros [h1 e1]. rewrite (node_added_reads r r' (mkNode x {[h]}) Hset); [|..|done|done].
  - rewrite Hone. cbn. set_solver.
  - intros c Hc. cbn in Hc. apply elem_of_singleton in Hc as ->.
    apply elem_of_reg_read in Hin as (n & _ & -> & _). eauto.
Qed.

(** C28: after an update of a container, without an update of an NRS name, that wrote a new
    version, with links not in base 64 and of at most 255 bytes, a register without pending
    entries and an upload that can be read, the container reads as the new map under the version that the update returned: the entry takes the place of the
    version that was current, the stored map is found through its link, and no other register
    is changed. *)
Theorem updated_container_reads s c u a u' net net' r v m0 changes m x bs processed url res :
  safe_client s = Some c → dry_run_mode s = false → xorurl_base s ≠ Base64 →
  SafeUrl.address u = RegisterAddr a → content_version u = None →
  net_register net a = Some r → settled r →
  fetch_files_container s u net = (net, Returns (Ok (Some (v, m0)))) →
  parse_and_resolve_url s (display u) net = (net, Returns (Ok u')) → SafeUrl.address u' = RegisterAddr a →
  store_files_map s m = Ok x → str_len x ≤ 255 →
  files_map_to_json m = Some bs → (∀ name, upload_and_verify bs = Ok name → read_bytes name net' = Ok bs) →
  changes ≠ 0 →
  update_files_container s changes (Some v) m processed url u false net = (net', Returns (Ok res)) →
  ∃ v', res = (Some (v', m), processed) ∧
    fetch_files_container s u net' = (net', Returns (Ok (Some (v', m)))) ∧
    ∀ a', a' ≠ a → net_register net' a' = net_register net a'.
Proof.
  intros Hc Hdry Hbase Ha Hv Hr Hset Hf Hres Ha' Hx Hlen Hbs Hread Hch Hup.
  destruct (fetch_container_inv s c u a net v m0 Hc Ha Hv Hf) as (r0 & h & e & Hr0 & Hone & ->).
  rewrite Hr in Hr0. injection Hr0 as <-.
  unfold update_files_container in Hup. rewrite decide_False in Hup by done.
  apply api_bind_Ok in Hup as (net1 & v' & Happ & Hup). apply ret_Ok in Hup as [<- ->]. exists v'. split; [done|].
  unfold append_version_to_files_container in Happ. rewrite Hdry, Hx in Happ.
  apply api_bind_Ok in Happ as (net2 & x' & Hl & Happ). apply lift_Ok in Hl as [[= <-] ->].
  apply api_bind_Ok in Happ as (net2 & h' & Hw & Happ). apply ret_Ok in Happ as [<- ->].
  destruct (register_write_Ok _ _ _ _ _ _ _ _ _ Hdry Hres Ha' Hw) as (-> & (r0 & r' & Hr0 & Hr' & Hk & _) & Hother).
  rewrite Hr in Hr0. injection Hr0 as <-. split; [|done].
  rewrite set_map_singleton_L in Hk |- *. unfold version_entry, version_of in Hk |- *. cbn [entry_hash] in Hk |- *.
  rewrite hash_of_hash_bytes in Hk |- *.
  unfold store_files_map in Hx. rewrite Hbs, Hdry in Hx. cbn [ok_or mbind result_bind] in Hx.
  destruct (stored_link _ _ _ Hx Hbase Hlen) as (name & fu & Hname & Hfu & Hfa & Hsc).
  eapply fetch_container_eq; [done..| |done|done|done|by apply Hread|by apply files_json_roundtrip].
  by eapply over_only_current.
Qed.
End container.
