(* ===== verification/ApiDemo.v ===== *)
(** * A concrete network for the library

    A network that keeps its registers in a map and applies every command it acknowledges,
    the laws it satisfies, and what creating, associating and removing names gives there. *)

From Stdlib Require Import String.
From S2P Require Import Prelude External Xor NodeState SectionsDag Sap Keys Register RegisterProps UsedSpace.
From S2P Require Import Storage StorageProps Text SafeUrl SafeUrlProps SafeUrlDemo FilesMap FilesSync Api.
From S2P Require Import ApiProps Nrs NrsProps Resolver ResolverProps FilesContainer FilesContainerProps.

Import External.Concrete RegisterProps.RegisterDemo.

(** ** The network *)

#[export] Instance demo_bincode_create : Bincode CreateRegister := λ _, Some [1%Z].
#[export] Instance demo_bincode_edit : Bincode EditRegister := λ _, Some [2%Z].

Abbreviation DemoNet := (gmap RegisterAddress Register).

Definition demo_lookup (net : DemoNet) (a : RegisterAddress) : option Register :=
  r ← net !! a; if decide (Register.address r = a) then Some r else None.

Definition demo_send_cmd (cmd : RegisterCmd) (net : DemoNet) : DemoNet * result ClientError unit :=
  match cmd with
  | CmdCreate op _ _ =>
      let a := mkRegisterAddress (cr_name op) (cr_tag op) in
      let new := Register.new (owner (cr_policy op)) (cr_name op) (cr_tag op) (cr_policy op) in
      (<[a := default new (demo_lookup net a)]> net, Ok ())
  | CmdEdit op auth =>
      match demo_lookup net (ed_address op) with
      | None => (net, Err ClOther)
      | Some r =>
          match apply_cmd (CmdEdit op auth) r with
          | (r', Ok _) => (<[ed_address op := r']> net, Ok ())
          | (_, Err _) => (net, Err ClOther)
          end
      end
  end.

Definition demo_send_query (q : RegisterQuery) (net : DemoNet) : result ClientError (NodeQueryResponse unit) :=
  match q with
  | QGet a => Ok (RespGetRegister _ (or_not_found a (demo_lookup net a)))
  | QRead a => Ok (RespReadRegister _ (reg_read <$> or_not_found a (demo_lookup net a)))
  | QGetEntry a h => Ok (RespGetRegisterEntry _
      (r ← or_not_found a (demo_lookup net a); map_err reg_error_msg (reg_get r h)))
  | QGetOwner a => Ok (RespGetRegisterOwner _ (reg_owner <$> or_not_found a (demo_lookup net a)))
  | QGetPolicy a => Ok (RespGetRegisterPolicy _ (policy <$> or_not_found a (demo_lookup net a)))
  | QGetUserPermissions a u => Ok (RespGetRegisterUserPermissions _
      (r ← or_not_found a (demo_lookup net a); map_err reg_error_msg (reg_permissions r u)))
  end.

(** The files that the network holds, by their names: serialised maps of containers. *)
#[export] Instance demo_json : FilesJson := {|
  files_map_to_json m := Some [Z.pos (encode m)];
  files_map_of_json bs := match bs with [Z.pos p] => decode p | _ => None end;
|}.
Definition held_map : FilesMap := {[lit "/index" := {[lit "link" := lit "safe://page"]}]}.
Definition held_file (name : XorName) : bytes :=
  if decide (name = zero_name) then [Z.pos (encode (∅ : FilesMap))] else [Z.pos (encode held_map)].

#[export] Instance demo_env : ApiEnv := {|
  Net := DemoNet;
  SpentShare := unit;
  send_cmd := demo_send_cmd;
  send_query := demo_send_query;
  read_bytes name _ := Ok (held_file name);
  read_from _ _ _ _ := Err ClOther;
  random_name := zero_name;
  random_hash := (1%positive : Hash bytes);
  section_sig := mkSectionSig 1 (1, []);
|}.
#[export] Instance demo_view : NetView := demo_lookup.

Lemma demo_lookup_address net a r : demo_lookup net a = Some r → Register.address r = a.
Proof. unfold demo_lookup. intros (r' & _ & Hr)%bind_Some. by case_decide; simplify_eq. Qed.
Lemma demo_lookup_insert net a r : Register.address r = a → demo_lookup (<[a := r]> net) a = Some r.
Proof. intros Hr. unfold demo_lookup. rewrite lookup_insert_eq. cbn. by rewrite decide_True. Qed.
Lemma demo_lookup_insert_ne net a a' r : a' ≠ a → demo_lookup (<[a := r]> net) a' = demo_lookup net a'.
Proof. intros Hr. unfold demo_lookup. by rewrite lookup_insert_ne. Qed.

#[export] Instance demo_net_laws : NetLaws.
Proof.
  split; try done.
  - apply demo_lookup_address.
  - intros net op auth net' r Hs Hr. cbn in Hs. unfold net_register, demo_view in *. rewrite Hr in Hs.
    destruct (apply_cmd (CmdEdit op auth) r) as [r' [[]|e]] eqn:Ha; [|done]. injection Hs as <-.
    split; [|intros a Hne; by apply demo_lookup_insert_ne].
    exists r', r'. split; [done|]. split; [|done]. apply demo_lookup_insert.
    apply apply_cmd_edit in Ha as (-> & _ & _ & Ha). destruct (apply_op_Ok_inv _ _ _ Ha) as [Hok Hsz].
    destruct (apply_op_Ok _ _ Hok Hsz) as (r2 & Ha' & Haddr & _). rewrite Ha in Ha'. by injection Ha' as ->.
  - intros net op auth sig net' Hs a. cbn in Hs. injection Hs as <-. unfold net_register, demo_view.
    split; [|intros a' Hne; by apply demo_lookup_insert_ne]. apply demo_lookup_insert.
    fold a. destruct (demo_lookup net a) as [r|] eqn:Hr; [by eapply demo_lookup_address|done].
Qed.

(** ** Encodings *)

Definition demo_rmp_decode (bs : bytes) : option (bytes * bytes) :=
  match bs with
  | [] => None
  | n :: bs => Some (take (Z.to_nat n) bs, drop (Z.to_nat n) bs)
  end.
#[export] Instance demo_rmp : Rmp (bytes * bytes) := {|
  rmp_encode kv := Some (Z.of_nat (length kv.1) :: kv.1 ++ kv.2);
  rmp_decode := demo_rmp_decode;
|}.
#[export] Instance demo_pair_laws : PairLaws.
Proof.
  split; [|done]. intros [k v] bs [= <-]. cbn. rewrite Nat2Z.id.
  by rewrite take_app_length, drop_app_length.
Qed.

Definition hash_number (h : Hash bytes) : bytes := [Z.pos h].
Definition number_hash (bs : bytes) : Hash bytes :=
  match bs with [Z.pos h] => (h : Hash bytes) | _ => (1%positive : Hash bytes) end.
#[export] Instance hash_number_ord : Ord (Hash bytes) := countable_ord.
#[export] Instance demo_hash_bytes : HashBytes := {|
  hash_bytes := hash_number;
  hash_of_bytes := number_hash;
  hash_ord := hash_number_ord;
|}.
#[export] Instance demo_hash_bytes_laws : HashBytesLaws.
Proof. done. Qed.
#[export] Instance demo_url_ord : Ord SafeUrl := countable_ord.

(** ** A name *)

Definition demo_client : Client := mkClient (KeyEd25519 (1 : EdPublicKey)) (λ msg, SigEd25519 ((1, msg) : EdSignature)).
Definition demo_safe : Safe := mkSafe (Some demo_client) Base32z false.

Definition site : ustr := lit "site".
Definition site_link : SafeUrl :=
  match from_safekey zero_name with Ok u => u | Err _ => nrs_url_of [] site end.

Lemma site_ok : name_ok [] site.
Proof. split; apply (bool_decide_unpack _); vm_compute; exact I. Qed.

Definition net_created : Net := (nrs_create demo_safe site ∅).1.
Definition net_linked : Net := (nrs_associate demo_safe site site_link net_created).1.
Definition net_removed : Net := (nrs_remove demo_safe site net_linked).1.
Definition net_relinked : Net := (nrs_associate demo_safe site site_link net_removed).1.

Definition succeeded {A} (r : Net * outcome (result ApiError A)) : bool :=
  match r.2 with Returns (Ok _) => true | _ => false end.

(** ** Witnesses *)

Lemma succeeded_run {A} (r : Net * outcome (result ApiError A)) :
  succeeded r = true → ∃ a, r = (r.1, Returns (Ok a)).
Proof. destruct r as [net [[a|e]| |]]; try done. by exists a. Qed.

(** The register of the name, its multimap and its names. *)
Definition site_register (net : Net) : Register :=
  default (Register.new Anyone zero_name 0 (mkPolicy Anyone ∅)) (net_register net (name_address site)).
Definition site_multimap (net : Net) : MultimapEntries :=
  match parse_multimap (bset_iter (reg_read (site_register net))) ∅ with Ok m => m | Err _ => ∅ end.
Definition site_names (net : Net) : gset (ustr * SafeUrl) :=
  match convert_multimap_to_nrs_set (site_multimap net) [] None with Ok names => names | Err _ => ∅ end.

Definition site_readable (net : Net) : bool :=
  bool_decide (is_Some (net_register net (name_address site))) &&
  is_ok (parse_multimap (bset_iter (reg_read (site_register net))) ∅) &&
  is_ok (convert_multimap_to_nrs_set (site_multimap net) [] None).

Lemma site_holds net :
  site_readable net = true → holds_names net site (site_register net) (site_multimap net) (site_names net).
Proof.
  unfold site_readable. rewrite !andb_true_iff, bool_decide_eq_true. intros [[[r Hr] Hm] HS]. split; [|split].
  - unfold site_register. by rewrite Hr.
  - unfold multimap_of, site_multimap. by destruct (parse_multimap _ _).
  - apply (convert_multimap_None _ []). unfold site_names. by destruct (convert_multimap_to_nrs_set _ _ _).
Qed.

Definition site_node (net : Net) : option (Node (Hash bytes) bytes) := association (site_multimap net) site site_link.
Definition node_unknown (net : Net) (n : Node (Hash bytes) bytes) : bool :=
  bool_decide (reg_known (site_register net) !! node_hash n = None).
Definition site_settled (net : Net) : bool := bool_decide (mr_orphans (data (crdt (site_register net))) = ∅).

Lemma created_ready :
  site_readable net_created = true ∧ site_settled net_created = true ∧
  match site_node net_created with Some n => node_unknown net_created n | None => false end = true.
Proof. split_and!; vm_compute; reflexivity. Qed.
Lemma linked_ready :
  site_readable net_linked = true ∧ site_settled net_linked = true ∧
  node_unknown net_linked (mkNode MULTIMAP_REMOVED_MARK
    (current_versions (filter (λ x, x.2.1 = as_bytes site) (site_multimap net_linked)))) = true.
Proof. split_and!; vm_compute; reflexivity. Qed.
Lemma removed_ready :
  site_readable net_removed = true ∧ bool_decide (site_names net_removed = ∅) = true ∧
  match site_node net_removed with Some n => negb (node_unknown net_removed n) | None => false end = true.
Proof. split_and!; vm_compute; reflexivity. Qed.

Lemma site_link_ok : scalars (display site_link) ∧ from_url (display site_link) = Ok site_link.
Proof. split; apply (bool_decide_unpack _); vm_compute; exact I. Qed.

Lemma site_linked : succeeded (nrs_associate demo_safe site site_link net_created) = true.
Proof. vm_compute. reflexivity. Qed.
Lemma site_removed : succeeded (nrs_remove demo_safe site net_linked) = true.
Proof. vm_compute. reflexivity. Qed.
Lemma site_relinked : succeeded (nrs_associate demo_safe site site_link net_removed) = true.
Proof. vm_compute. reflexivity. Qed.

Lemma associate_then_get_witness :
  ∃ map, nrs_get demo_safe site None net_linked = (net_linked, Returns (Ok (Ok (Some site_link, map)))).
Proof.
  destruct (succeeded_run _ site_linked) as [url Hrun]. destruct created_ready as (Hread & Hset & Hn). apply site_holds in Hread.
  destruct (site_node net_created) as [n|] eqn:Has; [|discriminate Hn].
  unfold site_settled in Hset. rewrite bool_decide_eq_true in Hset.
  unfold node_unknown in Hn. rewrite bool_decide_eq_true in Hn. destruct site_link_ok as [Hs Hl].
  destruct (associate_then_get demo_safe demo_client [] site site_link net_created net_linked
    (site_register net_created) (site_multimap net_created) (site_names net_created) n url
    eq_refl eq_refl site_ok Hread Hset Hs Hl Has Hn Hrun) as (map & Hget & _).
  exists map. exact Hget.
Defined.

Lemma remove_then_get_witness :
  ∃ map, nrs_get demo_safe site None net_removed = (net_removed, Returns (Ok (Ok (None, map)))).
Proof.
  destruct (succeeded_run _ site_removed) as [url Hrun]. destruct linked_ready as (Hread & Hset & Hn). apply site_holds in Hread.
  unfold site_settled in Hset. rewrite bool_decide_eq_true in Hset.
  unfold node_unknown in Hn. rewrite bool_decide_eq_true in Hn.
  destruct (remove_then_get demo_safe demo_client [] site net_linked net_removed
    (site_register net_linked) (site_multimap net_linked) (site_names net_linked) url
    eq_refl eq_refl site_ok Hread Hset Hn Hrun) as (map & Hget & _).
  exists map. exact Hget.
Defined.

Lemma reassociation_is_lost_witness :
  ∃ map, nrs_get demo_safe site None net_relinked = (net_relinked, Returns (Ok (Ok (None, map)))).
Proof.
  destruct (succeeded_run _ site_relinked) as [url Hrun]. destruct removed_ready as (Hread & HS & Hn). apply site_holds in Hread.
  rewrite bool_decide_eq_true in HS.
  destruct (site_node net_removed) as [n|] eqn:Has; [|discriminate Hn].
  unfold node_unknown in Hn. rewrite negb_true_iff, bool_decide_eq_false in Hn.
  eexists. apply (reassociation_is_lost demo_safe demo_client [] site site_link net_removed net_relinked
    (site_register net_removed) (site_multimap net_removed) (site_names net_removed) n url
    eq_refl eq_refl site_ok Hread); [|exact Has|by apply not_eq_None_Some|exact Hrun].
  intros l. rewrite HS. apply not_elem_of_empty.
Defined.

Lemma create_existing_name_witness :
  nrs_create demo_safe site net_created = (net_created, Returns (Err (ApiNrsNameAlreadyExists site))).
Proof.
  destruct created_ready as (Hread & _ & _). apply site_holds in Hread.
  apply (create_existing_name demo_safe demo_client site net_created
    (site_register net_created) (site_multimap net_created) (site_names net_created) eq_refl eq_refl site_ok Hread).
  vm_compute. reflexivity.
Defined.

(** ** A name that links to itself *)

Definition site_url : ustr := lit "safe://site".
Definition self_entry : bytes * bytes := (as_bytes site, as_bytes site_url).
Definition net_loop : Net := (multimap_insert demo_safe site_url self_entry ∅ net_created).1.

Lemma site_looped : succeeded (multimap_insert demo_safe site_url self_entry ∅ net_created) = true.
Proof. vm_compute. reflexivity. Qed.

Lemma loop_ready :
  match (multimap_insert demo_safe site_url self_entry ∅ net_created).2 with
  | Returns (Ok h) => bool_decide (reg_known (site_register net_created) !! h = None)
  | _ => false
  end = true.
Proof. vm_compute. reflexivity. Qed.

Lemma multimap_insert_refines_witness :
  ∃ m, fetch_multimap demo_safe (nrs_url_of [] site) net_loop = (net_loop, Returns (Ok m)).
Proof.
  destruct (succeeded_run _ site_looped) as [h Hrun]. pose proof loop_ready as Hh. rewrite Hrun in Hh.
  cbn [snd] in Hh. rewrite bool_decide_eq_true in Hh.
  destruct created_ready as (Hread & Hset & _). apply site_holds in Hread as (Hr & Hm & _).
  unfold site_settled in Hset. rewrite bool_decide_eq_true in Hset.
  pose proof (proj2 (fetch_multimap_Ok demo_safe demo_client (nrs_url_of [] site) (name_address site) net_created
    (site_register net_created) (site_multimap net_created) eq_refl eq_refl eq_refl Hr) Hm) as Hf.
  eexists. exact (proj1 (multimap_insert_refines demo_safe demo_client site_url (nrs_url_of [] site) (name_address site)
    net_created net_loop (site_register net_created) (site_multimap net_created) self_entry ∅ h
    eq_refl eq_refl (from_url_name [] site site_ok) eq_refl eq_refl Hr (replaceable_empty _ Hset) Hf Hrun Hh)).
Defined.

Definition self_step : Net * outcome (result ApiError SafeData) :=
  resolve_url 0 demo_safe (nrs_url_of [] site) None false None false net_loop.
Lemma self_step_loops :
  match self_step.2 with
  | Returns (Ok d) => bool_decide (sd_resolves_into d = Some (nrs_url_of [] site)) && bool_decide (sd_metadata d = None)
  | _ => false
  end = true.
Proof. vm_compute. reflexivity. Qed.

Lemma self_leads_on n : leads_on 0 demo_safe false None false net_loop n (nrs_url_of [] site) None.
Proof.
  pose proof self_step_loops as H. unfold self_step in H.
  destruct (resolve_url_returns 0 demo_safe (nrs_url_of [] site) None false None net_loop) as [[d|e] Hd];
    rewrite Hd in H; [|discriminate H]. cbn [snd] in H.
  apply andb_true_iff in H as [Hi Hm]. rewrite bool_decide_eq_true in Hi. rewrite bool_decide_eq_true in Hm.
  induction n as [|n IH]; [by eapply leads_zero|]. eapply leads_step; [exact Hd|exact Hi|]. by rewrite Hm.
Qed.

Lemma resolution_is_the_chain_witness :
  fully_resolve_url 0 demo_safe (nrs_url_of [] site) None false None false net_loop = (net_loop, Returns (Err ApiContentError)).
Proof.
  apply (resolution_is_the_chain 0 demo_safe false None false net_loop (nrs_url_of [] site) None).
  apply self_leads_on.
Defined.

(** * A files container on the concrete network

    The container is created, gets a first version with an empty map and is updated. *)

Import External.Concrete RegisterProps.RegisterDemo.

Definition page_name : Name32 := dexist (replicate 32 1%Z) (bool_decide_unpack (is_name (replicate 32 1%Z)) I).

(** The network takes the two maps. *)
#[export] Instance container_files : LocalFiles := {|
  fs_metadata _ _ := None;
  fs_read_link _ := None;
  mime_guess _ := None;
  gen_timestamp_secs := lit "2";
  fs_read _ := None;
  calculate_address _ := Ok zero_name;
  upload_and_verify bs :=
    if decide (bs = held_file zero_name) then Ok zero_name
    else if decide (bs = held_file page_name) then Ok page_name else Err ApiClientError;
  normalize p := p;
|}.
#[export] Instance demo_json_laws : FilesJsonLaws.
Proof. intros m bs [= <-]. apply decode_encode. Qed.

Definition container_url : SafeUrl :=
  match from_register zero_name FILES_CONTAINER_TYPE_TAG FilesContainer with Ok u => u | Err _ => site_link end.
Definition container_address : RegisterAddress := mkRegisterAddress zero_name FILES_CONTAINER_TYPE_TAG.

Definition net_container : Net := (files_container_create demo_safe ∅).1.
Definition net_version : Net :=
  (update_files_container demo_safe 1 None ∅ [] [] container_url false net_container).1.
Definition container_version : VersionHash :=
  match (fetch_files_container demo_safe container_url net_version).2 with
  | Returns (Ok (Some (v, _))) => v
  | _ => mkVersionHash []
  end.
Definition update_run : Net * outcome (result ApiError (option (VersionHash * FilesMap) * ProcessedFiles)) :=
  update_files_container demo_safe 1 (Some container_version) held_map [] [] container_url false net_version.

Lemma updated : succeeded update_run = true.
Proof. vm_compute. reflexivity. Qed.

(** ** Witnesses *)

Definition container_register : Register :=
  default (Register.new Anyone zero_name 0 (mkPolicy Anyone ∅)) (net_register net_version container_address).

Definition returned {A} (P : A → bool) (r : Net * outcome (result ApiError A)) : bool :=
  match r.2 with Returns (Ok a) => P a | _ => false end.
Lemma returned_value {A} (P : A → bool) (m : api A) net :
  reads_and_returns m → returned P (m net) = true → ∃ a, m net = (net, Returns (Ok a)) ∧ P a = true.
Proof. intros Hm. destruct (Hm net) as [[a|e] ->]; [|done]. intros Ha. by exists a. Qed.

Definition is_current (found : option (VersionHash * FilesMap)) : bool :=
  match found with Some (v, _) => bool_decide (v = container_version) | None => false end.
Definition at_container (u : SafeUrl) : bool := bool_decide (SafeUrl.address u = RegisterAddr container_address).
Definition short_link (r : result ApiError ustr) : bool :=
  match r with Ok x => bool_decide (str_len x ≤ 255) | Err _ => false end.

Lemma container_ready :
  bool_decide (is_Some (net_register net_version container_address)) = true ∧
  bool_decide (mr_orphans (data (crdt container_register)) = ∅) = true ∧
  returned is_current (fetch_files_container demo_safe container_url net_version) = true ∧
  returned at_container (parse_and_resolve_url demo_safe (display container_url) net_version) = true ∧
  short_link (store_files_map demo_safe held_map) = true.
Proof. split_and!; vm_compute; reflexivity. Qed.
Lemma container_url_ok :
  SafeUrl.address container_url = RegisterAddr container_address ∧ content_version container_url = None.
Proof. split; apply (bool_decide_unpack _); vm_compute; exact I. Qed.

Lemma some_default {A} (d : A) (o : option A) : is_Some o → o = Some (default d o).
Proof. by intros [a ->]. Qed.
Lemma is_current_Some found : is_current found = true → ∃ m, found = Some (container_version, m).
Proof. destruct found as [[v m]|]; [|done]. cbn. intros ->%bool_decide_eq_true. by exists m. Qed.
Lemma short_link_Ok r : short_link r = true → ∃ x, r = Ok x ∧ str_len x ≤ 255.
Proof. destruct r as [x|]; [|done]. cbn. intros Hx%bool_decide_eq_true. by exists x. Qed.

Lemma held_map_read name :
  upload_and_verify [Z.pos (encode held_map)] = Ok name → read_bytes name update_run.1 = Ok [Z.pos (encode held_map)].
Proof.
  change (upload_and_verify [Z.pos (encode held_map)]) with (Ok page_name : result ApiError XorName).
  intros [= <-]. reflexivity.
Qed.

Lemma updated_container_reads_witness :
  ∃ v, fetch_files_container demo_safe container_url update_run.1 = (update_run.1, Returns (Ok (Some (v, held_map)))).
Proof.
  destruct (succeeded_run _ updated) as [res Hrun]. destruct container_ready as (Hr & Hset & Hf & Hres & Hx).
  destruct container_url_ok as [Ha Hv]. destruct (short_link_Ok _ Hx) as (x & Hstore & Hlen).
  destruct (returned_value _ _ _ (fetch_container_returns demo_safe container_url) Hf) as (found & Hcur & Hv0).
  destruct (is_current_Some _ Hv0) as [m0 ->].
  destruct (returned_value _ _ _ (parse_and_resolve_reads demo_safe (display container_url)) Hres) as (u' & Hu' & Ha').
  destruct (updated_container_reads demo_safe demo_client container_url container_address u' net_version
    update_run.1 container_register container_version m0 1 held_map x [Z.pos (encode held_map)] [] [] res
    eq_refl eq_refl ltac:(discriminate) Ha Hv (some_default _ _ (proj1 (bool_decide_eq_true _) Hr))
    (proj1 (bool_decide_eq_true _) Hset) Hcur Hu' (proj1 (bool_decide_eq_true _) Ha') Hstore Hlen eq_refl held_map_read
    ltac:(discriminate) Hrun) as (v & _ & Hget & _).
  exists v. exact Hget.
Defined.

Lemma dry_run_changes_nothing_witness :
  (nrs_create (dry_runner None) site net_version).1 = net_version.
Proof.
  destruct (dry_run_changes_nothing (λ _ _, []) (dry_runner None) net_version eq_refl) as (_ & _ & _ & _ & H & _).
  exact (H site).
Defined.
