(* ===== verification/ClientFiles.v ===== *)
(** * Files of a client

    [sn_client/src/api]: [data/mod.rs] and [data/pac_man.rs], which turn the bytes of a file
    into chunks, and [file_apis.rs], which uploads and reads them.  The crates
    [self_encryption], [bincode] and [uluru] (a cache of chunks) are classes of operations;
    what a client asks of the network is a class that its sessions implement.

    Chunks are sent and fetched by tasks that run side by side.  A task is a program of
    atomic steps on what the client shares; the events of a schedule say which task goes on,
    which one meets its deadline and which one dies (a panic).  When the events are spent the
    tasks end in their order, so that a schedule may be any list.  [Panics] and [Unfinished]
    (spent fuel) are outcomes of a call. *)

From S2P Require Import Prelude External Xor NodeState SectionsDag Sap Keys Register UsedSpace Storage.
From S2P Require Import FilesMap.

(** ** Crates *)

(** [ChunkInfo] and [EncryptedChunk] of [self_encryption], as far as the client reads them. *)
Record ChunkInfo {X : Xor} := mkChunkInfo { ci_index : nat; ci_dst_hash : XorName }.
Record EncryptedChunk := mkEncryptedChunk { ec_index : nat; ec_content : bytes }.
(** [SeekInfo]: the range of indexes and the position relative to its first chunk. *)
Record SeekInfo := mkSeekInfo { si_start : nat; si_end : nat; si_relative_pos : nat }.

Class SelfEncryption {X : Xor} := {
  DataMap : Type;
  SeError : Type;
  encrypt : bytes → result SeError (DataMap * list EncryptedChunk);
  decrypt_full_set : DataMap → list EncryptedChunk → result SeError bytes;
  decrypt_range : DataMap → list EncryptedChunk → nat → nat → result SeError bytes;
  seek_info : nat → nat → nat → SeekInfo;
  infos : DataMap → list ChunkInfo;
  file_size : DataMap → nat;
  MIN_ENCRYPTABLE_BYTES : nat;
  MAX_CHUNK_SIZE : nat;
}.

(** [bincode::deserialize]. *)
Class Bindec (T : Type) := bincode_deserialize : bytes → option T.

(** [uluru::LRUCache]: [find] touches what it finds, [insert] may evict another entry. *)
Class LruCache (T : Type) := {
  Lru : Type;
  lru_find : (T → bool) → Lru → Lru * option T;
  lru_insert : T → Lru → Lru;
}.

Section files.
Context {B : Bls} {BSh : BlsShares} {BPS : BlsPublicShares} {E : Ed25519} {X : Xor} {M : Merkle bytes}.
Context (from_content : bytes → XorName).
Context {SE : SelfEncryption} {LC : LruCache Chunk}.
Context {BB : Bincode bytes} {DB : Bindec bytes}.

Abbreviation to_chunk := (chunk_new from_content).

(** The sessions of the client: commands that store a chunk, queries for one. *)
Class ChunkNet := {
  Net : Type;
  NetError : Type;
  SpentShare : Type;
  setup_connections : list XorName → Net → Net * result NetError unit;
  send_store : Chunk → Net → Net * result NetError unit;
  send_get : XorName → Net → Net * result NetError (NodeQueryResponse SpentShare);
  send_get_to_replicas : XorName → list nat → Net →
    Net * result NetError (list (nat * result NetError (NodeQueryResponse SpentShare)));
}.
Context {CN : ChunkNet}.

Inductive FileError :=
  | FileErrorMsg (source : ErrorMsg)
  | FileUnexpectedResponse (name : XorName) (response : NodeQueryResponse SpentShare)
  | EmptyFileProvided
  | TooSmallForSelfEncryption (size minimum : nat)
  | UploadSizeLimitExceeded (size : nat) (limit : Z)
  | SmallFilePaddingNeeded (size : nat)
  | TooLargeAsSmallFile (size maximum : nat)
  | ChunkUploadValidationTimeout (elapsed : nat) (address : XorName)
  | NotEnoughChunksRetrieved (expected retrieved : nat)
  | NotAllDataWasChunked (expected chunked : nat)
  | SelfEncryptionError (e : SeError)
  | FileSerialisation
  | FileNetError (e : NetError).

(** ** From bytes to chunks *)

Inductive DataMapLevel := First (m : DataMap) | Additional (m : DataMap).
Context {BL : Bincode DataMapLevel} {DL : Bindec DataMapLevel}.

Record SmallFile := mkSmallFile { sf_bytes : bytes }.
Record LargeFile := mkLargeFile { lf_bytes : bytes }.

Definition SmallFile_new (bs : bytes) : result FileError SmallFile :=
  if decide (MIN_ENCRYPTABLE_BYTES ≤ length bs) then Err (TooLargeAsSmallFile (length bs) (MIN_ENCRYPTABLE_BYTES - 1))
  else if decide (bs = []) then Err EmptyFileProvided
  else Ok (mkSmallFile bs).

Definition CLIENT_UPLOAD_SIZE_LIMIT : Z := 10 * 1024 * 1024.
(** The feature [limit-client-upload-size] of the crate. *)
Context (limit_client_upload_size : bool).

Definition LargeFile_new (bs : bytes) : result FileError LargeFile :=
  if decide (length bs < MIN_ENCRYPTABLE_BYTES) then Err (TooSmallForSelfEncryption (length bs) MIN_ENCRYPTABLE_BYTES)
  else if limit_client_upload_size && bool_decide (CLIENT_UPLOAD_SIZE_LIMIT < Z.of_nat (length bs))%Z
       then Err (UploadSizeLimitExceeded (length bs) CLIENT_UPLOAD_SIZE_LIMIT)
  else Ok (mkLargeFile bs).

(** A chunk is serialised as its value; its address is computed when it is read. *)
Definition chunk_serialize (c : Chunk) : option bytes := bincode_serialize (ch_value c).
Definition chunk_deserialize (bs : bytes) : option Chunk := to_chunk <$> bincode_deserialize bs.
Definition serialised_size (c : Chunk) : nat := length (ch_value c).

Definition pack_data_map (l : DataMapLevel) : result FileError bytes := ok_or (bincode_serialize l) FileSerialisation.
Definition content_chunks (cs : list EncryptedChunk) : list Chunk := (λ c, to_chunk (ec_content c)) <$> cs.

(** The loop of [pack]: the chunks so far and the content of the next one. *)
Fixpoint pack_loop (fuel : nat) (chunks : list Chunk) (chunk_content : bytes)
    : option (result FileError (XorName * list Chunk)) :=
  match fuel with
  | 0 => None
  | S fuel =>
      let chunk := to_chunk chunk_content in
      if decide (serialised_size chunk ≤ MAX_CHUNK_SIZE) then
        Some (Ok (ch_address chunk, reverse chunks ++ [chunk]))
      else
        let next :=
          serialized_chunk ← ok_or (chunk_serialize chunk) FileSerialisation;
          '(data_map, encrypted) ← map_err SelfEncryptionError (encrypt serialized_chunk);
          content ← pack_data_map (Additional data_map);
          Ok (encrypted, content) in
        match next with
        | Ok (encrypted, content) => pack_loop fuel (content_chunks encrypted ++ chunks) content
        | Err e => Some (Err e)
        end
  end.

Definition pack (fuel : nat) (data_map : DataMap) (encrypted : list EncryptedChunk)
    : option (result FileError (XorName * list Chunk)) :=
  match pack_data_map (First data_map) with
  | Err e => Some (Err e)
  | Ok content =>
      match pack_loop fuel [] content with
      | None => None
      | Some (Err e) => Some (Err e)
      | Some (Ok (address, additional)) =>
          let expected_total := length encrypted + length additional in
          let all_chunks := content_chunks encrypted ++ additional in
          Some (if decide (length all_chunks < expected_total)
                then Err (NotAllDataWasChunked expected_total (length all_chunks))
                else Ok (address, all_chunks))
      end
  end.

Definition encrypt_large (fuel : nat) (bs : bytes) : option (result FileError (XorName * list Chunk)) :=
  match encrypt bs with
  | Ok (data_map, encrypted) => pack fuel data_map encrypted
  | Err e => Some (Err (SelfEncryptionError e))
  end.

Definition package_small (f : SmallFile) : result FileError Chunk :=
  let chunk := to_chunk (sf_bytes f) in
  if decide (MIN_ENCRYPTABLE_BYTES ≤ length (ch_value chunk))
  then Err (SmallFilePaddingNeeded (length (ch_value chunk))) else Ok chunk.

Definition chunk_bytes (fuel : nat) (bs : bytes) : option (result FileError (XorName * list Chunk)) :=
  match LargeFile_new bs with
  | Ok file => encrypt_large fuel (lf_bytes file)
  | Err (TooSmallForSelfEncryption _ _) =>
      Some (file ← SmallFile_new bs; chunk ← package_small file; Ok (ch_address chunk, [chunk]))
  | Err e => Some (Err e)
  end.

Definition calculate_address (fuel : nat) (bs : bytes) : option (result FileError XorName) :=
  match chunk_bytes fuel bs with
  | Some r => Some ('(name, _) ← r; Ok name)
  | None => None
  end.

(** ** Tasks *)

(** What the tasks of a client share, and the schedules of the batches to come. *)
Inductive Event := Runs (i : nat) | Expires (i : nat) | Dies (i : nat).
Record World := mkWorld { net : Net; chunks_cache : Lru; schedules : list (list Event) }.

(** A step is done on what is shared; where a deadline is set, the task may end with [late]. *)
Inductive task (A : Type) : Type :=
  | Done (a : A)
  | Do {R : Type} (op : World → World * R) (k : R → task A) (late : option A).
Arguments Done {A} a.
Arguments Do {A R} op k late.

Fixpoint task_map {A A'} (f : A → A') (t : task A) : task A' :=
  match t with
  | Done a => Done (f a)
  | Do op k late => Do op (λ r, task_map f (k r)) (f <$> late)
  end.
(** [tokio::time::timeout]. *)
Fixpoint with_timeout {A} (late : A) (t : task A) : task A :=
  match t with
  | Done a => Done a
  | Do op k _ => Do op (λ r, with_timeout late (k r)) (Some late)
  end.

Definition task_step {A} (expired : bool) (w : World) (t : task A) : World * task A :=
  match t with
  | Done a => (w, Done a)
  | Do op k late =>
      match expired, late with
      | true, Some a => (w, Done a)
      | true, None => (w, t)
      | false, _ => let '(w, r) := op w in (w, k r)
      end
  end.

(** A task that died is [None]. *)
Definition at_task {A} (f : World → task A → World * option (task A)) (i : nat) (s : World * list (option (task A)))
    : World * list (option (task A)) :=
  match s.2 !! i with
  | Some (Some t) => let '(w, t) := f s.1 t in (w, <[i := t]> s.2)
  | _ => s
  end.
Definition runs {A} (expired : bool) (w : World) (t : task A) : World * option (task A) :=
  let '(w, t) := task_step expired w t in (w, Some t).
Definition dies {A} (w : World) (t : task A) : World * option (task A) :=
  match t with Done a => (w, Some (Done a)) | Do _ _ _ => (w, None) end.
Definition event_step {A} (s : World * list (option (task A))) (e : Event) : World * list (option (task A)) :=
  match e with
  | Runs i => at_task (runs false) i s
  | Expires i => at_task (runs true) i s
  | Dies i => at_task dies i s
  end.

Fixpoint finish {A} (w : World) (t : task A) : World * A :=
  match t with
  | Done a => (w, a)
  | Do op k _ => let '(w, r) := op w in finish w (k r)
  end.
Fixpoint finish_all {A} (w : World) (ts : list (option (task A))) : World * list (option A) :=
  match ts with
  | [] => (w, [])
  | None :: ts => let '(w, rs) := finish_all w ts in (w, None :: rs)
  | Some t :: ts => let '(w, r) := finish w t in let '(w, rs) := finish_all w ts in (w, Some r :: rs)
  end.

Definition next_schedule (w : World) : World * list Event :=
  (mkWorld (net w) (chunks_cache w) (tail (schedules w)), default [] (head (schedules w))).

(** [join_all] of spawned tasks: their results in the order of the tasks. *)
Definition join_all {A} (ts : list (task A)) (w : World) : World * list (option A) :=
  let '(w, evs) := next_schedule w in
  let '(w, ts) := foldl event_step (w, Some <$> ts) evs in
  finish_all w ts.

(** A future that the caller itself awaits cannot die. *)
Definition await_step {A} (s : World * task A) (e : Event) : World * task A :=
  match e with Expires _ => task_step true s.1 s.2 | _ => task_step false s.1 s.2 end.
Definition await {A} (t : task A) (w : World) : World * A :=
  let '(w, evs) := next_schedule w in
  let '(w, t) := foldl await_step (w, t) evs in
  finish w t.

(** ** Calls of a client *)

Definition client (A : Type) : Type := World → World * outcome (result FileError A).

#[export] Instance client_ret : MRet client := λ A a w, (w, Returns (Ok a)).
#[export] Instance client_bind : MBind client := λ A A' f m w,
  match m w with
  | (w, Returns (Ok a)) => f a w
  | (w, Returns (Err e)) => (w, Returns (Err e))
  | (w, Panics) => (w, Panics)
  | (w, Unfinished) => (w, Unfinished)
  end.
Definition returned {A} (r : result FileError A) : client A := λ w, (w, Returns r).
Definition with_fuel {A} (o : option (result FileError A)) : client A := λ w,
  (w, match o with Some r => Returns r | None => Unfinished end).
Definition awaits {A} (t : task (result FileError A)) : client A := λ w,
  let '(w, r) := await t w in (w, Returns r).
Definition joins {A} (ts : list (task A)) : client (list (option A)) := λ w,
  let '(w, rs) := join_all ts w in (w, Returns (Ok rs)).
(** The outcome of a call as a value. *)
Definition attempt {A} (m : client A) : client (result FileError A) := λ w,
  match m w with
  | (w, Returns r) => (w, Returns (Ok r))
  | (w, Panics) => (w, Panics)
  | (w, Unfinished) => (w, Unfinished)
  end.

Definition on_net {R} (op : Net → Net * R) (w : World) : World * R :=
  let '(n, r) := op (net w) in (mkWorld n (chunks_cache w) (schedules w), r).
Definition on_cache {R} (op : Lru → Lru * R) (w : World) : World * R :=
  let '(c, r) := op (chunks_cache w) in (mkWorld (net w) c (schedules w), r).

(** ** Chunks from the network *)

Definition get_chunk (name : XorName) : task (result FileError Chunk) :=
  Do (on_cache (lru_find (λ c, bool_decide (ch_address c = name)))) (λ found,
    match found with
    | Some chunk => Done (Ok chunk)
    | None =>
        Do (on_net (send_get name)) (λ response,
          match response with
          | Err e => Done (Err (FileNetError e))
          | Ok (RespGetChunk _ (Ok chunk)) =>
              Do (on_cache (λ c, (lru_insert chunk c, ()))) (λ _, Done (Ok chunk)) None
          | Ok (RespGetChunk _ (Err err)) => Done (Err (FileErrorMsg err))
          | Ok response => Done (Err (FileUnexpectedResponse name response))
          end) None
    end) None.

(** The timeout of queries of the configuration. *)
Context (query_timeout : option nat).

Definition verify_chunk_is_stored (address : XorName) : task (result FileError unit) :=
  task_map (λ r, (λ _, ()) <$> r)
    (match query_timeout with
     | Some elapsed => with_timeout (Err (ChunkUploadValidationTimeout elapsed address)) (get_chunk address)
     | None => get_chunk address
     end).

(** Send the command, then verify. *)
Definition store_task (verify : bool) (chunk : Chunk) : task (result FileError unit) :=
  Do (on_net (send_store chunk)) (λ r,
    match r with
    | Err e => Done (Err (FileNetError e))
    | Ok _ => if verify then verify_chunk_is_stored (ch_address chunk) else Done (Ok ())
    end) None.

(** ** Uploads *)

Definition CHUNKS_BATCH_MAX_SIZE : nat := 5.

(** [slice::chunks]; a batch takes at least one element. *)
Fixpoint batches_with {A} (fuel : nat) (n : nat) (l : list A) : list (list A) :=
  match fuel, l with
  | _, [] => []
  | 0, _ => []
  | S fuel, _ => take n l :: batches_with fuel n (drop n l)
  end.
Definition batches {A} (l : list A) : list (list A) := batches_with (length l) CHUNKS_BATCH_MAX_SIZE l.

(** [flatten] over the results of tasks leaves out those that died. *)
Definition responses {A} (rs : list (option A)) : list A := omap id rs.
Fixpoint check_all (rs : list (result FileError unit)) : result FileError unit :=
  match rs with
  | [] => Ok ()
  | Ok _ :: rs => check_all rs
  | Err e :: _ => Err e
  end.

Fixpoint upload_batches (verify : bool) (bs : list (list Chunk)) : client unit :=
  match bs with
  | [] => mret ()
  | next_batch :: bs =>
      _ ← λ w, let '(w, r) := on_net (setup_connections (ch_address <$> next_batch)) w in
               (w, Returns (map_err FileNetError r));
      rs ← joins (store_task verify <$> next_batch);
      _ ← returned (check_all (responses rs));
      upload_batches verify bs
  end.

Definition upload_large (fuel : nat) (large : LargeFile) (verify : bool) : client XorName :=
  '(head_address, all_chunks) ← with_fuel (encrypt_large fuel (lf_bytes large));
  _ ← upload_batches verify (batches all_chunks);
  mret head_address.

Definition upload_small (small : SmallFile) (verify : bool) : client XorName :=
  chunk ← returned (package_small small);
  _ ← awaits (store_task verify chunk);
  mret (ch_address chunk).

Definition upload_bytes (fuel : nat) (bs : bytes) (verify : bool) : client XorName :=
  match LargeFile_new bs with
  | Ok file => upload_large fuel file verify
  | Err (TooSmallForSelfEncryption _ _) => file ← returned (SmallFile_new bs); upload_small file verify
  | Err e => returned (Err e)
  end.
Definition upload (fuel : nat) (bs : bytes) : client XorName := upload_bytes fuel bs false.
Definition upload_and_verify (fuel : nat) (bs : bytes) : client XorName := upload_bytes fuel bs true.

(** ** Reading *)

Definition fetch_task (info : ChunkInfo) : task (result FileError EncryptedChunk) :=
  task_map (λ r, (λ chunk, mkEncryptedChunk (ci_index info) (ch_value chunk)) <$> r) (get_chunk (ci_dst_hash info)).

(** Both [flatten]s: tasks that died and errors are left out. *)
Definition retrieved (rs : list (option (result FileError EncryptedChunk))) : list EncryptedChunk :=
  omap (λ r, match r with Some (Ok c) => Some c | _ => None end) rs.

Fixpoint fetch_batches (bs : list (list ChunkInfo)) : client (list EncryptedChunk) :=
  match bs with
  | [] => mret []
  | next_batch :: bs =>
      rs ← joins (fetch_task <$> next_batch);
      rest ← fetch_batches bs;
      mret (retrieved rs ++ rest)
  end.

Definition try_get_chunks (chunks_info : list ChunkInfo) : client (list EncryptedChunk) :=
  chunks ← fetch_batches (batches chunks_info);
  returned (if decide (length chunks < length chunks_info)
            then Err (NotEnoughChunksRetrieved (length chunks_info) (length chunks)) else Ok chunks).

Definition read_all (data_map : DataMap) : client bytes :=
  encrypted_chunks ← try_get_chunks (infos data_map);
  returned (map_err SelfEncryptionError (decrypt_full_set data_map encrypted_chunks)).

Fixpoint unpack_chunk (fuel : nat) (chunk : Chunk) : client DataMap :=
  match fuel with
  | 0 => with_fuel None
  | S fuel =>
      level ← returned (ok_or (bincode_deserialize (ch_value chunk)) FileSerialisation);
      match level with
      | First data_map => mret data_map
      | Additional data_map =>
          serialized_chunk ← read_all data_map;
          chunk ← returned (ok_or (chunk_deserialize serialized_chunk) FileSerialisation);
          unpack_chunk fuel chunk
      end
  end.

Definition read_bytes (fuel : nat) (address : XorName) : client bytes :=
  chunk ← awaits (get_chunk address);
  unpacked ← attempt (unpack_chunk fuel chunk);
  match unpacked with
  | Ok data_map => read_all data_map
  | Err _ => mret (ch_value chunk)
  end.

Definition seek (data_map : DataMap) (pos len : nat) : client bytes :=
  let info := seek_info (file_size data_map) pos len in
  let range := seq (si_start info) (si_end info + 1 - si_start info) in
  match mapM (λ i, infos data_map !! i) range with
  | None => λ w, (w, Panics)
  | Some chunks_info =>
      encrypted_chunks ← try_get_chunks chunks_info;
      returned (map_err SelfEncryptionError (decrypt_range data_map encrypted_chunks (si_relative_pos info) len))
  end.

Definition read_from (fuel : nat) (address : XorName) (position length : nat) : client bytes :=
  chunk ← awaits (get_chunk address);
  unpacked ← attempt (unpack_chunk fuel chunk);
  match unpacked with
  | Ok data_map => seek data_map position length
  | Err _ =>
      let bs := ch_value chunk in
      if decide (List.length bs < position) then λ w, (w, Panics)
      else mret (take length (drop position bs))
  end.

(** ** Replicas *)

(** The outcomes by index of the replica; a chunk that was found. *)
Record QueriedDataReplicas := mkQueried { qr_name : XorName; qr_outcomes : gmap nat (result FileError unit) }.

Definition replica_outcome (name : XorName) (res : result NetError (NodeQueryResponse SpentShare))
    : result FileError Chunk :=
  match res with
  | Ok (RespGetChunk _ (Ok chunk)) => Ok chunk
  | Ok (RespGetChunk _ (Err err)) => Err (FileErrorMsg err)
  | Ok other => Err (FileUnexpectedResponse name other)
  | Err e => Err (FileNetError e)
  end.
Fixpoint record_replicas (name : XorName) (results : list (nat * result NetError (NodeQueryResponse SpentShare)))
    (outcomes : gmap nat (result FileError unit)) (found_chunk : option Chunk)
    : gmap nat (result FileError unit) * option Chunk :=
  match results with
  | [] => (outcomes, found_chunk)
  | (replica_index, res) :: results =>
      let outcome := replica_outcome name res in
      record_replicas name results (<[replica_index := (λ _, ()) <$> outcome]> outcomes)
        (match outcome with Ok chunk => Some chunk | Err _ => found_chunk end)
  end.

Definition get_chunk_from_replicas (name : XorName) (replicas : list nat)
    : task (result FileError (QueriedDataReplicas * option Chunk)) :=
  Do (on_net (send_get_to_replicas name replicas)) (λ r,
    match r with
    | Err e => Done (Err (FileNetError e))
    | Ok results =>
        let '(outcomes, found_chunk) := record_replicas name results ∅ None in
        Done (Ok (mkQueried name outcomes, found_chunk))
    end) None.

Fixpoint collect_replicas (rs : list (result FileError QueriedDataReplicas)) : result FileError (list QueriedDataReplicas) :=
  match rs with
  | [] => Ok []
  | r :: rs => q ← r; qs ← collect_replicas rs; Ok (q :: qs)
  end.
Fixpoint query_batches (bs : list (list ChunkInfo)) (replicas : list nat) : client (list QueriedDataReplicas) :=
  match bs with
  | [] => mret []
  | next_batch :: bs =>
      rs ← joins ((λ info, task_map (λ r, fst <$> r) (get_chunk_from_replicas (ci_dst_hash info) replicas)) <$> next_batch);
      qs ← returned (collect_replicas (responses rs));
      rest ← query_batches bs replicas;
      mret (qs ++ rest)
  end.
Definition get_chunks_from_replicas (chunks_info : list ChunkInfo) (replicas : list nat)
    : client (list QueriedDataReplicas) :=
  query_batches (batches chunks_info) replicas.

Definition read_bytes_from_replicas (fuel : nat) (name : XorName) (replicas : list nat)
    : client (list QueriedDataReplicas) :=
  '(datamap_replicas, found_chunk) ← awaits (get_chunk_from_replicas name replicas);
  match found_chunk with
  | None => mret [datamap_replicas]
  | Some chunk =>
      unpacked ← attempt (unpack_chunk fuel chunk);
      match unpacked with
      | Err _ => mret [datamap_replicas]
      | Ok data_map =>
          rest ← get_chunks_from_replicas (infos data_map) replicas;
          mret (datamap_replicas :: rest)
      end
  end.
End files.
Arguments Done {B BSh BPS E X M LC CN A} a.
Arguments Do {B BSh BPS E X M LC CN A R} op k late.

(** * Tasks of a client

    The laws of the crates and of the network that the files of a client rely on, and how its
    tasks are verified: one by one with an invariant and a relation that the steps of all
    others respect ([Frame], [ensures]).  Joining and awaiting tasks keeps what each of them
    ensures, whatever the schedule is. *)

(** ** Laws of the crates and of the network *)

Class LruLaws (T : Type) `{!LruCache T} := {
  lru_elements : Lru → list T;
  lru_find_found f c x : (lru_find f c).2 = Some x → f x = true ∧ x ∈ lru_elements c;
  lru_find_elements f c x : x ∈ lru_elements (lru_find f c).1 → x ∈ lru_elements c;
  lru_insert_elements y c x : x ∈ lru_elements (lru_insert y c) → x = y ∨ x ∈ lru_elements c;
}.

(** The hash of a chunk is the content address of its encrypted content; decrypting the chunks
    in the order of the data map gives the data. *)
Definition describes {X : Xor} (from_content : bytes → XorName) (info : ChunkInfo) (c : EncryptedChunk) : Prop :=
  ec_index c = ci_index info ∧ ci_dst_hash info = from_content (ec_content c).
Class SelfEncryptionLaws {X : Xor} (from_content : bytes → XorName) `{!SelfEncryption} : Prop :=
  encrypt_described bs m cs : encrypt bs = Ok (m, cs) →
    ∃ cs', cs' ≡ₚ cs ∧ Forall2 (describes from_content) (infos m) cs' ∧ decrypt_full_set m cs' = Ok bs.

(** What is serialised is read back.  Other bytes may be read as a value, too. *)
Class BincodeLaws (T : Type) `{!Bincode T, !Bindec T} : Prop :=
  bincode_roundtrip (x : T) bs : bincode_serialize x = Some bs → bincode_deserialize bs = Some x.

(** A file that is stored as it is, as its own chunk, and that a reader takes for the chunk of
    a data map. *)
Definition mistakable {X : Xor} `{!SelfEncryption, !Bindec DataMapLevel} (bs : bytes) : Prop :=
  length bs < MIN_ENCRYPTABLE_BYTES ∧ ∃ level : DataMapLevel, bincode_deserialize bs = Some level.
Lemma not_mistakable {X : Xor} `{!SelfEncryption, !Bindec DataMapLevel} (bs : bytes) :
  ¬ mistakable bs → length bs < MIN_ENCRYPTABLE_BYTES → bincode_deserialize (T := DataMapLevel) bs = None.
Proof. intros Hm Hl. destruct (bincode_deserialize bs) as [level|] eqn:Hd; [|done]. destruct Hm. split; eauto. Qed.

Section props.
Context {B : Bls} {BSh : BlsShares} {BPS : BlsPublicShares} {E : Ed25519} {X : Xor} {M : Merkle bytes}.
Context (from_content : bytes → XorName).
Context {SE : SelfEncryption} {LC : LruCache Chunk} {BB : Bincode bytes} {DB : Bindec bytes}.
Context {CN : ChunkNet} {BL : Bincode DataMapLevel} {DL : Bindec DataMapLevel}.
Context {LL : LruLaws Chunk}.
Context (limit : bool) (query_timeout : option nat).

Abbreviation to_chunk := (chunk_new from_content).

(** Every [Chunk] of the code is made by [Chunk::new]. *)
Definition well_addressed (c : Chunk) : Prop := c = to_chunk (ch_value c).
Definition cache_ok (w : World) : Prop := ∀ c, c ∈ lru_elements (chunks_cache w) → well_addressed c.

(** A network gives only chunks with the name that was asked for. *)
Class ExactNet : Prop := send_get_exact n s c :
  (send_get n s).2 = Ok (RespGetChunk _ (Ok c)) → well_addressed c ∧ ch_address c = n.

(** A network that keeps what it acknowledged and gives it to every query. *)
Class KeepingNet := {
  net_has : Net → Chunk → Prop;
  store_has c s : (send_store c s).2 = Ok () → net_has (send_store c s).1 c;
  store_keeps c s d : net_has s d → net_has (send_store c s).1 d;
  get_keeps n s d : net_has s d → net_has (send_get n s).1 d;
  setup_keeps ns s d : net_has s d → net_has (setup_connections ns s).1 d;
  has_get s c : net_has s c → (send_get (ch_address c) s).2 = Ok (RespGetChunk _ (Ok c));
}.

(** ** Invariants of the world that all steps respect *)

Definition with_cache (w : World) (c : Lru) : World := mkWorld (net w) c (schedules w).
Definition with_net (w : World) (s : Net) : World := mkWorld s (chunks_cache w) (schedules w).

Class Frame (inv : World → Prop) (evolves : relation World) : Prop := {
  frame_preorder :: PreOrder evolves;
  frame_cache w : inv w → cache_ok w;
  frame_get n w : inv w → let w' := with_net w (send_get n (net w)).1 in inv w' ∧ evolves w w';
  frame_store c w : inv w → let w' := with_net w (send_store c (net w)).1 in inv w' ∧ evolves w w';
  frame_setup ns w : inv w → let w' := with_net w (setup_connections ns (net w)).1 in inv w' ∧ evolves w w';
  frame_with_cache w c : inv w → cache_ok (with_cache w c) → inv (with_cache w c) ∧ evolves w (with_cache w c);
  frame_next w : inv w → inv (next_schedule w).1 ∧ evolves w (next_schedule w).1;
}.

(** *** Nothing but the cache *)

#[export] Instance cache_frame : Frame cache_ok (λ _ _, True).
Proof. by split. Qed.

(** *** The network keeps the chunks of a list, and no task dies *)

Definition deathless (evs : list Event) : Prop := ∀ i, Dies i ∉ evs.
Definition calm (w : World) : Prop := cache_ok w ∧ Forall deathless (schedules w).
Section keeping.
Context {KN : KeepingNet} (needed : list Chunk).
Definition holds (w : World) : Prop := Forall (net_has (net w)) needed.
Definition keeps (w w' : World) : Prop := ∀ c, net_has (net w) c → net_has (net w') c.

Lemma keeps_holds w w' : keeps w w' → holds w → holds w'.
Proof. intros Hk Hh. eapply Forall_impl; [exact Hh|]. apply Hk. Qed.

#[export] Instance keeping_frame : Frame (λ w, calm w ∧ holds w) keeps.
Proof.
  split.
  - split; repeat intro; auto.
  - by intros w [[]].
  - intros n w [Hw Hh]. assert (keeps w (with_net w (send_get n (net w)).1)) by (intros c; apply get_keeps).
    split_and!; [done| |done]. by eapply keeps_holds.
  - intros c w [Hw Hh]. assert (keeps w (with_net w (send_store c (net w)).1)) by (intros d; apply store_keeps).
    split_and!; [done| |done]. by eapply keeps_holds.
  - intros ns w [Hw Hh]. assert (keeps w (with_net w (setup_connections ns (net w)).1)) by (intros d; apply setup_keeps).
    split_and!; [done| |done]. by eapply keeps_holds.
  - intros w c [[_ Hs] Hh] Hc. split; [|by intros d]. by split; [split|].
  - intros w [[Hc Hs] Hh]. split; [|by intros d]. split; [|done]. split; [done|]. unfold next_schedule. cbn.
    by destruct Hs.
Qed.
End keeping.

(** ** Tasks one by one *)

Section tasks.
Context (inv : World → Prop) (evolves : relation World) {F : Frame inv evolves}.

Fixpoint ensures {A} (Q : A → World → Prop) (w : World) (t : task A) : Prop :=
  match t with
  | Done a => Q a w
  | Do op k late =>
      ∀ w', inv w' → evolves w w' →
        (inv (op w').1 ∧ evolves w' (op w').1 ∧ ensures Q (op w').1 (k (op w').2)) ∧
        (∀ a, late = Some a → Q a w')
  end.
Definition stable {A} (Q : A → World → Prop) : Prop := ∀ a w w', inv w' → evolves w w' → Q a w → Q a w'.

Lemma ensures_later {A} (Q : A → World → Prop) w w' t :
  stable Q → inv w' → evolves w w' → ensures Q w t → ensures Q w' t.
Proof.
  intros HQ Hi Hw. destruct t as [a|R op k late]; simpl; [by apply HQ|].
  intros Ht w'' Hi' Hw'. apply Ht; [done|]. by transitivity w'.
Qed.
Lemma ensures_weaken {A} (Q Q' : A → World → Prop) w t :
  (∀ a w, inv w → Q a w → Q' a w) → inv w → ensures Q w t → ensures Q' w t.
Proof.
  intros HQ. revert w. induction t as [a|R op k IH late]; simpl; intros w Hi Ht; [by apply HQ|].
  intros w' Hi' Hw. destruct (Ht w' Hi' Hw) as [(?&?&?) Hl]. split; [split_and!; [done..|]|].
  - by apply IH.
  - intros a Ha. apply HQ; [done|]. by apply Hl.
Qed.
Lemma ensures_map {A A'} (f : A → A') (Q : A' → World → Prop) w t :
  ensures (λ a, Q (f a)) w t → ensures Q w (task_map f t).
Proof.
  revert w. induction t as [a|R op k IH late]; simpl; [done|]. intros w Ht w' Hi Hw.
  destruct (Ht w' Hi Hw) as [(?&?&?) Hl]. split; [split_and!; [done..|by apply IH]|].
  intros a Ha. destruct late as [a'|]; simplify_eq/=. by apply Hl.
Qed.
Lemma ensures_timeout {A} (Q : A → World → Prop) late w t :
  (∀ w', inv w' → evolves w w' → Q late w') → ensures Q w t → ensures Q w (with_timeout late t).
Proof.
  revert w. induction t as [a|R op k IH l]; simpl; [done|]. intros w Hlate Ht w' Hi Hw.
  destruct (Ht w' Hi Hw) as [(?&?&?) _]. split; [split_and!; [done..|]|].
  - apply IH; [|done]. intros w'' Hi'' Hw''. apply Hlate; [done|]. transitivity w'; [done|]. by transitivity (op w').1.
  - intros a [= <-]. by apply Hlate.
Qed.

Lemma task_step_ensures {A} (Q : A → World → Prop) expired w (t : task A) :
  inv w → ensures Q w t →
  let '(w', t') := task_step expired w t in inv w' ∧ evolves w w' ∧ ensures Q w' t'.
Proof.
  intros Hi. destruct t as [a|R op k late]; simpl; [done|]. intros Ht.
  destruct (Ht w Hi) as [(?&?&?) Hl]; [done|]. destruct expired; [destruct late as [a|]|].
  - split_and!; [done..|]. by apply Hl.
  - done.
  - by destruct (op w).
Qed.
Lemma finish_ensures {A} (Q : A → World → Prop) w (t : task A) :
  inv w → ensures Q w t → let '(w', a) := finish w t in inv w' ∧ evolves w w' ∧ Q a w'.
Proof.
  revert w. induction t as [a|R op k IH late]; simpl; intros w Hi Ht; [done|].
  destruct (Ht w Hi) as [(?&?&?) _]; [done|]. destruct (op w) as [w' r]; simpl in *.
  specialize (IH r w'). destruct (finish w' (k r)) as [w'' a]. destruct IH as (?&?&?); [done..|].
  split_and!; [done| |done]. by transitivity w'.
Qed.

(** *** Tasks side by side *)

(** Each task ensures its part while the others go on. *)
Definition pool_ensures {A T} (Q : T → A → World → Prop) (xs : list T) (s : World * list (option (task A))) : Prop :=
  inv s.1 ∧ Forall2 (λ x o, ∀ t, o = Some t → ensures (Q x) s.1 t) xs s.2.

Lemma at_task_ensures {A T} (Q : T → A → World → Prop) xs f i (s : World * list (option (task A))) :
  (∀ x, stable (Q x)) →
  (∀ x w t, inv w → ensures (Q x) w t →
    inv (f w t).1 ∧ evolves w (f w t).1 ∧ ∀ t', (f w t).2 = Some t' → ensures (Q x) (f w t).1 t') →
  pool_ensures Q xs s → pool_ensures Q xs (at_task f i s) ∧ evolves s.1 (at_task f i s).1.
Proof.
  intros HQ Hf [Hi Hp]. unfold at_task.
  destruct (s.2 !! i) as [[t|]|] eqn:Hl; [|by split..].
  destruct (Forall2_lookup_r _ _ _ _ _ Hp Hl) as (x & Hx & Ht).
  destruct (Hf x s.1 t Hi (Ht t eq_refl)) as (Hi' & Hw & Ht'). destruct (f s.1 t) as [w' o]. simpl in *.
  split; [|done]. split; [done|]. simpl.
  rewrite <-(list_insert_id xs i x Hx). apply Forall2_insert; [|done].
  eapply Forall2_impl; [exact Hp|]. intros y o' Ho t' ->. eapply ensures_later; eauto.
Qed.

Lemma event_step_ensures {A T} (Q : T → A → World → Prop) xs (s : World * list (option (task A))) e :
  (∀ x, stable (Q x)) → pool_ensures Q xs s →
  pool_ensures Q xs (event_step s e) ∧ evolves s.1 (event_step s e).1.
Proof.
  intros HQ Hs. destruct e as [i|i|i]; simpl; apply at_task_ensures; try done.
  1,2: intros x w t Hi Ht; pose proof (task_step_ensures (Q x)) as Hstep; unfold runs.
  - specialize (Hstep false w t Hi Ht). destruct (task_step false w t). naive_solver.
  - specialize (Hstep true w t Hi Ht). destruct (task_step true w t). naive_solver.
  - intros x w t Hi Ht. destruct t; simpl; naive_solver.
Qed.

Lemma events_ensure {A T} (Q : T → A → World → Prop) xs evs (s : World * list (option (task A))) :
  (∀ x, stable (Q x)) → pool_ensures Q xs s →
  pool_ensures Q xs (foldl event_step s evs) ∧ evolves s.1 (foldl event_step s evs).1.
Proof.
  intros HQ. revert s. induction evs as [|e evs IH]; intros s Hs; simpl; [done|].
  destruct (event_step_ensures Q xs s e HQ Hs) as [Hs' Hw]. destruct (IH _ Hs') as [? Hw'].
  split; [done|]. by transitivity (event_step s e).1.
Qed.

Definition results_ensure {A T} (Q : T → A → World → Prop) (xs : list T) (w : World) (rs : list (option A)) : Prop :=
  Forall2 (λ x r, ∀ a, r = Some a → Q x a w) xs rs.

Lemma finish_all_ensures {A T} (Q : T → A → World → Prop) xs w (ts : list (option (task A))) :
  (∀ x, stable (Q x)) → pool_ensures Q xs (w, ts) →
  let '(w', rs) := finish_all w ts in inv w' ∧ evolves w w' ∧ results_ensure Q xs w' rs.
Proof.
  intros HQ [Hi Hp]. simpl in *. revert w Hi Hp. revert xs.
  induction ts as [|[t|] ts IH]; intros xs w Hi Hp; simpl.
  - split_and!; [done..|]. apply Forall2_nil_inv_r in Hp as ->. constructor.
  - apply Forall2_cons_inv_r in Hp as (x & xs' & Ht & Hp & ->).
    pose proof (finish_ensures (Q x) w t Hi (Ht t eq_refl)) as Hf. destruct (finish w t) as [w1 a].
    destruct Hf as (Hi1 & Hw1 & Ha). specialize (IH xs' w1 Hi1).
    destruct (finish_all w1 ts) as [w2 rs]. destruct IH as (Hi2 & Hw2 & Hrs).
    { eapply Forall2_impl; [exact Hp|]. intros y o' Ho t' ->. eapply ensures_later; eauto. }
    split_and!; [done|by transitivity w1|]. constructor; [|done]. intros a' [= <-]. by eapply HQ.
  - apply Forall2_cons_inv_r in Hp as (x & xs' & Ht & Hp & ->). specialize (IH xs' w Hi Hp).
    destruct (finish_all w ts) as [w2 rs]. destruct IH as (Hi2 & Hw2 & Hrs).
    split_and!; [done..|]. by constructor.
Qed.

Lemma join_all_ensures {A T} (Q : T → A → World → Prop) xs (ts : list (task A)) w :
  (∀ x, stable (Q x)) → inv w → Forall2 (λ x t, ensures (Q x) w t) xs ts →
  let '(w', rs) := join_all ts w in inv w' ∧ evolves w w' ∧ results_ensure Q xs w' rs.
Proof.
  intros HQ Hi Ht. unfold join_all. destruct (frame_next w Hi) as [Hi' Hw].
  destruct (next_schedule w) as [w1 evs]. simpl in *.
  destruct (events_ensure Q xs evs (w1, Some <$> ts)) as [Hp Hw'].
  - done.
  - split; [done|]. simpl. apply Forall2_fmap_r. eapply Forall2_impl; [exact Ht|].
    intros x t Hx t' [= <-]. by eapply ensures_later.
  - destruct (foldl event_step (w1, Some <$> ts) evs) as [w2 ts2]. simpl in *.
    pose proof (finish_all_ensures Q xs w2 ts2 HQ Hp) as Hf. destruct (finish_all w2 ts2) as [w3 rs].
    destruct Hf as (?&?&?). split_and!; [done| |done]. transitivity w1; [done|]. by transitivity w2.
Qed.

Lemma await_ensures {A} (Q : A → World → Prop) (t : task A) w :
  inv w → ensures Q w t → stable Q → let '(w', a) := await t w in inv w' ∧ evolves w w' ∧ Q a w'.
Proof.
  intros Hi Ht HQ. unfold await. destruct (frame_next w Hi) as [Hi' Hw].
  destruct (next_schedule w) as [w1 evs]. simpl in *.
  assert (Ht1 : ensures Q w1 t) by (by eapply ensures_later). clear Ht Hi.
  revert w1 t Hi' Hw Ht1. induction evs as [|e evs IH]; intros w1 t Hi Hw Ht; simpl.
  - pose proof (finish_ensures Q w1 t Hi Ht) as Hf. destruct (finish w1 t) as [w2 a].
    destruct Hf as (?&?&?). split_and!; [done| |done]. by transitivity w1.
  - assert (∃ b, await_step (w1, t) e = task_step b w1 t) as [b ->] by (destruct e; eauto).
    pose proof (task_step_ensures Q b w1 t Hi Ht) as Hs. destruct (task_step b w1 t) as [w2 t2].
    destruct Hs as (?&?&?). apply IH; [done| |done]. by transitivity w1.
Qed.
End tasks.

(** *** Where no task dies, all have a result *)

Lemma at_task_alive {A} f i (s : World * list (option (task A))) :
  (∀ w t, is_Some (f w t).2) → Forall is_Some s.2 → Forall is_Some (at_task f i s).2.
Proof.
  intros Hf Hs. unfold at_task. destruct (s.2 !! i) as [[t|]|]; [|done..].
  specialize (Hf s.1 t). destruct (f s.1 t) as [w o]. by apply Forall_insert.
Qed.
Lemma runs_alive {A} b w (t : task A) : is_Some (runs b w t).2.
Proof. unfold runs. by destruct (task_step b w t). Qed.
Lemma finish_all_alive {A} w (ts : list (option (task A))) :
  Forall is_Some ts → Forall is_Some (finish_all w ts).2.
Proof.
  intros Hs. revert w. induction Hs as [|o ts [t ->] _ IH]; intros w; simpl; [constructor|].
  destruct (finish w t) as [w1 r]. specialize (IH w1). destruct (finish_all w1 ts) as [w2 rs].
  by constructor.
Qed.
Lemma join_all_alive {A} w (ts : list (task A)) :
  deathless (next_schedule w).2 → Forall is_Some (join_all ts w).2.
Proof.
  unfold join_all. destruct (next_schedule w) as [w1 evs]. simpl. intros Hevs.
  assert (Forall is_Some (foldl event_step (w1, Some <$> ts) evs).2) as Hs.
  { assert (Hts : Forall is_Some (w1, Some <$> ts).2) by (apply Forall_fmap, Forall_true; by eexists).
    revert Hts. generalize (w1, Some <$> ts). induction evs as [|e evs IH]; intros s Hs; simpl; [done|].
    apply IH; [intros i Hi; apply (Hevs i); by right|]. destruct e as [i|i|i]; simpl.
    1,2: apply at_task_alive; [intros; apply runs_alive|done].
    exfalso. apply (Hevs i). by left. }
  destruct (foldl event_step (w1, Some <$> ts) evs) as [w2 ts2]. by apply finish_all_alive.
Qed.
End props.
