(* ===== verification/ClientFilesProps.v ===== *)
(** * Properties of the files of a client

    What is read under the address of a file is the file, in every interleaving of the tasks;
    after an upload it can be read.  [FilesClientDemo] has a concrete network. *)

From S2P Require Import Prelude External Xor NodeState SectionsDag Sap Keys Register RegisterProps UsedSpace.
From S2P Require Import Storage StorageProps FilesMap ClientFiles.

Section props.
Context {B : Bls} {BSh : BlsShares} {BPS : BlsPublicShares} {E : Ed25519} {X : Xor} {M : Merkle bytes}.
Context (from_content : bytes → XorName).
Context {SE : SelfEncryption} {LC : LruCache Chunk} {BB : Bincode bytes} {DB : Bindec bytes}.
Context {CN : ChunkNet} {BL : Bincode DataMapLevel} {DL : Bindec DataMapLevel}.
Context {LL : LruLaws Chunk}.
Context (limit : bool) (query_timeout : option nat).

Abbreviation to_chunk := (chunk_new from_content).
Abbreviation Exact := (ExactNet from_content).

(** ** Batches *)

Lemma concat_batches {A} (l : list A) : concat (batches l) = l.
Proof.
  unfold batches. assert (∀ n, length l ≤ n → concat (batches_with n CHUNKS_BATCH_MAX_SIZE l) = l) as Hn; [|by apply Hn].
  intros n. revert l. induction n as [|n IH]; intros [|x l] Hl; simpl in *; try (done || lia).
  rewrite IH; [|rewrite length_drop; lia]. by rewrite take_drop.
Qed.

(** ** Fetching chunks *)

Section fetch.
Context (inv : World → Prop) (evolves : relation World) {F : Frame from_content inv evolves}.
Context {EN : Exact}.

Lemma find_keeps_cache w f : inv w → cache_ok from_content (with_cache w (lru_find f (chunks_cache w)).1).
Proof. intros Hi c Hc. apply (frame_cache from_content w Hi). exact (lru_find_elements f _ _ Hc). Qed.
Lemma insert_keeps_cache w c : inv w → well_addressed from_content c → cache_ok from_content (with_cache w (lru_insert c (chunks_cache w))).
Proof. intros Hi Hc d Hd. apply lru_insert_elements in Hd as [->|Hd]; [done|]. by apply (frame_cache from_content w Hi). Qed.

(** A task that fetches a chunk ensures what holds of every exact answer. *)
Lemma get_chunk_ensures (Q : result FileError Chunk → World → Prop) name w :
  stable inv evolves Q →
  (∀ c w', inv w' → evolves w w' → well_addressed from_content c → ch_address c = name → Q (Ok c) w') →
  (∀ e w', inv w' → evolves w w' → (∀ c, (send_get name (net w')).2 ≠ Ok (RespGetChunk _ (Ok c))) → Q (Err e) w') →
  inv w → ensures inv evolves Q w (get_chunk name).
Proof.
  intros HQ Hok Herr Hi. simpl. intros w1 Hi1 Hw1. split; [|done].
  pose proof (find_keeps_cache w1 (λ c, bool_decide (ch_address c = name)) Hi1) as Hc.
  destruct (frame_with_cache from_content _ _ Hi1 Hc) as [Hi2 Hw2].
  pose proof (lru_find_found (λ c, bool_decide (ch_address c = name)) (chunks_cache w1)) as Hfound.
  unfold on_cache. destruct (lru_find _ _) as [c' found]. simpl in *.
  split_and!; [done..|]. destruct found as [c|]; simpl.
  - destruct (Hfound c eq_refl) as [Hn Hel]. apply bool_decide_eq_true in Hn.
    apply Hok; [done|by transitivity w1| |done]. by apply (frame_cache from_content w1 Hi1).
  - intros w3 Hi3 Hw3. split; [|done]. destruct (frame_get from_content name w3 Hi3) as [Hi4 Hw4].
    pose proof (send_get_exact from_content name (net w3)) as Hexact.
    assert (Hge : evolves w (with_net w3 (send_get name (net w3)).1)).
    { transitivity w1; [done|]. transitivity (with_cache w1 c'); [done|]. by transitivity w3. }
    assert (Herr3 : ∀ e, (∀ c, (send_get name (net w3)).2 ≠ Ok (RespGetChunk _ (Ok c))) → Q (Err e) w3).
    { intros e He. apply Herr; [done| |done]. transitivity w1; [done|]. by transitivity (with_cache w1 c'). }
    assert (Herr4 : ∀ e, (∀ c, (send_get name (net w3)).2 ≠ Ok (RespGetChunk _ (Ok c))) →
      Q (Err e) (with_net w3 (send_get name (net w3)).1)).
    { intros e He. by apply (HQ _ w3), Herr3. }
    unfold on_net, with_net in *. destruct (send_get name (net w3)) as [s response]. simpl in *.
    split_and!; [done..|]. destruct response as [[[chunk|err]|?|?|?|?|?|?|?|?]|e]; simpl; try (apply Herr4; naive_solver).
    destruct (Hexact chunk eq_refl) as [Hwell Haddr]. intros w5 Hi5 Hw5. split; [|done].
    destruct (frame_with_cache from_content w5 _ Hi5 (insert_keeps_cache w5 chunk Hi5 Hwell)) as [Hi6 Hw6].
    split_and!; [done..|]. apply Hok; [done| |done..]. transitivity (with_net w3 s); [done|]. by transitivity w5.
Qed.
End fetch.

(** *** What fetching gives, whatever the network is *)

(** An answer is exact, and chunks that are [sure] are answered. *)
Definition answer (sure : Chunk → Prop) (name : XorName) (r : result FileError Chunk) : Prop :=
  (∀ c, r = Ok c → well_addressed from_content c ∧ ch_address c = name) ∧
  (∀ c, well_addressed from_content c → ch_address c = name → sure c → r = Ok c).
Definition answer_encrypted (sure : Chunk → Prop) (info : ChunkInfo) (r : option (result FileError EncryptedChunk)) : Prop :=
  (∀ c, r = Some (Ok c) → describes from_content info c) ∧
  (∀ c, describes from_content info c → sure (to_chunk (ec_content c)) → r = Some (Ok c)).

Class Fetches (inv : World → Prop) (sure : Chunk → Prop) : Prop := {
  fetch_head name w : inv w → let '(w', r) := await (get_chunk name) w in inv w' ∧ answer sure name r;
  fetch_all xs w : inv w →
    let '(w', rs) := join_all (fetch_task <$> xs) w in inv w' ∧ Forall2 (answer_encrypted sure) xs rs;
}.

Lemma answer_encrypts sure info (r : result FileError Chunk) :
  answer sure (ci_dst_hash info) r →
  answer_encrypted sure info (Some ((λ chunk, mkEncryptedChunk (ci_index info) (ch_value chunk)) <$> r)).
Proof.
  intros [Hr Hs]. split.
  - intros c. destruct r as [chunk|e]; intros [= <-]. destruct (Hr chunk eq_refl) as [Hw Ha].
    split; [done|]. simpl. by rewrite <-Ha, Hw.
  - intros [i bs] [Hi Hn] Hsure. simpl in *. specialize (Hs (to_chunk bs) eq_refl).
    rewrite Hs by done. by rewrite Hi.
Qed.

(** Tasks that fetch one by one fetch side by side; none dies where chunks are sure. *)
Lemma frame_fetches inv evolves {F : Frame from_content inv evolves} sure :
  (∀ name w, inv w → ensures inv evolves (λ r _, answer sure name r) w (get_chunk name)) →
  (∀ w c, inv w → sure c → deathless (next_schedule w).2) →
  Fetches inv sure.
Proof.
  intros Hget Hcalm. split.
  - intros name w Hw.
    pose proof (await_ensures from_content inv evolves _ _ w Hw (Hget name w Hw)) as Ha.
    destruct (await _ _) as [w' r]. destruct Ha as (?&?&?); [|done]. by intros r' w1 w2.
  - intros xs w Hw.
    pose proof (join_all_ensures from_content inv evolves
      (λ info r (_ : World), answer_encrypted sure info (Some r)) xs (fetch_task <$> xs) w) as Hj.
    pose proof (join_all_alive w (fetch_task <$> xs)) as Halive.
    destruct (join_all _ _) as [w' rs]. simpl in Halive. destruct Hj as (Hw' & _ & Hrs); [|done| |].
    + by intros x r w1 w2.
    + apply Forall2_fmap_r, Forall_Forall2_diag, Forall_forall. intros info _. unfold fetch_task.
      apply ensures_map. eapply ensures_weaken; [|done|apply Hget, Hw]. intros r w1 _. apply answer_encrypts.
    + split; [done|]. apply Forall2_same_length_lookup in Hrs as [Hlen Hrs].
      apply Forall2_same_length_lookup. split; [done|]. intros i info r Hi Hr.
      destruct r as [r|]; [by eapply Hrs|]. split; [done|]. intros c _ Hsure.
      eapply Forall_lookup_1 in Halive; [by apply is_Some_None in Halive| |exact Hr]. by eapply Hcalm.
Qed.

Context {EN : Exact}.

#[export] Instance exact_fetches : Fetches (cache_ok from_content) (λ _, False).
Proof.
  apply (frame_fetches _ (λ _ _, True)); [|done]. intros name w Hw.
  apply (get_chunk_ensures (cache_ok from_content) (λ _ _, True)); [..|done].
  - by intros r w1 w2.
  - intros c w' _ _ Hc Hn. split; [|done]. by intros c' [= <-].
  - by intros e w' _ _ _.
Qed.

(** The hash of chunks is collision-free. *)
Context {HF : Inj (=) (=) from_content}.

Lemma well_addressed_eq c d :
  well_addressed from_content c → well_addressed from_content d → ch_address c = ch_address d → c = d.
Proof. intros -> ->. simpl. by intros ->%HF. Qed.

#[export] Instance keeping_fetches {KN : KeepingNet} needed :
  Fetches (λ w, calm from_content w ∧ holds needed w) (λ c, c ∈ needed).
Proof.
  apply (frame_fetches _ keeps).
  - intros name w Hw. apply (get_chunk_ensures (λ w, calm from_content w ∧ holds needed w) keeps); [..|done].
    + by intros r w1 w2.
    + intros c w' _ _ Hc Hn. split; [by intros c' [= <-]|]. intros d Hd Hn' _. f_equal.
      apply well_addressed_eq; [done..|]. by rewrite Hn.
    + intros e w' [_ Hh] _ Hno. split; [done|]. intros c _ Hn Hc. exfalso. apply (Hno c). rewrite <-Hn.
      apply has_get. by eapply Forall_forall in Hh.
  - intros w c [[_ Hs] _] _. unfold next_schedule. simpl. destruct Hs; simpl; [|done]. by intros i Hi%elem_of_nil.
Qed.
(** ** Reading *)

(** A call gives [v] or an error, and [v] if the chunks it needs are sure. *)
Definition gives {A} (sure : Chunk → Prop) (needed : list Chunk) (v : A) (o : outcome (result FileError A)) : Prop :=
  (o = Returns (Ok v) ∨ ∃ e, o = Returns (Err e)) ∧ (Forall sure needed → o = Returns (Ok v)).

Section reading.
Context {SL : SelfEncryptionLaws from_content} {BBL : BincodeLaws bytes} {BLL : BincodeLaws DataMapLevel}.
Context (inv : World → Prop) (sure : Chunk → Prop) {FT : Fetches inv sure}.

(** *** All chunks of a data map *)

Lemma fetch_batches_answers bs w : inv w →
  let '(w', o) := fetch_batches bs w in
  inv w' ∧ ∃ rs, o = Returns (Ok (retrieved rs)) ∧ Forall2 (answer_encrypted sure) (concat bs) rs.
Proof.
  revert w. induction bs as [|b bs IH]; intros w Hw; simpl.
  - split; [done|]. by exists [].
  - unfold mbind, client_bind, joins. pose proof (fetch_all b w Hw) as Hj.
    destruct (join_all _ _) as [w1 rs]. destruct Hj as [Hw1 Hrs].
    specialize (IH w1 Hw1). destruct (fetch_batches bs w1) as [w2 o]. destruct IH as (Hw2 & rs' & -> & Hrs').
    split; [done|]. exists (rs ++ rs'). split; [|by apply Forall2_app].
    unfold retrieved. by rewrite omap_app.
Qed.

Lemma retrieved_length rs : length (retrieved rs) ≤ length rs.
Proof. induction rs as [|[[c|e]|] rs IH]; simpl; lia. Qed.
Lemma retrieved_all_exact xs cs rs :
  Forall2 (describes from_content) xs cs → Forall2 (answer_encrypted sure) xs rs →
  length xs ≤ length (retrieved rs) → retrieved rs = cs.
Proof.
  intros Hd. revert rs. induction Hd as [|info c xs cs Hc Hd IH]; intros rs Hrs Hlen.
  - by apply Forall2_nil_inv_l in Hrs as ->.
  - apply Forall2_cons_inv_l in Hrs as (r & rs' & [Hr _] & Hrs & ->).
    pose proof (retrieved_length rs'). pose proof (Forall2_length _ _ _ Hrs).
    destruct r as [[c'|e]|]; simpl in *; try lia. f_equal; [|apply IH; [done|lia]].
    destruct (Hr c' eq_refl) as [Hi' Hn'], Hc as [Hi Hn]. destruct c, c'. simpl in *. f_equal; [congruence|].
    apply HF. congruence.
Qed.
Lemma retrieved_all_sure xs cs rs :
  Forall2 (describes from_content) xs cs → Forall2 (answer_encrypted sure) xs rs →
  Forall sure (content_chunks from_content cs) → retrieved rs = cs.
Proof.
  intros Hd. revert rs. induction Hd as [|info c xs cs Hc Hd IH]; intros rs Hrs Hsure.
  - by apply Forall2_nil_inv_l in Hrs as ->.
  - apply Forall2_cons_inv_l in Hrs as (r & rs' & [_ Hr] & Hrs & ->).
    apply Forall_cons in Hsure as [Hs Hsure]. rewrite (Hr c Hc Hs). simpl. f_equal. by apply IH.
Qed.

Lemma read_all_gives bs m cs w : encrypt bs = Ok (m, cs) → inv w →
  let '(w', o) := read_all m w in inv w' ∧ gives sure (content_chunks from_content cs) bs o.
Proof.
  intros He Hw. apply encrypt_described in He as (cs' & Hp & Hd & Hdec).
  unfold read_all, try_get_chunks, mbind, client_bind. pose proof (fetch_batches_answers (batches (infos m)) w Hw) as Hf.
  destruct (fetch_batches _ w) as [w' o]. destruct Hf as (Hw' & rs & -> & Hrs). rewrite concat_batches in Hrs.
  unfold returned. case_decide as Hlen.
  - split; [done|]. split; [by right; eexists|]. intros Hsure. exfalso.
    rewrite (retrieved_all_sure _ _ _ Hd Hrs) in Hlen.
    + apply Forall2_length in Hd. lia.
    + unfold content_chunks in *. by rewrite Hp.
  - rewrite (retrieved_all_exact _ _ _ Hd Hrs), Hdec by lia. split; [done|]. split; [by left|done].
Qed.

(** *** The levels of data maps *)

(** The chunk with [content] leads to the data map [m] by [n] levels over the chunks [needed]. *)
Inductive leads_to (m : DataMap) : bytes → list Chunk → nat → Prop :=
  | leads_first content : bincode_serialize (First m) = Some content → leads_to m content [] 0
  | leads_additional content needed n serialized m' cs content' :
      leads_to m content needed n →
      chunk_serialize (to_chunk content) = Some serialized → encrypt serialized = Ok (m', cs) →
      bincode_serialize (Additional m') = Some content' →
      leads_to m content' (content_chunks from_content cs ++ needed) (S n).

Lemma unpack_chunk_gives m content needed n fuel w :
  leads_to m content needed n → n < fuel → inv w →
  let '(w', o) := unpack_chunk from_content fuel (to_chunk content) w in
  inv w' ∧ gives sure needed m o ∧ (n = 0 → o = Returns (Ok m)).
Proof.
  intros Hl. revert fuel w. induction Hl as [content Hs|content needed n ser m' cs content' Hl IH Hser He Hs];
    intros [|fuel] w Hn Hw; try lia; simpl.
  - unfold mbind, client_bind, returned. rewrite (bincode_roundtrip _ _ Hs). simpl.
    split; [done|]. split; [split; [by left|done]|done].
  - unfold mbind at 1, client_bind, returned. rewrite (bincode_roundtrip _ _ Hs). simpl.
    pose proof (read_all_gives _ _ _ w He Hw) as Hr. unfold mbind at 1, client_bind.
    destruct (read_all m' w) as [w1 o]. destruct Hr as (Hw1 & Hor & Hsure).
    assert (Hrest : o = Returns (Ok ser) → let '(w', o') := unpack_chunk from_content fuel (to_chunk content) w1 in
      inv w' ∧ gives sure needed m o' ∧ (n = 0 → o' = Returns (Ok m))) by (intros _; apply IH; [lia|done]).
    destruct Hor as [->|[e ->]].
    + specialize (Hrest eq_refl). unfold mbind, client_bind, returned, chunk_deserialize.
      unfold chunk_serialize in Hser. simpl in Hser. rewrite (bincode_roundtrip _ _ Hser). simpl.
      destruct (unpack_chunk _ fuel _ w1) as [w2 o]. destruct Hrest as (Hw2 & [Ho Hall] & _).
      split; [done|]. split; [|done]. split; [done|]. intros [_ Hf]%Forall_app. by apply Hall.
    + split; [done|]. split; [|done]. split; [by right; eexists|]. intros [Hf _]%Forall_app.
      by specialize (Hsure Hf).
Qed.

(** *** Files *)

Lemma pack_loop_leads m fuel chunks content needed n address all :
  leads_to m content needed n → (∀ c, c ∈ needed → c ∈ chunks) →
  pack_loop from_content fuel chunks content = Some (Ok (address, all)) →
  ∃ content' needed' n', leads_to m content' needed' n' ∧ n' < n + fuel ∧ address = from_content content' ∧
    to_chunk content' ∈ all ∧ ∀ c, c ∈ needed' → c ∈ all.
Proof.
  revert chunks content needed n. induction fuel as [|fuel IH]; intros chunks content needed n Hl Hn; simpl; [done|].
  case_decide as Hsize.
  - intros [= <- <-]. exists content, needed, n. split_and!; [done|lia|done| |]; [set_solver|].
    intros c Hc. rewrite elem_of_app, elem_of_reverse. auto.
  - destruct (chunk_serialize _) as [ser|] eqn:Hser; simpl; [|done].
    destruct (encrypt ser) as [[m' cs]|e] eqn:He; simpl; [|done].
    unfold pack_data_map. destruct (bincode_serialize (Additional m')) as [content'|] eqn:Hs; simpl; [|done].
    intros Hp. apply (IH _ _ (content_chunks from_content cs ++ needed) (S n)) in Hp.
    + destruct Hp as (c'&nd&n'&?&?&?). exists c', nd, n'. split_and!; [done|lia|naive_solver..].
    + by eapply leads_additional.
    + intros c. rewrite !elem_of_app. naive_solver.
Qed.

(** What [chunk_bytes] makes of a small and of a large file. *)
Lemma chunk_bytes_cases fuel bs address all :
  chunk_bytes from_content limit fuel bs = Some (Ok (address, all)) →
  (length bs < MIN_ENCRYPTABLE_BYTES ∧ address = from_content bs ∧ all = [to_chunk bs]) ∨
  (∃ m cs content needed n, encrypt bs = Ok (m, cs) ∧ leads_to m content needed n ∧ n < fuel ∧
    address = from_content content ∧
    ∀ c, c ∈ to_chunk content :: needed ++ content_chunks from_content cs → c ∈ all).
Proof.
  unfold chunk_bytes, LargeFile_new. case_decide as Hlen.
  - unfold SmallFile_new, package_small. intros [= H]. left. rewrite decide_False in H by lia.
    case_decide; [done|]. simpl in H. rewrite decide_False in H by (simpl; lia). by simplify_eq/=.
  - destruct (limit && _); [done|]. unfold encrypt_large, pack.
    destruct (encrypt _) as [[m cs]|e] eqn:He; simpl in He; [|done]. unfold pack_data_map.
    destruct (bincode_serialize (First m)) as [content|] eqn:Hs; simpl; [|done].
    destruct (pack_loop _ _ _ _) as [[[addr additional]|e]|] eqn:Hp; try done. case_decide; [done|].
    intros [= <- <-]. right. apply (pack_loop_leads m _ _ _ [] 0) in Hp; [|by constructor|by set_solver].
    destruct Hp as (content' & needed & n & ? & ? & ? & ? & Hall). exists m, cs, content', needed, n.
    split_and!; try done. intros c. rewrite elem_of_cons, !elem_of_app. naive_solver.
Qed.

Lemma read_bytes_gives fuel fuel' bs address all w :
  ¬ mistakable bs → chunk_bytes from_content limit fuel bs = Some (Ok (address, all)) → fuel < fuel' → inv w →
  let '(w', o) := read_bytes from_content fuel' address w in
  inv w' ∧
  (o = Returns (Ok bs) ∨ (∃ e, o = Returns (Err e)) ∨
   ∃ v m, o = Returns (Ok v) ∧ bincode_deserialize v = Some (Additional m)) ∧
  (Forall sure all → o = Returns (Ok bs)).
Proof.
  intros Hmis Hc Hf Hw. unfold read_bytes, awaits. unfold mbind at 1, client_bind.
  pose proof (fetch_head address w Hw) as Hh. destruct (await _ w) as [w1 r]. destruct Hh as [Hw1 [Hexact Hsure]].
  apply chunk_bytes_cases in Hc as [(Hlen & -> & ->)|(m & cs & content & needed & n & He & Hl & Hn & -> & Hall)].
  - destruct r as [chunk|e].
    + destruct (Hexact chunk eq_refl) as [Hwell Haddr].
      assert (chunk = to_chunk bs) as -> by (by apply well_addressed_eq).
      unfold attempt. destruct fuel' as [|fuel']; [lia|]. simpl.
      unfold mbind, client_bind, returned. rewrite not_mistakable by done. simpl. split_and!; [done|by left|done].
    + split_and!; [done|right; left; by eexists|]. intros [Hs _]%Forall_cons. by specialize (Hsure (to_chunk bs) eq_refl eq_refl Hs).
  - destruct r as [chunk|e].
    + destruct (Hexact chunk eq_refl) as [Hwell Haddr].
      assert (chunk = to_chunk content) as -> by (by apply well_addressed_eq).
      unfold attempt. pose proof (unpack_chunk_gives m content needed n fuel' w1 Hl) as Hu.
      unfold mbind at 1, client_bind. destruct (unpack_chunk _ fuel' _ w1) as [w2 o].
      destruct Hu as (Hw2 & [Ho Hos] & Ho0); [lia|done|]. destruct Ho as [->|[e ->]].
      * pose proof (read_all_gives bs m cs w2 He Hw2) as Hr. destruct (read_all m w2) as [w3 o].
        destruct Hr as (? & Hr & Hrs). split_and!; [done|naive_solver|]. intros Hs. apply Hrs.
        rewrite Forall_forall in Hs |- *. intros c Hc. apply Hs, Hall. set_solver.
      * split_and!; [done| |].
        -- right. right. simpl. destruct Hl as [|content needed n ser m' cs' content' ? ? ? Hser]; [by specialize (Ho0 eq_refl)|].
           exists content', m'. split; [done|]. by apply bincode_roundtrip.
        -- intros Hs. exfalso. assert (Forall sure needed) as Hnd; [|by specialize (Hos Hnd)].
           rewrite Forall_forall in Hs |- *. intros c Hc. apply Hs, Hall. set_solver.
    + split_and!; [done|right; left; by eexists|]. intros Hs. exfalso.
      assert (sure (to_chunk content)) as Hs'; [|by specialize (Hsure (to_chunk content) eq_refl eq_refl Hs')].
      rewrite Forall_forall in Hs. apply Hs, Hall. by left.
Qed.
End reading.

(** ** Uploads *)

Section uploading.
Context {KN : KeepingNet}.
Abbreviation ready := (λ w, calm from_content w ∧ holds [] w).

Definition stored (c : Chunk) (r : result FileError unit) (w : World) : Prop := r = Ok () → net_has (net w) c.

Lemma store_task_ensures verify c w : ready w → ensures ready keeps (stored c) w (store_task query_timeout verify c).
Proof.
  intros Hw. simpl. intros w1 Hw1 _. split; [|done].
  destruct (frame_store (inv := ready) (evolves := keeps) from_content c w1 Hw1) as [Hw2 Hk]. unfold on_net, with_net in *.
  pose proof (store_has c (net w1)) as Hs. destruct (send_store c (net w1)) as [s [[]|e]]; simpl in *;
    (split; [exact Hw2|split; [exact Hk|]]); [|done].
  specialize (Hs eq_refl). destruct verify; [|by intros _]. unfold verify_chunk_is_stored.
  apply ensures_map. set (w2 := mkWorld s _ _) in *. set (Q := λ (r : result FileError Chunk) w, net_has (net w) c).
  assert (Hkeep : ∀ w', keeps w2 w' → net_has (net w') c) by (intros w' Hk'; by apply Hk').
  assert (ensures ready keeps Q w2 (get_chunk (ch_address c))) as Hget.
  { apply (get_chunk_ensures ready keeps); [|naive_solver..|done]. intros r w3 w4 _ Hk34 Hr. by apply Hk34. }
  assert (Hweak : ∀ t, ensures ready keeps Q w2 t → ensures ready keeps (λ r, stored c ((λ _, ()) <$> r)) w2 t).
  { intros t Ht. eapply ensures_weaken; [|exact Hw2|exact Ht]. intros r w3 _ Hr _. exact Hr. }
  apply Hweak. destruct query_timeout; [|exact Hget]. apply (ensures_timeout from_content ready keeps). 2: exact Hget. intros w' _ Hk'. exact (Hkeep w' Hk').
Qed.

Lemma check_all_Ok rs : check_all rs = Ok () → Forall (λ r, r = Ok ()) rs.
Proof. induction rs as [|[[]|e] rs IH]; simpl; [constructor| |done]. intros H. constructor; auto. Qed.

Lemma upload_batches_stores verify bs w : ready w →
  let '(w', o) := upload_batches query_timeout verify bs w in
  ready w' ∧ keeps w w' ∧ (o = Returns (Ok ()) → Forall (net_has (net w')) (concat bs)).
Proof.
  revert w. induction bs as [|b bs IH]; intros w Hw; simpl.
  - split; [done|split; [by intros c|]]. intros _. constructor.
  - destruct (frame_setup (inv := ready) (evolves := keeps) from_content (ch_address <$> b) w Hw) as [Hw1 Hk1]. unfold mbind at 1, client_bind, on_net.
    unfold with_net in *. destruct (setup_connections _ _) as [s [u|e]]; simpl in *; [|done].
    set (w1 := mkWorld s _ _) in *. unfold mbind at 1, client_bind, joins.
    pose proof (join_all_ensures from_content ready keeps stored b (store_task query_timeout verify <$> b) w1) as Hj.
    pose proof (join_all_alive w1 (store_task query_timeout verify <$> b)) as Halive.
    destruct (join_all _ w1) as [w2 rs]. destruct Hj as (Hw2 & Hk2 & Hrs); [|done| |].
    { intros c r w3 w4 _ Hk34 Hr Hok. by apply Hk34, Hr. }
    { apply Forall2_fmap_r, Forall_Forall2_diag, Forall_forall. intros c _. by apply store_task_ensures. }
    assert (Hk : keeps w w2) by (intros c Hc; by apply Hk2, Hk1).
    unfold mbind at 1, client_bind, returned. destruct (check_all _) as [[]|e] eqn:Hall; [|done].
    apply check_all_Ok in Hall. specialize (IH w2 Hw2). destruct (upload_batches _ _ bs w2) as [w3 o].
    destruct IH as (Hw3 & Hk3 & Hbs). split; [done|split; [by intros c Hc; apply Hk3, Hk|]].
    intros Ho. apply Forall_app. split; [|by apply Hbs].
    assert (deathless (next_schedule w1).2) as Hd.
    { destruct Hw1 as [[_ Hs] _]. unfold next_schedule. simpl in *. destruct Hs; simpl; [|done].
      by intros i Hi%elem_of_nil. }
    specialize (Halive Hd). simpl in Halive. clear -Hrs Hall Halive Hk3.
    induction Hrs as [|c r b rs Hr Hrs IH]; [constructor|]. apply Forall_cons in Halive as [[a ->] Halive].
    unfold responses in Hall. simpl in Hall. apply Forall_cons in Hall as [-> Hall].
    constructor; [|by apply IH]. apply Hk3. by apply (Hr (Ok ())).
Qed.

(** An upload that returns has stored all the chunks of the file. *)
Lemma upload_bytes_stores fuel bs verify w w' address : ready w →
  upload_bytes from_content limit query_timeout fuel bs verify w = (w', Returns (Ok address)) →
  ∃ all, chunk_bytes from_content limit fuel bs = Some (Ok (address, all)) ∧ Forall (net_has (net w')) all.
Proof.
  intros Hw. unfold upload_bytes, chunk_bytes. destruct (LargeFile_new limit bs) as [file|e].
  - unfold upload_large, with_fuel, mbind, client_bind. destruct (encrypt_large _ _ _) as [[[head all]|e]|]; try done.
    pose proof (upload_batches_stores verify (batches all) w Hw) as Hu.
    destruct (upload_batches _ _ _ w) as [w1 o]. destruct Hu as (_ & _ & Hs).
    destruct o as [[[]|e]| |]; intros [= <- <-]. exists all. split; [done|]. rewrite concat_batches in Hs. by apply Hs.
  - destruct e; try done. unfold returned, mbind, client_bind.
    destruct (SmallFile_new bs) as [f|e]; [|done]. unfold upload_small, returned, mbind, client_bind.
    destruct (package_small _ f) as [c|e] eqn:Hp; [|done]. unfold awaits.
    pose proof (await_ensures from_content ready keeps (stored c) (store_task query_timeout verify c) w Hw
      (store_task_ensures verify c w Hw)) as Ha.
    destruct (await _ w) as [w1 r]. destruct Ha as (_ & _ & Hs).
    { intros r' w3 w4 _ Hk34 Hr Hok. by apply Hk34, Hr. }
    destruct r as [[]|e]; intros [= <- <-]. exists [c]. split; [simpl; by rewrite Hp|]. constructor; [by apply Hs|constructor].
Qed.
End uploading.

(** ** Files that are uploaded and read *)

Section files.
Context {SL : SelfEncryptionLaws from_content} {BBL : BincodeLaws bytes} {BLL : BincodeLaws DataMapLevel}.

(** C11: what is uploaded can be read.  After an upload that returned an address, in whatever
    order its tasks ran, reading that address gives the bytes of the file to every client, with
    any cache of chunks and in any order of its tasks, as long as the network keeps what it
    acknowledged and no task dies; excepted is a file below the size for encryption whose bytes
    can be read as those of a data map, since it is taken for one. *)
Theorem upload_then_read {KN : KeepingNet} fuel fuel' bs verify w w' w2 address :
  ¬ mistakable bs →
  calm from_content w → upload_bytes from_content limit query_timeout fuel bs verify w = (w', Returns (Ok address)) →
  calm from_content w2 → (∀ c, net_has (net w') c → net_has (net w2) c) → fuel < fuel' →
  ∃ w3, read_bytes from_content fuel' address w2 = (w3, Returns (Ok bs)).
Proof.
  intros Hmis Hw Hup Hw2 Hnet Hf. apply upload_bytes_stores in Hup as (all & Hc & Hall); [|by split; [|constructor]].
  pose proof (read_bytes_gives _ (λ c, c ∈ all) (FT := keeping_fetches all) _ fuel' _ _ _ w2 Hmis Hc Hf) as Hr.
  destruct (read_bytes _ _ _ w2) as [w3 o]. exists w3. f_equal. apply Hr.
  - split; [done|]. eapply Forall_impl; [exact Hall|]. exact Hnet.
  - by apply Forall_forall.
Qed.

(** C12: whatever the network answers and however the tasks run, reading the address of a file
    that is not taken for a data map returns, and the bytes it gives are the file or, where a
    data map of several levels could not be followed, those of that map. *)
Theorem read_gives_file_or_map fuel fuel' bs address all w :
  ¬ mistakable bs →
  cache_ok from_content w → chunk_bytes from_content limit fuel bs = Some (Ok (address, all)) → fuel < fuel' →
  ∃ w' r, read_bytes from_content fuel' address w = (w', Returns r) ∧
    ∀ v, r = Ok v → v = bs ∨ ∃ m, bincode_deserialize v = Some (Additional m).
Proof.
  intros Hmis Hw Hc Hf. pose proof (read_bytes_gives _ _ (FT := exact_fetches) _ _ _ _ _ w Hmis Hc Hf Hw) as Hr.
  destruct (read_bytes _ _ _ w) as [w' o]. destruct Hr as (_ & [->|[[e ->]|(v & m & -> & Hm)]] & _).
  - exists w', (Ok bs). split; [done|]. intros v [= ->]. by left.
  - by exists w', (Err e).
  - exists w', (Ok v). split; [done|]. intros v' [= <-]. right. by exists m.
Qed.

(** A small file that can be read as a data map is never read back: its reader gets what the
    map names, or an error. *)
Lemma mistaken_file_is_followed fuel bs m w w' :
  bincode_deserialize bs = Some (First m) → await (get_chunk (from_content bs)) w = (w', Ok (to_chunk bs)) →
  read_bytes from_content (S fuel) (from_content bs) w = read_all m w'.
Proof.
  intros Hm Ha. unfold read_bytes, awaits. unfold mbind at 1, client_bind. rewrite Ha.
  unfold mbind at 1, client_bind, attempt. simpl. unfold mbind, client_bind, returned. rewrite Hm. simpl.
  by destruct (read_all m w') as [w1 []].
Qed.

(** Reading a part of a small file panics exactly beyond its end. *)
Lemma read_from_small fuel bs position len w w' :
  ¬ mistakable bs → length bs < MIN_ENCRYPTABLE_BYTES → await (get_chunk (from_content bs)) w = (w', Ok (to_chunk bs)) →
  read_from from_content (S fuel) (from_content bs) position len w =
    (w', if decide (length bs < position) then Panics else Returns (Ok (take len (drop position bs)))).
Proof.
  intros Hmis Hl Ha. unfold read_from, awaits. unfold mbind at 1, client_bind. rewrite Ha.
  unfold mbind at 1, client_bind, attempt. simpl. unfold mbind, client_bind, returned.
  rewrite not_mistakable by done. simpl. by case_decide.
Qed.
End files.
End props.

(** * A concrete network for files

    The network is the list of its chunks; [encrypt] cuts a file into pieces of two bytes; a
    chunk has at most seven.  At it the properties of files are applied, and two runs show
    where the client is wrong: a file whose tasks died counts as uploaded, and the map of a
    file is returned as its content. *)

Module FilesClientDemo.
Import External.Concrete Xor.ConcreteXor RegisterProps.RegisterDemo StorageDemo.

Abbreviation DemoChunk := (Chunk (X := concrete_xor)).

(** ** The crates *)

#[export] Instance chunk_eq_dec : EqDecision DemoChunk.
Proof. solve_decision. Defined.

#[export] Instance list_cache : LruCache DemoChunk := {|
  Lru := list DemoChunk;
  lru_find f l := (l, find f l);
  lru_insert x l := x :: l;
|}.
#[export, refine] Instance list_cache_laws : LruLaws DemoChunk := {| lru_elements := id |}.
Proof.
  - intros f c x Hx. simpl in Hx. apply find_some in Hx as [Hin Hf]. by apply list_elem_of_In in Hin.
  - done.
  - intros y c x. simpl. set_solver.
Defined.

(** Pieces of two bytes with their indexes. *)
Fixpoint pieces (i : nat) (bs : bytes) : list EncryptedChunk :=
  match bs with
  | [] => []
  | [x] => [mkEncryptedChunk i [x]]
  | x :: y :: bs => mkEncryptedChunk i [x; y] :: pieces (S i) bs
  end.
Definition piece_info (c : EncryptedChunk) : nat * list bool := (ec_index c, demo_content (ec_content c)).

#[export] Instance demo_encryption : SelfEncryption (X := concrete_xor) := {|
  DataMap := list (nat * list bool);
  SeError := unit;
  encrypt bs := Ok (piece_info <$> pieces 0 bs, pieces 0 bs);
  decrypt_full_set _ cs := Ok (mjoin (ec_content <$> cs));
  decrypt_range _ cs pos len := Ok (take len (drop pos (mjoin (ec_content <$> cs))));
  seek_info _ pos len := mkSeekInfo (pos / 2) ((pos + len - 1) / 2) (pos mod 2);
  infos m := (λ p, mkChunkInfo concrete_xor p.1 p.2) <$> m;
  file_size m := 2 * length m;
  MIN_ENCRYPTABLE_BYTES := 4;
  MAX_CHUNK_SIZE := 7;
|}.

Lemma pieces_content i bs : mjoin (ec_content <$> pieces i bs) = bs.
Proof.
  revert i bs. fix IH 2. intros i [|x [|y bs]]; [done..|]. simpl. do 2 f_equal. apply IH.
Qed.
#[export] Instance demo_encryption_laws : SelfEncryptionLaws (X := concrete_xor) demo_content.
Proof.
  intros bs m cs [= <- <-]. exists (pieces 0 bs). split_and!; [done| |].
  - simpl. rewrite <-list_fmap_compose. apply Forall2_fmap_l, Forall_Forall2_diag, Forall_forall. by intros c _.
  - simpl. f_equal. apply pieces_content.
Qed.

(** A level is a tag, one byte per chunk and the map as a number. *)
#[export] Instance demo_bytes : Bincode bytes := λ bs, Some bs.
#[export] Instance demo_bytes_dec : Bindec bytes := λ bs, Some bs.
#[export] Instance demo_level : Bincode (DataMapLevel (X := concrete_xor)) := λ l,
  match l with
  | First m => Some ([0; 0; Zpos (encode m)] ++ replicate (length m) 0)%Z
  | Additional m => Some ([0; 1; Zpos (encode m)] ++ replicate (length m) 0)%Z
  end.
#[export] Instance demo_level_dec : Bindec (DataMapLevel (X := concrete_xor)) := λ bs,
  match bs with
  | [0; 0; Zpos p]%Z | (0 :: 0 :: Zpos p :: _)%Z => First <$> decode p
  | (0 :: 1 :: Zpos p :: _)%Z => Additional <$> decode p
  | _ => None
  end.
#[export] Instance demo_bytes_laws : BincodeLaws bytes.
Proof. by intros x bs [= ->]. Qed.
#[export] Instance demo_level_roundtrip : BincodeLaws (DataMapLevel (X := concrete_xor)).
Proof.
  intros [m|m] bs [= <-]; unfold bincode_deserialize, demo_level_dec.
  - destruct (replicate _ _); by rewrite decode_encode.
  - by rewrite decode_encode.
Qed.
(** ** The network *)

Definition well (c : DemoChunk) : bool := bool_decide (c = chunk_new demo_content (ch_value c)).
Definition look (name : list bool) (s : list DemoChunk) : option DemoChunk :=
  find (λ c, bool_decide (ch_address c = name) && well c) s.

#[export] Instance demo_net : ChunkNet := {|
  Net := list DemoChunk;
  NetError := unit;
  SpentShare := unit;
  setup_connections _ s := (s, Ok ());
  send_store c s :=
    if negb (well c) then (s, Err ()) else
    match look (ch_address c) s with
    | Some d => (s, if decide (d = c) then Ok () else Err ())
    | None => (c :: s, Ok ())
    end;
  send_get name s :=
    (s, Ok (match look name s with
            | Some c => RespGetChunk _ (Ok c)
            | None => RespGetChunk _ (Err (MsgDataNotFound (BytesAddr name)))
            end));
  send_get_to_replicas _ _ s := (s, Ok []);
|}.

Lemma look_exact name s c : look name s = Some c → well_addressed demo_content c ∧ ch_address c = name.
Proof.
  intros [_ Hc]%find_some. apply andb_true_iff in Hc as [Hn%bool_decide_eq_true Hw%bool_decide_eq_true]. done.
Qed.
#[export] Instance demo_exact : ExactNet demo_content.
Proof.
  intros n s c. simpl. destruct (look n s) as [d|] eqn:Hl; [|done]. intros [= <-]. by eapply look_exact.
Qed.

Lemma look_stored c s d : look (ch_address c) s = None → look (ch_address d) s = Some d →
  look (ch_address d) (c :: s) = Some d.
Proof.
  intros Hc Hd. unfold look at 1. simpl. destruct (bool_decide _) eqn:Ha; simpl; [|exact Hd].
  apply bool_decide_eq_true in Ha. rewrite Ha in Hc. congruence.
Qed.
#[export, refine] Instance demo_keeping : KeepingNet := {| net_has s c := look (ch_address c) s = Some c |}.
Proof.
  - intros c s. simpl. destruct (well c) eqn:Hw; simpl; [|done].
    destruct (look (ch_address c) s) as [d|] eqn:Hl; simpl; [by case_decide; simplify_eq|].
    intros _. unfold look. simpl. by rewrite bool_decide_true, Hw.
  - intros c s d Hd. simpl. destruct (well c); simpl; [|done].
    destruct (look (ch_address c) s) as [c'|] eqn:Hl; simpl; [done|]. by apply look_stored.
  - done.
  - done.
  - intros s c Hc. simpl. by rewrite Hc.
Defined.
#[export] Instance demo_content_inj : Inj (=) (=) demo_content.
Proof. intros a b Hab%pos_bits_inj. by apply (inj encode) in Hab. Qed.

(** ** Runs *)

(** Files of four bytes, of ten, whose map is longer than a chunk, and a small one that can be
    read as an empty map. *)
Definition plain : bytes := [1; 2; 3; 4]%Z.
Definition deep : bytes := replicate 10 7%Z.
Definition like_map : bytes := [0; 0; 1]%Z.
Definition start (evs : list (list Event)) : World := mkWorld ([] : list DemoChunk) ([] : list DemoChunk) evs.
Definition restart (w : World) : World := mkWorld (net w) ([] : list DemoChunk) [].
Abbreviation demo_upload := (upload_bytes demo_content false None 10).
Abbreviation demo_read := (read_bytes demo_content 11).

Definition address_of (o : outcome (result FileError XorName)) : list bool :=
  match o with Returns (Ok a) => a | _ => [] end.
Definition uploaded {A} (r : World * outcome (result FileError A)) : bool :=
  match r.2 with Returns (Ok _) => true | _ => false end.
Definition content (r : World * outcome (result FileError bytes)) : bytes :=
  match r.2 with Returns (Ok v) => v | _ => [] end.

(** The tasks of the upload go on by turns. *)
Definition by_turns : list Event := [Runs 1; Runs 0; Runs 2; Runs 1; Runs 2; Runs 0].
Abbreviation plain_run := (demo_upload plain true (start [by_turns])).
Example plain_uploaded : uploaded plain_run = true.
Proof. vm_compute. reflexivity. Qed.
Example plain_read : content (demo_read (address_of plain_run.2) plain_run.1) = plain.
Proof. vm_compute. reflexivity. Qed.
Abbreviation deep_run := (demo_upload deep false (start [])).
Example deep_uploaded : uploaded deep_run = true.
Proof. vm_compute. reflexivity. Qed.
Example deep_read : content (demo_read (address_of deep_run.2) deep_run.1) = deep.
Proof. vm_compute. reflexivity. Qed.

(** An upload whose tasks died returns the address of the file, and nothing is stored but what the
    others sent: reading it fails. *)
Abbreviation lost_run := (demo_upload plain true (start [[Dies 0; Dies 1; Dies 2]])).
Lemma lost_upload_succeeds :
  uploaded lost_run = true ∧ net lost_run.1 = [] ∧ uploaded (demo_read (address_of lost_run.2) lost_run.1) = false.
Proof. vm_compute. done. Qed.

(** When the chunks of the inner map are missing, the outer one is returned as the file. *)
Definition head_only : World :=
  mkWorld (filter (λ c, ch_address c = address_of deep_run.2) (net deep_run.1)) ([] : list DemoChunk) [].
Definition map_read := demo_read (address_of deep_run.2) head_only.
Lemma map_returned_as_file : uploaded map_read = true ∧ bool_decide (content map_read = deep) = false.
Proof. vm_compute. done. Qed.

(** A small file that is like a map is stored, and read as the empty file that the map names. *)
Abbreviation like_map_run := (demo_upload like_map true (start [])).
Lemma small_file_misread :
  uploaded like_map_run = true ∧ uploaded (demo_read (address_of like_map_run.2) like_map_run.1) = true ∧
  content (demo_read (address_of like_map_run.2) like_map_run.1) = [].
Proof. vm_compute. done. Qed.

Lemma deep_not_mistakable : ¬ mistakable deep.
Proof. intros [Hl _]. cbn in Hl. lia. Qed.

(** ** Witnesses *)

Lemma start_calm evs : Forall deathless evs → calm demo_content (start evs).
Proof. intros Hevs. split; [|done]. by intros c Hc%elem_of_nil. Qed.
Lemma restart_calm w : calm demo_content (restart w).
Proof. split; [|constructor]. by intros c Hc%elem_of_nil. Qed.
Lemma ten_eleven : 10 < 11.
Proof. lia. Qed.

Lemma upload_then_read_witness :
  ∃ w' address w3, deep_run = (w', Returns (Ok address)) ∧
    demo_read address (restart w') = (w3, Returns (Ok deep)).
Proof.
  pose proof deep_uploaded as Ho. destruct deep_run as [w' o] eqn:Hu.
  destruct o as [[address|e]| |]; [|discriminate Ho..].
  pose proof (upload_then_read demo_content false None 10 11 deep false (start []) w' (restart w') address
    deep_not_mistakable (start_calm [] (Forall_nil_2 _)) Hu (restart_calm w') (λ c Hc, Hc) ten_eleven) as Hr.
  destruct Hr as [w3 Hr]. exists w', address, w3. split; [reflexivity|exact Hr].
Defined.

Definition deep_chunks : list bool * list DemoChunk :=
  match chunk_bytes demo_content false 10 deep with Some (Ok r) => r | _ => ([], []) end.
Definition chunked (r : option (result FileError (list bool * list DemoChunk))) : bool :=
  match r with Some (Ok _) => true | _ => false end.
Lemma deep_chunked : chunk_bytes demo_content false 10 deep = Some (Ok deep_chunks).
Proof.
  assert (chunked (chunk_bytes demo_content false 10 deep) = true) as H by (vm_compute; reflexivity).
  unfold deep_chunks. destruct (chunk_bytes _ _ _ deep) as [[r|e]|]; done.
Qed.

Lemma read_gives_file_or_map_witness :
  ∃ w' r, demo_read deep_chunks.1 head_only = (w', Returns r) ∧
    ∀ v, r = Ok v → v = deep ∨ ∃ m, bincode_deserialize v = Some (Additional m).
Proof.
  apply (read_gives_file_or_map demo_content false 10 11 deep deep_chunks.1 deep_chunks.2 head_only deep_not_mistakable).
  - by intros c Hc%elem_of_nil.
  - rewrite deep_chunked. by destruct deep_chunks.
  - lia.
Defined.
End FilesClientDemo.
