(* ===== verification/Cache.v ===== *)
(** * A cache with capacity and expiry

    [types/cache] ([mod.rs] and [item.rs]): a map whose items may have a duration and whose
    size has a limit.  Instants and durations are nanoseconds; an operation sees one instant
    [now].  The oldest items leave a cache that is too large, but an item without a
    duration has no age: such a cache drops its smallest keys. *)

From S2P Require Import Prelude.

Section cache.
Context {T : Type} `{Countable T} {OT : Ord T} {V : Type}.

Record Time := mkTime { start : Z; expiry : Z }.
Record Item := mkItem { object : V; time : option Time }.

Definition item_new (now : Z) (object : V) (item_duration : option Z) : Item :=
  mkItem object ((λ duration, mkTime now (now + duration)) <$> item_duration).
Definition expired (now : Z) (i : Item) : bool :=
  match time i with Some t => bool_decide (expiry t < now)%Z | None => false end.
(** In milliseconds; [Instant::elapsed] is zero for an instant to come. *)
Definition elapsed (now : Z) (i : Item) : Z :=
  match time i with Some t => (now - start t) `max` 0 / 1000000 | None => 0 end%Z.

Record Cache := mkCache { items : gmap T Item; item_duration : option Z; capacity : nat }.

(** [usize::MAX] as the capacity of a cache that has none. *)
Definition with_capacity (capacity : nat) : Cache := mkCache ∅ None capacity.
Definition with_expiry_duration (usize_max : nat) (duration : Z) : Cache := mkCache ∅ (Some duration) usize_max.
Definition with_expiry_duration_and_capacity (duration : Z) (capacity : nat) : Cache :=
  mkCache ∅ (Some duration) capacity.

Definition len (c : Cache) : nat := size (items c).
Definition is_empty (c : Cache) : bool := bool_decide (items c = ∅).
Definition count (p : T * Item → bool) (c : Cache) : nat := length (filter (λ x, p x = true) (bmap_iter (items c))).

(** [get]; [get_mut] lends the same value. *)
Definition get (now : Z) (c : Cache) (key : T) : option V :=
  item ← items c !! key; if expired now item then None else Some (object item).

Definition remove_keys (keys : list T) (m : gmap T Item) : gmap T Item := foldl (λ m k, delete k m) m keys.

Definition remove_expired (now : Z) (c : Cache) : Cache :=
  let expired_keys := (filter (λ x, expired now x.2 = true) (bmap_iter (items c))).*1 in
  mkCache (remove_keys expired_keys (items c)) (item_duration c) (capacity c).

(** The items with the greatest age come first; those with the same keep the order of keys. *)
Definition by_age (now : Z) (m : gmap T Item) : list (T * Item) :=
  stable_sort (λ a b, bool_decide (elapsed now b.2 ≤ elapsed now a.2)%Z) (bmap_iter m).
Definition drop_excess (now : Z) (c : Cache) : Cache :=
  if decide (capacity c < len c) then
    let excess := len c - capacity c in
    let excess_keys := (take excess (by_age now (items c))).*1 in
    mkCache (remove_keys excess_keys (items c)) (item_duration c) (capacity c)
  else c.

Definition set (now : Z) (c : Cache) (key : T) (value : V) (custom_duration : option Z) : Cache * option V :=
  let item := item_new now value (match custom_duration with Some d => Some d | None => item_duration c end) in
  let replaced := previous ← items c !! key; if expired now previous then None else Some (object previous) in
  let c := mkCache (<[key := item]> (items c)) (item_duration c) (capacity c) in
  (drop_excess now (remove_expired now c), replaced).

Definition remove (c : Cache) (key : T) : Cache * option V :=
  (mkCache (delete key (items c)) (item_duration c) (capacity c), object <$> items c !! key).
Definition clear (c : Cache) : Cache := mkCache ∅ (item_duration c) (capacity c).

(** ** Removing keys *)

Lemma remove_keys_lookup keys m k : remove_keys keys m !! k = if decide (k ∈ keys) then None else m !! k.
Proof.
  revert m. induction keys as [|k' keys IH]; intros m; simpl; [done|]. unfold remove_keys in *. simpl. rewrite IH.
  destruct (decide (k = k')) as [->|Hne].
  - rewrite lookup_delete_eq. repeat case_decide; set_solver.
  - rewrite lookup_delete_ne by done. repeat case_decide; set_solver.
Qed.

(** What expires is gone, and nothing else. *)
Lemma remove_expired_lookup now c k :
  items (remove_expired now c) !! k = i ← items c !! k; if expired now i then None else Some i.
Proof.
  unfold remove_expired. simpl. rewrite remove_keys_lookup. destruct (items c !! k) as [i|] eqn:Hk; simpl.
  - destruct (expired now i) eqn:He.
    + rewrite decide_True; [done|]. apply list_elem_of_fmap. exists (k, i). split; [done|].
      apply list_elem_of_filter. split; [done|]. by apply elem_of_bmap_iter.
    + rewrite decide_False; [done|]. intros ([k' i'] & -> & [He' Hi]%list_elem_of_filter)%list_elem_of_fmap.
      apply elem_of_bmap_iter in Hi. simpl in *. congruence.
  - by case_decide.
Qed.

Lemma by_age_Permutation now m : by_age now m ≡ₚ map_to_list m.
Proof. unfold by_age. by rewrite stable_sort_Permutation, bmap_iter_Permutation. Qed.

(** The rest of a listing is what remains of the map. *)
Lemma remove_front l n : NoDup l.*1 →
  remove_keys (take n l).*1 (list_to_map l : gmap T Item) = list_to_map (drop n l).
Proof.
  revert l. induction n as [|n IH]; intros [|[k i] l] Hl; try done.
  simpl in Hl. apply NoDup_cons in Hl as [Hk Hl]. unfold remove_keys in *. simpl.
  rewrite delete_insert_id; [by apply IH|]. by apply not_elem_of_list_to_map_1.
Qed.
Lemma by_age_map now m : NoDup (by_age now m).*1 ∧ list_to_map (by_age now m) = m.
Proof.
  assert (NoDup (by_age now m).*1) as Hn by (rewrite by_age_Permutation; apply NoDup_fst_map_to_list).
  split; [done|]. rewrite (list_to_map_proper _ (map_to_list m)); [apply list_to_map_to_list|done|apply by_age_Permutation].
Qed.
Lemma drop_excess_items now c :
  items (drop_excess now c) = list_to_map (drop (len c - capacity c) (by_age now (items c))).
Proof.
  destruct (by_age_map now (items c)) as [Hn Hm]. unfold drop_excess. case_decide.
  - simpl. rewrite <-Hm at 2. by apply remove_front.
  - replace (len c - capacity c) with 0 by lia. simpl. done.
Qed.

(** ** Setting a value *)

Lemma drop_excess_length now c : len (drop_excess now c) = len c `min` capacity c.
Proof.
  unfold len at 1. rewrite drop_excess_items. destruct (by_age_map now (items c)) as [Hn _].
  assert (NoDup (drop (len c - capacity c) (by_age now (items c))).*1) as Hd.
  { rewrite fmap_drop. by eapply sublist_NoDup, sublist_drop. }
  rewrite <-(length_map_to_list (K := T)), map_to_list_to_map, length_drop by done.
  unfold len. rewrite (Permutation_length (by_age_Permutation now (items c))), length_map_to_list. lia.
Qed.

(** The items in the cache before it drops any for its capacity. *)
Definition entered (now : Z) (c : Cache) (key : T) (value : V) (custom_duration : option Z) : Cache :=
  remove_expired now (mkCache (<[key := item_new now value (match custom_duration with
    Some d => Some d | None => item_duration c end)]> (items c)) (item_duration c) (capacity c)).
Lemma set_drops now c key value d : (set now c key value d).1 = drop_excess now (entered now c key value d).
Proof. done. Qed.

Lemma drop_excess_kept now c k i :
  items (drop_excess now c) !! k = Some i ↔ (k, i) ∈ drop (len c - capacity c) (by_age now (items c)).
Proof.
  rewrite drop_excess_items. destruct (by_age_map now (items c)) as [Hn _]. symmetry.
  apply elem_of_list_to_map. rewrite fmap_drop. by eapply sublist_NoDup, sublist_drop.
Qed.
Lemma drop_excess_lost now c k i :
  items c !! k = Some i → items (drop_excess now c) !! k = None →
  (k, i) ∈ take (len c - capacity c) (by_age now (items c)).
Proof.
  intros Hk Hlost. assert ((k, i) ∈ by_age now (items c)) as Hin by (rewrite by_age_Permutation; by apply elem_of_map_to_list).
  rewrite <-(take_drop (len c - capacity c) (by_age _ _)), elem_of_app in Hin. destruct Hin as [|Hd]; [done|].
  apply drop_excess_kept in Hd. congruence.
Qed.

(** Setting a value keeps the cache within its capacity, drops the expired items and, if it
    is still too large, its oldest ones; what remains is what was there or the new item. *)
Theorem set_keeps_youngest now c key value d :
  let c' := (set now c key value d).1 in
  len c' ≤ capacity c ∧
  (∀ k i, items c' !! k = Some i → expired now i = false ∧
    if decide (k = key) then object i = value else items c !! k = Some i) ∧
  (∀ k i k' i', items (entered now c key value d) !! k = Some i → items c' !! k = None →
    items c' !! k' = Some i' → (elapsed now i' ≤ elapsed now i)%Z).
Proof.
  intros c'. unfold c'. rewrite set_drops. split_and!.
  - rewrite drop_excess_length. simpl. lia.
  - intros k i Hk%drop_excess_kept. assert ((k, i) ∈ by_age now (items (entered now c key value d))) as Hin.
    { rewrite <-(take_drop (len (entered now c key value d) - capacity (entered now c key value d)) (by_age _ _)), elem_of_app.
      by right. }
    rewrite by_age_Permutation in Hin. apply elem_of_map_to_list in Hin.
    unfold entered in Hin. rewrite remove_expired_lookup in Hin. simpl in Hin.
    destruct (decide (k = key)) as [->|Hne].
    + rewrite lookup_insert_eq in Hin. simpl in Hin. case_match eqn:He; simplify_eq. done.
    + rewrite lookup_insert_ne in Hin by done. destruct (items c !! k) as [i'|]; simpl in Hin; [|done].
      case_match eqn:He; by simplify_eq.
  - intros k i k' i' Hk Hlost Hkept. apply (drop_excess_lost _ _ _ _ Hk) in Hlost.
    apply drop_excess_kept in Hkept. set (e := entered now c key value d) in *. set (n := len e - capacity e) in *.
    assert (StronglySorted (λ a b, bool_decide (elapsed now b.2 ≤ elapsed now a.2)%Z = true) (by_age now (items e))) as Hs.
    { apply Sorted_StronglySorted.
      - intros x y z Hxy%bool_decide_eq_true Hyz%bool_decide_eq_true. apply bool_decide_eq_true. lia.
      - apply stable_sort_Sorted. intros x y. rewrite !bool_decide_eq_true. lia. }
    rewrite <-(take_drop n (by_age _ _)) in Hs. apply StronglySorted_app in Hs as (Hs & _ & _).
    specialize (Hs _ _ Hlost Hkept). by apply bool_decide_eq_true in Hs.
Qed.

(** Items without a duration leave in the order of their keys, not of their age: the
    smallest keys of a cache that has only a capacity are dropped, be they new or old. *)
Theorem untimed_drops_smallest now c key value k k' i i' :
  item_duration c = None → map_Forall (λ _ i, time i = None) (items c) →
  let c' := (set now c key value None).1 in
  items (entered now c key value None) !! k = Some i → items c' !! k = None →
  items c' !! k' = Some i' → ord_le k k'.
Proof.
  intros Hd Hall c' Hk Hlost Hkept. unfold c' in *. rewrite set_drops in Hlost, Hkept.
  apply (drop_excess_lost _ _ _ _ Hk) in Hlost. apply drop_excess_kept in Hkept.
  set (e := entered now c key value None) in *. set (n := len e - capacity e) in *.
  assert (by_age now (items e) = bmap_iter (items e)) as Hb.
  { assert (Forall (λ x, elapsed now x.2 = 0%Z) (bmap_iter (items e))) as Hz.
    { apply Forall_forall. intros [x j] Hj%elem_of_bmap_iter. simpl. unfold e, entered in Hj.
      rewrite remove_expired_lookup in Hj. simpl in Hj.
      destruct (decide (x = key)) as [->|Hne]; [rewrite lookup_insert_eq in Hj|rewrite lookup_insert_ne in Hj by done].
      - simpl in Hj. rewrite Hd in Hj. unfold expired in Hj. simpl in Hj. by simplify_eq.
      - destruct (items c !! x) as [j'|] eqn:Hx; simpl in Hj; [|done]. case_match; simplify_eq.
        unfold elapsed. by rewrite (Hall _ _ Hx). }
    unfold by_age. induction Hz as [|x l Hx Hz IH]; simpl; [done|]. rewrite IH.
    destruct Hz as [|y l Hy Hz]; simpl; [done|]. by rewrite bool_decide_true by lia. }
  rewrite Hb in *. pose proof (bmap_iter_Sorted (items e)) as Hs. apply Sorted_StronglySorted in Hs.
  2: { intros x y z. unfold key_le. by apply ord_le_trans. }
  rewrite <-(take_drop n (bmap_iter _)) in Hs. apply StronglySorted_app in Hs as (Hs & _ & _).
  by specialize (Hs _ _ Hlost Hkept).
Qed.

(** What was set is read until it expires, where the cache has room for it. *)
Lemma get_after_set now now' c key value d :
  let item := item_new now value (match d with Some d => Some d | None => item_duration c end) in
  expired now item = false → expired now' item = false → len c < capacity c →
  get now' (set now c key value d).1 key = Some value.
Proof.
  intros item He He' Hroom. rewrite set_drops. unfold get.
  assert (items (entered now c key value d) !! key = Some item) as Hk.
  { unfold entered. rewrite remove_expired_lookup. simpl. rewrite lookup_insert_eq. simpl. fold item. by rewrite He. }
  assert (len (entered now c key value d) ≤ capacity c) as Hlen.
  { unfold len, entered in *. etrans; [apply map_subseteq_size, (map_subseteq_spec _ (<[key := item]> (items c)))|].
    - intros k i. rewrite remove_expired_lookup. simpl. fold item. destruct (_ !! k) as [j|]; simpl; [|done].
      by destruct (expired now j).
    - rewrite map_size_insert. simpl. destruct (items c !! key); unfold id; lia. }
  unfold drop_excess. rewrite decide_False by (simpl; lia). rewrite Hk. simpl. by rewrite He'.
Qed.
End cache.

(** ** A cache of two numbers *)

Module CacheDemo.
#[export] Instance Z_ord : Ord Z := countable_ord.
Definition one_entry : Cache (T := Z) (V := bool) := mkCache {[2%Z := item_new 0 true None]} None 1.
Definition other_entry : Cache (T := Z) (V := bool) := mkCache {[1%Z := item_new 0 true None]} None 1.

Example one_entry_set : (set 0 (with_capacity 1) 2%Z true None).1 = one_entry.
Proof. vm_compute. reflexivity. Qed.

(** Of the keys 1 and 2, the first is lost whichever was set last. *)
Example old_entry_lost : get 5 (set 5 other_entry 2%Z false None).1 1%Z = None.
Proof. vm_compute. reflexivity. Qed.
Example new_entry_lost : get 5 (set 5 one_entry 1%Z false None).1 1%Z = None.
Proof. vm_compute. reflexivity. Qed.

Lemma untimed_drops_smallest_witness :
  get 5 (set 5 one_entry 1%Z false None).1 1%Z = None ∧ ord_le 1%Z 2%Z.
Proof.
  split; [exact new_entry_lost|].
  apply (untimed_drops_smallest 5 one_entry 1%Z false 1%Z 2%Z (item_new 5 false None) (item_new 0 true None)).
  - reflexivity.
  - by apply map_Forall_singleton.
  - vm_compute. reflexivity.
  - vm_compute. reflexivity.
  - vm_compute. reflexivity.
Defined.
End CacheDemo.
