(* ===== verification/Transfers.v ===== *)
(** * Transfers of a client

    [sn_client/src/api/transfers/mod.rs]: the choice of the DBCs that are spent, with the fees
    that the elders of each of them ask for, and the reissue: building the transaction, spending
    its inputs and making the new DBCs.  The crate [sn_dbc] is a class of operations; what the
    client asks of the network (fees, spends, the shares of spent proofs) is a class that its
    sessions implement ([collect_fees], [spend_dbc], [spent_proof_shares]).  A token is its
    number of nanos.  Draws of random numbers are counted. *)

From Stdlib Require Import SpecFloat.
From S2P Require Import Prelude External Xor NodeState SectionsDag Sap Keys Aggregator FilesMap Fees ClientMsgs.

(** [Token] of [sn_dbc]: a checked sum and difference. *)
Class Tokens := {
  checked_add : Z → Z → option Z;
  checked_sub : Z → Z → option Z;
}.
(** A sum that fits into 64 bits is exact; a difference exists if it is not negative. *)
Class TokenLaws `{!Tokens} : Prop := {
  checked_add_Some a b c : checked_add a b = Some c → c = (a + b)%Z;
  checked_sub_exact a b : checked_sub a b = if bool_decide (b ≤ a)%Z then Some (a - b)%Z else None;
}.

(** The [fold] over amounts; [None] is an overflow. *)
Definition sum_tokens `{!Tokens} (l : list Z) : option Z := foldl (λ total t, total ← total; checked_add total t) (Some 0%Z) l.

Section transfers.
Context {B : Bls} {BSh : BlsShares} {X : Xor} {Cfg : Settings} {ON : Ord NodeId}.
Context {BCi : BlsCiphers} {DB : Dbcs} {TK : Tokens}.

(** ** The crate *)

(** DBCs, one-time owners, and the builders of transactions and of DBCs. *)
Class DbcCrate := {
  Dbc : Type;
  DbcError : Type;
  OwnerOnce : Type;
  owner_once_eq_dec :: EqDecision OwnerOnce;
  dbc_public_key : Dbc → PublicKey;
  inputs_spent_proofs : Dbc → list SpentProof;
  inputs_spent_transactions : Dbc → list DbcTransaction;
  (** The public and secret key of a bearer. *)
  as_revealed_input_bearer : Dbc → result DbcError (PublicKey * SecretKey);
  revealed_amount_bearer : Dbc → result DbcError RevealedAmount;
  (** [Owner], which is a public or a secret key. *)
  DbcOwner : Type;
  owner_of_key : PublicKey → DbcOwner;
  (** [OwnerOnce::from_owner_base] with the n-th draw. *)
  from_owner_base : nat → DbcOwner → OwnerOnce;
  owner_key : OwnerOnce → PublicKey;
  derivation_index : OwnerOnce → bytes;
  (** [RevealedAmount::encrypt]. *)
  amount_encrypt : nat → RevealedAmount → PublicKey → Ciphertext;
  draw_seed : nat → Seed;
  TxBuilder : Type;
  add_inputs_dbc_bearer : list Dbc → result DbcError TxBuilder;
  add_output_by_amount : TxBuilder → Z → OwnerOnce → TxBuilder;
  DbcBuilder : Type;
  tx_build : nat → TxBuilder → result DbcError DbcBuilder;
  revealed_outputs : DbcBuilder → list (PublicKey * RevealedAmount);
  builder_inputs : DbcBuilder → list (PublicKey * DbcTransaction);
  add_spent_proof_shares : DbcBuilder → list SpentProofShare → DbcBuilder;
  add_spent_transaction : DbcBuilder → DbcTransaction → DbcBuilder;
  try_from_proof_shares : PublicKey → bytes → list SpentProofShare → result DbcError SpentProof;
  spent_proof_verify : SpentProof → bytes → (PublicKey → bool) → result DbcError unit;
  dbc_build : DbcBuilder → (PublicKey → bool) → result DbcError (list (Dbc * OwnerOnce * RevealedAmount));
}.
Context {DC : DbcCrate} {OP : Ord SpentProof} {OT : Ord DbcTransaction}.
Context `{Countable SpentProof} `{Countable DbcTransaction}.

(** ** The network *)

Class SpendNet (SNet : Type) := {
  SNetError : Type;
  get_section_fees : PublicKey → SNet → SNet * result SNetError (gmap NodeId RequiredFee);
  spend : PublicKey → DbcTransaction → DbcReason → list SpentProof → list DbcTransaction →
    gmap XorName FeeCiphers → SNet → SNet * result SNetError unit;
  get_spent_proof_shares : PublicKey → SNet → SNet * result SNetError (list SpentProofShare);
  is_known_section_key : SNet → PublicKey → bool;
}.
Context {SNet : Type} {SN : SpendNet SNet}.

Inductive TransferError :=
  | NotEnoughBalance (available : Z)
  | TransferDbcError (e : DbcError)
  | DbcReissueError
  | TransferNetError (e : SNetError).

Definition Called (A : Type) : Type := SNet * outcome (result TransferError A).

(** ** The choice of inputs *)

Definition FeeParams : Type := gmap XorName (RequiredFee * OwnerOnce).

(** What the loop over the DBCs has chosen so far. *)
Record Selection := mkSelection {
  input_dbcs_to_spend : list Dbc;
  total_input_amount : Z;
  total_output_amount : Z;
  change_amount : Z;
  recipients : list (Z * OwnerOnce);
  all_fee_cipher_params : gmap PublicKey FeeParams;
  draws : nat;
}.

(** The fees that could be decrypted, and the reward keys of the others; [None] is a panic. *)
Fixpoint decrypt_fees (secret_key : SecretKey) (elder_fees : list (NodeId * RequiredFee))
    : option (list (NodeId * RequiredFee * Z) * gset PublicKey) :=
  match elder_fees with
  | [] => Some ([], ∅)
  | (elder, fee) :: elder_fees =>
      r ← decrypt_amount (fee_content fee) secret_key;
      '(decrypted, invalid) ← decrypt_fees secret_key elder_fees;
      Some (match r with
            | Ok amount => ((elder, fee, amount) :: decrypted, invalid)
            | Err _ => (decrypted, {[elder_reward_key (fee_content fee)]} ∪ invalid)
            end)
  end.

(** The numbers of responses and of invalid fees with which an input is paid for. *)
Definition enough_fees (num_responses num_invalid : Z) : bool :=
  let required_responses := supermajority (Z.of_nat elder_count) in
  bool_decide (required_responses ≤ num_responses)%Z &&
  bool_decide (num_invalid ≤ Z.of_nat elder_count - required_responses)%Z.

(** Each elder is paid with an owner of its own. *)
Fixpoint pay_elders (decrypted : list (NodeId * RequiredFee * Z)) (st : Selection) (params : FeeParams)
    : Selection * FeeParams :=
  match decrypted with
  | [] => (st, params)
  | (elder, fee, amount) :: decrypted =>
      let owner_once := from_owner_base (draws st) (owner_of_key (elder_reward_key (fee_content fee))) in
      pay_elders decrypted
        (mkSelection (input_dbcs_to_spend st) (total_input_amount st) (total_output_amount st) (change_amount st)
          (recipients st ++ [(amount, owner_once)]) (all_fee_cipher_params st) (S (draws st)))
        (<[id_name elder := (fee, owner_once)]> params)
  end.

(** Taking a DBC as an input; whether the outputs are covered then. *)
Definition take_input (dbc : Dbc) (dbc_balance fee_per_input : Z) (st : Selection) : option (Selection * bool) :=
  total_in ← checked_add (total_input_amount st) dbc_balance;
  total_out ← checked_add (total_output_amount st) fee_per_input;
  change ← checked_add (change_amount st) fee_per_input;
  let taken change := mkSelection (input_dbcs_to_spend st ++ [dbc]) total_in total_out change
    (recipients st) (all_fee_cipher_params st) (draws st) in
  Some (match checked_sub change dbc_balance with
        | Some pending => (taken pending, bool_decide (pending = 0%Z))
        | None => (taken (dbc_balance - change)%Z, true)
        end).

Fixpoint select_loop (dbcs : list Dbc) (st : Selection) (s : SNet) : Called Selection :=
  match dbcs with
  | [] => (s, Returns (Ok st))
  | dbc :: dbcs =>
      match as_revealed_input_bearer dbc with
      | Err _ => select_loop dbcs st s
      | Ok (input_key, secret_key) =>
          let '(s, fees) := get_section_fees input_key s in
          match fees with
          | Err _ => select_loop dbcs st s
          | Ok elder_fees =>
              if negb (bool_decide (supermajority (Z.of_nat elder_count) ≤ Z.of_nat (size elder_fees))%Z)
              then select_loop dbcs st s else
              match decrypt_fees secret_key (bmap_iter elder_fees) with
              | None => (s, Panics)
              | Some (decrypted, invalid) =>
                  if negb (enough_fees (Z.of_nat (size elder_fees)) (Z.of_nat (size invalid)))
                  then select_loop dbcs st s else
                  match sum_tokens (decrypted.*2) with
                  | None => (s, Returns (Err DbcReissueError))
                  | Some fee_per_input =>
                      let '(st, params) := pay_elders decrypted st ∅ in
                      let st := mkSelection (input_dbcs_to_spend st) (total_input_amount st) (total_output_amount st)
                        (change_amount st) (recipients st) (<[input_key := params]> (all_fee_cipher_params st)) (draws st) in
                      match revealed_amount_bearer dbc with
                      | Err _ => select_loop dbcs st s
                      | Ok amount =>
                          match take_input dbc (revealed_value amount) fee_per_input st with
                          | None => (s, Returns (Err DbcReissueError))
                          | Some (st, true) => (s, Returns (Ok st))
                          | Some (st, false) => select_loop dbcs st s
                          end
                      end
                  end
              end
          end
      end
  end.

Definition verify_amounts (total_input_amount total_output_amount : Z) : result TransferError unit :=
  if bool_decide (total_input_amount < total_output_amount)%Z then Err (NotEnoughBalance total_input_amount) else Ok ().

Definition select_inputs (dbcs : list Dbc) (recipients : list (Z * OwnerOnce)) (draws : nat) (s : SNet) : Called Selection :=
  match sum_tokens (recipients.*1) with
  | None => (s, Returns (Err DbcReissueError))
  | Some total =>
      match select_loop dbcs (mkSelection [] 0 total total recipients ∅ draws) s with
      | (s, Returns (Ok st)) =>
          (s, Returns (match verify_amounts (total_input_amount st) (total_output_amount st) with
                       | Ok _ => Ok st
                       | Err e => Err e
                       end))
      | other => other
      end
  end.

(** ** The reissue *)

Definition NUM_OF_DBC_REISSUE_ATTEMPTS : nat := 5.

(** The ciphers by which each elder finds the fee that is paid to it. *)
Fixpoint fee_ciphers_of (outputs : gmap PublicKey RevealedAmount) (params : list (XorName * (RequiredFee * OwnerOnce)))
    (ciphers : gmap XorName FeeCiphers) (draw : nat) : result TransferError (gmap XorName FeeCiphers) :=
  match params with
  | [] => Ok ciphers
  | (elder_name, (required_fee, owner_once)) :: params =>
      let derivation_index_cipher :=
        pk_encrypt (draw_seed draw) (elder_reward_key (fee_content required_fee)) (derivation_index owner_once) in
      revealed_amount ← ok_or (outputs !! owner_key owner_once) DbcReissueError;
      let amount_cipher := amount_encrypt (S draw) revealed_amount (owner_key owner_once) in
      fee_ciphers_of outputs params (<[elder_name := mkFeeCiphers amount_cipher derivation_index_cipher]> ciphers)
        (S (S draw))
  end.
Definition fee_ciphers {OX : Ord XorName} (outputs : gmap PublicKey RevealedAmount) (params : FeeParams) (draw : nat)
    : result TransferError (gmap XorName FeeCiphers) :=
  fee_ciphers_of outputs (bmap_iter params) ∅ draw.

Definition verify_spent_proof_shares_for_tx (public_key : PublicKey) (hash : bytes) (shares : list SpentProofShare)
    (known : PublicKey → bool) : result TransferError unit :=
  map_err TransferDbcError (proof ← try_from_proof_shares public_key hash shares; spent_proof_verify proof hash known).

(** One input is spent until the shares of its spent proof can be combined. *)
Fixpoint spend_input (fuel attempts : nat) (public_key : PublicKey) (tx : DbcTransaction) (reason : DbcReason)
    (proofs : list SpentProof) (transactions : list DbcTransaction) (ciphers : gmap XorName FeeCiphers)
    (builder : DbcBuilder) (s : SNet) : Called DbcBuilder :=
  match fuel with
  | O => (s, Unfinished)
  | S fuel =>
      let attempts := S attempts in
      let '(s, spent) := spend public_key tx reason proofs transactions ciphers s in
      match spent with
      | Err e => (s, Returns (Err (TransferNetError e)))
      | Ok _ =>
          let '(s, shares) := get_spent_proof_shares public_key s in
          match shares with
          | Err e => (s, Returns (Err (TransferNetError e)))
          | Ok shares =>
              let shares := filter (λ share, spc_transaction_hash (sps_content share) = tx_hash tx) shares in
              match verify_spent_proof_shares_for_tx public_key (tx_hash tx) shares (is_known_section_key s) with
              | Ok _ => (s, Returns (Ok (add_spent_transaction (add_spent_proof_shares builder shares) tx)))
              | Err _ =>
                  if decide (attempts = NUM_OF_DBC_REISSUE_ATTEMPTS) then (s, Returns (Err DbcReissueError))
                  else spend_input fuel attempts public_key tx reason proofs transactions ciphers builder s
              end
          end
      end
  end.

Fixpoint spend_inputs {OX : Ord XorName} (inputs : list (PublicKey * DbcTransaction)) (reason : DbcReason)
    (proofs : list SpentProof) (transactions : list DbcTransaction) (outputs : gmap PublicKey RevealedAmount)
    (all_params : gmap PublicKey FeeParams) (draw : nat) (builder : DbcBuilder) (s : SNet) : Called DbcBuilder :=
  match inputs with
  | [] => (s, Returns (Ok builder))
  | (public_key, tx) :: inputs =>
      match (params ← ok_or (all_params !! public_key) DbcReissueError; fee_ciphers outputs params draw) with
      | Err e => (s, Returns (Err e))
      | Ok ciphers =>
          match spend_input NUM_OF_DBC_REISSUE_ATTEMPTS 0 public_key tx reason proofs transactions ciphers builder s with
          | (s, Returns (Ok builder)) =>
              spend_inputs inputs reason proofs transactions outputs all_params (draw + 2 * size ciphers) builder s
          | other => other
          end
      end
  end.

Definition set_of {T} `{Countable T} {O : Ord T} (l : list T) : list T := bset_iter (list_to_set l).

(** The change is kept apart from the other outputs; [retain] keeps their order. *)
Definition split_change (change_owner : OwnerOnce) (change_amount : Z) (outputs : list (Dbc * OwnerOnce * RevealedAmount))
    : list (Dbc * OwnerOnce * RevealedAmount) * option Dbc :=
  let is_change o := bool_decide (o.1.2 = change_owner) && bool_decide (0 < change_amount)%Z in
  (filter (λ o, is_change o = false) outputs, last ((λ o, o.1.1) <$> filter (λ o, is_change o = true) outputs)).

(** [dbc_owner] is the client's owner of DBCs. *)
Definition reissue_dbcs {OX : Ord XorName} (dbc_owner : DbcOwner) (input_dbcs : list Dbc) (outputs : list (Z * OwnerOnce))
    (change_amount : Z) (reason : DbcReason) (all_params : gmap PublicKey FeeParams) (draw : nat) (s : SNet)
    : Called (list (Dbc * OwnerOnce * RevealedAmount) * option Dbc) :=
  let change_owner := from_owner_base draw dbc_owner in
  let built :=
    tx_builder ← add_inputs_dbc_bearer input_dbcs;
    let tx_builder := foldl (λ b o, add_output_by_amount b o.1 o.2) tx_builder outputs in
    tx_build (S draw) (if bool_decide (0 < change_amount)%Z
                       then add_output_by_amount tx_builder change_amount change_owner else tx_builder) in
  match built with
  | Err e => (s, Returns (Err (TransferDbcError e)))
  | Ok builder =>
      let amounts := list_to_map (reverse (revealed_outputs builder)) in
      match spend_inputs (builder_inputs builder) reason (set_of (input_dbcs ≫= inputs_spent_proofs))
              (set_of (input_dbcs ≫= inputs_spent_transactions)) amounts all_params (draw + 2) builder s with
      | (s, Returns (Ok builder)) =>
          (s, Returns (match dbc_build builder (is_known_section_key s) with
                       | Ok output_dbcs => Ok (split_change change_owner change_amount output_dbcs)
                       | Err e => Err (TransferDbcError e)
                       end))
      | (s, Returns (Err e)) => (s, Returns (Err e))
      | (s, Panics) => (s, Panics)
      | (s, Unfinished) => (s, Unfinished)
      end
  end.

Definition send_tokens {OX : Ord XorName} (dbc_owner : DbcOwner) (dbcs : list Dbc) (outputs : list (Z * OwnerOnce))
    (draw : nat) (s : SNet) : Called (list (Dbc * OwnerOnce * RevealedAmount) * option Dbc) :=
  match select_inputs dbcs outputs draw s with
  | (s, Returns (Ok st)) =>
      reissue_dbcs dbc_owner (input_dbcs_to_spend st) (recipients st) (change_amount st) reason_none
        (all_fee_cipher_params st) (draws st) s
  | (s, Returns (Err e)) => (s, Returns (Err e))
  | (s, Panics) => (s, Panics)
  | (s, Unfinished) => (s, Unfinished)
  end.

(** ** Inputs and outputs balance *)

Context {TL : TokenLaws}.

Definition sumZ (l : list Z) : Z := foldr Z.add 0%Z l.
Lemma sumZ_app l k : sumZ (l ++ k) = (sumZ l + sumZ k)%Z.
Proof. induction l as [|x l IH]; simpl; [done|]. unfold sumZ in *. simpl. rewrite IH. lia. Qed.
Lemma sumZ_nonneg l : Forall (λ x, 0 ≤ x)%Z l → (0 ≤ sumZ l)%Z.
Proof. induction 1; unfold sumZ in *; simpl; lia. Qed.

Lemma sum_tokens_Some l t : sum_tokens l = Some t → t = sumZ l.
Proof.
  unfold sum_tokens. cut (∀ acc, foldl (λ total t, total ← total; checked_add total t) acc l = Some t →
    ∃ a, acc = Some a ∧ t = a + sumZ l)%Z.
  { intros Hc H1. destruct (Hc _ H1) as (a & [= <-] & ->). done. }
  induction l as [|x l IH]; intros acc; simpl.
  - intros ->. exists t. split; [done|]. unfold sumZ. simpl. lia.
  - intros (a & Ha & ->)%IH. apply bind_Some in Ha as (b & -> & ->%checked_add_Some).
    exists b. split; [done|]. unfold sumZ. simpl. lia.
Qed.

Definition balance_of (d : Dbc) : Z :=
  match revealed_amount_bearer d with Ok amount => revealed_value amount | Err _ => 0%Z end.
(** The fee parameters of an input are known. *)
Definition paid_for (params : gmap PublicKey FeeParams) (d : Dbc) : Prop :=
  ∃ key sk, as_revealed_input_bearer d = Ok (key, sk) ∧ is_Some (params !! key).

(** The totals are those of the inputs and outputs; [pending] is what is not covered. *)
Record accounts (st : Selection) : Prop := {
  acc_in : total_input_amount st = sumZ (balance_of <$> input_dbcs_to_spend st);
  acc_out : total_output_amount st = sumZ ((recipients st).*1);
  acc_paid : Forall (paid_for (all_fee_cipher_params st)) (input_dbcs_to_spend st);
}.
Definition uncovered (st : Selection) : Prop :=
  change_amount st = (total_output_amount st - total_input_amount st)%Z ∧ (0 ≤ change_amount st)%Z.
Definition covered (st : Selection) : Prop :=
  total_input_amount st = (total_output_amount st + change_amount st)%Z.

Lemma pay_elders_selection decrypted st params :
  let st' := (pay_elders decrypted st params).1 in
  input_dbcs_to_spend st' = input_dbcs_to_spend st ∧ total_input_amount st' = total_input_amount st ∧
  total_output_amount st' = total_output_amount st ∧ change_amount st' = change_amount st ∧
  all_fee_cipher_params st' = all_fee_cipher_params st ∧
  (recipients st').*1 = (recipients st).*1 ++ decrypted.*2.
Proof.
  revert st params. induction decrypted as [|[[elder fee] amount] decrypted IH]; intros st params; simpl.
  - by rewrite app_nil_r.
  - match goal with |- context [pay_elders decrypted ?st1 ?p1] => specialize (IH st1 p1) end. simpl in IH.
    destruct IH as (-> & -> & -> & -> & -> & ->). rewrite fmap_app, <-app_assoc. done.
Qed.

Lemma paid_for_mono params key p d : paid_for params d → paid_for (<[key := p]> params) d.
Proof.
  intros (k & sk & Hd & Hk). exists k, sk. split; [done|]. destruct (decide (key = k)) as [->|Hne].
  - rewrite lookup_insert_eq. by eexists.
  - by rewrite lookup_insert_ne.
Qed.

(** An input whose fees are among the outputs already. *)
Lemma take_input_accounts dbc amount fee st st' full :
  revealed_amount_bearer dbc = Ok amount → paid_for (all_fee_cipher_params st) dbc →
  total_input_amount st = sumZ (balance_of <$> input_dbcs_to_spend st) →
  (total_output_amount st + fee)%Z = sumZ ((recipients st).*1) →
  Forall (paid_for (all_fee_cipher_params st)) (input_dbcs_to_spend st) → uncovered st →
  take_input dbc (revealed_value amount) fee st = Some (st', full) →
  accounts st' ∧ if full then covered st' else uncovered st'.
Proof.
  intros Hd Hpaid Hin Hout Hp [Hch Hnn] Ht. unfold take_input in Ht.
  apply bind_Some in Ht as (ti & ->%checked_add_Some & Ht). apply bind_Some in Ht as (to & ->%checked_add_Some & Ht).
  apply bind_Some in Ht as (ch & ->%checked_add_Some & [= Ht]).
  assert (Hsum : sumZ (balance_of <$> input_dbcs_to_spend st ++ [dbc]) =
    (total_input_amount st + revealed_value amount)%Z).
  { rewrite fmap_app, sumZ_app, <-Hin. assert (balance_of dbc = revealed_value amount) as Hb by (unfold balance_of; by rewrite Hd).
    unfold sumZ. simpl. rewrite Hb. lia. }
  rewrite checked_sub_exact in Ht. case_bool_decide as Hle.
  - injection Ht as <- <-. split.
    + split; simpl; [done|done|]. apply Forall_app. split; [done|]. by constructor.
    + case_bool_decide; unfold covered, uncovered; simpl; lia.
  - injection Ht as <- <-. split.
    + split; simpl; [done|done|]. apply Forall_app. split; [done|]. by constructor.
    + unfold covered. simpl. lia.
Qed.

(** The keys and the amount of a bearer are revealed together. *)
Definition bearers_reveal (dbcs : list Dbc) : Prop :=
  Forall (λ d, is_ok (as_revealed_input_bearer d) = true → is_ok (revealed_amount_bearer d) = true) dbcs.

Lemma select_loop_accounts dbcs st s s' st' :
  bearers_reveal dbcs → accounts st → uncovered st → select_loop dbcs st s = (s', Returns (Ok st')) →
  accounts st' ∧ (covered st' ∨ uncovered st').
Proof.
  intros Hd. revert st s. induction Hd as [|dbc dbcs Hrev Hd IH]; intros st s Hacc Hun; simpl.
  - intros [= <- <-]. auto.
  - destruct (as_revealed_input_bearer dbc) as [[key sk]|e] eqn:Hkey; [|by apply IH].
    destruct (get_section_fees key s) as [s1 [fees|e]]; [|by apply IH].
    destruct (negb _); [by apply IH|]. destruct (decrypt_fees sk _) as [[decrypted invalid]|]; [|done].
    destruct (negb _); [by apply IH|]. destruct (sum_tokens _) as [fee|] eqn:Hfee; [|done].
    apply sum_tokens_Some in Hfee. pose proof (pay_elders_selection decrypted st ∅) as Hpay.
    destruct (pay_elders decrypted st ∅) as [st1 params]. simpl in Hpay.
    destruct Hpay as (Hi & Hti & Hto & Hc & Hp & Hr). destruct Hacc as [Hin Hout Hpaid].
    destruct (revealed_amount_bearer dbc) as [amount|e] eqn:Ham; [|by specialize (Hrev eq_refl)].
    set (st2 := mkSelection _ _ _ _ _ _ _).
    destruct (take_input dbc _ fee st2) as [[st3 full]|] eqn:Ht; [|done].
    assert (Hpaid2 : Forall (paid_for (all_fee_cipher_params st2)) (input_dbcs_to_spend st2)).
    { simpl. rewrite Hi, Hp. eapply Forall_impl; [exact Hpaid|]. intros d. apply paid_for_mono. }
    assert (Hdbc : paid_for (all_fee_cipher_params st2) dbc).
    { exists key, sk. split; [done|]. simpl. rewrite lookup_insert_eq. by eexists. }
    apply (take_input_accounts _ _ _ _ _ _ Ham Hdbc) in Ht as [Hacc3 Hfull]; [|..|done|].
    + destruct full; [intros [= <- <-]; auto|]. by apply IH.
    + simpl. by rewrite Hti, Hi.
    + simpl. rewrite Hto, Hout, Hr, sumZ_app. by rewrite Hfee.
    + unfold uncovered in *. simpl. by rewrite Hc, Hto, Hti.
Qed.

(** C13: the DBCs that are chosen as inputs cover all outputs, fees included, and what is left is
    the change: no token is made or lost, and the fees of every input are known. *)
Theorem selection_balances dbcs outputs draw s s' st :
  bearers_reveal dbcs → Forall (λ o, 0 ≤ o.1)%Z outputs →
  select_inputs dbcs outputs draw s = (s', Returns (Ok st)) →
  sumZ (balance_of <$> input_dbcs_to_spend st) = (sumZ ((recipients st).*1) + change_amount st)%Z ∧
  (0 ≤ change_amount st)%Z ∧
  Forall (paid_for (all_fee_cipher_params st)) (input_dbcs_to_spend st).
Proof.
  intros Hd Ho. unfold select_inputs. destruct (sum_tokens _) as [total|] eqn:Ht; [|done].
  apply sum_tokens_Some in Ht as ->. set (st0 := mkSelection _ _ _ _ _ _ _).
  destruct (select_loop dbcs st0 s) as [s1 [[st1|e]| |]] eqn:Hl; try done.
  unfold verify_amounts. case_bool_decide as Hv; [done|]. intros [= <- <-].
  apply select_loop_accounts in Hl as [[Hin Hout Hp] Hc]; [|done|by split|].
  - rewrite <-Hin, <-Hout. unfold covered, uncovered in Hc. split; [lia|]. split; [lia|done].
  - split; simpl; [lia|]. apply sumZ_nonneg, Forall_fmap. eapply Forall_impl; [exact Ho|]. done.
Qed.

(** *** Fees *)

(** With seven elders, three valid fees of five are enough for the client. *)
Lemma three_valid_fees_are_enough : elder_count = 7 → enough_fees 5 2 = true ∧ (5 - 2 < supermajority 7)%Z.
Proof. intros Hn. unfold enough_fees. rewrite Hn. vm_compute. done. Qed.

(** ** A reissue returns *)

Lemma spend_input_returns fuel attempts pk tx reason ps ts cs b s :
  fuel + attempts = NUM_OF_DBC_REISSUE_ATTEMPTS → 0 < fuel →
  ∃ s' r, spend_input fuel attempts pk tx reason ps ts cs b s = (s', Returns r).
Proof.
  revert attempts s. induction fuel as [|fuel IH]; intros attempts s Hf Hpos; [lia|]. cbn [spend_input].
  destruct (spend _ _ _ _ _ _ s) as [s1 [u|e]]; [|by eexists _, _].
  destruct (get_spent_proof_shares pk s1) as [s2 [shares|e]]; [|by eexists _, _].
  destruct (verify_spent_proof_shares_for_tx _ _ _ _) as [v|e]; [by eexists _, _|].
  case_decide as Ha; [by eexists _, _|]. apply IH; lia.
Qed.

Lemma spend_inputs_returns {OX : Ord XorName} inputs reason ps ts outs params draw b s :
  ∃ s' r, spend_inputs inputs reason ps ts outs params draw b s = (s', Returns r).
Proof.
  revert draw b s. induction inputs as [|[pk tx] inputs IH]; intros draw b s; cbn [spend_inputs]; [by eexists _, _|].
  destruct (_ ≫= _) as [cs|e]; [|by eexists _, _].
  destruct (spend_input_returns NUM_OF_DBC_REISSUE_ATTEMPTS 0 pk tx reason ps ts cs b s) as (s1 & r & ->);
    [done|unfold NUM_OF_DBC_REISSUE_ATTEMPTS; lia|]. destruct r as [b'|e]; [apply IH|by eexists _, _].
Qed.

(** Every input is spent at most five times, and then the reissue gives its DBCs or an error. *)
Lemma reissue_returns {OX : Ord XorName} dbc_owner inputs outputs change reason params draw s :
  ∃ s' r, reissue_dbcs dbc_owner inputs outputs change reason params draw s = (s', Returns r).
Proof.
  unfold reissue_dbcs. destruct (_ ≫= _) as [b|e]; [|by eexists _, _].
  match goal with |- context [spend_inputs ?i ?r ?p ?t ?o ?a ?d ?b s] =>
    destruct (spend_inputs_returns i r p t o a d b s) as (s1 & [b'|e] & ->) end; by eexists _, _.
Qed.
End transfers.
