(* ===== verification/Wallet.v ===== *)
(** * Wallets

    [sn_api/src/app/wallet.rs] and [parse_tokens_amount] of [helpers.rs]: a wallet is a multimap
    of the names of DBCs and the links to them.  Depositing stores a DBC and inserts its link;
    reissuing chooses inputs, makes new DBCs and takes the spent ones out of the wallet. *)

From Stdlib Require Import String SpecFloat.
From S2P Require Import Prelude External Xor NodeState SectionsDag Sap Aggregator Keys Register RegisterProps.
From S2P Require Import UsedSpace Storage Fees ClientMsgs ClientSessionDemo Text SafeUrl SafeUrlProps.
From S2P Require Import SafeUrlDemo FilesMap FilesSync Api ApiProps Nrs Resolver ResolverProps FilesContainer.
From S2P Require Import FilesContainerProps ApiDemo Transfers.

Section wallet.
Context {B : Bls} {BSh : BlsShares} {BPS : BlsPublicShares} {E : Ed25519} {X : Xor} {Cfg : Settings} {ON : Ord NodeId}.
Context {M : Merkle bytes} {AE : ApiEnv} {HB : HashBytes} {BC : Bincode CreateRegister} {BE : Bincode EditRegister}.
Context {XB : XorBytes} {UC : UrlCrates} {RK : Rmp (bytes * bytes)} {OU : Ord SafeUrl} {FJ : FilesJson}.
Context {LF : LocalFiles}.
Context {BCi : BlsCiphers} {DB : Dbcs} {TK : Tokens} {DC : DbcCrate} {SN : SpendNet Net} {OX : Ord XorName}.
Context {OP : Ord SpentProof} {OT : Ord DbcTransaction} `{Countable SpentProof} `{Countable DbcTransaction}.
Context {OM : Ord (Hash bytes * (bytes * bytes))}.

(** ** More of [sn_dbc], and the encoding of DBCs *)

Class WalletCrate := {
  is_bearer : Dbc → bool;
  to_bearer : SecretKey → Dbc → result DbcError Dbc;
  (** [DbcError::DbcBearerConversionFailed]. *)
  is_conversion_failure : DbcError → bool;
  (** [dbc.owner_base().secret_key()]. *)
  owner_base_secret : Dbc → result DbcError SecretKey;
  dbc_verify : Dbc → SecretKey → (PublicKey → bool) → result DbcError unit;
  dbc_hash : Dbc → bytes;
  (** [hex::encode]. *)
  hex_encode : bytes → ustr;
  token_from_str : ustr → result DbcError Z;
  (** [Owner::from_random_secret_key], by the number of the draw. *)
  random_owner : nat → DbcOwner;
}.
Context {WC : WalletCrate} {RDbc : Rmp Dbc}.

Definition WALLET_TYPE_TAG : Z := 1000.
Abbreviation WalletSpendableDbcs := (gmap ustr (Dbc * Hash bytes)).

Definition parse_tokens_amount (amount_str : ustr) : result ApiError Z :=
  map_err (λ _, ApiInvalidAmount) (token_from_str amount_str).

Definition wallet_create (s : Safe) : api ustr :=
  xorurl ← multimap_create s None WALLET_TYPE_TAG;
  u ← lift_url (from_url xorurl);
  let '(u, r) := set_content_type u Wallet in
  _ ← lift_url r;
  mret (display u).

(** ** Deposits *)

Definition insert_dbc_into_wallet (s : Safe) (u : SafeUrl) (dbc : Dbc) (spendable_name : ustr) : api unit :=
  if negb (is_bearer dbc) then throw ApiInvalidInput else
  dbc_bytes ← lift (ok_or (rmp_encode dbc) ApiSerialisation);
  dbc_xorurl ← lift (store_bytes (xorurl_base s) (dry_run_mode s) dbc_bytes None);
  let entry := (as_bytes spendable_name, as_bytes dbc_xorurl) in
  _ ← multimap_insert s (display u) entry ∅;
  mret ().

(** What is deposited is a bearer. *)
Definition dbc_to_deposit (dbc : Dbc) (secret_key : option SecretKey) : result ApiError Dbc :=
  if is_bearer dbc then
    match secret_key with Some _ => Err ApiDbcDepositError | None => Ok dbc end
  else
    match secret_key with
    | Some sk => map_err (λ e, if is_conversion_failure e then ApiDbcDepositInvalidSecretKey else ApiDbcDepositError)
                   (to_bearer sk dbc)
    | None => Err ApiDbcDepositError
    end.

(** [&hex::encode(hash)[0..8]] of a hash of 32 bytes. *)
Definition name_of_hash (dbc : Dbc) : ustr := take 8 (hex_encode (dbc_hash dbc)).

Definition wallet_deposit (s : Safe) (wallet_url : ustr) (spendable_name : option ustr) (dbc : Dbc)
    (secret_key : option SecretKey) : api (ustr * Z) :=
  dbc ← lift (dbc_to_deposit dbc secret_key);
  _ ← lift (get_safe_client s);
  sk ← lift (map_err (λ _, ApiDbcError) (owner_base_secret dbc));
  _ ← ask (λ net, map_err (λ _, ApiDbcError) (dbc_verify dbc sk (is_known_section_key net)));
  let spendable_name := match spendable_name with Some name => name | None => lit "dbc-" ++ name_of_hash dbc end in
  amount ← lift (map_err (λ _, ApiDbcError) (revealed_amount_bearer dbc));
  u ← parse_and_resolve_url s wallet_url;
  _ ← insert_dbc_into_wallet s u dbc spendable_name;
  mret (spendable_name, revealed_value amount).

(** Some set of shares for one transaction combines to a valid proof. *)
Definition is_dbc_spent (s : Safe) (public_key : PublicKey) : api bool :=
  _ ← lift (get_safe_client s);
  (λ net,
    match get_spent_proof_shares public_key net with
    | (net, Err _) => (net, Returns (Err ApiClientError))
    | (net, Ok shares) =>
        let spent_transactions := remove_dups ((λ share, spc_transaction_hash (sps_content share)) <$> shares) in
        (net, Returns (Ok (existsb (λ tx_hash,
          is_ok (verify_spent_proof_shares_for_tx (SNet := Net) public_key tx_hash
            (filter (λ share, spc_transaction_hash (sps_content share) = tx_hash) shares) (is_known_section_key net)))
          spent_transactions)))
    end) : api bool.

(** ** Reading *)

Definition wallet_error (e : ApiError) : ApiError :=
  match e with
  | ApiAccessDenied => ApiAccessDenied
  | ApiContentNotFound => ApiContentNotFound
  | _ => ApiContentError
  end.

(** The loop over the entries of the multimap. *)
Fixpoint read_balances (s : Safe) (entries : list (Hash bytes * (bytes * bytes))) (balances : WalletSpendableDbcs)
    : api WalletSpendableDbcs :=
  match entries with
  | [] => mret balances
  | (entry_hash, (key, value)) :: entries =>
      xorurl_str ← lift (ok_or (from_utf8 value) ApiInvalidUtf8Sequence);
      dbc_xorurl ← lift_url (from_xorurl xorurl_str);
      dbc_bytes ← fetch_data s dbc_xorurl None;
      match rmp_decode dbc_bytes with
      | None => read_balances s entries balances
      | Some dbc =>
          spendable_name ← lift (ok_or (from_utf8 key) ApiInvalidUtf8Sequence);
          read_balances s entries (<[spendable_name := (dbc, entry_hash)]> balances)
      end
  end.
Definition fetch_wallet (s : Safe) (u : SafeUrl) : api WalletSpendableDbcs :=
  r ← attempt (fetch_multimap s u);
  entries ← lift (map_err wallet_error r);
  read_balances s (bset_iter entries) ∅.
Definition wallet_get (s : Safe) (wallet_url : ustr) : api WalletSpendableDbcs :=
  u ← parse_and_resolve_url s wallet_url;
  fetch_wallet s u.

(** The loop adds up the amounts of bearers; [None] is an overflow. *)
Fixpoint total_of (dbcs : list Dbc) (total_balance : Z) : option Z :=
  match dbcs with
  | [] => Some total_balance
  | dbc :: dbcs =>
      match revealed_amount_bearer dbc with
      | Err _ => total_of dbcs total_balance
      | Ok amount => total ← checked_add total_balance (revealed_value amount); total_of dbcs total
      end
  end.
Definition wallet_balance (s : Safe) (wallet_url : ustr) : api Z :=
  balances ← wallet_get s wallet_url;
  lift (ok_or (total_of (((bmap_values balances)).*1) 0) ApiContentError).

(** ** Reissues *)

(** [client.dbc_owner()]. *)
Context (dbc_owner : DbcOwner).

(** The amounts are parsed and added up; a draw makes the owner, the next one its one-time key. *)
Fixpoint reissue_outputs (outputs : list (ustr * option PublicKey)) (total : Z) (owners : list (Z * OwnerOnce))
    (draw : nat) : result ApiError (list (Z * OwnerOnce) * nat) :=
  match outputs with
  | [] => Ok (owners, draw)
  | (amount, base_owner_pk) :: outputs =>
      output_amount ← parse_tokens_amount amount;
      if decide (output_amount = 0%Z) then Err ApiInvalidAmount else
      total ← ok_or (checked_add total output_amount) ApiDbcReissueError;
      let owner := match base_owner_pk with Some pk => owner_of_key pk | None => random_owner draw end in
      reissue_outputs outputs total (owners ++ [(output_amount, from_owner_base (S draw) owner)]) (S (S draw))
  end.

(** A call of the client on the network, with what the library makes of its errors. *)
Definition on_client {A} (f : TransferError (SNet := Net) → ApiError) (call : Net → Called (SNet := Net) A) : api A := λ net,
  match call net with
  | (net, Returns r) => (net, Returns (map_err f r))
  | (net, Panics) => (net, Panics)
  | (net, Unfinished) => (net, Unfinished)
  end.
Definition selection_error (_ : TransferError (SNet := Net)) : ApiError := ApiClientError.
Definition reissue_error (e : TransferError (SNet := Net)) : ApiError :=
  match e with
  | TransferDbcError _ => ApiDbcError
  | DbcReissueError => ApiDbcReissueError
  | NotEnoughBalance _ | TransferNetError _ => ApiClientError
  end.

Definition entry_hashes (input_dbc_keys : gset PublicKey) (spendable : WalletSpendableDbcs) : gset (Hash bytes) :=
  list_to_set (omap (λ e, if decide (dbc_public_key e.1 ∈ input_dbc_keys) then Some e.2 else None)
    (bmap_values spendable)).

Definition get_reissue_components (s : Safe) (spendable_dbcs : WalletSpendableDbcs) (outputs_owners : list (Z * OwnerOnce))
    (draw : nat) : api (Selection * gset (Hash bytes)) :=
  _ ← lift (get_safe_client s);
  st ← on_client selection_error (select_inputs (SNet := Net) (bmap_values spendable_dbcs).*1 outputs_owners draw);
  mret (st, entry_hashes (list_to_set (dbc_public_key <$> input_dbcs_to_spend st)) spendable_dbcs).

(** [Safe::reissue_dbcs] repeats the reissue of the client with the errors of the library. *)
Definition safe_reissue_dbcs (s : Safe) (st : Selection) (reason : DbcReason)
    : api (list (Dbc * OwnerOnce * RevealedAmount) * option Dbc) :=
  _ ← lift (get_safe_client s);
  on_client reissue_error (reissue_dbcs (SNet := Net) dbc_owner (input_dbcs_to_spend st) (recipients st) (change_amount st)
    reason (all_fee_cipher_params st) (draws st)).

Definition wallet_reissue_many (s : Safe) (wallet_url : ustr) (outputs : list (ustr * option PublicKey))
    (reason : DbcReason) : api (list Dbc) :=
  '(outputs_owners, draw) ← lift (reissue_outputs outputs 0 [] 0);
  u ← parse_and_resolve_url s wallet_url;
  spendable_dbcs ← fetch_wallet s u;
  '(st, input_dbcs_entries_hash) ← get_reissue_components s spendable_dbcs outputs_owners draw;
  '(output_dbcs, change_dbc) ← safe_reissue_dbcs s st reason;
  if decide (output_dbcs = []) then throw ApiDbcReissueError else
  _ ← match change_dbc with
      | Some change_dbc => insert_dbc_into_wallet s u change_dbc (lit "change-dbc-" ++ name_of_hash change_dbc)
      | None => mret ()
      end;
  _ ← multimap_remove s (display u) input_dbcs_entries_hash;
  mret ((λ o, o.1.1) <$> output_dbcs).

Definition wallet_reissue (s : Safe) (wallet_url amount : ustr) (owner_public_key : option PublicKey)
    (reason : DbcReason) : api Dbc :=
  dbcs ← wallet_reissue_many s wallet_url [(amount, owner_public_key)] reason;
  lift (ok_or (head dbcs) ApiDbcReissueError).

(** [Safe::send_tokens]: external DBCs. *)
Definition safe_send_tokens (s : Safe) (dbcs : list Dbc) (outputs : list (Z * OwnerOnce))
    : api (list (Dbc * OwnerOnce * RevealedAmount) * option Dbc) :=
  _ ← lift (get_safe_client s);
  on_client selection_error (send_tokens (SNet := Net) dbc_owner dbcs outputs 0).
End wallet.

(** * Properties of wallets

    A deposited DBC is in the wallet under its name, and the balance is the sum of what the
    wallet holds; of two DBCs with the same name only one is in the wallet.
    [WalletDemo] has a wallet on the concrete network of the library. *)

Section wallet.
Context {B : Bls} {BSh : BlsShares} {BPS : BlsPublicShares} {E : Ed25519} {X : Xor} {Cfg : Settings} {ON : Ord NodeId}.
Context {M : Merkle bytes} {AE : ApiEnv} {HB : HashBytes} {BC : Bincode CreateRegister} {BE : Bincode EditRegister}.
Context {XB : XorBytes} {UC : UrlCrates} {RK : Rmp (bytes * bytes)} {OU : Ord SafeUrl} {FJ : FilesJson}.
Context {LF : LocalFiles}.
Context {BCi : BlsCiphers} {DB : Dbcs} {TK : Tokens} {DC : DbcCrate} {SN : SpendNet Net} {OX : Ord XorName}.
Context {OP : Ord SpentProof} {OT : Ord DbcTransaction} `{Countable SpentProof} `{Countable DbcTransaction}.
Context {OM : Ord (Hash bytes * (bytes * bytes))} {WC : WalletCrate} {RDbc : Rmp Dbc}.
Context {ML : MerkleLaws bytes} {V : NetView} {NL : NetLaws} {UL : UrlLaws} {XL : XorBytesLaws}.
Context {RL : PairLaws} {RDL : RmpLaws Dbc} {TL : TokenLaws}.

Abbreviation WalletSpendableDbcs := (gmap ustr (Dbc * Hash bytes)).
Abbreviation Entry := (Hash bytes * (bytes * bytes))%type.

(** ** The order of entries *)

Lemma bset_iter_insert (x : Entry) (m : gset Entry) : x ∉ m →
  ∃ l1 l2, bset_iter ({[x]} ∪ m) = l1 ++ x :: l2 ∧ bset_iter m = l1 ++ l2.
Proof.
  intros Hx. assert (x ∈ bset_iter ({[x]} ∪ m)) as (l1 & l2 & Hl)%list_elem_of_split by (rewrite elem_of_bset_iter; set_solver).
  exists l1, l2. split; [done|].
  assert (StronglySorted ord_le (l1 ++ x :: l2)) as Hs.
  { rewrite <-Hl. apply Sorted_StronglySorted; [|apply bset_iter_Sorted]. intros a b c. apply ord_le_trans. }
  apply (Sorted_unique ord_le).
  - apply bset_iter_Sorted.
  - apply StronglySorted_Sorted. apply StronglySorted_app in Hs as (H12 & H1 & H2).
    apply StronglySorted_app. apply StronglySorted_cons in H2 as [_ H2]. split_and!; [|done..].
    intros a b Ha Hb. apply H12; [done|by right].
  - apply (Permutation_cons_inv (a := x)). rewrite Permutation_middle, <-Hl, !bset_iter_Permutation.
    by rewrite elements_union_singleton.
Qed.

(** ** What the entries of a wallet stand for *)

(** What one entry adds: a DBC under its name, or nothing. *)
Definition entry_gives (s : Safe) (net : Net) (e : Entry) (f : option (ustr * Dbc)) : Prop :=
  ∃ x fu bs, from_utf8 e.2.2 = Some x ∧ from_xorurl x = Ok fu ∧ fetch_data s fu None net = (net, Returns (Ok bs)) ∧
    match rmp_decode bs with
    | None => f = None
    | Some dbc => ∃ name, from_utf8 e.2.1 = Some name ∧ f = Some (name, dbc)
    end.
Definition add_entry (balances : WalletSpendableDbcs) (ef : Entry * option (ustr * Dbc)) : WalletSpendableDbcs :=
  match ef.2 with Some (name, dbc) => <[name := (dbc, ef.1.1)]> balances | None => balances end.

Lemma fetch_data_net s u net net' r : fetch_data s u None net = (net', r) → net' = net.
Proof. intros Hf. destruct (fetch_data_returns s u None net) as [r' Hr]. rewrite Hr in Hf. by simplify_eq. Qed.

Lemma read_balances_Ok s l acc net net' b :
  read_balances s l acc net = (net', Returns (Ok b)) ↔
  net' = net ∧ ∃ fs, Forall2 (entry_gives s net) l fs ∧ b = foldl add_entry acc (zip l fs).
Proof.
  revert acc. induction l as [|[h [k v]] l IH]; intros acc; cbn [read_balances].
  - rewrite ret_Ok. split.
    + intros [-> ->]. split; [done|]. exists []. by split; [constructor|].
    + intros (-> & fs & ->%Forall2_nil_inv_l & ->). done.
  - split.
    + intros Hr. apply api_bind_Ok in Hr as (n1 & x & Hx & Hr). apply lift_Ok in Hx as [Hx%ok_or_Ok ->].
      apply api_bind_Ok in Hr as (n1 & fu & Hu & Hr). apply lift_Ok in Hu as [Hu%map_err_Ok ->].
      apply api_bind_Ok in Hr as (n1 & bs & Hf & Hr). pose proof (fetch_data_net _ _ _ _ _ Hf) as ->.
      destruct (rmp_decode bs) as [dbc|] eqn:Hd.
      * apply api_bind_Ok in Hr as (n1 & name & Hn & Hr). apply lift_Ok in Hn as [Hn%ok_or_Ok ->].
        apply IH in Hr as (-> & fs & Hfs & ->). split; [done|]. exists (Some (name, dbc) :: fs). split; [|done].
        constructor; [|done]. exists x, fu, bs. rewrite Hd. cbn. eauto 10.
      * apply IH in Hr as (-> & fs & Hfs & ->). split; [done|]. exists (None :: fs). split; [|done].
        constructor; [|done]. exists x, fu, bs. rewrite Hd. done.
    + intros (-> & fs & Hfs & ->). apply Forall2_cons_inv_l in Hfs as (f & fs' & (x & fu & bs & Hx & Hu & Hf & Hd) & Hfs & ->).
      cbn in Hx. rewrite Hx. rewrite (api_bind_eq _ _ net net x) by done.
      rewrite Hu, (api_bind_eq _ _ net net fu) by done. rewrite (api_bind_eq _ _ net net bs) by done.
      destruct (rmp_decode bs) as [dbc|].
      * destruct Hd as (name & Hn & ->). cbn in Hn. rewrite Hn, (api_bind_eq _ _ net net name) by done.
        apply IH. eauto.
      * subst f. apply IH. eauto.
Qed.

Lemma read_balances_returns s l acc : reads_and_returns (read_balances s l acc).
Proof.
  revert acc. induction l as [|[h [k v]] l IH]; intros acc; cbn [read_balances]; [apply returns_ret|].
  apply returns_bind; [apply returns_lift|intros x]. apply returns_bind; [apply returns_url|intros fu].
  apply returns_bind; [apply fetch_data_returns|intros bs]. destruct (rmp_decode bs); [|apply IH].
  apply returns_bind; [apply returns_lift|intros name]. apply IH.
Qed.
Lemma fetch_wallet_returns s u : reads_and_returns (fetch_wallet s u).
Proof.
  unfold fetch_wallet. apply returns_bind; [apply returns_attempt, fetch_multimap_returns|intros r].
  apply returns_bind; [apply returns_lift|intros m]. apply read_balances_returns.
Qed.

Lemma add_entry_Some b e name d : add_entry b (e, Some (name, d)) = <[name := (d, e.1)]> b.
Proof. done. Qed.

(** A name that no entry has can be added at any place. *)
Lemma add_entries_fresh name v zs acc :
  (∀ z d, z ∈ zs → z.2 = Some (name, d) → False) →
  foldl add_entry (<[name := v]> acc) zs = <[name := v]> (foldl add_entry acc zs).
Proof.
  revert acc. induction zs as [|[e [[name' d]|]] zs IH]; intros acc Hz; cbn [foldl]; [done| |].
  - rewrite !add_entry_Some. cbn [fst]. destruct (decide (name = name')) as [<-|Hne].
    + exfalso. eapply (Hz (e, Some (name, d))); [by left|done].
    + rewrite insert_insert_ne by done. apply IH. intros z d' Hin. apply Hz. by right.
  - apply IH. intros z d' Hin. apply Hz. by right.
Qed.
Lemma add_entries_names name zs acc :
  foldl add_entry acc zs !! name = None → acc !! name = None ∧ ∀ z d, z ∈ zs → z.2 = Some (name, d) → False.
Proof.
  revert acc. induction zs as [|[e f] zs IH]; intros acc Hn; cbn in Hn.
  - split; [done|]. by intros z d ?%elem_of_nil.
  - apply IH in Hn as [Ha Hz]. unfold add_entry in Ha. cbn in Ha. split.
    + destruct f as [[name' d]|]; [|done]. by apply lookup_insert_None in Ha as [? _].
    + intros z d [->|Hin]%elem_of_cons Hf; [|by eapply Hz]. cbn in Hf. subst f. by rewrite lookup_insert_eq in Ha.
Qed.

Lemma wallet_with_entry s net l1 l2 h k v name dbc b :
  read_balances s (l1 ++ l2) ∅ net = (net, Returns (Ok b)) → b !! name = None →
  entry_gives s net (h, (k, v)) (Some (name, dbc)) →
  read_balances s (l1 ++ (h, (k, v)) :: l2) ∅ net = (net, Returns (Ok (<[name := (dbc, h)]> b))).
Proof.
  intros Hr Hn He. apply read_balances_Ok in Hr as (_ & fs & Hfs & ->).
  apply Forall2_app_inv_l in Hfs as (f1 & f2 & H1 & H2 & ->). apply read_balances_Ok. split; [done|].
  exists (f1 ++ Some (name, dbc) :: f2). split; [apply Forall2_app; [done|by constructor]|].
  pose proof (Forall2_length _ _ _ H1) as Hlen. rewrite zip_with_app, foldl_app in Hn by done.
  rewrite !zip_with_app, !foldl_app by done. cbn [zip_with foldl]. rewrite add_entry_Some. apply add_entries_names in Hn as [_ Hz].
  by rewrite add_entries_fresh.
Qed.

Lemma fetch_wallet_Ok s c u a net net' r b :
  safe_client s = Some c → SafeUrl.address u = RegisterAddr a → content_version u = None → net_register net a = Some r →
  fetch_wallet s u net = (net', Returns (Ok b)) ↔
  ∃ m, multimap_of (reg_read r) m ∧ read_balances s (bset_iter m) ∅ net = (net', Returns (Ok b)).
Proof.
  intros Hc Ha Hv Hr. unfold fetch_wallet.
  assert (Hreads : ∃ o, fetch_multimap s u net = (net, Returns o)).
  { unfold fetch_multimap, mbind, api_bind. rewrite (fetch_entries_eq s c u a) by done. rewrite Hr. cbn. by eexists. }
  destruct Hreads as [o Ho]. rewrite (api_bind_eq _ _ net net o) by (unfold attempt; by rewrite Ho).
  destruct o as [m|e].
  - cbn [map_err]. rewrite (api_bind_eq _ _ net net m) by done. apply (fetch_multimap_Ok s c u a net r m Hc Ha Hv Hr) in Ho.
    split; [eauto|]. intros (m' & Hm' & ?). unfold multimap_of in *. assert (m' = m) as -> by congruence. done.
  - split; [done|]. intros (m & Hm & _). apply (fetch_multimap_Ok s c u a net r m Hc Ha Hv Hr) in Hm. congruence.
Qed.

(** ** Deposits *)

Definition data_stays (net net' : Net) : Prop := ∀ n v, read_bytes n net = Ok v → read_bytes n net' = Ok v.

Lemma fetch_data_Ok s c fu net bs : safe_client s = Some c →
  fetch_data s fu None net = (net, Returns (Ok bs)) ↔ data_type fu = DtFile ∧ read_bytes (xorname fu) net = Ok bs.
Proof.
  intros Hc. unfold fetch_data, get_bytes, get_safe_client. rewrite Hc. destruct (data_type fu); try (split; [done|by intros []]).
  unfold mbind, api_bind, ask, lift. cbn. destruct (read_bytes _ net) as [v|e]; cbn; split; try done; naive_solver.
Qed.
Lemma entry_gives_stays s c net net' e f : safe_client s = Some c → data_stays net net' →
  entry_gives s net e f → entry_gives s net' e f.
Proof.
  intros Hc Hd (x & fu & bs & Hx & Hu & Hf & He). exists x, fu, bs. split_and!; [done..| |done].
  apply (fetch_data_Ok s c) in Hf as [? ?]; [|done]. apply (fetch_data_Ok s c); [done|]. auto.
Qed.
Lemma read_balances_stays s c net net' l b : safe_client s = Some c → data_stays net net' →
  read_balances s l ∅ net = (net, Returns (Ok b)) → read_balances s l ∅ net' = (net', Returns (Ok b)).
Proof.
  intros Hc Hd (_ & fs & Hfs & ->)%read_balances_Ok. apply read_balances_Ok. split; [done|]. exists fs. split; [|done].
  eapply Forall2_impl; [exact Hfs|]. intros e f. by eapply entry_gives_stays.
Qed.

(** What the deposit of a DBC does: it is stored, and its link is written to the wallet. *)
Lemma wallet_deposit_Ok s wallet_url name dbc sk u net net' res :
  parse_and_resolve_url s wallet_url net = (net, Returns (Ok u)) →
  wallet_deposit s wallet_url (Some name) dbc sk net = (net', Returns (Ok res)) →
  ∃ d amount bs x h, dbc_to_deposit dbc sk = Ok d ∧ revealed_amount_bearer d = Ok amount ∧
    res = (name, revealed_value amount) ∧ rmp_encode d = Some bs ∧
    store_bytes (xorurl_base s) (dry_run_mode s) bs None = Ok x ∧
    multimap_insert s (display u) (as_bytes name, as_bytes x) ∅ net = (net', Returns (Ok h)).
Proof.
  intros Hres Hd. unfold wallet_deposit in Hd. apply api_bind_Ok in Hd as (n & d & Hd0 & Hd). apply lift_Ok in Hd0 as [Hd0 ->].
  apply api_bind_Ok in Hd as (n & c & Hc & Hd). apply lift_Ok in Hc as [_ ->].
  apply api_bind_Ok in Hd as (n & k & Hk & Hd). apply lift_Ok in Hk as [_ ->].
  apply api_bind_Ok in Hd as (n & v & Hv & Hd). apply ask_Ok in Hv as [_ ->].
  apply api_bind_Ok in Hd as (n & amount & Ha & Hd). apply lift_Ok in Ha as [Ha%map_err_Ok ->].
  rewrite (api_bind_eq _ _ net net u) in Hd by done.
  apply api_bind_Ok in Hd as (n1 & [] & Hi & Hd). apply ret_Ok in Hd as [<- ->].
  unfold insert_dbc_into_wallet in Hi. destruct (negb _); [done|].
  apply api_bind_Ok in Hi as (n & bs & Hb & Hi). apply lift_Ok in Hb as [Hb%ok_or_Ok ->].
  apply api_bind_Ok in Hi as (n & x & Hx & Hi). apply lift_Ok in Hx as [Hx ->].
  apply api_bind_Ok in Hi as (n & h & Hh & Hi). apply ret_Ok in Hi as [_ ->].
  exists d, amount, bs, x, h. done.
Qed.

(** C14: a DBC that was deposited under a new name is in the wallet under that name, as a bearer,
    with all that was there before, if links are not printed in base 64 and have at most 255
    bytes, its entry is new to the register, which has no pending entries, stored data stays
    and the upload of the DBC can be read. *)
Theorem deposit_then_get s c wallet_url u a net net' r name dbc sk res bal :
  safe_client s = Some c → dry_run_mode s = false → xorurl_base s ≠ Base64 →
  parse_and_resolve_url s wallet_url net = (net, Returns (Ok u)) → from_url (display u) = Ok u →
  SafeUrl.address u = RegisterAddr a → content_version u = None →
  net_register net a = Some r → settled r →
  fetch_wallet s u net = (net, Returns (Ok bal)) → bal !! name = None → scalars name →
  wallet_deposit s wallet_url (Some name) dbc sk net = (net', Returns (Ok res)) →
  data_stays net net' → (∀ bs n, upload_and_verify bs = Ok n → read_bytes n net' = Ok bs) →
  (∀ bs x, store_bytes (xorurl_base s) false bs None = Ok x → str_len x ≤ 255) →
  (∀ link e, rmp_encode (as_bytes name, link) = Some e → reg_known r !! node_hash (mkNode e ∅) = None) →
  ∃ d amount h, dbc_to_deposit dbc sk = Ok d ∧ revealed_amount_bearer d = Ok amount ∧
    res = (name, revealed_value amount) ∧ fetch_wallet s u net' = (net', Returns (Ok (<[name := (d, h)]> bal))).
Proof.
  intros Hc Hdry Hbase Hres Hu Ha Hv Hr Hset Hw Hfree Hname Hdep Hstays Hup Hlen Hfresh.
  destruct (wallet_deposit_Ok _ _ _ _ _ _ _ _ _ Hres Hdep) as (d & amount & bs & x & h & Hd & Ham & -> & Hbs & Hx & Hi).
  exists d, amount, h. split_and!; [done..|]. rewrite Hdry in Hx.
  unfold multimap_insert in Hi. apply api_bind_Ok in Hi as (n & data & Hdata & Hi). apply lift_Ok in Hdata as [Hdata%ok_or_Ok ->].
  destruct (multimap_write_Ok _ _ _ _ _ _ _ _ _ _ Hi Hdry Hu Ha Hr) as (-> & (r' & Hr' & Hk & _) & _).
  apply (fetch_wallet_Ok s c u a net net r bal Hc Ha Hv Hr) in Hw as (m & Hm & Hw).
  assert (Hnew : reg_known r !! node_hash (mkNode data ∅) = None).
  { by eapply Hfresh. }
  pose proof (inserted_multimap r r' m _ ∅ data (replaceable_empty r Hset) Hdata Hm Hnew Hk) as Hm'.
  assert (Hm2 : multimap_of (reg_read r') ({[(node_hash (mkNode data ∅), (as_bytes name, as_bytes x))]} ∪ m)).
  { refine (eq_ind _ _ Hm' _ _). f_equal. apply set_eq. intros e. split; [by intros [_ ?]%elem_of_filter|].
    intros ?. apply elem_of_filter. split; [by apply not_elem_of_empty|done]. }
  apply (fetch_wallet_Ok s c u a net' net' r' _ Hc Ha Hv Hr'). 
  exists ({[(node_hash (mkNode data ∅), (as_bytes name, as_bytes x))]} ∪ m : gset Entry). split; [exact Hm2|].
  set (h := node_hash (mkNode data ∅)) in *.
  assert (Hin : (h, (as_bytes name, as_bytes x)) ∉ m).
  { intros Hin. apply multimap_of_spec in Hm as [_ Hm]. apply Hm in Hin as (e & He & _).
    apply elem_of_reg_read in He as (nd & _ & Hnd & _). unfold reg_known, mr_known in Hnew.
    apply lookup_union_None in Hnew as [Hnew _]. congruence. }
  destruct (bset_iter_insert _ m Hin) as (l1 & l2 & Hl & Hold).
  match goal with |- context [bset_iter ?y] =>
    replace (bset_iter y) with (l1 ++ (h, (as_bytes name, as_bytes x)) :: l2) by (symmetry; exact Hl) end.
  apply wallet_with_entry; [|done|].
  - rewrite <-Hold. by eapply read_balances_stays.
  - destruct (stored_link _ _ _ Hx Hbase (Hlen _ _ Hx)) as (n & fu & Hn & Hfu & Hfa & Hsc).
    exists x, fu, bs. cbn. split; [by apply from_utf8_as_bytes|]. split; [done|]. split.
    + apply (fetch_data_Ok s c); [done|]. unfold data_type, xorname. rewrite Hfa. split; [done|]. by apply Hup.
    + rewrite (rmp_decode_encode _ _ Hbs). exists name. split; [by apply from_utf8_as_bytes|done].
Qed.

(** Of two entries with the same name only the later one in the order of their hashes is
    in the wallet: the balance of the other is not counted. *)
Lemma same_name_hides s net b e1 e2 name d1 d2 :
  entry_gives s net e1 (Some (name, d1)) → entry_gives s net e2 (Some (name, d2)) →
  read_balances s [e1; e2] ∅ net = (net, Returns (Ok b)) ↔ b = {[name := (d2, e2.1)]}.
Proof.
  intros H1 H2. rewrite read_balances_Ok. assert (Hfun : ∀ e f f', entry_gives s net e f → entry_gives s net e f' → f = f').
  { intros e f f' (x & fu & bs & Hx & Hu & Hf & Hd) (x' & fu' & bs' & Hx' & Hu' & Hf' & Hd').
    rewrite Hx in Hx'. injection Hx' as <-. rewrite Hu in Hu'. injection Hu' as <-.
    rewrite Hf in Hf'. injection Hf' as <-. destruct (rmp_decode bs); naive_solver. }
  split.
  - intros (_ & fs & Hfs & ->). apply Forall2_cons_inv_l in Hfs as (f1 & fs1 & Hf1 & Hfs & ->).
    apply Forall2_cons_inv_l in Hfs as (f2 & fs2 & Hf2 & ->%Forall2_nil_inv_l & ->).
    rewrite (Hfun _ _ _ Hf1 H1), (Hfun _ _ _ Hf2 H2). cbn. unfold add_entry. cbn. by rewrite insert_insert_eq.
  - intros ->. split; [done|]. exists [Some (name, d1); Some (name, d2)]. split; [by repeat constructor|].
    cbn. unfold add_entry. cbn. by rewrite insert_insert_eq.
Qed.

(** ** Balances *)

Lemma total_of_exact dbcs total t : total_of dbcs total = Some t →
  t = (total + sumZ (balance_of <$> dbcs))%Z.
Proof.
  revert total. induction dbcs as [|d dbcs IH]; intros total; cbn [total_of].
  - intros [= ->]. unfold sumZ. simpl. lia.
  - rewrite fmap_cons. unfold sumZ in *. cbn [foldr]. assert (Hb : balance_of d = match revealed_amount_bearer d with Ok amount => revealed_value amount | Err _ => 0%Z end) by done.
    destruct (revealed_amount_bearer d) as [amount|e].
    + intros (total' & ->%checked_add_Some & ->%IH)%bind_Some. lia.
    + intros ->%IH. lia.
Qed.
End wallet.

(** ** A wallet on the concrete network *)

Module WalletDemo.
Import External.Concrete RegisterProps.RegisterDemo.
#[local] Existing Instance ClientDemo.client_ciphers.
#[local] Existing Instance ClientDemo.client_dbcs.

(** A DBC is its key and its amount; the only section has one elder, who asks for two tokens. *)
#[export] Instance demo_dbcs : DbcCrate := {|
  Dbc := nat * Z;
  DbcError := unit;
  OwnerOnce := nat * nat;
  DbcOwner := nat;
  owner_of_key k := k;
  dbc_public_key d := d.1;
  inputs_spent_proofs _ := [];
  inputs_spent_transactions _ := [];
  as_revealed_input_bearer d := Ok (d.1, d.1);
  revealed_amount_bearer d := Ok d.2;
  from_owner_base n k := (n, k);
  owner_key o := o.2;
  derivation_index _ := [];
  amount_encrypt _ a k := (k, [a]);
  draw_seed _ := ();
  TxBuilder := unit;
  add_inputs_dbc_bearer _ := Ok ();
  add_output_by_amount b _ _ := b;
  DbcBuilder := unit;
  tx_build _ _ := Ok ();
  revealed_outputs _ := [];
  builder_inputs _ := [];
  add_spent_proof_shares b _ := b;
  add_spent_transaction b _ := b;
  try_from_proof_shares _ _ _ := Err ();
  spent_proof_verify _ _ _ := Err ();
  dbc_build _ _ := Ok [];
|}.
#[export] Instance nanos : Tokens := {|
  checked_add a b := if bool_decide (a + b < 2 ^ 64)%Z then Some (a + b)%Z else None;
  checked_sub a b := if bool_decide (b ≤ a)%Z then Some (a - b)%Z else None;
|}.
#[export] Instance nanos_laws : TokenLaws.
Proof. split; [|done]. intros a b c. cbn [checked_add nanos]. case_bool_decide; naive_solver. Qed.
#[local] Instance one_elder : Settings := 1.
Definition demo_elder : NodeId := mkNodeId zero_name (AddrV4 1 1).
#[local] Instance elder_ord : Ord NodeId := countable_ord.
#[local] Instance name_ord : Ord XorName := countable_ord.
Definition demo_fees (k : nat) : gmap NodeId RequiredFee :=
  {[demo_elder := required_fee_new () 2 (k : PublicKey) (9 : nat)]}.
#[export] Instance demo_spends : SpendNet Net := {|
  SNetError := unit;
  get_section_fees k s := (s, Ok (demo_fees k));
  spend _ _ _ _ _ _ s := (s, Ok ());
  get_spent_proof_shares _ s := (s, Ok []);
  is_known_section_key _ _ := true;
|}.

(** Two DBCs of ten tokens pay for fifteen and two fees; one token is left. *)
Definition purse : list Dbc := [(3, 10%Z); (4, 10%Z)].
Definition payee : OwnerOnce := (0, 8).
Definition selection : Called (SNet := Net) Selection := select_inputs (SNet := Net) purse [(15%Z, payee)] 1 ∅.
Definition selected : bool :=
  match selection with
  | (_, Returns (Ok st)) => bool_decide (change_amount st = 1%Z) && bool_decide (length (recipients st) = 3)
  | _ => false
  end.
Lemma purse_selected : selected = true.
Proof. vm_compute. reflexivity. Qed.

Lemma selection_balances_witness :
  ∃ s st, selection = (s, Returns (Ok st)) ∧
    sumZ (balance_of <$> input_dbcs_to_spend st) = (sumZ ((recipients st).*1) + change_amount st)%Z.
Proof.
  pose proof purse_selected as H. unfold selected in H. destruct selection as [s [[st|e]| |]] eqn:Hs; try discriminate H.
  exists s, st. split; [reflexivity|].
  destruct (selection_balances purse [(15%Z, payee)] 1 ∅ s st) as (Hb & _); [| |exact Hs|exact Hb].
  - apply Forall_cons_2; [reflexivity|]. apply Forall_cons_2; [reflexivity|]. apply Forall_nil_2.
  - apply Forall_cons_2; [simpl; lia|apply Forall_nil_2].
Defined.

(** *** A deposit *)

#[local] Instance pair_ord : Ord (Hash bytes * (bytes * bytes)) := countable_ord.

(** The only DBC that can be stored has the bytes of a file of the network. *)
Definition coin : Dbc := (3, 10%Z).
#[export] Instance dbc_eq_dec : EqDecision Dbc := decide_rel (A := nat * Z) (B := nat * Z) (=).
#[export] Instance coin_rmp : Rmp Dbc := {|
  rmp_encode d := if decide (d = coin) then Some (held_file zero_name) else None;
  rmp_decode bs := if decide (bs = held_file zero_name) then Some coin else None;
|}.
#[export] Instance coin_rmp_laws : RmpLaws Dbc.
Proof.
  intros d bs. unfold rmp_encode, rmp_decode, coin_rmp. case_decide; [|discriminate].
  subst d. intros Hb. injection Hb as <-. by rewrite decide_True.
Qed.
#[export] Instance demo_wallet_crate : WalletCrate := {|
  is_bearer _ := true;
  to_bearer _ d := Ok d;
  is_conversion_failure _ := false;
  owner_base_secret d := Ok d.1;
  dbc_verify _ _ _ := Ok ();
  dbc_hash _ := [1%Z];
  hex_encode bs := Z.to_N <$> bs;
  token_from_str _ := Err ();
  random_owner n := n;
|}.

Definition wallet_link : ustr :=
  match (wallet_create demo_safe ∅).2 with Returns (Ok x) => x | _ => [] end.
Definition net_wallet : Net := (wallet_create demo_safe ∅).1.
Definition at_wallet : SafeUrl :=
  match (parse_and_resolve_url demo_safe wallet_link net_wallet).2 with Returns (Ok u) => u | _ => site_link end.
Definition wallet_address : RegisterAddress := mkRegisterAddress zero_name WALLET_TYPE_TAG.
Definition wallet_register : Register :=
  default (Register.new Anyone zero_name 0 (mkPolicy Anyone ∅)) (net_register net_wallet wallet_address).
Definition coin_name : ustr := lit "coin".
Definition deposit_run : Net * outcome (result ApiError (ustr * Z)) :=
  wallet_deposit demo_safe wallet_link (Some coin_name) coin None net_wallet.

Lemma deposited : succeeded deposit_run = true.
Proof. vm_compute. reflexivity. Qed.

Definition empty_wallet (b : gmap ustr (Dbc * Hash bytes)) : bool := bool_decide (b = ∅).
Definition is_at_wallet (u : SafeUrl) : bool :=
  bool_decide (u = at_wallet) && bool_decide (from_url (display u) = Ok u) &&
  bool_decide (SafeUrl.address u = RegisterAddr wallet_address) && bool_decide (content_version u = None).
Definition stored_at (name : XorName) : result ApiError ustr :=
  map_err ApiUrlError (u ← from_bytes name Raw; Ok (url_encode u Base32z)).

Lemma wallet_ready :
  bool_decide (is_Some (net_register net_wallet wallet_address)) = true ∧
  bool_decide (mr_orphans (data (crdt wallet_register)) = ∅) = true ∧
  bool_decide (reg_known wallet_register = ∅) = true ∧
  returned is_at_wallet (parse_and_resolve_url demo_safe wallet_link net_wallet) = true ∧
  returned empty_wallet (fetch_wallet demo_safe at_wallet net_wallet) = true ∧
  short_link (stored_at zero_name) = true ∧ short_link (stored_at page_name) = true.
Proof. split_and!; vm_compute; reflexivity. Qed.

Lemma upload_cases bs n : upload_and_verify bs = Ok n →
  (bs = held_file zero_name ∧ n = zero_name) ∨ (bs = held_file page_name ∧ n = page_name).
Proof. cbn [upload_and_verify container_files]. repeat case_decide; naive_solver. Qed.
Lemma uploads_read bs n net : upload_and_verify bs = Ok n → read_bytes n net = Ok bs.
Proof. intros [[-> ->]|[-> ->]]%upload_cases; reflexivity. Qed.
Lemma map_err_inside {F G A C} (f : F → G) (g : A → C) (m : result F A) c :
  map_err f m ≫= (λ a, Ok (g a)) = Ok c → map_err f (m ≫= λ a, Ok (g a)) = Ok c.
Proof. by destruct m. Qed.
Lemma links_short bs x : store_bytes Base32z false bs None = Ok x → str_len x ≤ 255.
Proof.
  intros Hx. unfold store_bytes in Hx. apply result_bind_Ok in Hx as (ct & [= <-] & Hx).
  apply result_bind_Ok in Hx as (n & Hn & Hx). destruct wallet_ready as (_ & _ & _ & _ & _ & H1 & H2).
  destruct (short_link_Ok _ H1) as (x1 & Hx1 & Hl1). destruct (short_link_Ok _ H2) as (x2 & Hx2 & Hl2).
  unfold stored_at in Hx1, Hx2.
  apply upload_cases in Hn as [[_ ->]|[_ ->]].
  - apply map_err_inside in Hx. congruence.
  - apply map_err_inside in Hx. congruence.
Qed.
Lemma coin_name_ok : scalars coin_name.
Proof. apply (bool_decide_unpack _). vm_compute. exact I. Qed.

Lemma deposit_then_get_witness :
  ∃ h, fetch_wallet demo_safe at_wallet deposit_run.1 =
    (deposit_run.1, Returns (Ok ({[coin_name := (coin, h)]}))).
Proof.
  destruct (succeeded_run _ deposited) as [res Hrun].
  destruct wallet_ready as (Hr & Hset & Hnew & Hres & Hw & _).
  destruct (returned_value _ _ _ (parse_and_resolve_reads demo_safe wallet_link) Hres) as (u & Hu & Hat).
  unfold is_at_wallet in Hat. rewrite !andb_true_iff, !bool_decide_eq_true in Hat. destruct Hat as [[[-> Hurl] Ha] Hv].
  rewrite bool_decide_eq_true in Hnew.
  destruct (returned_value _ _ _ (fetch_wallet_returns demo_safe at_wallet) Hw) as (bal & Hbal & Hempty).
  unfold empty_wallet in Hempty. rewrite bool_decide_eq_true in Hempty. subst bal.
  destruct (deposit_then_get demo_safe demo_client wallet_link at_wallet wallet_address net_wallet deposit_run.1
    wallet_register coin_name coin None res ∅ eq_refl eq_refl ltac:(discriminate) Hu Hurl Ha Hv
    (some_default _ _ (proj1 (bool_decide_eq_true _) Hr)) (proj1 (bool_decide_eq_true _) Hset) Hbal eq_refl
    coin_name_ok Hrun (λ n v Hn, Hn) (λ bs n, uploads_read bs n _) links_short
    ltac:(intros; rewrite Hnew; apply lookup_empty)) as (d & amount & h & Hd & _ & _ & Hget).
  injection Hd as <-. exists h. exact Hget.
Defined.
End WalletDemo.
