(* ===== verification/CliConfig.v ===== *)
(** * Networks of the command line

    [sn_cli/src/operations/config.rs] and [subcommands/networks.rs]: the networks a user knows,
    the directory of their contacts and the one in use, which is a hard link to one of them.
    [from_disk] and [write_to_disk] of section trees are those of [section_tree/mod.rs].

    Files of [std::fs] are names of inodes, as links matter here; there are no symbolic links,
    directories are there when they are needed, and a file only fails to be read if it is
    missing.  The JSON formats, URLs, HTTP and the printed form of keys are parameters. *)

From Stdlib Require Import String.
From S2P Require Import Prelude External Xor NodeState SectionsDag SectionsDagProps Sap SectionTree SectionTreeProps Text.

(** ** Files *)

Record PathBuf := mkPath { is_absolute : bool; comps : list ustr }.
#[export] Instance path_eq_dec : EqDecision PathBuf.
Proof. solve_decision. Defined.
#[export] Instance path_countable : Countable PathBuf.
Proof. refine (inj_countable' (λ p, (is_absolute p, comps p)) (λ x, mkPath x.1 x.2) _). by intros []. Defined.

Definition join (p : PathBuf) (name : ustr) : PathBuf := mkPath (is_absolute p) (comps p ++ [name]).
(** [PathBuf::pop]. *)
Definition pop (p : PathBuf) : PathBuf := mkPath (is_absolute p) (removelast (comps p)).

Record Fs := mkFs { entries : gmap PathBuf nat; contents : nat → bytes; next_inode : nat }.

Definition file (fs : Fs) (p : PathBuf) : option bytes := contents fs <$> entries fs !! p.
(** A new file is renamed to the path: other links to what was there keep it. *)
Definition replace_file (fs : Fs) (p : PathBuf) (bs : bytes) : Fs :=
  mkFs (<[p := next_inode fs]> (entries fs)) (λ i, if decide (i = next_inode fs) then bs else contents fs i) (S (next_inode fs)).
Definition remove_file (fs : Fs) (p : PathBuf) : option Fs :=
  _ ← entries fs !! p; Some (mkFs (delete p (entries fs)) (contents fs) (next_inode fs)).
Definition hard_link (fs : Fs) (src dst : PathBuf) : option Fs :=
  match entries fs !! src, entries fs !! dst with
  | Some i, None => Some (mkFs (<[dst := i]> (entries fs)) (contents fs) (next_inode fs))
  | _, _ => None
  end.
(** The names in a directory. *)
Definition read_dir (fs : Fs) (dir : PathBuf) : list ustr :=
  omap (λ p, if decide (pop p.1 = dir) then last (comps p.1) else None) (map_to_list (entries fs)).

Inductive CfgError :=
  | FileMissing | BadFormat | NotSerialised | BadUrl | HttpFailed | FetchFailed | NoFolder
  | NoDefault | UnknownNetwork (name : ustr) | ContactsMissing | BadKey.

(** [Debug] of a key, which names the file of its network.  It starts with the name of its
    type, unlike the name of the default contacts. *)
Class KeyNames {B : Bls} := { debug_key : PublicKey → ustr }.
Definition DEFAULT_NETWORK_CONTACTS_FILE_NAME : ustr := lit "default"%string.
Class KeyNamesLaws {B : Bls} `{!KeyNames} : Prop :=
  debug_not_default k : debug_key k ≠ DEFAULT_NETWORK_CONTACTS_FILE_NAME.

(** Servers answer with a status and a body, which may fail to arrive. *)
Class Http := {
  World : Type;
  http_get : ustr → World → World * option (nat * option bytes);
  url_parse : ustr → option ustr;
}.

Section config.
Context {B : Bls} {X : Xor} {BP : Bincode PublicKey} {M : Merkle SectionInfo}.
Context {Trigger : Type} `{Countable Trigger}.
Context {KN : KeyNames} {W : Http}.

Abbreviation Contacts := (SectionTree Trigger).

Inductive NetworkInfo :=
  | Local (path : PathBuf) (genesis_key : option PublicKey)
  | Remote (url : ustr) (genesis_key : option PublicKey).
Abbreviation Settings := (gmap ustr NetworkInfo).

(** [serde_json] of trees and settings, and the secret key of the owner of DBCs from hex. *)
Class Json := {
  tree_to_vec : Contacts → option bytes;
  tree_from_slice : bytes → option Contacts;
  settings_to_string : Settings → option bytes;
  settings_from_slice : bytes → option Settings;
  Owner : Type;
  owner_from_hex : bytes → option Owner;
}.
Class JsonLaws `{!Json} : Prop := {
  tree_from_to t bs : tree_to_vec t = Some bs → tree_from_slice bs = Some t;
  settings_from_to s bs : settings_to_string s = Some bs → settings_from_slice bs = Some s;
}.
Context {J : Json}.

Definition info_key (i : NetworkInfo) : option PublicKey := match i with Local _ k | Remote _ k => k end.
Definition with_key (i : NetworkInfo) (k : option PublicKey) : NetworkInfo :=
  match i with Local p _ => Local p k | Remote u _ => Remote u k end.
Definition matches (i : NetworkInfo) (genesis_key : PublicKey) : bool :=
  match info_key i with Some gk => bool_decide (gk = genesis_key) | None => false end.

Record Config := mkConfig {
  networks : Settings;
  cli_config_path : PathBuf;
  network_contacts_dir : PathBuf;
  dbc_owner : option Owner;
}.
Definition with_networks (c : Config) (s : Settings) : Config :=
  mkConfig s (cli_config_path c) (network_contacts_dir c) (dbc_owner c).

(** ** Calls

    They run on the disk and the rest of the world. *)

Abbreviation State := (Fs * World)%type.
Definition io (A : Type) : Type := State → State * result CfgError A.
#[export] Instance io_ret : MRet io := λ A a s, (s, Ok a).
#[export] Instance io_bind : MBind io := λ A A' f m s,
  match m s with (s, Ok a) => f a s | (s, Err e) => (s, Err e) end.
Definition returned {A} (r : result CfgError A) : io A := λ s, (s, r).
Definition fail {A} (e : CfgError) : io A := returned (Err e).
(** The outcome of a call as a value. *)
Definition attempt {A} (m : io A) : io (result CfgError A) := λ s, let '(s, r) := m s in (s, Ok r).
Definition get_fs : io Fs := λ s, (s, Ok s.1).
Definition put_fs (fs : Fs) : io unit := λ s, ((fs, s.2), Ok ()).
Definition removes (p : PathBuf) : io unit :=
  fs ← get_fs;
  match remove_file fs p with Some fs => put_fs fs | None => fail FileMissing end.

(** ** Section trees on disk *)

Definition from_bytes (bs : bytes) : result CfgError Contacts := ok_or (tree_from_slice bs) BadFormat.
Definition from_disk (path : PathBuf) : io Contacts :=
  fs ← get_fs;
  returned (match file fs path with Some bs => from_bytes bs | None => Err FileMissing end).
Definition write_to_disk (t : Contacts) (path : PathBuf) : io unit :=
  serialized ← returned (ok_or (tree_to_vec t) NotSerialised);
  fs ← get_fs;
  put_fs (replace_file fs path serialized).

Definition retrieve_local_network_contacts (location : PathBuf) : io Contacts := from_disk location.

Definition REMOTE_RETRY_COUNT : nat := 3.
Definition is_client_error (status : nat) : bool := bool_decide (400 ≤ status < 500).
Definition is_server_error (status : nat) : bool := bool_decide (500 ≤ status < 600).
(** The rounds of the loop; the body of a good answer. *)
Fixpoint fetch (retry : nat) (url : ustr) : io bytes := λ s,
  match http_get url s.2 with
  | (w, None) => ((s.1, w), Err HttpFailed)
  | (w, Some (status, body)) =>
      if is_client_error status || is_server_error status then
        match retry with
        | S (S _ as retry) => fetch retry url (s.1, w)
        | _ => ((s.1, w), Err FetchFailed)
        end
      else ((s.1, w), ok_or body HttpFailed)
  end.
Definition retrieve_remote_network_contacts (url : ustr) : io Contacts :=
  bs ← fetch REMOTE_RETRY_COUNT url;
  returned (from_bytes bs).

Definition write_network_contacts_to_dir (dir : PathBuf) (network_contacts : Contacts) : io unit :=
  write_to_disk network_contacts (join dir (debug_key (tree_genesis_key network_contacts))).
Definition write_network_contacts (c : Config) (network_contacts : Contacts) : io unit :=
  write_network_contacts_to_dir (network_contacts_dir c) network_contacts.

(** ** The settings file *)

Definition write_settings_to_file (c : Config) : io unit :=
  if decide (comps (cli_config_path c) = []) then fail NoFolder else
  bs ← returned (ok_or (settings_to_string (networks c)) NotSerialised);
  fs ← get_fs;
  put_fs (replace_file fs (cli_config_path c) bs).

Definition deserialize_bls_key (path : PathBuf) : io Owner :=
  fs ← get_fs;
  returned (match file fs path with Some hex => ok_or (owner_from_hex hex) BadKey | None => Err FileMissing end).
Definition get_dbc_owner (dbc_sk_path : PathBuf) : io (option Owner) :=
  fs ← get_fs;
  match file fs dbc_sk_path with
  | Some _ => sk ← deserialize_bls_key dbc_sk_path; mret (Some sk)
  | None => mret None
  end.

(** [Config::new]. *)
Definition config_new (cli_config_path network_contacts_dir : PathBuf) : io Config :=
  fs ← get_fs;
  settings ← returned (match file fs cli_config_path with
    | Some [] => Ok ∅
    | Some content => ok_or (settings_from_slice content) BadFormat
    | None => Ok ∅
    end);
  dbc_owner ← get_dbc_owner (join (pop cli_config_path) (lit "credentials"%string));
  let config := mkConfig settings cli_config_path network_contacts_dir dbc_owner in
  _ ← write_settings_to_file config;
  mret config.

(** ** Keeping settings and directory in step *)

Record Syncing := mkSyncing {
  sy_networks : Settings;
  checklist : gmap ustr bool;
  remove_list : list ustr;
}.
Definition keyed (st : Syncing) (name : ustr) (i : NetworkInfo) (k : PublicKey) : Syncing :=
  mkSyncing (<[name := with_key i (Some k)]> (sy_networks st)) (checklist st) (remove_list st).
Definition marked (st : Syncing) (filename : ustr) : Syncing :=
  mkSyncing (sy_networks st) (<[filename := true]> (checklist st)) (remove_list st).
Definition listed (st : Syncing) (name : ustr) : Syncing :=
  mkSyncing (sy_networks st) (checklist st) (remove_list st ++ [name]).

(** The contacts of a network that are not in the directory; a bad URL ends the sync. *)
Definition fetch_network (dir : PathBuf) (name : ustr) (i : NetworkInfo) (st : Syncing) : io Syncing :=
  found ← match i with
    | Local path _ => attempt (retrieve_local_network_contacts path)
    | Remote url _ =>
        url ← returned (ok_or (url_parse url) BadUrl);
        attempt (retrieve_remote_network_contacts url)
    end;
  match found with
  | Ok network_contacts =>
      _ ← write_network_contacts_to_dir dir network_contacts;
      mret (keyed st name i (tree_genesis_key network_contacts))
  | Err _ => mret (listed st name)
  end.
Definition sync_network (dir : PathBuf) (name : ustr) (i : NetworkInfo) (st : Syncing) : io Syncing :=
  match info_key i with
  | Some key =>
      match checklist st !! debug_key key with
      | Some _ => mret (marked st (debug_key key))
      | None => fetch_network dir name i st
      end
  | None => fetch_network dir name i st
  end.
(** The loop, with the networks as it leaves them also when it ends early. *)
Fixpoint sync_networks (dir : PathBuf) (l : list (ustr * NetworkInfo)) (st : Syncing) (s : State)
    : State * Syncing * result CfgError unit :=
  match l with
  | [] => (s, st, Ok ())
  | (name, i) :: l =>
      match sync_network dir name i st s with
      | (s, Ok st) => sync_networks dir l st s
      | (s, Err e) => (s, st, Err e)
      end
  end.

(** Contacts in the directory of which the settings do not know. *)
Fixpoint add_unaccounted (dir : PathBuf) (l : list (ustr * bool)) (settings : Settings) : io Settings :=
  match l with
  | [] => mret settings
  | (_, true) :: l => add_unaccounted dir l settings
  | (filename, false) :: l =>
      found ← attempt (retrieve_local_network_contacts (join dir filename));
      add_unaccounted dir l
        (match found with
         | Ok network_contacts =>
             let genesis_key := tree_genesis_key network_contacts in
             <[debug_key genesis_key := Local (join dir filename) (Some genesis_key)]> settings
         | Err _ => settings
         end)
  end.

Definition dir_files_checklist (fs : Fs) (dir : PathBuf) : gmap ustr bool :=
  list_to_map ((λ f, (f, false)) <$> filter (λ f, f ≠ DEFAULT_NETWORK_CONTACTS_FILE_NAME) (read_dir fs dir)).
Definition sync (c : Config) (s : State) : State * Config * result CfgError unit :=
  let dir := network_contacts_dir c in
  match sync_networks dir (bmap_iter (networks c)) (mkSyncing (networks c) (dir_files_checklist s.1 dir) []) s with
  | (s, st, Err e) => (s, with_networks c (sy_networks st), Err e)
  | (s, st, Ok _) =>
      let settings := foldl (λ m name, delete name m) (sy_networks st) (remove_list st) in
      match add_unaccounted dir (bmap_iter (checklist st)) settings s with
      | (s, Err e) => (s, with_networks c settings, Err e)
      | (s, Ok settings) =>
          let c := with_networks c settings in
          let '(s, r) := write_settings_to_file c s in (s, c, r)
      end
  end.

(** ** The contacts in use *)

Definition default_path (c : Config) : PathBuf := join (network_contacts_dir c) DEFAULT_NETWORK_CONTACTS_FILE_NAME.
Definition contacts_path (c : Config) (genesis_key : PublicKey) : PathBuf :=
  join (network_contacts_dir c) (debug_key genesis_key).

Definition read_default_network_contacts (c : Config) : io (Contacts * PathBuf) :=
  found ← attempt (retrieve_local_network_contacts (default_path c));
  match found with
  | Ok network_contacts => mret (network_contacts, default_path c)
  | Err _ => fail NoDefault
  end.
Definition set_default_network_contacts (c : Config) (genesis_key : PublicKey) : io unit :=
  fs ← get_fs;
  _ ← match file fs (default_path c) with Some _ => removes (default_path c) | None => mret () end;
  fs ← get_fs;
  match hard_link fs (contacts_path c genesis_key) (default_path c) with
  | Some fs => put_fs fs
  | None => fail FileMissing
  end.
Definition update_default_network_contacts (c : Config) (network_contacts : Contacts) : io unit :=
  _ ← write_network_contacts c network_contacts;
  set_default_network_contacts c (tree_genesis_key network_contacts).

Definition switch_to_network (c : Config) (name : ustr) : io unit :=
  match networks c !! name with
  | None => fail (UnknownNetwork name)
  | Some i =>
      match info_key i with
      | None => fail ContactsMissing
      | Some gk =>
          found ← attempt (read_default_network_contacts c);
          _ ← match found with
              | Ok (default_network_contacts, _) => write_network_contacts c default_network_contacts
              | Err _ => mret ()
              end;
          set_default_network_contacts c gk
      end
  end.

(** ** Networks *)

(** The directory of the process, and [PathBuf::from] of the text of a location. *)
Section process.
Context (cwd : list ustr) (path_from : ustr → PathBuf).

(** [fs::canonicalize] of a path without links. *)
Definition resolve_comp (acc : list ustr) (comp : ustr) : list ustr :=
  if decide (comp = lit "."%string) then acc else if decide (comp = lit ".."%string) then removelast acc else acc ++ [comp].
Definition canonicalize (path : PathBuf) : io PathBuf :=
  fs ← get_fs;
  let path := mkPath true (foldl resolve_comp (if is_absolute path then [] else cwd) (comps path)) in
  match entries fs !! path with Some _ => mret path | None => fail FileMissing end.
Definition absolute (path : PathBuf) : io PathBuf := if is_absolute path then mret path else canonicalize path.

Definition read_network_contacts (c : Config) (name : ustr) : io (Contacts * (PathBuf + ustr)) :=
  match networks c !! name with
  | Some (Local path _) =>
      path ← absolute path;
      network_contacts ← retrieve_local_network_contacts path;
      mret (network_contacts, inl path)
  | Some (Remote url _) =>
      url ← returned (ok_or (url_parse url) BadUrl);
      network_contacts ← retrieve_remote_network_contacts url;
      mret (network_contacts, inr url)
  | None => fail (UnknownNetwork name)
  end.

(** The contacts of a network to be added, and its entry. *)
Definition added_contacts (net_info : NetworkInfo) : io (NetworkInfo * Contacts) :=
  match net_info with
  | Local path k =>
      path ← absolute path;
      network_contacts ← retrieve_local_network_contacts path;
      mret (Local path k, network_contacts)
  | Remote url k =>
      parsed ← returned (ok_or (url_parse url) BadUrl);
      network_contacts ← retrieve_remote_network_contacts parsed;
      mret (Remote url k, network_contacts)
  end.
Definition add_network (c : Config) (name : ustr) (net_info : NetworkInfo) (s : State)
    : State * Config * result CfgError NetworkInfo :=
  match ('(net_info, network_contacts) ← added_contacts net_info;
         _ ← write_network_contacts c network_contacts;
         mret (with_key net_info (Some (tree_genesis_key network_contacts)))) s with
  | (s, Err e) => (s, c, Err e)
  | (s, Ok net_info) =>
      let c := with_networks c (<[name := net_info]> (networks c)) in
      match write_settings_to_file c s with
      | (s, Ok _) => (s, c, Ok net_info)
      | (s, Err e) => (s, c, Err e)
      end
  end.

(** What cannot be removed is only printed. *)
Definition remove_quietly (path : PathBuf) : io unit := _ ← attempt (removes path); mret ().
Definition remove_network (c : Config) (name : ustr) (s : State) : State * Config * result CfgError unit :=
  let c' := with_networks c (delete name (networks c)) in
  let '(s, r) :=
    (_ ← match networks c !! name with
         | Some i =>
             _ ← write_settings_to_file c';
             match info_key i with Some key => remove_quietly (contacts_path c key) | None => mret () end
         | None => mret ()
         end;
     remove_quietly (default_path c)) s in
  (s, c', r).

Fixpoint remove_files (dir : PathBuf) (l : list ustr) : io unit :=
  match l with
  | [] => mret ()
  | name :: l => _ ← removes (join dir name); remove_files dir l
  end.
Definition clear (c : Config) (s : State) : State * Config * result CfgError unit :=
  let c := with_networks c ∅ in
  let '(s, r) :=
    (_ ← write_settings_to_file c;
     fs ← get_fs;
     remove_files (network_contacts_dir c) (read_dir fs (network_contacts_dir c))) s in
  (s, c, r).

(** ** Listing *)

(** A row of the table; its text for the place is left out. *)
Record NetworkPrinter := mkPrinter { current : bool; np_name : ustr; np_genesis_key : ustr; network_info : PathBuf + ustr }.
Definition network_row (in_use : option Contacts) (name : ustr) (i : NetworkInfo) : NetworkPrinter :=
  mkPrinter (match in_use with Some t => matches i (tree_genesis_key t) | None => false end) name
    (match info_key i with Some key => debug_key key | None => [] end)
    (match i with Local path _ => inl path | Remote url _ => inr url end).
Definition get_networks (c : Config) : io (list NetworkPrinter) :=
  found ← attempt (read_default_network_contacts c);
  let in_use := match found with Ok (t, _) => Some t | Err _ => None end in
  let rows := (λ x, network_row in_use x.1 x.2) <$> bmap_iter (networks c) in
  mret (match in_use with
    | Some t =>
        if existsb current rows then rows
        else let genesis_key := debug_key (tree_genesis_key t) in
             rows ++ [mkPrinter true genesis_key genesis_key (inl (default_path c))]
    | None => rows
    end).

(** [NetworksSubCommands] and what they give to be printed; the table of sections is left out. *)
Inductive NetworksSubCommands :=
  | Switch (network_name : ustr)
  | Check_
  | Add (network_name contacts_file_location : ustr)
  | Remove (network_name : ustr)
  | Sections (network_name : option ustr).
Inductive Printed :=
  | Done
  | Matched (network_name : option ustr)
  | Added (net_info : NetworkInfo)
  | SectionsOf (network_contacts : Contacts)
  | Listed (l : list NetworkPrinter).

Definition unchanged {A} (c : Config) (m : io A) (s : State) : State * Config * result CfgError A :=
  let '(s, r) := m s in (s, c, r).
Definition networks_commander (c : Config) (cmd : option NetworksSubCommands) (s : State)
    : State * Config * result CfgError Printed :=
  match cmd with
  | Some (Switch name) => unchanged c (_ ← switch_to_network c name; mret Done) s
  | Some Check_ => unchanged c
      ('(t, _) ← read_default_network_contacts c;
       mret (Matched (fst <$> head (filter (λ x, matches x.2 (tree_genesis_key t) = true) (bmap_iter (networks c)))))) s
  | Some (Add name location) =>
      let net_info := match url_parse location with Some _ => Remote location None | None => Local (path_from location) None end in
      let '(s, c, r) := add_network c name net_info s in (s, c, Added <$> r)
  | Some (Remove name) => let '(s, c, r) := remove_network c name s in (s, c, (λ _, Done) <$> r)
  | Some (Sections name) => unchanged c
      (t ← match name with
           | Some name => '(t, _) ← read_network_contacts c name; mret t
           | None => '(t, _) ← read_default_network_contacts c; mret t
           end;
       mret (SectionsOf t)) s
  | None => unchanged c (l ← get_networks c; mret (Listed l)) s
  end.

End process.

(** ** Files and links *)

Definition fs_wf (fs : Fs) : Prop := ∀ p i, entries fs !! p = Some i → i < next_inode fs.

Lemma file_replace fs p q bs : fs_wf fs → file (replace_file fs p bs) q = if decide (q = p) then Some bs else file fs q.
Proof.
  intros Hwf. unfold file, replace_file. simpl. case_decide as Hq; [subst; by rewrite lookup_insert_eq; simpl; rewrite decide_True|].
  rewrite lookup_insert_ne by done. destruct (entries fs !! q) as [i|] eqn:Hi; [|done]. simpl.
  apply Hwf in Hi. by rewrite decide_False by lia.
Qed.
Lemma replace_wf fs p bs : fs_wf fs → fs_wf (replace_file fs p bs).
Proof.
  intros Hwf q i. simpl. rewrite lookup_insert. case_decide; [intros [= <-]; lia|]. intros Hi%Hwf. lia.
Qed.
Lemma remove_Some fs fs' p : remove_file fs p = Some fs' →
  (∀ q, file fs' q = if decide (q = p) then None else file fs q) ∧ (fs_wf fs → fs_wf fs').
Proof.
  unfold remove_file. intros (i & _ & [= <-])%stdpp.option.bind_Some. split.
  - intros q. unfold file. simpl. rewrite lookup_delete. repeat case_decide; naive_solver.
  - intros Hwf q j. simpl. rewrite lookup_delete_Some. intros [_ Hq%Hwf]. done.
Qed.
Lemma hard_link_Some fs fs' src dst : hard_link fs src dst = Some fs' →
  file fs src ≠ None ∧ (∀ q, file fs' q = if decide (q = dst) then file fs src else file fs q) ∧ (fs_wf fs → fs_wf fs').
Proof.
  unfold hard_link, file. destruct (entries fs !! src) as [i|] eqn:Hs; [|done].
  destruct (entries fs !! dst) eqn:Hd; [done|]. intros [= <-]. split; [done|]. split.
  - intros q. simpl. rewrite lookup_insert. repeat case_decide; naive_solver.
  - intros Hwf q j. simpl. rewrite lookup_insert. case_decide; [intros [= <-]; by eapply Hwf|apply Hwf].
Qed.

Lemma io_bind_Ok {A A'} (m : io A) (f : A → io A') s s' (r : A') :
  (m ≫= f) s = (s', Ok r) ↔ ∃ s1 a, m s = (s1, Ok a) ∧ f a s1 = (s', Ok r).
Proof.
  unfold mbind, io_bind. destruct (m s) as [s1 [a|e]]; split; [by eauto|by intros (? & ? & [= <- <-] & ?)|done|].
  by intros (? & ? & ? & ?).
Qed.

Lemma from_disk_run p s : from_disk p s = (s, match file s.1 p with Some bs => from_bytes bs | None => Err FileMissing end).
Proof. done. Qed.
Lemma write_to_disk_Ok t p s s' u : write_to_disk t p s = (s', Ok u) ↔
  ∃ bs, tree_to_vec t = Some bs ∧ s' = (replace_file s.1 p bs, s.2).
Proof.
  unfold write_to_disk. rewrite io_bind_Ok. unfold returned. split.
  - intros (s1 & bs & [= <- Hb] & Hf). apply ok_or_Ok in Hb. exists bs. split; [done|]. injection Hf as <- _. done.
  - intros (bs & Hb & ->). exists s, bs. rewrite Hb. destruct u. done.
Qed.
Lemma join_inj p a b : join p a = join p b → a = b.
Proof. unfold join. intros [= H']. by apply app_inj_tail in H' as [_ ?]. Qed.

(** ** Switching networks *)

Definition tree_at (fs : Fs) (p : PathBuf) : option Contacts := bs ← file fs p; tree_from_slice bs.
Definition in_use (c : Config) (fs : Fs) : option Contacts := tree_at fs (default_path c).
Definition stored (c : Config) (fs : Fs) (k : PublicKey) : option Contacts := tree_at fs (contacts_path c k).

Lemma from_disk_tree p s : from_disk p s = (s, match tree_at s.1 p with
  | Some t => Ok t | None => Err (match file s.1 p with Some _ => BadFormat | None => FileMissing end) end).
Proof.
  rewrite from_disk_run. unfold tree_at, from_bytes. destruct (file s.1 p) as [bs|]; [|done]. simpl. by destruct (tree_from_slice bs).
Qed.
Lemma read_default_run c s : read_default_network_contacts c s = (s, match in_use c s.1 with
  | Some t => Ok (t, default_path c) | None => Err NoDefault end).
Proof.
  unfold read_default_network_contacts, retrieve_local_network_contacts, attempt. unfold mbind, io_bind.
  rewrite from_disk_tree. unfold in_use. by destruct (tree_at s.1 (default_path c)).
Qed.
Lemma contacts_not_default {KL : KeyNamesLaws} c k : contacts_path c k ≠ default_path c.
Proof. intros Heq%join_inj. by apply (debug_not_default k). Qed.
Lemma contacts_path_inj c k k' : contacts_path c k = contacts_path c k' → debug_key k = debug_key k'.
Proof. apply join_inj. Qed.

Lemma set_default_Ok {KL : KeyNamesLaws} c gk s s' u : fs_wf s.1 → set_default_network_contacts c gk s = (s', Ok u) →
  file s.1 (contacts_path c gk) ≠ None ∧ fs_wf s'.1 ∧
  ∀ q, file s'.1 q = if decide (q = default_path c) then file s.1 (contacts_path c gk) else file s.1 q.
Proof.
  intros Hwf. unfold set_default_network_contacts.
  intros (s1 & fs & [= <- <-] & (s2 & u1 & Hr & (s3 & fs' & [= <- <-] & Hl)%io_bind_Ok)%io_bind_Ok)%io_bind_Ok.
  assert (fs_wf s2.1 ∧ ∀ q, q ≠ default_path c → file s2.1 q = file s.1 q) as [Hwf2 Hq].
  { destruct (file s.1 (default_path c)); [|by injection Hr as <- _].
    unfold removes, mbind, io_bind, get_fs in Hr. destruct (remove_file s.1 (default_path c)) as [fs|] eqn:Hrm; [|done].
    injection Hr as <- _. apply remove_Some in Hrm as [Hf Hw]. split; [by apply Hw|]. intros q Hne. simpl. rewrite Hf. by rewrite decide_False. }
  destruct (hard_link s2.1 (contacts_path c gk) (default_path c)) as [fs|] eqn:Hh; [|done]. injection Hl as <- _.
  apply hard_link_Some in Hh as (Hsrc & Hf & Hw). rewrite Hq in Hsrc by apply contacts_not_default.
  split; [done|]. split; [by apply Hw|]. intros q. simpl. rewrite Hf, (Hq (contacts_path c gk)) by apply contacts_not_default.
  case_decide; [done|]. by apply Hq.
Qed.

(** C19: after a switch the contacts in use are those of the network, as its file has them,
    except that contacts with its key that were in use before stay in use and replace the
    file; contacts that were in use are never lost. *)
Theorem switch_reads_network {KL : KeyNamesLaws} {JL : JsonLaws} c name s s' :
  fs_wf s.1 → switch_to_network c name s = (s', Ok ()) →
  ∃ i gk, networks c !! name = Some i ∧ info_key i = Some gk ∧ file s'.1 (default_path c) ≠ None ∧
    file s'.1 (default_path c) = file s'.1 (contacts_path c gk) ∧
    ((∀ t, in_use c s.1 = Some t → debug_key (tree_genesis_key t) ≠ debug_key gk) →
      file s'.1 (default_path c) = file s.1 (contacts_path c gk)) ∧
    ∀ t, in_use c s.1 = Some t → stored c s'.1 (tree_genesis_key t) = Some t ∧
      (debug_key (tree_genesis_key t) = debug_key gk → in_use c s'.1 = Some t).
Proof.
  intros Hwf. unfold switch_to_network. destruct (networks c !! name) as [i|]; [|done].
  destruct (info_key i) as [gk|] eqn:Hk; [|done].
  intros (s0 & found & Ha & (s1 & u & Hw & Hd)%io_bind_Ok)%io_bind_Ok.
  unfold attempt in Ha. rewrite read_default_run in Ha. injection Ha as <- <-. exists i, gk. split; [done|]. split; [done|].
  destruct (in_use c s.1) as [t|] eqn:Hu.
  - unfold write_network_contacts, write_network_contacts_to_dir in Hw. apply write_to_disk_Ok in Hw as (bs & Hbs & ->).
    fold (contacts_path c (tree_genesis_key t)) in Hd.
    apply set_default_Ok in Hd as (Hsrc & Hwf' & Hf); [|by apply replace_wf]. simpl in Hsrc, Hf.
    pose proof (contacts_not_default c gk) as Hne. pose proof (contacts_not_default c (tree_genesis_key t)) as Hne'.
    rewrite !Hf. rewrite decide_True, (decide_False (P := contacts_path c gk = _)) by done.
    split; [done|]. split; [done|]. rewrite file_replace in Hsrc |- * by done. split.
    + intros Hneq. rewrite decide_False; [done|]. intros Heq%contacts_path_inj. by apply (Hneq t).
    + intros ? [= <-]. unfold stored, in_use, tree_at. rewrite !Hf, !file_replace by done.
      rewrite (decide_False (P := contacts_path c (tree_genesis_key t) = default_path c)), !decide_True by done. simpl.
      split; [by apply tree_from_to|]. intros Heq. unfold contacts_path. rewrite Heq, decide_True by done. simpl. by apply tree_from_to.
  - injection Hw as <- _. apply set_default_Ok in Hd as (Hsrc & Hwf' & Hf); [|done].
    pose proof (contacts_not_default c gk) as Hne. rewrite !Hf. rewrite decide_True, decide_False by done.
    split; [done|]. split; [done|]. by split.
Qed.

(** A call that leaves the disk alone. *)
Definition only_reads {A} (m : io A) : Prop := ∀ s, (m s).1.1 = s.1.
Lemma only_reads_bind {A A'} (m : io A) (f : A → io A') : only_reads m → (∀ a, only_reads (f a)) → only_reads (m ≫= f).
Proof.
  intros Hm Hf s. unfold mbind, io_bind. specialize (Hm s). destruct (m s) as [s1 [a|e]]; simpl in *; [|done].
  by rewrite Hf, Hm.
Qed.
Lemma reads_returned {A} (r : result CfgError A) : only_reads (returned r).
Proof. by intros s. Qed.
Lemma fetch_unfold n url s : fetch n url s =
  match http_get url s.2 with
  | (w, None) => ((s.1, w), Err HttpFailed)
  | (w, Some (status, body)) =>
      if is_client_error status || is_server_error status then
        if decide (2 ≤ n) then fetch (pred n) url (s.1, w) else ((s.1, w), Err FetchFailed)
      else ((s.1, w), ok_or body HttpFailed)
  end.
Proof. destruct n as [|[|n]]; try done. Qed.
Lemma fetch_reads n url : only_reads (fetch n url).
Proof.
  induction n as [|n IH]; intros s; rewrite fetch_unfold; destruct (http_get url s.2) as [w [[status body]|]]; try done;
    destruct (_ || _); try done; case_decide; try done. by rewrite IH.
Qed.
Lemma from_disk_reads p : only_reads (from_disk p).
Proof. intros s. by rewrite from_disk_run. Qed.
Lemma absolute_reads cwd p : only_reads (absolute cwd p).
Proof.
  unfold absolute. destruct (is_absolute p); [by intros s|]. unfold canonicalize. apply only_reads_bind; [by intros s|].
  intros fs s. simpl. by destruct (entries fs !! _).
Qed.
Lemma remote_reads url : only_reads (retrieve_remote_network_contacts url).
Proof. apply only_reads_bind; [apply fetch_reads|]. intros bs. apply reads_returned. Qed.
Lemma added_contacts_reads cwd i : only_reads (added_contacts cwd i).
Proof.
  destruct i as [p k|u k]; simpl; apply only_reads_bind; try apply reads_returned; try apply absolute_reads; intros a;
    (apply only_reads_bind; [apply from_disk_reads || apply remote_reads|by intros t s]).
Qed.

(** What adding a network does to the disk. *)
Lemma add_network_Ok {JL : JsonLaws} cwd c name info s sa info' t s1 c1 info1 :
  fs_wf s.1 → added_contacts cwd info s = (sa, Ok (info', t)) → add_network cwd c name info s = (s1, c1, Ok info1) →
  info1 = with_key info' (Some (tree_genesis_key t)) ∧ c1 = with_networks c (<[name := info1]> (networks c)) ∧ fs_wf s1.1 ∧
  (contacts_path c (tree_genesis_key t) ≠ cli_config_path c → stored c s1.1 (tree_genesis_key t) = Some t) ∧
  ∀ p, p ≠ cli_config_path c → p ≠ contacts_path c (tree_genesis_key t) → file s1.1 p = file s.1 p.
Proof.
  intros Hwf Ha. unfold add_network.
  destruct ((added_contacts cwd info ≫= _) s) as [s0 [info0|e]] eqn:Hb; [|done].
  apply io_bind_Ok in Hb as (sb & [info2 t2] & Ha2 & (s2 & u & Hw & [= <- <-])%io_bind_Ok).
  rewrite Ha in Ha2. injection Ha2 as <- <- <-.
  apply write_to_disk_Ok in Hw as (bs & Hbs & ->). fold (contacts_path c (tree_genesis_key t)).
  pose proof (added_contacts_reads cwd info s) as Hsa. rewrite Ha in Hsa. simpl in Hsa.
  unfold write_settings_to_file. simpl. case_decide; [done|]. unfold mbind, io_bind, returned. simpl.
  destruct (settings_to_string _) as [ss|]; simpl; [|done]. intros [= <- <- <-]. split; [done|]. split; [done|]. simpl.
  rewrite Hsa. split; [by do 2 apply replace_wf|]. split.
  - intros Hne. unfold stored, tree_at. rewrite !file_replace by (try apply replace_wf; done).
    rewrite decide_False, decide_True by done. simpl. by apply tree_from_to.
  - intros p Hp Hp'. rewrite !file_replace by (try apply replace_wf; done). by rewrite !decide_False.
Qed.

(** Contacts that are renewed by adding their network again are lost when the user switches to
    it: their file is a new one, so the contacts in use are the old ones, and those overwrite it. *)
Lemma renewed_contacts_are_lost {KL : KeyNamesLaws} {JL : JsonLaws} cwd c name info s sa info' renewed s1 c1 info1 old s2 :
  fs_wf s.1 → cli_config_path c ≠ default_path c → cli_config_path c ≠ contacts_path c (tree_genesis_key old) →
  in_use c s.1 = Some old → added_contacts cwd info s = (sa, Ok (info', renewed)) → tree_genesis_key renewed = tree_genesis_key old →
  add_network cwd c name info s = (s1, c1, Ok info1) → switch_to_network c1 name s1 = (s2, Ok ()) →
  stored c s1.1 (tree_genesis_key old) = Some renewed ∧
  in_use c s2.1 = Some old ∧ stored c s2.1 (tree_genesis_key old) = Some old.
Proof.
  intros Hwf Hcfg Hcfg' Hold Hadd Hkey Hnet Hsw.
  destruct (add_network_Ok _ _ _ _ _ _ _ _ _ _ _ Hwf Hadd Hnet) as (-> & -> & Hwf1 & Hst & Hf).
  rewrite Hkey in *. split; [by apply Hst|].
  assert (in_use c s1.1 = Some old) as Hold1.
  { unfold in_use, tree_at in *. rewrite Hf; [done|done|]. intros Heq. by eapply contacts_not_default. }
  destruct (switch_reads_network _ _ _ _ Hwf1 Hsw) as (i & gk & Hi & Hk & _ & _ & _ & Hu).
  simpl in Hi. rewrite lookup_insert_eq in Hi. injection Hi as <-. assert (gk = tree_genesis_key old) as ->.
  { by destruct info'; injection Hk as <-. }
  destruct (Hu old Hold1) as [Hs Hd]. by split; [apply Hd|].
Qed.

Lemma remove_quietly_run p s : remove_quietly p s = (match remove_file s.1 p with Some fs => (fs, s.2) | None => s end, Ok ()).
Proof.
  unfold remove_quietly, attempt, removes. cbn. unfold mbind, io_bind, mret, io_ret. cbn. by destruct (remove_file s.1 p).
Qed.
(** Removing a network, also one that is not known, ends the use of the contacts in use,
    whatever their network is. *)
Lemma remove_ends_use c name s s' c' r :
  fs_wf s.1 → networks c !! name = None → remove_network c name s = (s', c', r) →
  r = Ok () ∧ networks c' = networks c ∧ ∀ p, file s'.1 p = if decide (p = default_path c) then None else file s.1 p.
Proof.
  intros Hwf Hn. unfold remove_network. rewrite Hn. unfold mbind at 1, io_bind at 1. cbn.
  rewrite remove_quietly_run. destruct (remove_file s.1 (default_path c)) as [fs|] eqn:Hr; cbn; intros [= <- <- <-].
  - split; [done|]. split; [simpl; by apply delete_id|]. by apply remove_Some in Hr as [Hf _].
  - split; [done|]. split; [simpl; by apply delete_id|]. intros p. case_decide as Hp; [|done]. subst.
    unfold remove_file in Hr. unfold file. by destruct (entries s.1 !! default_path c).
Qed.

(** ** Syncing *)

(** The files of the directory have the names of their keys. *)
Definition well_named (dir : PathBuf) (fs : Fs) : Prop :=
  ∀ f t, f ≠ DEFAULT_NETWORK_CONTACTS_FILE_NAME → tree_at fs (join dir f) = Some t → debug_key (tree_genesis_key t) = f.

Lemma foldl_delete_lookup (l : list ustr) (m : Settings) n :
  foldl (λ m name, delete name m) m l !! n = if decide (n ∈ l) then None else m !! n.
Proof.
  revert m. induction l as [|a l IH]; intros m; cbn [foldl].
  - rewrite decide_False; [done|]. by intros ?%elem_of_nil.
  - rewrite IH, lookup_delete. repeat case_decide; set_solver.
Qed.

Section syncing.
Context {KL : KeyNamesLaws} {JL : JsonLaws} (dir : PathBuf).

(** What the first loop does to the disk: contacts are written, and none are lost. *)
Record synced (fs fs' : Fs) : Prop := {
  sc_wf : fs_wf fs';
  sc_named : well_named dir fs';
  sc_files p : file fs p ≠ None → file fs' p ≠ None;
  sc_trees p : tree_at fs p ≠ None → tree_at fs' p ≠ None;
  sc_default : file fs' (join dir DEFAULT_NETWORK_CONTACTS_FILE_NAME) = file fs (join dir DEFAULT_NETWORK_CONTACTS_FILE_NAME);
}.
Lemma synced_refl fs : fs_wf fs → well_named dir fs → synced fs fs.
Proof. by split. Qed.
Lemma synced_trans fs1 fs2 fs3 : synced fs1 fs2 → synced fs2 fs3 → synced fs1 fs3.
Proof. intros [] []. split; eauto. congruence. Qed.
Lemma written_synced fs t bs : fs_wf fs → well_named dir fs → tree_to_vec t = Some bs →
  synced fs (replace_file fs (join dir (debug_key (tree_genesis_key t))) bs).
Proof.
  intros Hwf Hn Hbs. assert (∀ p, tree_at (replace_file fs (join dir (debug_key (tree_genesis_key t))) bs) p =
    if decide (p = join dir (debug_key (tree_genesis_key t))) then Some t else tree_at fs p) as Ht.
  { intros p. unfold tree_at. rewrite file_replace by done. case_decide; [|done]. simpl. by apply tree_from_to. }
  split; [by apply replace_wf| | | |].
  - intros f t' Hf. rewrite Ht. case_decide as Hp; [intros [= <-]; by apply join_inj in Hp|by apply Hn].
  - intros p Hp. rewrite file_replace by done. by case_decide.
  - intros p Hp. rewrite Ht. by case_decide.
  - rewrite file_replace by done. rewrite decide_False; [done|]. intros Heq%join_inj. by eapply debug_not_default.
Qed.

Definition settled (st : Syncing) (fs : Fs) (n : ustr) : Prop :=
  n ∈ remove_list st ∨
  ∃ i k, sy_networks st !! n = Some i ∧ info_key i = Some k ∧ file fs (join dir (debug_key k)) ≠ None.
Definition checked (st : Syncing) (fs : Fs) : Prop := ∀ f b, checklist st !! f = Some b →
  f ≠ DEFAULT_NETWORK_CONTACTS_FILE_NAME ∧ file fs (join dir f) ≠ None.
(** Files are only marked for the keys of networks. *)
Definition marks (l : list (ustr * NetworkInfo)) (st st' : Syncing) : Prop :=
  ∀ f, checklist st !! f = Some false → checklist st' !! f = Some false ∨
    ∃ n i k, (n, i) ∈ l ∧ info_key i = Some k ∧ debug_key k = f.

Lemma fetch_network_Ok name i st s s' st' : fs_wf s.1 → well_named dir s.1 →
  fetch_network dir name i st s = (s', Ok st') →
  synced s.1 s'.1 ∧ checklist st' = checklist st ∧ remove_list st ⊆ remove_list st' ∧ settled st' s'.1 name ∧
  ∀ n, n ≠ name → sy_networks st' !! n = sy_networks st !! n.
Proof.
  intros Hwf Hn. unfold fetch_network. intros (s1 & found & Hf & Hr)%io_bind_Ok.
  assert (s1.1 = s.1) as Hs1.
  { destruct i as [p k|u k].
    - unfold attempt, retrieve_local_network_contacts in Hf. rewrite from_disk_tree in Hf. by injection Hf as <- _.
    - apply io_bind_Ok in Hf as (s2 & u' & [= <- _] & Ha). unfold attempt in Ha.
      pose proof (remote_reads u' s) as Hr'. destruct (retrieve_remote_network_contacts u' s). by injection Ha as <- _. }
  destruct found as [t|e].
  - apply io_bind_Ok in Hr as (s2 & u & Hw & [= <- <-]).
    apply write_to_disk_Ok in Hw as (bs & Hbs & ->). simpl. rewrite Hs1.
    split; [by apply written_synced|]. split; [done|]. split; [done|]. split.
    + right. exists (with_key i (Some (tree_genesis_key t))), (tree_genesis_key t). simpl. rewrite lookup_insert_eq.
      split; [done|]. split; [by destruct i|]. rewrite file_replace by done. by rewrite decide_True.
    + intros n Hne. by rewrite lookup_insert_ne.
  - injection Hr as <- <-. rewrite Hs1. simpl. split; [by apply synced_refl|]. split; [done|]. split; [set_solver|].
    split; [|done]. left. simpl. set_solver.
Qed.
Lemma sync_network_Ok name i st s s' st' : fs_wf s.1 → well_named dir s.1 → checked st s.1 → sy_networks st !! name = Some i →
  sync_network dir name i st s = (s', Ok st') →
  synced s.1 s'.1 ∧ checked st' s'.1 ∧ marks [(name, i)] st st' ∧ remove_list st ⊆ remove_list st' ∧ settled st' s'.1 name ∧
  ∀ n, n ≠ name → sy_networks st' !! n = sy_networks st !! n.
Proof.
  intros Hwf Hn Hc Hi. unfold sync_network.
  assert (fetch_network dir name i st s = (s', Ok st') →
    synced s.1 s'.1 ∧ checked st' s'.1 ∧ marks [(name, i)] st st' ∧ remove_list st ⊆ remove_list st' ∧ settled st' s'.1 name ∧
    ∀ n, n ≠ name → sy_networks st' !! n = sy_networks st !! n) as Hfetch.
  { intros (Hs & Hch & Hr & Hset & Hne)%fetch_network_Ok; [|done|done]. split; [done|]. split; [|split; [|done]].
    - intros f b. rewrite Hch. intros [Hd Hf]%Hc. split; [done|]. by eapply sc_files.
    - intros f. rewrite Hch. auto. }
  destruct (info_key i) as [k|] eqn:Hk; [|done]. destruct (checklist st !! debug_key k) as [b|] eqn:Hb; [|done].
  intros [= <- <-]. split; [by apply synced_refl|]. split; [|split; [|split; [done|split; [|done]]]].
  - intros f b'. simpl. rewrite lookup_insert. case_decide as Hf; [subst; intros _; by eapply Hc|apply Hc].
  - intros f. simpl. rewrite lookup_insert. case_decide as Hf; [|auto]. intros _. right. exists name, i, k. split; [by left|done].
  - right. exists i, k. split; [done|]. split; [done|]. apply (Hc _ _ Hb).
Qed.

Lemma settled_mono st st' fs fs' n :
  synced fs fs' → remove_list st ⊆ remove_list st' → sy_networks st' !! n = sy_networks st !! n → settled st fs n → settled st' fs' n.
Proof.
  intros Hs Hr Hn [Hin|(i & k & Hi & Hk & Hf)]; [left; set_solver|]. right. exists i, k. rewrite Hn. split; [done|].
  split; [done|]. by apply (sc_files _ _ Hs).
Qed.
Lemma sync_networks_Ok l st s s' st' u : NoDup l.*1 → (∀ n i, (n, i) ∈ l → sy_networks st !! n = Some i) →
  fs_wf s.1 → well_named dir s.1 → checked st s.1 → sync_networks dir l st s = (s', st', Ok u) →
  synced s.1 s'.1 ∧ checked st' s'.1 ∧ marks l st st' ∧ remove_list st ⊆ remove_list st' ∧
  (∀ n, n ∈ l.*1 → settled st' s'.1 n) ∧ ∀ n, n ∉ l.*1 → sy_networks st' !! n = sy_networks st !! n.
Proof.
  revert st s. induction l as [|[n i] l IH]; intros st s Hnd Hl Hwf Hn Hc; cbn [sync_networks].
  - intros [= <- <- _]. split; [by apply synced_refl|]. split; [done|]. split; [by intros f ?; left|]. split; [done|].
    split; [by intros m ?%elem_of_nil|done].
  - apply NoDup_cons in Hnd as [Hni Hnd]. destruct (sync_network dir n i st s) as [s1 [st1|e]] eqn:H1; [|done].
    apply sync_network_Ok in H1 as (Hs & Hc1 & Hm & Hr & Hset & Hne); [|done..|apply Hl; by left].
    intros Hrest. apply IH in Hrest as (Hs' & Hc' & Hm' & Hr' & Hset' & Hne'); [|done| |by apply Hs|by apply Hs|done].
    2:{ intros m j Hin. rewrite Hne; [apply Hl; by right|]. intros ->. apply Hni. apply list_elem_of_fmap. by exists (n, j). }
    split; [by eapply synced_trans|]. split; [done|]. split; [|split; [set_solver|split]].
    + intros f Hf. destruct (Hm f Hf) as [Hf1|(n0 & i0 & k & Hin & Hk)].
      * destruct (Hm' f Hf1) as [?|(n0 & i0 & k & Hin & Hk)]; [by left|]. right. exists n0, i0, k. split; [by right|done].
      * right. exists n0, i0, k. split; [|done]. apply list_elem_of_singleton in Hin. rewrite Hin. by left.
    + intros m [->|Hm0]%elem_of_cons; [|by apply Hset']. eapply settled_mono; [exact Hs'|exact Hr'| |exact Hset].
      by apply Hne'.
    + intros m Hm0. rewrite fmap_cons in Hm0. rewrite Hne' by set_solver. apply Hne. set_solver.
Qed.
Lemma add_unaccounted_run l settings s : well_named dir s.1 → NoDup l.*1 →
  (∀ f b, (f, b) ∈ l → f ≠ DEFAULT_NETWORK_CONTACTS_FILE_NAME) →
  ∃ m, add_unaccounted dir l settings s = (s, Ok m) ∧
    ∀ n, m !! n = match (if decide ((n, false) ∈ l) then tree_at s.1 (join dir n) else None) with
      | Some t => Some (Local (join dir n) (Some (tree_genesis_key t)))
      | None => settings !! n
      end.
Proof.
  intros Hn. revert settings. induction l as [|[f b] l IH]; intros settings Hnd Hd.
  - exists settings. split; [done|]. intros n. rewrite decide_False; [done|]. by intros ?%elem_of_nil.
  - apply NoDup_cons in Hnd as [Hni Hnd].
    assert (∀ f b, (f, b) ∈ l → f ≠ DEFAULT_NETWORK_CONTACTS_FILE_NAME) as Hd' by (intros f' b' ?; apply (Hd f' b'); by right).
    assert (∀ b', (f, b') ∉ l) as Hfl by (intros b' Hin; apply Hni, list_elem_of_fmap; by exists (f, b')).
    destruct b; cbn [add_unaccounted].
    + destruct (IH settings Hnd Hd') as (m & Hm & Hl). exists m. split; [done|]. intros n. rewrite Hl.
      repeat case_decide; set_solver.
    + unfold mbind, io_bind, attempt, retrieve_local_network_contacts. rewrite from_disk_tree.
      destruct (tree_at s.1 (join dir f)) as [t|] eqn:Ht.
      * rewrite (Hn f t (Hd f false ltac:(by left)) Ht).
        destruct (IH (<[f := Local (join dir f) (Some (tree_genesis_key t))]> settings) Hnd Hd') as (m & Hm & Hl).
        exists m. split; [exact Hm|]. intros n. rewrite Hl. destruct (decide (n = f)) as [->|Hne].
        -- rewrite decide_False, lookup_insert_eq by apply Hfl. rewrite decide_True by (by left). by rewrite Ht.
        -- rewrite lookup_insert_ne by done. repeat case_decide; set_solver.
      * destruct (IH settings Hnd Hd') as (m & Hm & Hl). exists m. split; [exact Hm|]. intros n. rewrite Hl.
        destruct (decide (n = f)) as [->|Hne]; [|repeat case_decide; set_solver].
        rewrite decide_False by apply Hfl. rewrite decide_True by (by left). by rewrite Ht.
Qed.

Lemma elem_of_read_dir fs f : f ∈ read_dir fs dir ↔ file fs (join dir f) ≠ None.
Proof.
  unfold read_dir, file. rewrite list_elem_of_omap. split.
  - intros ([p i] & Hp%elem_of_map_to_list & Hf). simpl in Hf. case_decide as Hpop; [|done].
    apply last_Some in Hf as [cs Hcs]. assert (p = join dir f) as <-; [|by rewrite Hp].
    destruct p as [a cs']. simpl in Hcs. subst. unfold pop, join. simpl. by rewrite removelast_last.
  - intros Hf. destruct (entries fs !! join dir f) as [i|] eqn:Hi; [|done]. exists (join dir f, i).
    split; [by apply elem_of_map_to_list|]. unfold pop, join. simpl. rewrite removelast_last, decide_True by (by destruct dir).
    by rewrite last_snoc.
Qed.
Lemma checklist_lookup fs f b : dir_files_checklist fs dir !! f = Some b ↔
  b = false ∧ f ≠ DEFAULT_NETWORK_CONTACTS_FILE_NAME ∧ file fs (join dir f) ≠ None.
Proof.
  unfold dir_files_checklist. set (l := filter _ _).
  assert (f ∈ l ↔ f ≠ DEFAULT_NETWORK_CONTACTS_FILE_NAME ∧ file fs (join dir f) ≠ None) as Hl.
  { unfold l. by rewrite list_elem_of_filter, elem_of_read_dir. }
  rewrite <-Hl. clear Hl. induction l as [|a l IH]; simpl.
  - rewrite lookup_empty. split; [done|]. by intros [_ ?%elem_of_nil].
  - rewrite lookup_insert, elem_of_cons. case_decide as Ha; [subst; naive_solver|]. rewrite IH. naive_solver.
Qed.
End syncing.

(** The settings after both loops: every network has a key and a file. *)
Lemma settled_keyed (dir : PathBuf) (nets : Settings) (st : Syncing) (fs : Fs) (m : Settings) :
  checked dir st fs → well_named dir fs → (∀ n, n ∈ (bmap_iter nets).*1 → settled dir st fs n) →
  (∀ n, n ∉ (bmap_iter nets).*1 → sy_networks st !! n = nets !! n) →
  (∀ n, m !! n = match (if decide ((n, false) ∈ bmap_iter (checklist st)) then tree_at fs (join dir n) else None) with
     | Some t => Some (Local (join dir n) (Some (tree_genesis_key t)))
     | None => foldl (λ m name, delete name m) (sy_networks st) (remove_list st) !! n end) →
  ∀ n i, m !! n = Some i → ∃ k, info_key i = Some k ∧ file fs (join dir (debug_key k)) ≠ None.
Proof.
  intros Hc Hn Hset Hne Hm n i. rewrite Hm. case_decide as Hin; [destruct (tree_at fs (join dir n)) as [t|] eqn:Ht|].
  1: { intros [= <-]. exists (tree_genesis_key t). split; [done|]. apply elem_of_bmap_iter, Hc in Hin as [Hdf Hf].
       by rewrite (Hn n t Hdf Ht). }
  all: rewrite foldl_delete_lookup; case_decide as Hr; [done|]; intros Hi; destruct (decide (n ∈ (bmap_iter nets).*1)) as [Hn0|Hn0].
  1,3: destruct (Hset n Hn0) as [?|(i' & k & Hi' & Hk & Hf)]; [done|]; simplify_eq; eauto.
  all: exfalso; apply Hn0; rewrite Hne in Hi by done; apply list_elem_of_fmap; exists (n, i); split; [done|by apply elem_of_bmap_iter].
Qed.

(** C20: after a sync every network of the settings has a key and a file in the directory, the
    files of which no network knew have become networks, and no file is lost. *)
Theorem sync_settles {KL : KeyNamesLaws} {JL : JsonLaws} c s s' c' :
  let dir := network_contacts_dir c in
  fs_wf s.1 → well_named dir s.1 → (∀ f, cli_config_path c ≠ join dir f) → sync c s = (s', c', Ok ()) →
  (∀ n i, networks c' !! n = Some i → ∃ k, info_key i = Some k ∧ file s'.1 (contacts_path c k) ≠ None) ∧
  (∀ f, f ≠ DEFAULT_NETWORK_CONTACTS_FILE_NAME → tree_at s.1 (join dir f) ≠ None →
    (∃ n i k, networks c !! n = Some i ∧ info_key i = Some k ∧ debug_key k = f) ∨
    ∃ k, networks c' !! f = Some (Local (join dir f) (Some k)) ∧ debug_key k = f) ∧
  (∀ p, file s.1 p ≠ None → file s'.1 p ≠ None) ∧ file s'.1 (default_path c) = file s.1 (default_path c).
Proof.
  intros dir Hwf Hn Hcli. unfold sync. fold dir. set (st0 := mkSyncing _ _ _).
  destruct (sync_networks dir (bmap_iter (networks c)) st0 s) as [[s1 st] [u|e]] eqn:Hl; [|done].
  apply sync_networks_Ok in Hl as (Hs & Hc & Hm & _ & Hset & Hne); try done.
  2: apply NoDup_bmap_iter.
  2: intros n i Hin%elem_of_bmap_iter; done.
  2: intros f b (_ & Hd & Hf)%checklist_lookup; done.
  set (settings := foldl _ _ _).
  assert (∀ f b, (f, b) ∈ bmap_iter (checklist st) → f ≠ DEFAULT_NETWORK_CONTACTS_FILE_NAME) as Hd.
  { intros f b Hin%elem_of_bmap_iter. by apply (Hc f b). }
  destruct (add_unaccounted_run dir (bmap_iter (checklist st)) settings s1 (sc_named _ _ _ Hs) (NoDup_bmap_iter _) Hd) as (m & -> & Hmn).
  pose proof (settled_keyed dir (networks c) st s1.1 m Hc (sc_named _ _ _ Hs) Hset Hne Hmn) as Hkeys.
  unfold write_settings_to_file. simpl. case_decide; [done|]. unfold mbind, io_bind, returned.
  destruct (settings_to_string m) as [ss|]; simpl; [|done]. intros [= <- <-]. simpl.
  assert (∀ p, file s1.1 p ≠ None → file (replace_file s1.1 (cli_config_path c) ss) p ≠ None) as Hkeep.
  { intros p Hp. rewrite file_replace by apply Hs. by case_decide. }
  split; [|split; [|split]].
  - intros n i (k & Hk & Hf)%Hkeys. exists k. split; [done|]. by apply Hkeep.
  - intros f Hf Ht.
    assert (checklist st0 !! f = Some false) as Hch.
    { apply checklist_lookup. split; [done|]. split; [done|]. unfold tree_at in Ht. by destruct (file s.1 (join dir f)). }
    destruct (Hm f Hch) as [Hfin|(n & i & k & Hin%elem_of_bmap_iter & Hk)]; [right|left; by exists n, i, k].
    apply (sc_trees _ _ _ Hs) in Ht. destruct (tree_at s1.1 (join dir f)) as [t|] eqn:Ht'; [|done].
    exists (tree_genesis_key t). rewrite Hmn, decide_True, Ht' by (by apply elem_of_bmap_iter).
    split; [done|]. by apply (sc_named _ _ _ Hs).
  - intros p Hp. by apply Hkeep, (sc_files _ _ _ Hs).
  - rewrite file_replace by apply Hs. rewrite decide_False by (intros Heq; by apply (Hcli DEFAULT_NETWORK_CONTACTS_FILE_NAME)).
    apply (sc_default _ _ _ Hs).
Qed.
End config.

Module CliConfigDemo.
Import External.Concrete Xor.ConcreteXor DagDemo TreeDemo.

Abbreviation DemoTree := (SectionTree (X := concrete_xor) unit).

(** The file of a network is [P] and its key; the only server has the contacts of key 7. *)
#[export] Instance demo_key_names : KeyNames := {| debug_key k := [80; N.of_nat k]%N |}.
#[export] Instance demo_key_names_laws : KeyNamesLaws.
Proof. by intros k. Qed.
#[export] Instance demo_http : Http := {|
  World := unit;
  http_get url w := (w, if decide (url = [1%N]) then Some (200, Some [7%Z]) else Some (404, None));
  url_parse url := if decide (length url = 1) then Some url else None;
|}.

(** The contacts that only have a genesis key. *)
Definition plain_tree (k : PK) : DemoTree := mkSectionTree ∅ (new k).
Definition is_plain (t : DemoTree) : bool :=
  match map_to_list (sections t), dag (sections_dag t), elements (dag_root (sections_dag t)),
    map_to_list (hashes (sections_dag t)) with [], [], [], [] => true | _, _, _, _ => false end.
Lemma is_plain_spec t : is_plain t = true → t = plain_tree (tree_genesis_key t).
Proof.
  destruct t as [ss [k d r h]]. unfold is_plain, plain_tree, new, tree_genesis_key. simpl.
  repeat case_match; try done. intros _.
  repeat match goal with
  | H : map_to_list _ = [] |- _ => apply map_to_list_empty_iff in H
  | H : elements _ = [] |- _ => apply elements_empty_iff, leibniz_equiv in H
  end. by subst.
Qed.

#[export] Instance demo_info_eq_dec : EqDecision (NetworkInfo (B := concrete_bls)).
Proof. solve_decision. Defined.
#[export] Instance demo_info_countable : Countable (NetworkInfo (B := concrete_bls)).
Proof.
  refine (inj_countable' (λ i, match i with Local p k => inl (p, k) | Remote u k => inr (u, k) end)
    (λ x, match x with inl (p, k) => Local p k | inr (u, k) => Remote u k end) _). by intros [].
Defined.
#[export] Instance demo_json : Json (Trigger := unit) := {|
  tree_to_vec t := if is_plain t then Some [Z.of_nat (tree_genesis_key t)] else None;
  tree_from_slice bs := match bs with [k] => Some (plain_tree (Z.to_nat k)) | _ => None end;
  settings_to_string s := Some [Z.pos (encode s)];
  settings_from_slice bs := match bs with [z] => decode (Z.to_pos z) | _ => None end;
  Owner := unit;
  owner_from_hex _ := Some ();
|}.

#[export] Instance demo_json_laws : JsonLaws (Trigger := unit).
Proof.
  split.
  - intros t bs. simpl. destruct (is_plain t) eqn:Hp; [|done]. intros [= <-]. rewrite Nat2Z.id. by rewrite <-is_plain_spec.
  - intros s bs [= <-]. simpl. apply decode_encode.
Qed.

Definition at_dir (l : list ustr) : PathBuf := mkPath true l.
Definition contacts_dir : PathBuf := at_dir [[2%N]].
Definition demo_config (l : list (ustr * NetworkInfo (B := concrete_bls))) : Config (Trigger := unit) :=
  mkConfig (list_to_map l) (at_dir [[3%N]; [4%N]]) contacts_dir None.
(** Files with their contents, each with an inode of its own. *)
Definition demo_fs (l : list (PathBuf * bytes)) : Fs :=
  mkFs (list_to_map (zip l.*1 (seq 0 (length l)))) (λ i, default [] (l.*2 !! i)) (length l).

(** A network from a server, one of which nothing is left and a file of which the settings do
    not know. *)
Definition sync_config : Config :=
  demo_config [([97%N], Remote [1%N] None); ([98%N], Local (at_dir [[9%N]]) (Some (pk 5)))].
Definition sync_fs : Fs := demo_fs [(join contacts_dir [80; 2]%N, [2%Z])].
Definition demo_synced := sync sync_config (sync_fs, ()).
Lemma demo_sync_runs : demo_synced.2 = Ok () ∧
  (λ n, networks demo_synced.1.2 !! n) <$> [[97]; [98]; [80; 2]]%N =
    [Some (Remote [1%N] (Some (pk 7))); None; Some (Local (join contacts_dir [80; 2]%N) (Some (pk 2)))].
Proof. split; vm_compute; reflexivity. Qed.

Lemma demo_fs_wf l : fs_wf (demo_fs l).
Proof.
  intros p i Hi. simpl in *. apply elem_of_list_to_map_2, list_elem_of_lookup in Hi as [j Hj].
  apply lookup_zip_with_Some in Hj as (x & y & [= _ ->] & _ & Hy). apply lookup_seq in Hy. lia.
Qed.
Lemma demo_well_named : well_named (Trigger := unit) contacts_dir sync_fs.
Proof.
  intros f t _. unfold tree_at, file, sync_fs, demo_fs. simpl. rewrite lookup_insert.
  case_decide as Hf; [|by rewrite lookup_empty]. intros [= <-]. by apply join_inj in Hf.
Qed.

Lemma sync_settles_witness :
  ∃ s' c', demo_synced = (s', c', Ok ()) ∧ file s'.1 (contacts_path sync_config (pk 7)) ≠ None ∧
    (∀ p, file sync_fs p ≠ None → file s'.1 p ≠ None).
Proof.
  destruct demo_sync_runs as [Hr Hn]. destruct demo_synced as [[s' c'] r] eqn:Hs. simpl in Hr, Hn. subst r.
  injection Hn as Ha _ _.
  destruct (sync_settles (W := demo_http) sync_config (sync_fs, ()) s' c' (demo_fs_wf _) demo_well_named) as (Hkeys & _ & Hkept & _).
  - intros f Heq. vm_compute in Heq. discriminate.
  - exact Hs.
  - exists s', c'. split; [reflexivity|]. split; [|exact Hkept].
    destruct (Hkeys _ _ Ha) as (k & [= <-] & Hfile). exact Hfile.
Defined.

(** The contacts of one network are stored, those of another are in use. *)
Definition switch_config : Config := demo_config [([97%N], Local (at_dir [[9%N]]) (Some (pk 3)))].
Definition switch_fs : Fs :=
  demo_fs [(join contacts_dir [80; 3]%N, [3%Z]); (default_path switch_config, [5%Z])].

Lemma switch_fs_wf : fs_wf switch_fs.
Proof. apply demo_fs_wf. Qed.

Lemma switch_reads_network_witness :
  ∃ s', switch_to_network switch_config [97%N] (switch_fs, ()) = (s', Ok ()) ∧
    in_use switch_config s'.1 = Some (plain_tree (pk 3)) ∧ stored switch_config s'.1 (pk 5) = Some (plain_tree (pk 5)).
Proof.
  assert ((switch_to_network (W := demo_http) switch_config [97%N] (switch_fs, ())).2 = Ok ()) as Hr by (vm_compute; reflexivity).
  destruct (switch_to_network (W := demo_http) switch_config [97%N] (switch_fs, ())) as [s' r] eqn:Hs. simpl in Hr. subst r.
  destruct (switch_reads_network (W := demo_http) switch_config [97%N] (switch_fs, ()) s' switch_fs_wf Hs)
    as (i & gk & Hi & Hk & _ & _ & Hnew & Hold).
  exists s'. split; [reflexivity|].
  assert (in_use switch_config switch_fs = Some (plain_tree (pk 5))) as Hu by reflexivity.
  assert (gk = pk 3) as ->.
  { vm_compute in Hi. injection Hi as <-. by injection Hk as <-. }
  split.
  - unfold in_use, tree_at. rewrite Hnew; [reflexivity|]. simpl. rewrite Hu. intros t [= <-]. discriminate.
  - by apply (Hold (plain_tree (pk 5))).
Defined.
End CliConfigDemo.
